(** * Concurrency demos: threads, locks, events and pools

    Shallow embedding of the scripts of the repository
    (Corredores.py, Hospital.py, Simulador_descargas_concurrentes.py and the
    three small demos) as programs of a small interleaving machine, and
    proofs of their properties over every schedule.

    Modelling choices, shared by all programs:
    - a thread (or process, or asyncio task) is a list of instructions; every
      instruction is one atomic step, and the scheduler picks the thread
      that steps next ([decision]);
    - [with lock: body] is [Acquire lock], the body, [Release lock]; an
      exception raised in the body releases the lock before it propagates
      ([fallar_en]);
    - [d[k] += v] is a load followed by a store, so that two unprotected
      updates could interleave;
    - wall-clock time, floating point and random durations are not
      modelled: [time.sleep] is a scheduling point. *)

From Stdlib Require Import ZArith Lia.
From stdpp Require Import base option list gmap strings numbers.

(** ** The interleaving machine *)

Module Maquina.

Abbreviation tid := nat.
Abbreviation cerrojo := string.

(** Instructions of a thread.  [Dato a] is an action on the program's own
    data (globals, console, futures); the others are the primitives of
    [threading] and the built-in [input]. *)
Inductive instr (A : Type) : Type :=
| Dato (a : A)
| Sleep
| Acquire (l : cerrojo)
| Release (l : cerrojo)
| Start (u : tid)
| Join (u : tid)
| Input
| Raise (e : string).

Arguments Dato {A} a.
Arguments Sleep {A}.
Arguments Acquire {A} l.
Arguments Release {A} l.
Arguments Start {A} u.
Arguments Join {A} u.
Arguments Input {A}.
Arguments Raise {A} e.

(** A thread object: whether [start()] was called, the code still to run,
    and the exception that ended it, if any. *)
Record hilo (A : Type) : Type := Hilo {
  iniciado : bool;
  codigo : list (instr A);
  error : option string
}.

Arguments Hilo {A} _ _ _.
Arguments iniciado {A} _.
Arguments codigo {A} _.
Arguments error {A} _.

(** The whole process: thread table (thread 0 is the main thread), lock
    owners, the lines still unread on standard input, program data. *)
Record mundo (A D : Type) : Type := Mundo {
  hilos : list (hilo A);
  cerrojos : gmap cerrojo tid;
  stdin : list string;
  datos : D
}.

Arguments Mundo {A D} _ _ _ _.
Arguments hilos {A D} _.
Arguments cerrojos {A D} _.
Arguments stdin {A D} _.
Arguments datos {A D} _.

(** One scheduling decision: the thread that steps, and a number that
    resolves the choice of a non-deterministic library call. *)
Record decision : Type := Decide { quien : tid; elige : nat }.

Definition vacio {A} (c : list (instr A)) : bool :=
  match c with [] => true | _ :: _ => false end.

Definition terminado {A} (h : hilo A) : bool := iniciado h && vacio (codigo h).

Definition sigue {A} (h : hilo A) (r : list (instr A)) : hilo A :=
  Hilo (iniciado h) r (error h).

Definition falla_con {A} (h : hilo A) (e : string) : hilo A :=
  Hilo (iniciado h) [] (Some e).

Definition arranca {A} (h : hilo A) : hilo A := Hilo true (codigo h) (error h).

(** [with l: cuerpo] *)
Definition with_ {A} (l : cerrojo) (cuerpo : list (instr A)) : list (instr A) :=
  Acquire l :: cuerpo ++ [Release l].

(** An exception [e] raised by the [k]-th instruction of [c]: the [with]
    blocks entered and not yet left ([held]) release their lock, then the
    exception propagates. *)
Fixpoint fallar_en {A} (k : nat) (e : string) (held : list cerrojo)
    (c : list (instr A)) {struct c} : list (instr A) :=
  match c with
  | [] => []
  | i :: r =>
      match k with
      | 0 => map Release held ++ [Raise e]
      | S k' =>
          i :: fallar_en k' e
                 (match i with
                  | Acquire l => l :: held
                  | Release l => tail held
                  | _ => held
                  end) r
      end
  end.

Section Semantica.
Context {A D : Type}.

(** Semantics of the data actions: [None] when the action blocks;
    otherwise the new data and code that the thread runs next (a pool
    worker that takes a work item). *)
Variable ejecutar : A → tid → nat → D → option (D * list (instr A)).

Definition pon_hilo (t : tid) (h : hilo A) (m : mundo A D) : mundo A D :=
  Mundo (<[t := h]> (hilos m)) (cerrojos m) (stdin m) (datos m).

(** One step of thread [t].  [None]: the thread cannot step (not started,
    finished, or blocked).  The run-time errors of [threading] are
    exceptions of the stepping thread. *)
Definition paso (t : tid) (c : nat) (m : mundo A D) : option (mundo A D) :=
  h ← hilos m !! t;
  if iniciado h then
    match codigo h with
    | [] => None
    | Dato a :: r =>
        '(d, extra) ← ejecutar a t c (datos m);
        Some (Mundo (<[t := sigue h (extra ++ r)]> (hilos m))
                    (cerrojos m) (stdin m) d)
    | Sleep :: r => Some (pon_hilo t (sigue h r) m)
    | Acquire l :: r =>
        match cerrojos m !! l with
        | None =>
            Some (Mundo (<[t := sigue h r]> (hilos m))
                        (<[l := t]> (cerrojos m)) (stdin m) (datos m))
        | Some _ => None
        end
    | Release l :: r =>
        match cerrojos m !! l with
        | Some _ =>
            Some (Mundo (<[t := sigue h r]> (hilos m))
                        (delete l (cerrojos m)) (stdin m) (datos m))
        | None => Some (pon_hilo t (falla_con h "RuntimeError") m)
        end
    | Start u :: r =>
        hu ← hilos m !! u;
        if iniciado hu then Some (pon_hilo t (falla_con h "RuntimeError") m)
        else Some (pon_hilo t (sigue h r) (pon_hilo u (arranca hu) m))
    | Join u :: r =>
        hu ← hilos m !! u;
        if iniciado hu then
          if terminado hu then Some (pon_hilo t (sigue h r) m) else None
        else Some (pon_hilo t (falla_con h "RuntimeError") m)
    | Input :: r =>
        match stdin m with
        | _ :: s =>
            Some (Mundo (<[t := sigue h r]> (hilos m)) (cerrojos m) s (datos m))
        | [] => Some (pon_hilo t (falla_con h "EOFError") m)
        end
    | Raise e :: _ => Some (pon_hilo t (falla_con h e) m)
    end
  else None.

(** A run: the decisions are taken one after the other; [None] when a
    decision names a thread that cannot step. *)
Fixpoint ejecutar_plan (ds : list decision) (m : mundo A D) : option (mundo A D) :=
  match ds with
  | [] => Some m
  | d :: r => m' ← paso (quien d) (elige d) m; ejecutar_plan r m'
  end.

(** The states a run goes through, the first one included. *)
Fixpoint recorrido (ds : list decision) (m : mundo A D) : list (mundo A D) :=
  m :: match ds with
       | [] => []
       | d :: r =>
           match paso (quien d) (elige d) m with
           | Some m' => recorrido r m'
           | None => []
           end
       end.

(** A scheduler for examples: the first thread below [n] that can step,
    with the first choice below [k] that lets it. *)
Fixpoint primera_eleccion (t : tid) (k : nat) (m : mundo A D) : option decision :=
  match k with
  | 0 => None
  | S k' =>
      match primera_eleccion t k' m with
      | Some d => Some d
      | None => if paso t k' m is Some _ then Some (Decide t k') else None
      end
  end.

Fixpoint primero_listo (n k : nat) (m : mundo A D) : option decision :=
  match n with
  | 0 => None
  | S n' =>
      match primero_listo n' k m with
      | Some d => Some d
      | None => primera_eleccion n' k m
      end
  end.

(** The same, preferring the highest thread: workers before the main
    thread. *)
Fixpoint ultimo_listo (n k : nat) (m : mundo A D) : option decision :=
  match n with
  | 0 => None
  | S n' =>
      match primera_eleccion n' k m with
      | Some d => Some d
      | None => ultimo_listo n' k m
      end
  end.

Fixpoint planificar (sel : mundo A D → option decision) (fuel : nat)
    (m : mundo A D) : list decision :=
  match fuel with
  | 0 => []
  | S f =>
      match sel m with
      | Some d =>
          match paso (quien d) (elige d) m with
          | Some m' => d :: planificar sel f m'
          | None => []
          end
      | None => []
      end
  end.

(** The main thread has returned or died. *)
Definition fin_principal (m : mundo A D) : bool :=
  match hilos m !! 0 with Some h => terminado h | None => false end.

(** Exit status of the process once the main thread is over: 1 when an
    exception ended it, 0 otherwise. *)
Definition codigo_salida (m : mundo A D) : option nat :=
  h ← hilos m !! 0;
  if terminado h then Some (if error h is Some _ then 1 else 0) else None.

(** No thread is between [start()] and its end. *)
Definition quieto (m : mundo A D) : bool :=
  forallb (λ h, negb (iniciado h) || vacio (codigo h)) (hilos m).

End Semantica.

End Maquina.

(** ** Simulador_descargas_concurrentes.py *)

Module Simulador.
Import Maquina.

Record archivo : Type := Archivo { nombre : string; tamano_mb : Z }.

Definition ARCHIVOS : list archivo :=
  [ Archivo "video_4K.mp4" 850;
    Archivo "dataset_ml.zip" 420;
    Archivo "backup_fotos.tar" 310;
    Archivo "musica_album.zip" 180;
    Archivo "documento_pdf.pdf" 45;
    Archivo "software_v2.exe" 220 ].

Definition print_lock : cerrojo := "print_lock".
Definition stats_lock : cerrojo := "stats_lock".
Definition resultados_lock : cerrojo := "resultados_lock".

(** The ANSI colour numbers of COLORES. *)
Definition COLORES : list nat := [94; 92; 93; 95; 96; 91].

Definition _color_hilo (hilo_id : nat) : nat :=
  nth (hilo_id mod length COLORES) COLORES 0.

Definition pasos : nat := 20.
Definition max_workers : nat := 3.

(** estadisticas = {"total_mb": 0, "archivos_completados": 0}: a dict with
    two fixed keys. *)
Record estadisticas_t : Type := Estadisticas {
  total_mb : Z;
  archivos_completados : Z
}.

(** The two keys of the dict. *)
Inductive clave : Type := TotalMb | ArchivosCompletados.

Definition est_get (k : clave) (e : estadisticas_t) : Z :=
  match k with
  | TotalMb => total_mb e
  | ArchivosCompletados => archivos_completados e
  end.

Definition est_set (k : clave) (v : Z) (e : estadisticas_t) : estadisticas_t :=
  match k with
  | TotalMb => Estadisticas v (archivos_completados e)
  | ArchivosCompletados => Estadisticas (total_mb e) v
  end.

(** The dict returned by descargar_archivo; its "tiempo" entry is a
    wall-clock float and is left out. *)
Record resultado : Type := Resultado { r_nombre : string; r_tamano : Z }.

Definition resultado_de (a : archivo) : resultado :=
  Resultado (nombre a) (tamano_mb a).

(** What the console shows.  The progress line records the step; its
    percentage, bar and speed are floating-point functions of the step and
    of the clock.  The name of the running thread, which the lines of
    descargar_archivo also show, is left out. *)
Inductive linea : Type :=
| LTexto (s : string)
| LRegla
| LInicio (color : nat) (nombre : string) (tam : Z)
| LProgreso (color : nat) (nombre : string) (paso : nat)
| LCompleto (color : nat) (nombre : string)
| LResumen (modo : string) (n : nat) (total : Z).

(** f"  Error descargando {archivo['nombre']}: {e}" *)
Definition texto_error (nombre e : string) : string :=
  "  Error descargando " +:+ nombre +:+ ": " +:+ e.

(** A finished future holds a result or an exception. *)
Inductive futuro : Type :=
| Hecho (r : resultado)
| Excepcion (e : string).

Record globales : Type := Globales {
  estadisticas : estadisticas_t;
  resultados : list resultado;
  consola : list linea;
  operando : gmap tid Z;      (* left operand loaded by a thread's [+=] *)
  cola : list nat;            (* work queue of the executor *)
  listos : list (nat * futuro); (* futures done, not yet yielded by as_completed *)
  cerrado : bool              (* the executor was shut down *)
}.

Inductive accion : Type :=
| Print (l : linea)
| Leer (k : clave)             (* [estadisticas[k] += v], the load *)
| Sumar (k : clave) (v : Z)    (* [estadisticas[k] += v], the store *)
| Reiniciar (k : clave)        (* [estadisticas[k] = 0] *)
| NuevaLista
| Anexar (r : resultado)
| Resumen (modo : string)
| Submit (i : nat)
| TomarTrabajo
| SetResult (i : nat) (r : resultado)
| SetException (i : nat) (e : string)
| SiguienteFuturo
| Shutdown.

Definition codigo_t : Type := list (instr accion).

#[export] Instance clave_eq_dec : EqDecision clave.
Proof. solve_decision. Defined.

#[export] Instance resultado_eq_dec : EqDecision resultado.
Proof. solve_decision. Defined.

#[export] Instance futuro_eq_dec : EqDecision futuro.
Proof. solve_decision. Defined.

#[export] Instance linea_eq_dec : EqDecision linea.
Proof. solve_decision. Defined.

Definition con_estadisticas (e : estadisticas_t) (d : globales) : globales :=
  Globales e (resultados d) (consola d) (operando d) (cola d) (listos d) (cerrado d).

Definition con_resultados (r : list resultado) (d : globales) : globales :=
  Globales (estadisticas d) r (consola d) (operando d) (cola d) (listos d) (cerrado d).

Definition con_consola (c : list linea) (d : globales) : globales :=
  Globales (estadisticas d) (resultados d) c (operando d) (cola d) (listos d) (cerrado d).

Definition con_operando (o : gmap tid Z) (d : globales) : globales :=
  Globales (estadisticas d) (resultados d) (consola d) o (cola d) (listos d) (cerrado d).

Definition con_cola (q : list nat) (d : globales) : globales :=
  Globales (estadisticas d) (resultados d) (consola d) (operando d) q (listos d) (cerrado d).

Definition con_listos (l : list (nat * futuro)) (d : globales) : globales :=
  Globales (estadisticas d) (resultados d) (consola d) (operando d) (cola d) l (cerrado d).

Definition con_cerrado (b : bool) (d : globales) : globales :=
  Globales (estadisticas d) (resultados d) (consola d) (operando d) (cola d) (listos d) b.

Definition P (l : linea) : instr accion := Dato (Print l).

(** descargar_archivo(archivo, hilo_id) *)
Definition descargar_archivo (a : archivo) (hilo_id : nat) : codigo_t :=
  with_ print_lock [P (LInicio (_color_hilo hilo_id) (nombre a) (tamano_mb a))]
  ++ flat_map
       (λ paso, Sleep :: with_ print_lock
                  [P (LProgreso (_color_hilo hilo_id) (nombre a) paso)])
       (seq 1 pasos)
  ++ with_ stats_lock
       [Dato (Leer TotalMb); Dato (Sumar TotalMb (tamano_mb a));
        Dato (Leer ArchivosCompletados); Dato (Sumar ArchivosCompletados 1)]
  ++ with_ print_lock [P (LCompleto (_color_hilo hilo_id) (nombre a))].

(** sum(r["tamaño"] for r in resultados) *)
Definition suma_tamanos (rs : list resultado) : Z :=
  foldr (λ r s, (r_tamano r + s)%Z) 0%Z rs.

(** What a work item of the executor does with the call it wraps: the
    result, or the exception, goes into the future. *)
Fixpoint atrapar (i : nat) (r : resultado) (c : codigo_t) : codigo_t :=
  match c with
  | [] => [Dato (SetResult i r)]
  | Raise e :: _ => [Dato (SetException i e)]
  | x :: c' => x :: atrapar i r c'
  end.

Section ConFallos.

(** Simulated failures: [falla i = Some (k, e)] makes the call of
    descargar_archivo for task [i] raise [e] at its [k]-th instruction.
    The source as written is [sin_fallos]. *)
Variable falla : nat → option (nat * string).

Definition llamar (i : nat) (a : archivo) : codigo_t :=
  match falla i with
  | None => descargar_archivo a i
  | Some (k, e) => fallar_en k e [] (descargar_archivo a i)
  end.

Definition trabajo (i : nat) (a : archivo) : codigo_t :=
  atrapar i (resultado_de a) (llamar i a).

Definition ejecutar (x : accion) (t : tid) (c : nat) (d : globales)
    : option (globales * codigo_t) :=
  match x with
  | Print l => Some (con_consola (consola d ++ [l]) d, [])
  | Leer k =>
      Some (con_operando (<[t := est_get k (estadisticas d)]> (operando d)) d, [])
  | Sumar k v =>
      Some (con_estadisticas
              (est_set k (default 0%Z (operando d !! t) + v) (estadisticas d)) d, [])
  | Reiniciar k => Some (con_estadisticas (est_set k 0 (estadisticas d)) d, [])
  | NuevaLista => Some (con_resultados [] d, [])
  | Anexar r => Some (con_resultados (resultados d ++ [r]) d, [])
  | Resumen modo =>
      Some (con_consola
              (consola d ++ [LResumen modo (length (resultados d))
                                      (suma_tamanos (resultados d))]) d, [])
  | Submit i => Some (con_cola (cola d ++ [i]) d, [])
  | TomarTrabajo =>
      match cola d with
      | i :: q =>
          a ← ARCHIVOS !! i;
          Some (con_cola q d, trabajo i a ++ [Dato TomarTrabajo])
      | [] => if cerrado d then Some (d, []) else None
      end
  | SetResult i r => Some (con_listos (listos d ++ [(i, Hecho r)]) d, [])
  | SetException i e => Some (con_listos (listos d ++ [(i, Excepcion e)]) d, [])
  | SiguienteFuturo =>
      '(i, f) ← listos d !! c;
      a ← ARCHIVOS !! i;
      Some (match f with
            | Hecho r =>
                con_resultados (resultados d ++ [r]) (con_listos (delete c (listos d)) d)
            | Excepcion e =>
                con_consola (consola d ++ [LTexto (texto_error (nombre a) e)])
                  (con_listos (delete c (listos d)) d)
            end, [])
  | Shutdown => Some (con_cerrado true d, [])
  end.

(** The four banner prints that open a mode. *)
Definition cabecera (titulo detalle : string) : codigo_t :=
  [P LRegla; P (LTexto titulo); P (LTexto detalle); P LRegla].

Definition reinicio : codigo_t :=
  [Dato (Reiniciar TotalMb); Dato (Reiniciar ArchivosCompletados)].

Definition enumerar {X} (l : list X) : list (nat * X) := imap pair l.

(** modo_secuencial(), run by the main thread. *)
Definition modo_secuencial : codigo_t :=
  cabecera "  MODO SECUENCIAL (sin concurrencia)"
           "  Los archivos se descargan UNO A LA VEZ"
  ++ reinicio
  ++ [Dato NuevaLista]
  ++ flat_map (λ '(i, a), llamar i a ++ [Dato (Anexar (resultado_de a))])
       (enumerar ARCHIVOS)
  ++ [Dato (Resumen "SECUENCIAL")].

(** The closure tarea(archivo, idx) of modo_threads. *)
Definition tarea (a : archivo) (idx : nat) : codigo_t :=
  llamar idx a ++ with_ resultados_lock [Dato (Anexar (resultado_de a))].

(** modo_threads(); the thread of task [i] is thread [b + i]. *)
Definition modo_threads (b : tid) : codigo_t :=
  cabecera "  MODO CONCURRENTE — threading.Thread"
           "  Cada archivo se descarga en su PROPIO HILO"
  ++ reinicio
  ++ [Dato NuevaLista]
  ++ map (λ '(i, _), Start (b + i)) (enumerar ARCHIVOS)
  ++ map (λ '(i, _), Join (b + i)) (enumerar ARCHIVOS)
  ++ [Dato (Resumen "CONCURRENTE (threads)")].

(** modo_pool(); the executor's workers are threads [b], [b+1], [b+2],
    created by the first [max_workers] calls of submit; leaving the
    [with] block shuts the executor down and joins them. *)
Definition modo_pool (b : tid) : codigo_t :=
  cabecera "  MODO POOL — concurrent.futures.ThreadPoolExecutor"
           "  Pool de 3 hilos que procesan 6 archivos"
  ++ reinicio
  ++ flat_map (λ '(i, _), Dato (Submit i) ::
                 (if decide (i < max_workers) then [Start (b + i)] else []))
       (enumerar ARCHIVOS)
  ++ [Dato NuevaLista]
  ++ map (λ _, Dato SiguienteFuturo) ARCHIVOS
  ++ [Dato Shutdown]
  ++ map (λ w, Join (b + w)) (seq 0 max_workers)
  ++ [Dato (Resumen "POOL (3 workers)")].

Definition mostrar_comparacion : codigo_t :=
  [P LRegla; P (LTexto "  COMPARACION DE RENDIMIENTO"); P LRegla;
   P (LTexto "Secuencial"); P (LTexto "Threads paralelos");
   P (LTexto "Pool (3 workers)");
   P (LTexto ""); P (LTexto "  Conceptos demostrados:");
   P (LTexto "   threading.Thread"); P (LTexto "   threading.Lock");
   P (LTexto "   ThreadPoolExecutor"); P (LTexto "   concurrent.futures");
   P (LTexto "   thread.join()"); P (LTexto "")].

(** main(): thread-mode workers are threads 1..6, pool workers 7..9. *)
Definition main : codigo_t :=
  [P (LTexto ""); P LRegla; P (LTexto "SIMULADOR DE CONCURRENCIA EN PYTHON");
   P (LTexto "threading - ThreadPoolExecutor - Lock"); P LRegla;
   P (LTexto "  Iniciado"); P (LTexto "  Hilos disponibles");
   P (LTexto "  Archivos a descargar: 6");
   P (LTexto "  [!] Comparando: secuencial vs threads vs pool...");
   Input]
  ++ modo_secuencial ++ [Sleep]
  ++ modo_threads 1 ++ [Sleep]
  ++ modo_pool 7 ++ [Sleep]
  ++ mostrar_comparacion.

Definition hilos_tareas : list (hilo accion) :=
  map (λ '(i, a), Hilo false (tarea a i) None) (enumerar ARCHIVOS).

Definition hilos_pool : list (hilo accion) :=
  replicate max_workers (Hilo false [Dato TomarTrabajo] None).

(** The data when a mode is entered: whatever statistics and console the
    caller left, and no executor yet. *)
Definition datos_iniciales (e : estadisticas_t) (con : list linea) : globales :=
  Globales e [] con ∅ [] [] false.

Inductive modo : Type := Secuencial | Threads | Pool.

Definition hilos_de (md : modo) : list (hilo accion) :=
  match md with
  | Secuencial => [Hilo true modo_secuencial None]
  | Threads => Hilo true (modo_threads 1) None :: hilos_tareas
  | Pool => Hilo true (modo_pool 1) None :: hilos_pool
  end.

(** A call of one of the three mode functions by the main thread. *)
Definition inicial (md : modo) (e : estadisticas_t) (con : list linea)
    : mundo accion globales :=
  Mundo (hilos_de md) ∅ [] (datos_iniciales e con).

(** The whole script, with [entrada] on standard input. *)
Definition programa (entrada : list string) : mundo accion globales :=
  Mundo (Hilo true main None :: hilos_tareas ++ hilos_pool) ∅ entrada
        (datos_iniciales (Estadisticas 0 0) []).

End ConFallos.

(** The source as written: no call raises. *)
Definition sin_fallos : nat → option (nat * string) := λ _, None.

End Simulador.

(** ** Steps of the machine, case by case *)

Module Pasos.
Import Maquina.

Section Pasos.
Context {A D : Type}.
Variable ejecutar : A → tid → nat → D → option (D * list (instr A)).

(** The instruction [i] ends its thread with exception [e] in [m]. *)
Inductive excepcion_en (m : mundo A D) : instr A → string → Prop :=
| X_raise e : excepcion_en m (Raise e) e
| X_release l :
    cerrojos m !! l = None → excepcion_en m (Release l) "RuntimeError"
| X_start u hu :
    hilos m !! u = Some hu → iniciado hu = true →
    excepcion_en m (Start u) "RuntimeError"
| X_join u hu :
    hilos m !! u = Some hu → iniciado hu = false →
    excepcion_en m (Join u) "RuntimeError"
| X_input : stdin m = [] → excepcion_en m Input "EOFError".

(** [paso] as a relation: thread [t], whose record is [h] and whose code
    is [i :: r], takes [m] to the last argument. *)
Inductive transicion (t : tid) (c : nat) (m : mundo A D) (h : hilo A)
    (r : list (instr A)) : instr A → mundo A D → Prop :=
| T_dato a d x :
    ejecutar a t c (datos m) = Some (d, x) →
    transicion t c m h r (Dato a)
      (Mundo (<[t := sigue h (x ++ r)]> (hilos m)) (cerrojos m) (stdin m) d)
| T_sleep :
    transicion t c m h r Sleep
      (Mundo (<[t := sigue h r]> (hilos m)) (cerrojos m) (stdin m) (datos m))
| T_acquire l :
    cerrojos m !! l = None →
    transicion t c m h r (Acquire l)
      (Mundo (<[t := sigue h r]> (hilos m)) (<[l := t]> (cerrojos m))
             (stdin m) (datos m))
| T_release l v :
    cerrojos m !! l = Some v →
    transicion t c m h r (Release l)
      (Mundo (<[t := sigue h r]> (hilos m)) (delete l (cerrojos m))
             (stdin m) (datos m))
| T_start u hu :
    hilos m !! u = Some hu → iniciado hu = false →
    transicion t c m h r (Start u)
      (Mundo (<[t := sigue h r]> (<[u := arranca hu]> (hilos m)))
             (cerrojos m) (stdin m) (datos m))
| T_join u hu :
    hilos m !! u = Some hu → terminado hu = true →
    transicion t c m h r (Join u)
      (Mundo (<[t := sigue h r]> (hilos m)) (cerrojos m) (stdin m) (datos m))
| T_input s ss :
    stdin m = s :: ss →
    transicion t c m h r Input
      (Mundo (<[t := sigue h r]> (hilos m)) (cerrojos m) ss (datos m))
| T_excepcion i e :
    excepcion_en m i e →
    transicion t c m h r i
      (Mundo (<[t := falla_con h e]> (hilos m)) (cerrojos m) (stdin m) (datos m)).

Lemma paso_transicion t c m m' :
  paso ejecutar t c m = Some m' →
  ∃ h i r, hilos m !! t = Some h ∧ iniciado h = true ∧ codigo h = i :: r ∧
           transicion t c m h r i m'.
Proof.
  unfold paso. intros Hp.
  destruct (hilos m !! t) as [h|] eqn:Hh; simpl in Hp; [|done].
  destruct (iniciado h) eqn:Hi; [|done].
  destruct (codigo h) as [|i r] eqn:Hc; [done|].
  exists h, i, r. split_and!; try done.
  destruct i as [a| |l|l|u|u| |e]; unfold pon_hilo in Hp; simpl in Hp.
  - destruct (ejecutar a t c (datos m)) as [[d x]|] eqn:He; simpl in Hp; [|done].
    injection Hp as <-. by constructor.
  - injection Hp as <-. constructor.
  - destruct (cerrojos m !! l) eqn:Hl; [done|]. injection Hp as <-. by constructor.
  - destruct (cerrojos m !! l) eqn:Hl; injection Hp as <-.
    + by econstructor.
    + apply T_excepcion. by constructor.
  - destruct (hilos m !! u) as [hu|] eqn:Hu; simpl in Hp; [|done].
    destruct (iniciado hu) eqn:Hiu; injection Hp as <-.
    + apply T_excepcion. by econstructor.
    + by constructor.
  - destruct (hilos m !! u) as [hu|] eqn:Hu; simpl in Hp; [|done].
    destruct (iniciado hu) eqn:Hiu.
    + destruct (terminado hu) eqn:Ht; [|done]. injection Hp as <-.
      by econstructor.
    + injection Hp as <-. apply T_excepcion. by econstructor.
  - destruct (stdin m) as [|s ss] eqn:Hs; injection Hp as <-.
    + pose proof (T_excepcion t c m h r Input "EOFError" (X_input m Hs)) as HT.
      by rewrite Hs in HT.
    + by econstructor.
  - injection Hp as <-. apply T_excepcion. constructor.
Qed.

Lemma transicion_paso t c m m' h i r :
  hilos m !! t = Some h → iniciado h = true → codigo h = i :: r →
  transicion t c m h r i m' → paso ejecutar t c m = Some m'.
Proof.
  intros Hh Hi Hc Ht. unfold paso. rewrite Hh. simpl. rewrite Hi, Hc.
  destruct Ht as [a d x He| |l Hl|l v Hl|u hu Hu Hiu|u hu Hu Hiu|s ss Hs|i e Hx];
    unfold pon_hilo; simpl.
  - by rewrite He.
  - done.
  - by rewrite Hl.
  - by rewrite Hl.
  - by rewrite Hu; simpl; rewrite Hiu.
  - rewrite Hu. simpl.
    assert (iniciado hu = true) as ->
      by (unfold terminado in Hiu; by apply andb_true_iff in Hiu as [? _]).
    by rewrite Hiu.
  - by rewrite Hs.
  - destruct Hx as [e|l Hl|u hu Hu Hiu|u hu Hu Hiu|Hs].
    + done.
    + by rewrite Hl.
    + by rewrite Hu; simpl; rewrite Hiu.
    + by rewrite Hu; simpl; rewrite Hiu.
    + by rewrite Hs.
Qed.

End Pasos.
End Pasos.

(** ** Lock discipline, fork/join order, termination: definitions *)

Module Reglas.
Import Maquina Pasos.

Section Formas.
Context {A : Type}.

(** [sp a]: the action never blocks and loads no code.  [pr a]: the lock
    that must be held to run the action. *)
Variables (sp : A → bool) (pr : A → option cerrojo).

(** Shape of the code of a thread that holds the lock [o] (or none):
    [with] blocks are not nested, hold only simple actions protected by
    their own lock (or by none), and protected actions stand in a block. *)
Fixpoint forma (o : option cerrojo) (c : list (instr A)) : bool :=
  match c with
  | [] => if o is None then true else false
  | Dato a :: r =>
      match o with
      | None => (if pr a is None then true else false) && forma None r
      | Some l =>
          sp a && (if pr a is Some l' then bool_decide (l' = l) else true)
          && forma o r
      end
  | Sleep :: r => forma o r
  | Acquire l :: r => if o is None then forma (Some l) r else false
  | Release l :: r =>
      match o with
      | Some l' => bool_decide (l = l') && forma None r
      | None => false
      end
  | Start _ :: r | Join _ :: r | Input :: r =>
      if o is None then forma None r else false
  | Raise _ :: _ => if o is None then true else false
  end.

Definition es_start (u : tid) (i : instr A) : bool :=
  match i with Start v => bool_decide (v = u) | _ => false end.

Definition es_join (u : tid) (i : instr A) : bool :=
  match i with Join v => bool_decide (v = u) | _ => false end.

Definition arranca_a (u : tid) (c : list (instr A)) : bool := existsb (es_start u) c.
Definition espera_a (u : tid) (c : list (instr A)) : bool := existsb (es_join u) c.

(** Code of a worker: it starts and joins no thread and reads no input. *)
Definition es_obrero (c : list (instr A)) : bool :=
  forallb (λ i, match i with Start _ | Join _ | Input => false | _ => true end) c.

Definition sin_raise (c : list (instr A)) : bool :=
  forallb (λ i, match i with Raise _ => false | _ => true end) c.

(** Code of the main thread of a process of [n] threads: a thread is
    started once, joined after its start, and every started thread is
    joined later. *)
Fixpoint orden (n : nat) (c : list (instr A)) : bool :=
  match c with
  | [] => true
  | Start u :: r =>
      bool_decide (0 < u < n) && negb (arranca_a u r) && espera_a u r && orden n r
  | Join u :: r => bool_decide (0 < u < n) && negb (arranca_a u r) && orden n r
  | _ :: r => orden n r
  end.

(** Calls of [input()] left in the code. *)
Fixpoint entradas (c : list (instr A)) : nat :=
  match c with
  | [] => 0
  | Input :: r => S (entradas r)
  | _ :: r => entradas r
  end.

Variable peso : A → nat.

Definition peso_instr (i : instr A) : nat :=
  match i with Dato a => peso a | _ => 1 end.

Definition peso_codigo (c : list (instr A)) : nat := sum_list_with peso_instr c.

End Formas.

Section Reglas.
Context {A D : Type}.
Variable ejecutar : A → tid → nat → D → option (D * list (instr A)).

(** What the theory of the machine asks of the data actions of a
    program. *)
Class reglas : Type := {
  simple : A → bool;
  protegida : A → option cerrojo;
  peso : A → nat;
  potencial : D → nat;
  simple_ok a t c d :
    simple a = true → ∃ d', ejecutar a t c d = Some (d', []);
  extra_forma a t c d d' x :
    ejecutar a t c d = Some (d', x) → forma simple protegida None x = true;
  extra_obrero a t c d d' x :
    ejecutar a t c d = Some (d', x) → es_obrero x = true;
  extra_sin_raise a t c d d' x :
    ejecutar a t c d = Some (d', x) → sin_raise x = true;
  peso_ok a t c d d' x :
    ejecutar a t c d = Some (d', x) →
    peso_codigo peso x + potencial d' < peso a + potencial d
}.

Context `{R : reglas}.

(** Every thread's code has the shape of the lock it holds, and locks are
    held by started threads. *)
Definition disciplina (m : mundo A D) : Prop :=
  (∀ t h, hilos m !! t = Some h →
     ∃ o, forma simple protegida o (codigo h) = true ∧
          ∀ l, cerrojos m !! l = Some t ↔ o = Some l)
  ∧ (∀ l t, cerrojos m !! l = Some t →
       ∃ h, hilos m !! t = Some h ∧ iniciado h = true).

(** Fork/join order: thread 0 is the running main thread, it alone starts
    and joins; a thread it will start is not started yet; a started thread
    is finished or still to be joined, unless the main thread died. *)
Definition horquilla (m : mundo A D) : Prop :=
  ∃ h0, hilos m !! 0 = Some h0 ∧ iniciado h0 = true
    ∧ orden (length (hilos m)) (codigo h0) = true
    ∧ (∀ u hu, hilos m !! u = Some hu → u ≠ 0 →
         es_obrero (codigo hu) = true
         ∧ (arranca_a u (codigo h0) = true → iniciado hu = false)
         ∧ (iniciado hu = false →
              arranca_a u (codigo h0) = true ∨ is_Some (error h0))
         ∧ (iniciado hu = true →
              espera_a u (codigo h0) = true ∨ terminado hu = true
              ∨ is_Some (error h0))).

(** A thread that an exception ended has no code left. *)
Definition muertos (m : mundo A D) : Prop :=
  ∀ t h, hilos m !! t = Some h → is_Some (error h) → codigo h = [].

(** Thread [t] has met no exception and can meet none: no [raise] in its
    code, and a line on standard input for each [input()]. *)
Definition sano (t : tid) (m : mundo A D) : Prop :=
  ∃ h, hilos m !! t = Some h ∧ error h = None ∧ sin_raise (codigo h) = true
       ∧ entradas (codigo h) ≤ length (stdin m).

(** The measure that every step decreases. *)
Definition medida (m : mundo A D) : nat :=
  sum_list_with (λ h, peso_codigo peso (codigo h)) (hilos m) + potencial (datos m).

(** No thread can step, whatever the choice. *)
Definition atascado (m : mundo A D) : Prop :=
  ∀ t c, paso ejecutar t c m = None.

(** A started thread waits at a data action that blocks for every
    choice. *)
Definition espera_dato (m : mundo A D) : Prop :=
  ∃ t h a r, hilos m !! t = Some h ∧ iniciado h = true
    ∧ codigo h = Dato a :: r ∧ ∀ c, ejecutar a t c (datos m) = None.

End Reglas.

Arguments simple {A D ejecutar _} a.
Arguments protegida {A D ejecutar _} a.
Arguments peso {A D ejecutar _} a.
Arguments potencial {A D ejecutar _} d.
Arguments simple_ok {A D ejecutar _} a t c d _.
Arguments extra_forma {A D ejecutar _} a t c d d' x _.
Arguments extra_obrero {A D ejecutar _} a t c d d' x _.
Arguments extra_sin_raise {A D ejecutar _} a t c d d' x _.
Arguments peso_ok {A D ejecutar _} a t c d d' x _.

End Reglas.

(** ** Theory of the machine *)

Module Teoria.
Import Maquina Pasos Reglas.

Ltac mira_hilos :=
  repeat match goal with
  | H : <[_ := _]> _ !! _ = Some _ |- _ =>
      apply list_lookup_insert_Some in H as [(<- & <- & ?)|(? & H)]; simpl in *
  end.

Lemma forma_app {A} (sp : A → bool) pr o (x r : list (instr A)) :
  forma sp pr o x = true → forma sp pr None r = true →
  forma sp pr o (x ++ r) = true.
Proof.
  revert o. induction x as [|i x IH]; intros o Hx Hr; simpl in *.
  - by destruct o.
  - destruct i as [a| |l|l|u|u| |e]; simpl in *; try (destruct o; by auto).
    + destruct o; apply andb_true_iff in Hx as [-> Hx]; simpl; by apply IH.
    + destruct o; [|done]. apply andb_true_iff in Hx as [-> Hx]; simpl; by apply IH.
Qed.

Section Teoria.
Context {A D : Type}.
Variable ejecutar : A → tid → nat → D → option (D * list (instr A)).
Context `{R : !reglas ejecutar}.

Local Abbreviation forma := (forma simple protegida).

Lemma plan_inv (I : mundo A D → Prop) ds m0 m :
  (∀ t c m m', I m → paso ejecutar t c m = Some m' → I m') →
  I m0 → ejecutar_plan ejecutar ds m0 = Some m → I m.
Proof.
  intros Hstep. revert m0. induction ds as [|d ds IH]; intros m0 H0 Hp; simpl in Hp.
  - by injection Hp as <-.
  - destruct (paso ejecutar (quien d) (elige d) m0) as [m1|] eqn:H1; simpl in Hp; [|done].
    eapply IH; [|done]. by eapply Hstep.
Qed.

Lemma plan_app ds1 ds2 m :
  ejecutar_plan ejecutar (ds1 ++ ds2) m
  = ejecutar_plan ejecutar ds1 m ≫= ejecutar_plan ejecutar ds2.
Proof.
  revert m. induction ds1 as [|d ds1 IH]; intros m; simpl; [done|].
  destruct (paso ejecutar (quien d) (elige d) m); simpl; [apply IH|done].
Qed.

Lemma disciplina_paso t c m m' :
  disciplina ejecutar m → paso ejecutar t c m = Some m' → disciplina ejecutar m'.
Proof.
  intros [Hd1 Hd2] Hp.
  apply paso_transicion in Hp as (h & i & r & Hh & Hi & Hc & Ht).
  destruct (Hd1 t h Hh) as (o & Hf & Hl). rewrite Hc in Hf.
  assert (Hlen : t < length (hilos m)) by by eapply lookup_lt_Some.
  assert (Hviva : ∀ hs' l t', hs' = <[t := sigue h r]> (hilos m) ∨
            (∃ x, hs' = <[t := sigue h x]> (hilos m)) ∨
            (∃ e, hs' = <[t := falla_con h e]> (hilos m)) →
            cerrojos m !! l = Some t' →
            ∃ h', hs' !! t' = Some h' ∧ iniciado h' = true).
  { intros hs' l t' Hs Hlt. destruct (Hd2 _ _ Hlt) as (h' & Hh' & Hi').
    destruct (decide (t' = t)) as [->|Hne].
    - destruct Hs as [->|[[x ->]| [e ->]]];
        rewrite list_lookup_insert_eq by done; eauto.
    - destruct Hs as [->|[[x ->]| [e ->]]];
        rewrite list_lookup_insert_ne by done; eauto. }
  destruct Ht as [a d x He| |l Hfree|l v Hheld|u hu Hu Hiu|u hu Hu Hiu|s ss Hs|i e Hx];
    simpl in Hf.
  - (* Dato *)
    split; simpl.
    + intros t' h' Hl'. mira_hilos; [|by apply Hd1].
      destruct o as [l|].
      * apply andb_true_iff in Hf as [Hf Hr]. apply andb_true_iff in Hf as [Hs _].
        destruct (simple_ok a t c (datos m) Hs) as [d' Hd']. simplify_eq.
        exists (Some l). done.
      * apply andb_true_iff in Hf as [_ Hr]. exists None. split; [|done].
        apply forma_app; [|done]. by eapply extra_forma.
    + intros l t' Hlt. eapply Hviva; [|done]. right; left; eauto.
  - (* Sleep *)
    split; simpl.
    + intros t' h' Hl'. mira_hilos; [|by apply Hd1]. eauto.
    + intros l t' Hlt. eapply Hviva; [|done]. by left.
  - (* Acquire *)
    destruct o; [done|]. split; simpl.
    + intros t' h' Hl'. mira_hilos.
      * exists (Some l). split; [done|]. intros l'.
        destruct (decide (l' = l)) as [->|Hne].
        -- rewrite lookup_insert_eq. done.
        -- rewrite lookup_insert_ne by done. rewrite Hl. split; [done|]. congruence.
      * destruct (Hd1 _ _ Hl') as (o' & Hf' & Hl''). exists o'. split; [done|].
        intros l'. rewrite <- Hl''.
        destruct (decide (l' = l)) as [->|Hne].
        -- rewrite lookup_insert_eq, Hfree. split; congruence.
        -- by rewrite lookup_insert_ne.
    + intros l' t' Hlt. destruct (decide (l' = l)) as [->|Hne].
      * rewrite lookup_insert_eq in Hlt. simplify_eq.
        rewrite list_lookup_insert_eq by done. eauto.
      * rewrite lookup_insert_ne in Hlt by done. eapply Hviva; [|done]. by left.
  - (* Release *)
    destruct o as [l0|]; [|done]. apply andb_true_iff in Hf as [Heq Hr].
    apply bool_decide_eq_true in Heq as ->.
    assert (Hmio : cerrojos m !! l0 = Some t) by by apply Hl.
    split; simpl.
    + intros t' h' Hl'. mira_hilos.
      * exists None. split; [done|]. intros l'.
        destruct (decide (l' = l0)) as [->|Hne].
        -- rewrite lookup_delete_eq. done.
        -- rewrite lookup_delete_ne by done. rewrite Hl. split; [congruence|done].
      * destruct (Hd1 _ _ Hl') as (o' & Hf' & Hl''). exists o'. split; [done|].
        intros l'. rewrite <- Hl''.
        destruct (decide (l' = l0)) as [->|Hne].
        -- rewrite lookup_delete_eq, Hmio. split; [done|]. congruence.
        -- by rewrite lookup_delete_ne.
    + intros l' t' Hlt. destruct (decide (l' = l0)) as [->|Hne].
      * by rewrite lookup_delete_eq in Hlt.
      * rewrite lookup_delete_ne in Hlt by done. eapply Hviva; [|done]. by left.
  - (* Start *)
    destruct o; [done|].
    assert (u ≠ t) by (intros ->; congruence).
    split; simpl.
    + intros t' h' Hl'. mira_hilos; [eauto| |by apply Hd1].
      destruct (Hd1 _ _ Hu) as (o' & Hf' & Hl''). eauto.
    + intros l t' Hlt. destruct (Hd2 _ _ Hlt) as (h' & Hh' & Hi').
      destruct (decide (t' = t)) as [->|Hne].
      * rewrite list_lookup_insert_eq by by rewrite length_insert. eauto.
      * rewrite list_lookup_insert_ne by done.
        destruct (decide (t' = u)) as [->|Hne'].
        -- rewrite list_lookup_insert_eq by by eapply lookup_lt_Some. eauto.
        -- rewrite list_lookup_insert_ne by done. eauto.
  - (* Join *)
    destruct o; [done|]. split; simpl.
    + intros t' h' Hl'. mira_hilos; [|by apply Hd1]. eauto.
    + intros l t' Hlt. eapply Hviva; [|done]. by left.
  - (* Input *)
    destruct o; [done|]. split; simpl.
    + intros t' h' Hl'. mira_hilos; [|by apply Hd1]. eauto.
    + intros l t' Hlt. eapply Hviva; [|done]. by left.
  - (* exception *)
    assert (o = None) as ->.
    { destruct Hx; simpl in Hf; destruct o as [l0|]; try done.
      apply andb_true_iff in Hf as [Heq _]. apply bool_decide_eq_true in Heq as ->.
      assert (cerrojos m !! l0 = Some t) by by apply Hl. congruence. }
    split; simpl.
    + intros t' h' Hl'. mira_hilos; [|by apply Hd1]. exists None. done.
    + intros l t' Hlt. eapply Hviva; [|done]. right; right; eauto.
Qed.


Lemma muertos_paso t c m m' :
  muertos m → paso ejecutar t c m = Some m' → muertos m'.
Proof.
  intros Hm Hp.
  apply paso_transicion in Hp as (h & i & r & Hh & Hi & Hc & Ht).
  assert (He : error h = None).
  { destruct (error h) eqn:He; [|done].
    rewrite (Hm t h Hh) in Hc; [done|]. by rewrite He. }
  destruct Ht; intros t' h' Hl' Herr; simpl in *; mira_hilos;
    try (by eapply Hm); try (by rewrite He in Herr; destruct Herr); try done.
Qed.

Lemma arranca_a_obrero u (x r : list (instr A)) :
  es_obrero x = true → arranca_a u (x ++ r) = arranca_a u r.
Proof.
  unfold arranca_a. induction x as [|i x IH]; simpl; [done|].
  intros [Hi Hx]%andb_true_iff. rewrite IH by done. by destruct i.
Qed.

Lemma espera_a_obrero u (x r : list (instr A)) :
  es_obrero x = true → espera_a u (x ++ r) = espera_a u r.
Proof.
  unfold espera_a. induction x as [|i x IH]; simpl; [done|].
  intros [Hi Hx]%andb_true_iff. rewrite IH by done. by destruct i.
Qed.

Lemma orden_obrero n (x r : list (instr A)) :
  es_obrero x = true → orden n (x ++ r) = orden n r.
Proof.
  induction x as [|i x IH]; simpl; [done|].
  intros [Hi Hx]%andb_true_iff. rewrite <- IH by done. by destruct i.
Qed.

Lemma entradas_obrero (x r : list (instr A)) :
  es_obrero x = true → entradas (x ++ r) = entradas r.
Proof.
  induction x as [|i x IH]; simpl; [done|].
  intros [Hi Hx]%andb_true_iff. rewrite <- IH by done. by destruct i.
Qed.

Lemma es_obrero_app (x r : list (instr A)) :
  es_obrero (x ++ r) = es_obrero x && es_obrero r.
Proof. apply forallb_app. Qed.

Lemma sin_raise_app (x r : list (instr A)) :
  sin_raise (x ++ r) = sin_raise x && sin_raise r.
Proof. apply forallb_app. Qed.

Lemma horquilla_paso t c m m' :
  horquilla m → paso ejecutar t c m = Some m' → horquilla m'.
Proof.
  intros (h0 & H0 & Hi0 & Ho & Hw) Hp.
  apply paso_transicion in Hp as (h & i & r & Hh & Hi & Hc & Ht).
  assert (Hlen : t < length (hilos m)) by by eapply lookup_lt_Some.
  destruct (decide (t = 0)) as [->|Hne].
  - (* the main thread steps *)
    assert (h = h0) as -> by congruence. rewrite Hc in Ho, Hw.
    destruct Ht as [a d x He| |l Hfree|l v Hheld|u hu Hu Hiu|u hu Hu Hiu|s ss Hs|i e Hx];
      simpl in Ho.
    + exists (sigue h0 (x ++ r)). simpl. rewrite length_insert.
      pose proof (extra_obrero _ _ _ _ _ _ He) as Hx.
      split_and!; [by apply list_lookup_insert_eq|done|by rewrite orden_obrero|].
      intros u hu Hu Hu0. rewrite list_lookup_insert_ne in Hu by done.
      rewrite arranca_a_obrero, espera_a_obrero by done. by apply Hw.
    + exists (sigue h0 r). simpl. rewrite length_insert.
      split_and!; [by apply list_lookup_insert_eq|done|done|].
      intros u hu Hu Hu0. rewrite list_lookup_insert_ne in Hu by done. by apply Hw.
    + exists (sigue h0 r). simpl. rewrite length_insert.
      split_and!; [by apply list_lookup_insert_eq|done|done|].
      intros u hu Hu Hu0. rewrite list_lookup_insert_ne in Hu by done. by apply Hw.
    + exists (sigue h0 r). simpl. rewrite length_insert.
      split_and!; [by apply list_lookup_insert_eq|done|done|].
      intros u hu Hu Hu0. rewrite list_lookup_insert_ne in Hu by done. by apply Hw.
    + (* Start u *)
      apply andb_true_iff in Ho as [Ho Hor]. apply andb_true_iff in Ho as [Ho Hj].
      apply andb_true_iff in Ho as [Hu0 Hns]. apply bool_decide_eq_true in Hu0.
      apply negb_true_iff in Hns.
      exists (sigue h0 r). simpl. rewrite !length_insert.
      split_and!; [|done|done|].
      { apply list_lookup_insert_eq. by rewrite length_insert. }
      intros v hv Hv Hv0. rewrite list_lookup_insert_ne in Hv by done.
      destruct (decide (v = u)) as [->|Hvu].
      * rewrite list_lookup_insert_eq in Hv by by eapply lookup_lt_Some.
        injection Hv as <-. simpl.
        destruct (Hw u hu Hu Hv0) as (Hob & _). split_and!; try done.
        -- by rewrite Hns.
        -- intros _. by left.
      * rewrite list_lookup_insert_ne in Hv by done.
        destruct (Hw v hv Hv Hv0) as (Hob & Ha & Hb & Hc'). simpl in *.
        assert (bool_decide (u = v) = false) as Hf by by apply bool_decide_eq_false.
        rewrite Hf in *. done.
    + (* Join u *)
      apply andb_true_iff in Ho as [Ho Hor]. apply andb_true_iff in Ho as [Hu0 Hns].
      exists (sigue h0 r). simpl. rewrite !length_insert.
      split_and!; [by apply list_lookup_insert_eq|done|done|].
      intros v hv Hv Hv0. rewrite list_lookup_insert_ne in Hv by done.
      destruct (Hw v hv Hv Hv0) as (Hob & Ha & Hb & Hc'). simpl in *.
      split_and!; try done. intros Hiv. destruct (Hc' Hiv) as [Hj|[?|?]]; auto.
      apply orb_true_iff in Hj as [Hj|Hj]; [|by left].
      apply bool_decide_eq_true in Hj as ->. right; left. congruence.
    + exists (sigue h0 r). simpl. rewrite length_insert.
      split_and!; [by apply list_lookup_insert_eq|done|done|].
      intros u hu Hu Hu0. rewrite list_lookup_insert_ne in Hu by done. by apply Hw.
    + exists (falla_con h0 e). simpl. rewrite ?length_insert.
      split_and!; [by apply list_lookup_insert_eq|done|done|].
      intros u hu Hu Hu0. rewrite list_lookup_insert_ne in Hu by done.
      destruct (Hw u hu Hu Hu0) as (Hob & Ha & Hb & Hc').
      split_and!; [done|done|intros _; right; eauto|intros _; right; right; eauto].
  - (* a worker steps *)
    destruct (Hw t h Hh Hne) as (Hob & Ha & Hb & Hc'). rewrite Hc in Hob.
    simpl in Hob.
    assert (Hmain : ∀ h', hilos m' = <[t := h']> (hilos m) →
              iniciado h' = true → es_obrero (codigo h') = true →
              horquilla m').
    { intros h' Hm' Hi' Hob'. exists h0. rewrite Hm', length_insert.
      split_and!; [by rewrite list_lookup_insert_ne|done|done|].
      intros u hu Hu Hu0. destruct (decide (u = t)) as [->|Hut].
      - rewrite list_lookup_insert_eq in Hu by done. injection Hu as <-.
        split_and!; [done|intros Hx; apply Ha in Hx; congruence|by rewrite Hi'|].
        intros _. destruct (Hc' Hi) as [?|[Ht'|?]]; auto.
        unfold terminado in Ht'. by rewrite Hi, Hc in Ht'.
      - rewrite list_lookup_insert_ne in Hu by done. by apply Hw. }
    destruct Ht as [a d x He| |l Hfree|l v Hheld|u hu Hu Hiu|u hu Hu Hiu|s ss Hs|i e Hx];
      try done.
    + eapply Hmain; [done..|]. simpl. rewrite es_obrero_app.
      by rewrite (extra_obrero _ _ _ _ _ _ He).
    + by eapply Hmain.
    + by eapply Hmain.
    + by eapply Hmain.
    + by eapply Hmain.
Qed.

(** Under the invariants a sound thread meets no exception. *)
Lemma sin_excepcion t m h i r e :
  disciplina ejecutar m → horquilla m → sano 0 m → sano t m →
  hilos m !! t = Some h → iniciado h = true → codigo h = i :: r →
  excepcion_en m i e → False.
Proof.
  intros [Hd1 Hd2] (h0 & H0 & Hi0 & Ho & Hw) (h0' & H0' & He0 & _)
    (h' & Hh' & He & Hr & Hin) Hh Hi Hc Hx.
  assert (h' = h) as -> by congruence. assert (h0' = h0) as -> by congruence.
  rewrite Hc in Hr, Hin. simpl in Hr, Hin.
  destruct Hx as [e|l Hl|u hu Hu Hiu|u hu Hu Hiu|Hs]; simpl in *.
  - done.
  - destruct (Hd1 t h Hh) as (o & Hf & Hlk). rewrite Hc in Hf. simpl in Hf.
    destruct o as [l0|]; [|done]. apply andb_true_iff in Hf as [Heq _].
    apply bool_decide_eq_true in Heq as ->.
    assert (cerrojos m !! l0 = Some t) by by apply Hlk. congruence.
  - destruct (decide (t = 0)) as [->|Hne].
    + assert (h = h0) as -> by congruence. rewrite Hc in Ho, Hw. simpl in Ho.
      apply andb_true_iff in Ho as [Ho _]. apply andb_true_iff in Ho as [Ho _].
      apply andb_true_iff in Ho as [Hu0 _]. apply bool_decide_eq_true in Hu0.
      destruct (Hw u hu Hu) as (_ & Ha & _); [lia|].
      simpl in Ha. rewrite bool_decide_eq_true_2 in Ha by done.
      rewrite Ha in Hiu; done.
    + destruct (Hw t h Hh Hne) as (Hob & _). by rewrite Hc in Hob.
  - destruct (decide (t = 0)) as [->|Hne].
    + assert (h = h0) as -> by congruence. rewrite Hc in Ho, Hw. simpl in Ho.
      apply andb_true_iff in Ho as [Ho _]. apply andb_true_iff in Ho as [Hu0 Hns].
      apply bool_decide_eq_true in Hu0. apply negb_true_iff in Hns.
      destruct (Hw u hu Hu) as (_ & _ & Hb & _); [lia|].
      destruct (Hb Hiu) as [Hb'|Hb'].
      * unfold arranca_a in *. simpl in Hb'. congruence.
      * rewrite He0 in Hb'. by destruct Hb'.
    + destruct (Hw t h Hh Hne) as (Hob & _). by rewrite Hc in Hob.
  - rewrite Hs in Hin. simpl in Hin. lia.
Qed.


Lemma entradas_de_obrero (x : list (instr A)) :
  es_obrero x = true → entradas x = 0.
Proof.
  intros Hx. rewrite <- (app_nil_r x). by rewrite entradas_obrero.
Qed.

Lemma sano_paso x t c m m' :
  disciplina ejecutar m → horquilla m → sano 0 m → sano x m →
  paso ejecutar t c m = Some m' → sano x m'.
Proof.
  intros Hd Hq H0 Hx Hp.
  apply paso_transicion in Hp as (h & i & r & Hh & Hi & Hc & Ht).
  assert (Hlen : t < length (hilos m)) by by eapply lookup_lt_Some.
  destruct (decide (x = t)) as [->|Hne].
  - pose proof Hx as (h' & Hh' & He & Hr & Hin).
    assert (h' = h) as -> by congruence. rewrite Hc in Hr, Hin.
    destruct Ht as [a d y Hy| |l Hfree|l v Hheld|u hu Hu Hiu|u hu Hu Hiu|s ss Hs|i e Hex];
      try (exists (sigue h r); simpl in *;
           split_and!; [by apply list_lookup_insert_eq|done|done|done]).
    + exists (sigue h (y ++ r)). simpl in *.
      pose proof (extra_obrero _ _ _ _ _ _ Hy).
      pose proof (extra_sin_raise _ _ _ _ _ _ Hy) as Hsr.
      split_and!; [by apply list_lookup_insert_eq|done| |by rewrite entradas_obrero].
      by rewrite sin_raise_app, Hsr.
    + exists (sigue h r). simpl in *.
      split_and!; [|done|done|done].
      apply list_lookup_insert_eq. by rewrite length_insert.
    + exists (sigue h r). simpl in *. rewrite Hs in Hin. simpl in Hin.
      split_and!; [by apply list_lookup_insert_eq|done|done|lia].
    + exfalso. by eapply (sin_excepcion t m h i r e).
  - destruct Hx as (hx & Hhx & He & Hr & Hin).
    destruct Ht as [a d y Hy| |l Hfree|l v Hheld|u hu Hu Hiu|u hu Hu Hiu|s ss Hs|i e Hex];
      try (exists hx; simpl; by rewrite list_lookup_insert_ne by done).
    + destruct (decide (x = u)) as [->|Hxu].
      * exists (arranca hu). simpl. rewrite list_lookup_insert_ne by done.
        rewrite list_lookup_insert_eq by by eapply lookup_lt_Some.
        assert (hx = hu) as -> by congruence. done.
      * exists hx. simpl. by rewrite !list_lookup_insert_ne by done.
    + exists hx. simpl. rewrite list_lookup_insert_ne by done.
      split_and!; try done.
      destruct Hq as (h0 & Hh0 & _ & _ & Hw).
      destruct (decide (t = 0)) as [->|Ht0].
      * destruct (Hw x hx Hhx) as (Hob & _); [done|].
        rewrite entradas_de_obrero by done. lia.
      * destruct (Hw t h Hh Ht0) as (Hob & _). by rewrite Hc in Hob.
Qed.

Lemma suma_insert {X} (f : X → nat) (l : list X) t x y :
  l !! t = Some x →
  sum_list_with f (<[t := y]> l) + f x = sum_list_with f l + f y.
Proof.
  revert t. induction l as [|z l IH]; intros [|t] Hl; simpl in *; try done.
  - injection Hl as ->. lia.
  - specialize (IH t Hl). lia.
Qed.

Lemma peso_codigo_app (x r : list (instr A)) :
  peso_codigo peso (x ++ r) = peso_codigo peso x + peso_codigo peso r.
Proof. apply sum_list_with_app. Qed.

Lemma medida_paso t c m m' :
  paso ejecutar t c m = Some m' → medida ejecutar m' < medida ejecutar m.
Proof.
  intros Hp.
  apply paso_transicion in Hp as (h & i & r & Hh & Hi & Hc & Ht).
  unfold medida.
  assert (Hcod : peso_codigo peso (codigo h) = peso_instr peso i + peso_codigo peso r)
    by by rewrite Hc.
  destruct Ht as [a d y Hy| |l Hfree|l v Hheld|u hu Hu Hiu|u hu Hu Hiu|s ss Hs|i e Hex];
    simpl in *;
    try (pose proof (suma_insert (λ h, peso_codigo peso (codigo h)) _ _ _
                       (sigue h r) Hh) as Hsum; simpl in Hsum; lia).
  - pose proof (suma_insert (λ h, peso_codigo peso (codigo h)) _ _ _
                  (sigue h (y ++ r)) Hh) as Hsum. simpl in Hsum.
    rewrite peso_codigo_app in Hsum. pose proof (peso_ok _ _ _ _ _ _ Hy). lia.
  - assert (u ≠ t) by (intros ->; congruence).
    pose proof (suma_insert (λ h, peso_codigo peso (codigo h)) _ _ _
                  (arranca hu) Hu) as Hs1. simpl in Hs1.
    assert (Hh' : <[u := arranca hu]> (hilos m) !! t = Some h)
      by by rewrite list_lookup_insert_ne.
    pose proof (suma_insert (λ h, peso_codigo peso (codigo h)) _ _ _
                  (sigue h r) Hh') as Hs2. simpl in Hs2. lia.
  - pose proof (suma_insert (λ h, peso_codigo peso (codigo h)) _ _ _
                  (falla_con h e) Hh) as Hsum. simpl in Hsum.
    assert (peso_instr peso i = 1) by (by destruct Hex).
    lia.
Qed.

(** Every run is shorter than the measure of its first state. *)
Lemma plan_acotado ds m m' :
  ejecutar_plan ejecutar ds m = Some m' →
  length ds + medida ejecutar m' ≤ medida ejecutar m.
Proof.
  revert m. induction ds as [|d ds IH]; intros m Hp; simpl in *.
  - injection Hp as <-. lia.
  - destruct (paso ejecutar (quien d) (elige d) m) as [m1|] eqn:H1; simpl in Hp; [|done].
    apply medida_paso in H1. apply IH in Hp. lia.
Qed.

(** A thread that holds a lock can step. *)
Lemma duenno_listo m l t :
  disciplina ejecutar m → cerrojos m !! l = Some t →
  ∃ m', paso ejecutar t 0 m = Some m'.
Proof.
  intros [Hd1 Hd2] Hl. destruct (Hd2 _ _ Hl) as (h & Hh & Hi).
  destruct (Hd1 _ _ Hh) as (o & Hf & Hlk).
  assert (o = Some l) as -> by by apply Hlk.
  unfold paso. rewrite Hh. simpl. rewrite Hi.
  destruct (codigo h) as [|[a| |l'|l'|u|u| |e] r]; simpl in Hf; try done.
  - apply andb_true_iff in Hf as [Hf _]. apply andb_true_iff in Hf as [Hs _].
    destruct (simple_ok a t 0 (datos m) Hs) as [d' ->]. simpl. eauto.
  - eauto.
  - apply andb_true_iff in Hf as [Heq _]. apply bool_decide_eq_true in Heq as ->.
    rewrite Hl. eauto.
Qed.

Lemma no_quieto (m : mundo A D) :
  quieto m = false →
  ∃ t h i r, hilos m !! t = Some h ∧ iniciado h = true ∧ codigo h = i :: r.
Proof.
  unfold quieto. intros Hq.
  assert (Hex : existsb (λ h, negb (negb (iniciado h) || vacio (codigo h))) (hilos m) = true).
  { revert Hq. generalize (hilos m). induction l as [|h l IH]; simpl; [done|].
    intros [Hq|Hq]%andb_false_iff; [by rewrite Hq|].
    rewrite IH by done. apply orb_true_r. }
  apply existsb_exists in Hex as (h & Hin & Hh).
  apply list_elem_of_In, list_elem_of_lookup in Hin as [t Ht].
  apply negb_true_iff, orb_false_iff in Hh as [Hi Hv].
  apply negb_false_iff in Hi.
  destruct (codigo h) as [|i r] eqn:Hc; [done|]. eauto 10.
Qed.

(** Progress: when no thread can step, either every started thread is
    over or one of them waits at a data action. *)
Lemma progreso m :
  disciplina ejecutar m → horquilla m → atascado ejecutar m →
  quieto m = true ∨ espera_dato ejecutar m.
Proof.
  intros Hd Hq Hat.
  assert (Hlibre : ∀ l, cerrojos m !! l = None).
  { intros l. destruct (cerrojos m !! l) as [t|] eqn:Hl; [|done].
    destruct (duenno_listo m l t Hd Hl) as [m' Hm']. by rewrite Hat in Hm'. }
  (* a started worker with code can step or waits at a data action *)
  assert (Hobrero : ∀ t h i r, hilos m !! t = Some h → iniciado h = true →
            codigo h = i :: r → es_obrero (codigo h) = true →
            espera_dato ejecutar m).
  { intros t h i r Hh Hi Hc Hob. pose proof (Hat t 0) as H0.
    unfold paso in H0. rewrite Hh in H0. simpl in H0. rewrite Hi, Hc in H0.
    rewrite Hc in Hob. simpl in Hob.
    destruct i as [a| |l|l|u|u| |e]; simpl in *; try done.
    - exists t, h, a, r. split_and!; try done. intros c'.
      pose proof (Hat t c') as Hc'. unfold paso in Hc'. rewrite Hh in Hc'.
      simpl in Hc'. rewrite Hi, Hc in Hc'.
      destruct (ejecutar a t c' (datos m)) as [[??]|]; done.
    - by rewrite Hlibre in H0.
    - by destruct (cerrojos m !! l). }
  destruct (quieto m) eqn:Hquieto; [by left|right].
  destruct (no_quieto m Hquieto) as (t & h & i & r & Hh & Hi & Hc).
  destruct Hq as (h0 & Hh0 & Hi0 & Ho & Hw).
  destruct (decide (t = 0)) as [->|Hne].
  - assert (h = h0) as -> by congruence.
    pose proof (Hat 0 0) as H0. unfold paso in H0. rewrite Hh0 in H0.
    simpl in H0. rewrite Hi0, Hc in H0. rewrite Hc in Ho. simpl in Ho.
    destruct i as [a| |l|l|u|u| |e]; simpl in *; try done.
    + exists 0, h0, a, r. split_and!; try done. intros c'.
      pose proof (Hat 0 c') as Hc'. unfold paso in Hc'. rewrite Hh0 in Hc'.
      simpl in Hc'. rewrite Hi0, Hc in Hc'.
      destruct (ejecutar a 0 c' (datos m)) as [[??]|]; done.
    + by rewrite Hlibre in H0.
    + by destruct (cerrojos m !! l).
    + apply andb_true_iff in Ho as [Ho _]. apply andb_true_iff in Ho as [Ho _].
      apply andb_true_iff in Ho as [Hu0 _]. apply bool_decide_eq_true in Hu0.
      destruct (lookup_lt_is_Some_2 (hilos m) u) as [hu Hu]; [lia|].
      rewrite Hu in H0. simpl in H0. by destruct (iniciado hu).
    + apply andb_true_iff in Ho as [Ho _]. apply andb_true_iff in Ho as [Hu0 _].
      apply bool_decide_eq_true in Hu0.
      destruct (lookup_lt_is_Some_2 (hilos m) u) as [hu Hu]; [lia|].
      rewrite Hu in H0. simpl in H0.
      destruct (iniciado hu) eqn:Hiu; [|done].
      destruct (terminado hu) eqn:Htu; [done|].
      unfold terminado in Htu. rewrite Hiu in Htu. simpl in Htu.
      destruct (codigo hu) as [|j q] eqn:Hcu; [done|].
      destruct (Hw u hu Hu) as (Hob & _); [lia|].
      by eapply (Hobrero u hu j q).
    + by destruct (stdin m).
  - destruct (Hw t h Hh Hne) as (Hob & _). by eapply Hobrero.
Qed.

(** The invariants of the machine, together. *)
Definition estable (m : mundo A D) : Prop :=
  disciplina ejecutar m ∧ horquilla m ∧ muertos m.

Lemma estable_paso t c m m' :
  estable m → paso ejecutar t c m = Some m' → estable m'.
Proof.
  intros (Hd & Hq & Hm) Hp. split_and!.
  - by eapply disciplina_paso.
  - by eapply horquilla_paso.
  - by eapply muertos_paso.
Qed.

Lemma estable_plan ds m m' :
  estable m → ejecutar_plan ejecutar ds m = Some m' → estable m'.
Proof. intros H Hp. eapply (plan_inv estable); eauto using estable_paso. Qed.

Definition estable_sano (m : mundo A D) : Prop := estable m ∧ sano 0 m.

Lemma estable_sano_paso t c m m' :
  estable_sano m → paso ejecutar t c m = Some m' → estable_sano m'.
Proof.
  intros [He Hs] Hp. split; [by eapply estable_paso|].
  destruct He as (Hd & Hq & Hm). by eapply sano_paso.
Qed.

Lemma estable_sano_plan ds m m' :
  estable_sano m → ejecutar_plan ejecutar ds m = Some m' → estable_sano m'.
Proof. intros H Hp. eapply (plan_inv estable_sano); eauto using estable_sano_paso. Qed.

(** When the process is over and the main thread is sound, the exit
    status is 0. *)
Lemma salida_exitosa (m : mundo A D) :
  quieto m = true → sano 0 m → horquilla m → codigo_salida m = Some 0.
Proof.
  intros Hq (h & Hh & He & _) (h0 & Hh0 & Hi0 & _).
  assert (h = h0) as -> by congruence.
  unfold codigo_salida. rewrite Hh0. simpl.
  unfold quieto in Hq. rewrite forallb_forall in Hq.
  assert (Hin : In h0 (hilos m)) by (apply list_elem_of_In; by eapply list_elem_of_lookup_2).
  specialize (Hq h0 Hin). rewrite Hi0 in Hq. simpl in Hq.
  unfold terminado. by rewrite Hi0, Hq, He.
Qed.

(** Initial states: the invariants follow from checks that compute. *)
Definition bien_formado (m : mundo A D) : bool :=
  bool_decide (cerrojos m = ∅)
  && forallb (λ h, forma None (codigo h) && (if error h is None then true else false))
       (hilos m)
  && match hilos m with
     | [] => false
     | h0 :: hs =>
         iniciado h0 && orden (length (hilos m)) (codigo h0)
         && forallb (λ h, negb (iniciado h) && es_obrero (codigo h)) hs
         && forallb (λ u, arranca_a u (codigo h0)) (seq 1 (length hs))
     end.

Lemma bien_formado_estable m : bien_formado m = true → estable m.
Proof.
  unfold bien_formado. intros [[Hc Hf]%andb_true_iff Hh]%andb_true_iff.
  apply bool_decide_eq_true in Hc. rewrite forallb_forall in Hf.
  assert (Hf' : ∀ t h, hilos m !! t = Some h →
            forma None (codigo h) = true ∧ error h = None).
  { intros t h Hl. specialize (Hf h). 
    assert (Hin : In h (hilos m)) by (apply list_elem_of_In; by eapply list_elem_of_lookup_2).
    apply Hf in Hin. apply andb_true_iff in Hin as [? He]. split; [done|].
    by destruct (error h). }
  split_and!.
  - split.
    + intros t h Hl. exists None. split; [by eapply Hf'|].
      intros l. rewrite Hc, lookup_empty. done.
    + intros l t. rewrite Hc, lookup_empty. done.
  - destruct (hilos m) as [|h0 hs] eqn:Hhs; [done|].
    apply andb_true_iff in Hh as [Hh Harr]. apply andb_true_iff in Hh as [Hh Hob].
    apply andb_true_iff in Hh as [Hi0 Ho].
    exists h0. rewrite Hhs. split_and!; try done.
    intros [|u] hu Hu Hu0; [done|]. simpl in Hu.
    rewrite forallb_forall in Hob, Harr.
    assert (Hin : In hu hs) by (apply list_elem_of_In; by eapply list_elem_of_lookup_2).
    apply Hob in Hin. apply andb_true_iff in Hin as [Hni Hobr].
    apply negb_true_iff in Hni.
    assert (Ha : arranca_a (S u) (codigo h0) = true).
    { apply Harr. apply in_seq. apply lookup_lt_Some in Hu. lia. }
    split_and!; try done; [by left|by rewrite Hni].
  - intros t h Hl [e He]. destruct (Hf' t h Hl) as [_ He']. congruence.
Qed.

Lemma bien_formado_de (m : mundo A D) h0 hs :
  hilos m = h0 :: hs → cerrojos m = ∅ →
  (∀ h, h ∈ h0 :: hs → forma None (codigo h) = true ∧ error h = None) →
  iniciado h0 = true → orden (S (length hs)) (codigo h0) = true →
  (∀ h, h ∈ hs → iniciado h = false ∧ es_obrero (codigo h) = true) →
  (∀ u, 1 ≤ u ≤ length hs → arranca_a u (codigo h0) = true) →
  bien_formado m = true.
Proof.
  intros Hh Hc Hf Hi Ho Hw Ha. unfold bien_formado. rewrite Hh.
  apply andb_true_iff. split; [apply andb_true_iff; split|].
  - by apply bool_decide_eq_true.
  - apply forallb_forall. intros h Hin%list_elem_of_In.
    destruct (Hf h Hin) as [-> ->]. done.
  - cbn [length]. rewrite Hi, Ho. simpl. apply andb_true_iff. split.
    + apply forallb_forall. intros h Hin%list_elem_of_In.
      destruct (Hw h Hin) as [-> ->]. done.
    + apply forallb_forall. intros u Hin%in_seq. apply Ha. lia.
Qed.

Definition bien_formado_sano (m : mundo A D) : bool :=
  bien_formado m
  && match hilos m with
     | [] => false
     | h0 :: _ => sin_raise (codigo h0) && bool_decide (entradas (codigo h0) ≤ length (stdin m))
     end.

Lemma bien_formado_estable_sano m :
  bien_formado_sano m = true → estable_sano m.
Proof.
  intros [Hb Hs]%andb_true_iff. split; [by apply bien_formado_estable|].
  pose proof Hb as Hb'. unfold bien_formado in Hb'.
  apply andb_true_iff in Hb' as [[_ Hf]%andb_true_iff _].
  destruct (hilos m) as [|h0 hs] eqn:Hhs; [done|].
  apply andb_true_iff in Hs as [Hr Hin]. apply bool_decide_eq_true in Hin.
  exists h0. rewrite Hhs. split_and!; try done.
  simpl in Hf. apply andb_true_iff in Hf as [Hf _].
  apply andb_true_iff in Hf as [_ He]. by destruct (error h0).
Qed.

End Teoria.
End Teoria.
(** ** Conserved quantities *)

Module Cantidades.
Import Maquina Pasos Reglas Teoria.

Section Cantidades.
Context {A D : Type}.
Variable ejecutar : A → tid → nat → D → option (D * list (instr A)).
Context `{R : !reglas ejecutar}.

(** Standard input holds a line for every [input()] of the main thread. *)
Definition con_entrada (m : mundo A D) : Prop :=
  ∀ h0, hilos m !! 0 = Some h0 → entradas (codigo h0) ≤ length (stdin m).

Definition seguro (m : mundo A D) : Prop := estable ejecutar m ∧ con_entrada m.

(** Under the invariants the only exceptions are the [raise] of the code. *)
Lemma excepcion_raise t m h i r e :
  seguro m →
  hilos m !! t = Some h → iniciado h = true → codigo h = i :: r →
  excepcion_en m i e → i = Raise e.
Proof.
  intros [([Hd1 Hd2] & (h0 & H0 & Hi0 & Ho & Hw) & Hm) Hin] Hh Hi Hc Hx.
  destruct Hx as [e|l Hl|u hu Hu Hiu|u hu Hu Hiu|Hs]; simpl in *.
  - done.
  - exfalso. destruct (Hd1 t h Hh) as (o & Hf & Hlk). rewrite Hc in Hf. simpl in Hf.
    destruct o as [l0|]; [|done]. apply andb_true_iff in Hf as [Heq _].
    apply bool_decide_eq_true in Heq as ->.
    assert (cerrojos m !! l0 = Some t) by by apply Hlk. congruence.
  - exfalso. destruct (decide (t = 0)) as [->|Hne].
    + assert (h = h0) as -> by congruence. rewrite Hc in Ho, Hw. simpl in Ho.
      apply andb_true_iff in Ho as [Ho _]. apply andb_true_iff in Ho as [Ho _].
      apply andb_true_iff in Ho as [Hu0 _]. apply bool_decide_eq_true in Hu0.
      destruct (Hw u hu Hu) as (_ & Ha & _); [lia|].
      simpl in Ha. rewrite bool_decide_eq_true_2 in Ha by done.
      rewrite Ha in Hiu; done.
    + destruct (Hw t h Hh Hne) as (Hob & _). by rewrite Hc in Hob.
  - exfalso. destruct (decide (t = 0)) as [->|Hne].
    + assert (h = h0) as -> by congruence.
      assert (He0 : error h0 = None).
      { destruct (error h0) eqn:He; [|done].
        rewrite (Hm 0 h0 H0) in Hc; [done|]. by rewrite He. }
      rewrite Hc in Ho, Hw. simpl in Ho.
      apply andb_true_iff in Ho as [Ho _]. apply andb_true_iff in Ho as [Hu0 Hns].
      apply bool_decide_eq_true in Hu0. apply negb_true_iff in Hns.
      destruct (Hw u hu Hu) as (_ & _ & Hb & _); [lia|].
      destruct (Hb Hiu) as [Hb'|Hb'].
      * unfold arranca_a in *. simpl in Hb'. congruence.
      * rewrite He0 in Hb'. by destruct Hb'.
    + destruct (Hw t h Hh Hne) as (Hob & _). by rewrite Hc in Hob.
  - exfalso. destruct (decide (t = 0)) as [->|Hne].
    + specialize (Hin h Hh). rewrite Hc, Hs in Hin. simpl in Hin. lia.
    + destruct (Hw t h Hh Hne) as (Hob & _). by rewrite Hc in Hob.
Qed.

Lemma con_entrada_paso t c m m' :
  seguro m → paso ejecutar t c m = Some m' → con_entrada m'.
Proof.
  intros Hseg Hp. pose proof Hseg as [(Hd & Hq & Hm) Hin].
  apply paso_transicion in Hp as (h & i & r & Hh & Hi & Hc & Ht).
  assert (Hlen : t < length (hilos m)) by by eapply lookup_lt_Some.
  destruct Hq as (h0 & H0 & Hi0 & Ho & Hw).
  intros h0' H0'.
  destruct (decide (t = 0)) as [->|Hne].
  - assert (h = h0) as -> by congruence.
    specialize (Hin h0 H0). rewrite Hc in Hin.
    destruct Ht as [a d y Hy| |l Hfree|l v Hheld|u hu Hu Hiu|u hu Hu Hiu|s ss Hs|i e Hex];
      simpl in *.
    + rewrite list_lookup_insert_eq in H0' by done. injection H0' as <-. simpl.
      rewrite entradas_obrero; [done|]. by eapply extra_obrero.
    + rewrite list_lookup_insert_eq in H0' by done. by injection H0' as <-.
    + rewrite list_lookup_insert_eq in H0' by done. by injection H0' as <-.
    + rewrite list_lookup_insert_eq in H0' by done. by injection H0' as <-.
    + rewrite list_lookup_insert_eq in H0' by by rewrite length_insert.
      by injection H0' as <-.
    + rewrite list_lookup_insert_eq in H0' by done. by injection H0' as <-.
    + rewrite list_lookup_insert_eq in H0' by done. injection H0' as <-. simpl.
      rewrite Hs in Hin. simpl in Hin. lia.
    + rewrite list_lookup_insert_eq in H0' by done. injection H0' as <-. simpl. lia.
  - destruct (Hw t h Hh Hne) as (Hob & _). rewrite Hc in Hob.
    specialize (Hin h0 H0).
    destruct Ht as [a d y Hy| |l Hfree|l v Hheld|u hu Hu Hiu|u hu Hu Hiu|s ss Hs|i e Hex];
      simpl in *; try done;
      rewrite list_lookup_insert_ne in H0' by done; by simplify_eq.
Qed.

Lemma seguro_paso t c m m' :
  seguro m → paso ejecutar t c m = Some m' → seguro m'.
Proof.
  intros Hs Hp. split.
  - destruct Hs as [He _]. by eapply estable_paso.
  - by eapply con_entrada_paso.
Qed.

Lemma seguro_plan ds m m' :
  seguro m → ejecutar_plan ejecutar ds m = Some m' → seguro m'.
Proof. intros H Hp. eapply (plan_inv ejecutar seguro); eauto using seguro_paso. Qed.

Lemma estable_sano_seguro m : estable_sano ejecutar m → seguro m.
Proof.
  intros [He (h & Hh & _ & _ & Hin)]. split; [done|].
  intros h0 H0. by assert (h0 = h) as -> by congruence.
Qed.

Local Open Scope Z_scope.

Section Valor.

(** A quantity: [va a] is what the pending action [a] will add to it,
    [vd d] what the data hold of it.  Code behind a [raise] is dead. *)
Variables (va : A → Z) (vd : D → Z).

Fixpoint valor_codigo (c : list (instr A)) : Z :=
  match c with
  | [] => 0
  | Raise _ :: _ => 0
  | Dato a :: r => va a + valor_codigo r
  | _ :: r => valor_codigo r
  end.

Definition valor_hilos (hs : list (hilo A)) : Z :=
  foldr (λ h s, valor_codigo (codigo h) + s) 0 hs.

Definition valor (m : mundo A D) : Z := vd (datos m) + valor_hilos (hilos m).

Lemma valor_codigo_app x r :
  sin_raise x = true → valor_codigo (x ++ r) = valor_codigo x + valor_codigo r.
Proof.
  induction x as [|i x IH]; simpl; [lia|].
  intros [Hi Hx]%andb_true_iff. specialize (IH Hx). destruct i; try done; lia.
Qed.

Lemma valor_codigo_app_gen x r :
  valor_codigo (x ++ r)
  = valor_codigo x + (if sin_raise x then valor_codigo r else 0).
Proof.
  induction x as [|i x IH]; simpl; [lia|].
  destruct i; simpl; rewrite ?IH; try lia.
Qed.

Lemma valor_hilos_insert hs (t : nat) h h' :
  hs !! t = Some h →
  valor_hilos (<[t := h']> hs)
  = valor_hilos hs - valor_codigo (codigo h) + valor_codigo (codigo h').
Proof.
  revert t. induction hs as [|z hs IH]; intros [|t] Hl; simpl in *; try done.
  - injection Hl as ->. lia.
  - rewrite (IH t Hl). lia.
Qed.

(** A step keeps the quantity, provided the data action it runs, if any,
    obeys the balance, and the step is no run-time error. *)
Lemma valor_paso t c m m' h i r :
  hilos m !! t = Some h → iniciado h = true → codigo h = i :: r →
  transicion ejecutar t c m h r i m' →
  (∀ e, excepcion_en m i e → i = Raise e) →
  (∀ a d' x, i = Dato a → ejecutar a t c (datos m) = Some (d', x) →
     vd d' + valor_codigo x = vd (datos m) + va a) →
  valor m' = valor m.
Proof.
  intros Hh Hi Hc Ht Hex Hley. unfold valor.
  destruct Ht as [a d y Hy| |l Hfree|l v Hheld|u hu Hu Hiu|u hu Hu Hiu|s ss Hs|i e Hx];
    simpl;
    try (rewrite (valor_hilos_insert _ _ _ _ Hh), Hc; simpl; lia).
  - rewrite (valor_hilos_insert _ _ _ _ Hh), Hc. simpl.
    rewrite valor_codigo_app by by eapply extra_sin_raise.
    specialize (Hley a d y eq_refl Hy). lia.
  - assert (Hh' : <[u := arranca hu]> (hilos m) !! t = Some h).
    { destruct (decide (u = t)) as [->|Hne].
      - assert (hu = h) as -> by congruence. congruence.
      - by rewrite list_lookup_insert_ne. }
    rewrite (valor_hilos_insert _ _ _ _ Hh'), (valor_hilos_insert _ _ _ _ Hu), Hc.
    simpl. lia.
  - rewrite (valor_hilos_insert _ _ _ _ Hh), Hc. simpl.
    rewrite (Hex e Hx). simpl. lia.
Qed.

(** The same for a step of [paso], under the invariants. *)
Lemma valor_conservado t c m m' :
  seguro m → paso ejecutar t c m = Some m' →
  (∀ h a r d' x, hilos m !! t = Some h → iniciado h = true →
     codigo h = Dato a :: r → ejecutar a t c (datos m) = Some (d', x) →
     vd d' + valor_codigo x = vd (datos m) + va a) →
  valor m' = valor m.
Proof.
  intros Hseg Hp Hley.
  apply paso_transicion in Hp as (h & i & r & Hh & Hi & Hc & Ht).
  apply (valor_paso t c m m' h i r); try done.
  - intros e He. by eapply (excepcion_raise t m h i r e).
  - intros a d' x -> He. by eapply Hley.
Qed.

Lemma valor_hilos_vacio hs :
  (∀ (t : nat) h, hs !! t = Some h → codigo h = []) → valor_hilos hs = 0.
Proof.
  induction hs as [|h hs IH]; intros Hv; [done|]. simpl.
  rewrite (Hv 0%nat h eq_refl). simpl. apply IH. intros t h' Hl. by apply (Hv (S t)).
Qed.

Lemma valor_hilos_vacio_de hs :
  (∀ h, h ∈ hs → valor_codigo (codigo h) = 0) → valor_hilos hs = 0.
Proof.
  induction hs as [|h hs IH]; intros Hv; [done|]. simpl.
  rewrite (Hv h) by by left. rewrite IH; [done|]. intros h' Hh'. apply Hv. by right.
Qed.

End Valor.

Lemma valor_suma va (v1 v2 : D → Z) m :
  valor va (λ d, v1 d + v2 d) m = v1 (datos m) + valor va v2 m.
Proof. unfold valor. lia. Qed.

(** Does the code, up to its first [raise], hold an action that satisfies
    [p]? *)
Fixpoint tiene (p : A → bool) (c : list (instr A)) : bool :=
  match c with
  | [] => false
  | Raise _ :: _ => false
  | Dato a :: r => p a || tiene p r
  | _ :: r => tiene p r
  end.

Lemma tiene_app p x r :
  sin_raise x = true → tiene p (x ++ r) = tiene p x || tiene p r.
Proof.
  induction x as [|i x IH]; simpl; [done|].
  intros [Hi Hx]%andb_true_iff. specialize (IH Hx). destruct i; try done.
  by rewrite IH, orb_assoc.
Qed.

Section Fases.

(** A quantity with a part [vr] of the data that the main thread resets
    ([reinicia]) before the work starts, and a part [ve] that it does not.
    [toca a]: running [a] may change [vr], now or through the code it
    loads. *)
Variables (va : A → Z) (vr ve : D → Z) (reinicia toca : A → bool) (C : Z).

(** In the main thread no reset follows an action that touches. *)
Fixpoint orden_fases (c : list (instr A)) : bool :=
  match c with
  | [] => true
  | Raise _ :: _ => true
  | Dato a :: r => (if toca a then negb (tiene reinicia r) else true) && orden_fases r
  | _ :: r => orden_fases r
  end.

(** In the main thread no reset follows the start of thread [u]. *)
Fixpoint tardio (u : tid) (c : list (instr A)) : bool :=
  match c with
  | [] => true
  | Raise _ :: _ => true
  | Start v :: r =>
      (if bool_decide (v = u) then negb (tiene reinicia r) else true) && tardio u r
  | _ :: r => tardio u r
  end.

(** While a reset is pending the quantity without [vr] is [C]; afterwards
    the whole quantity is [C]. *)
Definition fases (m : mundo A D) : Prop :=
  ∃ h0, hilos m !! 0%nat = Some h0 ∧ orden_fases (codigo h0) = true
    ∧ (∀ u hu, u ≠ 0%nat → hilos m !! u = Some hu →
         tiene reinicia (codigo hu) = false
         ∧ (tiene reinicia (codigo h0) = true →
              tiene toca (codigo hu) = false
              ∨ (iniciado hu = false ∧ tardio u (codigo h0) = true)))
    ∧ (if tiene reinicia (codigo h0) then valor va ve m = C
       else valor va (λ d, vr d + ve d) m = C).

Hypothesis extra_fases : ∀ a t c d d' x,
  ejecutar a t c d = Some (d', x) →
  tiene reinicia x = false ∧ (toca a = false → tiene toca x = false).

Hypothesis ley_reinicia : ∀ a t c d d' x,
  reinicia a = true → ejecutar a t c d = Some (d', x) →
  vr d' = 0 ∧ ve d' = ve d ∧ x = [] ∧ va a = 0.

Hypothesis ley_neutra : ∀ a t c d d' x,
  reinicia a = false → toca a = false → ejecutar a t c d = Some (d', x) →
  vr d' = vr d ∧ ve d' + valor_codigo va x = ve d + va a.

Lemma orden_fases_app x r :
  sin_raise x = true → tiene reinicia x = false →
  (tiene toca x = true → tiene reinicia r = false) →
  orden_fases r = true → orden_fases (x ++ r) = true.
Proof.
  induction x as [|i x IH]; simpl; [done|].
  intros [Hi Hx]%andb_true_iff Hr Ht Hor.
  destruct i as [a| |l|l|u|u| |e]; try (by apply IH); [|done].
  apply orb_false_iff in Hr as [Hra Hrx].
  apply andb_true_iff. split.
  - destruct (toca a) eqn:Hta; [|done]. rewrite tiene_app by done.
    rewrite Hrx, Ht; [done|]. done.
  - apply IH; try done. intros Htx. apply Ht. rewrite Htx. apply orb_true_r.
Qed.

Lemma tardio_obrero u x r :
  es_obrero x = true → sin_raise x = true → tardio u (x ++ r) = tardio u r.
Proof.
  induction x as [|i x IH]; simpl; [done|].
  intros [Hi Hx]%andb_true_iff [Hi' Hx']%andb_true_iff.
  destruct i; try done; by apply IH.
Qed.

Lemma valor_cola vd m (t : nat) h i r cs st :
  hilos m !! t = Some h → codigo h = i :: r →
  (∀ a, i ≠ Dato a) → (∀ e, i ≠ Raise e) →
  valor va vd (Mundo (<[t := sigue h r]> (hilos m)) cs st (datos m)) = valor va vd m.
Proof.
  intros Hh Hc Hd Hr. unfold valor. simpl.
  rewrite (valor_hilos_insert _ _ _ _ _ Hh), Hc. simpl.
  destruct i; try lia; [by destruct (Hd a)|by destruct (Hr e)].
Qed.

Lemma fases_cola m (t : nat) h i r cs st :
  fases m → hilos m !! t = Some h → codigo h = i :: r →
  (∀ a, i ≠ Dato a) → (∀ e, i ≠ Raise e) → (∀ u, i ≠ Start u) →
  fases (Mundo (<[t := sigue h r]> (hilos m)) cs st (datos m)).
Proof.
  intros (h0 & H0 & Hof & Hw & Hval) Hh Hc Hd Hr Hs.
  assert (Hlen : (t < length (hilos m))%nat) by by eapply lookup_lt_Some.
  assert (Htl : ∀ p, tiene p (i :: r) = tiene p r).
  { intros p. destruct i; try done; [by destruct (Hd a)|by destruct (Hr e)]. }
  assert (Hol : orden_fases (i :: r) = orden_fases r).
  { destruct i; try done; [by destruct (Hd a)|by destruct (Hr e)]. }
  assert (Htd : ∀ u, tardio u (i :: r) = tardio u r).
  { intros u. destruct i; try done; [by destruct (Hs u0)|by destruct (Hr e)]. }
  rewrite <- (valor_cola ve m t h i r cs st Hh Hc Hd Hr) in Hval.
  rewrite <- (valor_cola (λ d, vr d + ve d) m t h i r cs st Hh Hc Hd Hr) in Hval.
  destruct (decide (t = 0%nat)) as [->|Hne].
  - assert (h = h0) as -> by congruence. rewrite Hc in Hof, Hw, Hval.
    rewrite Hol in Hof. rewrite Htl in Hval.
    exists (sigue h0 r). simpl. split_and!; try done.
    + by rewrite list_lookup_insert_eq.
    + intros u hu Hu0 Hu. rewrite list_lookup_insert_ne in Hu by done.
      destruct (Hw u hu Hu0 Hu) as [Hru Himp]. rewrite Htl, Htd in Himp. done.
  - destruct (Hw t h Hne Hh) as [Hrt Himp]. rewrite Hc in Hrt, Himp.
    rewrite Htl in Hrt, Himp.
    exists h0. simpl. split_and!; try done.
    + by rewrite list_lookup_insert_ne.
    + intros u hu Hu0 Hu. destruct (decide (u = t)) as [->|Hut].
      * rewrite list_lookup_insert_eq in Hu by done. injection Hu as <-. simpl.
        split; [done|]. intros Hp. destruct (Himp Hp) as [?|[? ?]]; [by left|].
        right. done.
      * rewrite list_lookup_insert_ne in Hu by done. by apply Hw.
Qed.

Lemma fases_paso t c m m' :
  seguro m → fases m → paso ejecutar t c m = Some m' →
  (∀ h a r d' x, hilos m !! t = Some h → iniciado h = true →
     codigo h = Dato a :: r → toca a = true → reinicia a = false →
     ejecutar a t c (datos m) = Some (d', x) →
     vr d' + ve d' + valor_codigo va x = vr (datos m) + ve (datos m) + va a) →
  fases m'.
Proof.
  intros Hseg Hf Hp Htoca. pose proof Hf as (h0 & H0 & Hof & Hw & Hval).
  pose proof Hseg as [(Hd & Hq & Hm) Hin].
  apply paso_transicion in Hp as (h & i & r & Hh & Hi & Hc & Ht).
  assert (Hlen : (t < length (hilos m))%nat) by by eapply lookup_lt_Some.
  assert (Hex : ∀ e, excepcion_en m i e → i = Raise e)
    by (intros e He; by eapply (excepcion_raise t m h i r e)).
  assert (Hi0 : iniciado h0 = true).
  { destruct Hq as (h0' & H0' & Hi0' & _). congruence. }
  assert (Hobr : t ≠ 0%nat → es_obrero (i :: r) = true).
  { intros Hne. destruct Hq as (h0' & H0' & _ & _ & Hw').
    destruct (Hw' t h Hh Hne) as (Hob & _). by rewrite Hc in Hob. }
  (* steps that run no data action keep both quantities *)
  assert (Hcons : ∀ vd, (∀ a, i ≠ Dato a) → valor va vd m' = valor va vd m).
  { intros vd Hnd. apply (valor_paso va vd t c m m' h i r); try done.
    intros a d' x ->. by destruct (Hnd a). }
  destruct Ht as [a d x He| |l Hfree|l v Hheld|u hu Hu Hiu|u hu Hu Hiu|s ss Hs|i e Hx].
  - (* a data action *)
    clear Hcons.
    destruct (extra_fases _ _ _ _ _ _ He) as [Hxr Hxt].
    pose proof (extra_sin_raise _ _ _ _ _ _ He) as Hxs.
    pose proof (extra_obrero _ _ _ _ _ _ He) as Hxo.
    assert (Hv1 : reinicia a = true ∨ toca a = false →
              valor va ve (Mundo (<[t:=sigue h (x ++ r)]> (hilos m)) (cerrojos m)
                             (stdin m) d) = valor va ve m).
    { intros Hcase. eapply (valor_paso va ve t c m _ h (Dato a) r); try done.
      - by constructor.
      - intros a' d' x' [= <-] He'. rewrite He in He'. injection He' as <- <-.
        destruct (reinicia a) eqn:Hra.
        + destruct (ley_reinicia _ _ _ _ _ _ Hra He) as (_ & Hve & -> & Hva).
          simpl. lia.
        + destruct Hcase as [?|Hta]; [done|].
          destruct (ley_neutra _ _ _ _ _ _ Hra Hta He) as (_ & Hve). lia. }
    assert (Hv2 : reinicia a = false →
              valor va (λ d, vr d + ve d)
                (Mundo (<[t:=sigue h (x ++ r)]> (hilos m)) (cerrojos m) (stdin m) d)
              = valor va (λ d, vr d + ve d) m).
    { intros Hra. eapply (valor_paso va _ t c m _ h (Dato a) r); try done.
      - by constructor.
      - intros a' d' x' [= <-] He'. rewrite He in He'. injection He' as <- <-.
        destruct (toca a) eqn:Hta.
        + pose proof (Htoca h a r d x Hh Hi Hc Hta Hra He). lia.
        + destruct (ley_neutra _ _ _ _ _ _ Hra Hta He) as (Hvr & Hve). lia. }
    destruct (decide (t = 0%nat)) as [->|Hne].
    + assert (h = h0) as -> by congruence. rewrite Hc in Hof, Hw, Hval.
      simpl in Hof, Hw, Hval. apply andb_true_iff in Hof as [Hof1 Hof2].
      exists (sigue h0 (x ++ r)). simpl.
      rewrite tiene_app, Hxr by done. simpl.
      split_and!.
      * by rewrite list_lookup_insert_eq.
      * apply orden_fases_app; try done. intros Htx.
        destruct (toca a) eqn:Hta; [by apply negb_true_iff in Hof1|].
        rewrite Hxt in Htx; done.
      * intros u hu Hu0 Hu. rewrite list_lookup_insert_ne in Hu by done.
        destruct (Hw u hu Hu0 Hu) as [Hru Himp]. split; [done|].
        intros Hr. rewrite tardio_obrero by done.
        apply Himp. rewrite Hr. apply orb_true_r.
      * destruct (reinicia a) eqn:Hra; simpl in Hval.
        -- destruct (ley_reinicia _ _ _ _ _ _ Hra He) as (Hvr & Hve & -> & Hva).
           specialize (Hv1 (or_introl eq_refl)). simpl in Hv1. simpl.
           destruct (tiene reinicia r); [congruence|].
           rewrite valor_suma. simpl. lia.
        -- specialize (Hv2 eq_refl).
           destruct (tiene reinicia r) eqn:Hrr; [|congruence].
           destruct (toca a) eqn:Hta; [done|].
           rewrite Hv1; [done|by right].
    + pose proof (Hobr Hne) as Hob.
      destruct (Hw t h Hne Hh) as [Hrt Himp]. rewrite Hc in Hrt, Himp.
      simpl in Hrt, Himp. apply orb_false_iff in Hrt as [Hra Hrr].
      exists h0. simpl.
      split_and!.
      * by rewrite list_lookup_insert_ne.
      * done.
      * intros u hu Hu0 Hu. destruct (decide (u = t)) as [->|Hut].
        -- rewrite list_lookup_insert_eq in Hu by done. injection Hu as <-. simpl.
           rewrite !tiene_app, Hxr, Hrr by done. split; [done|].
           intros Hr. left. destruct (Himp Hr) as [Hl|[Hl _]]; [|congruence].
           apply orb_false_iff in Hl as [Hta Htr]. by rewrite Hxt, Htr.
        -- rewrite list_lookup_insert_ne in Hu by done. by apply Hw.
      * destruct (tiene reinicia (codigo h0)) eqn:Hr0.
        -- rewrite Hv1; [done|]. right.
           destruct (Himp eq_refl) as [Hl|[Hl _]]; [|congruence].
           by apply orb_false_iff in Hl as [Hta _].
        -- by rewrite Hv2.
  - by eapply fases_cola.
  - by eapply fases_cola.
  - by eapply fases_cola.
  - (* Start *)
    destruct (decide (t = 0%nat)) as [->|Hne]; [|by pose proof (Hobr Hne)].
    assert (h = h0) as -> by congruence. rewrite Hc in Hof, Hw, Hval.
    simpl in Hof, Hw, Hval.
    assert (Hu0 : u ≠ 0%nat) by (intros ->; congruence).
    rewrite <- !Hcons in Hval by done.
    exists (sigue h0 r). simpl. split_and!; try done.
    + rewrite list_lookup_insert_eq; [done|]. by rewrite length_insert.
    + intros v hv Hv0 Hv. rewrite list_lookup_insert_ne in Hv by done.
      destruct (decide (v = u)) as [->|Hvu].
      * rewrite list_lookup_insert_eq in Hv by by eapply lookup_lt_Some.
        injection Hv as <-. simpl.
        destruct (Hw u hu Hu0 Hu) as [Hru Himp]. split; [done|].
        intros Hp. destruct (Himp Hp) as [?|[_ Htd]]; [by left|].
        rewrite bool_decide_eq_true_2 in Htd by done. rewrite Hp in Htd. done.
      * rewrite list_lookup_insert_ne in Hv by done.
        destruct (Hw v hv Hv0 Hv) as [Hrv Himp]. split; [done|].
        intros Hp. destruct (Himp Hp) as [?|[? Htd]]; [by left|]. right.
        split; [done|]. by apply andb_true_iff in Htd as [_ ?].
  - by eapply fases_cola.
  - by eapply fases_cola.
  - (* an exception *)
    pose proof (Hex e Hx) as ->.
    destruct (decide (t = 0%nat)) as [->|Hne].
    + assert (h = h0) as -> by congruence. rewrite Hc in Hof, Hw, Hval.
      simpl in Hof, Hw, Hval.
      rewrite <- !Hcons in Hval by done.
      exists (falla_con h0 e). simpl. split_and!; try done.
      * by rewrite list_lookup_insert_eq.
      * intros u hu Hu0 Hu. rewrite list_lookup_insert_ne in Hu by done.
        destruct (Hw u hu Hu0 Hu) as [Hru Himp]. done.
    + rewrite <- !Hcons in Hval by done.
      exists h0. simpl. split_and!; try done.
      * by rewrite list_lookup_insert_ne.
      * intros u hu Hu0 Hu. destruct (decide (u = t)) as [->|Hut].
        -- rewrite list_lookup_insert_eq in Hu by done. injection Hu as <-. simpl.
           split; [done|]. by left.
        -- rewrite list_lookup_insert_ne in Hu by done. by apply Hw.
Qed.

(** The constant of [fases] in a first state, and the checks that
    establish it. *)
Definition valor_fases (m : mundo A D) : Z :=
  match hilos m with
  | [] => 0
  | h0 :: _ =>
      if tiene reinicia (codigo h0) then valor va ve m
      else valor va (λ d, vr d + ve d) m
  end.

Definition revisa_obrero (c0 : list (instr A)) (u : tid) (hu : hilo A) : bool :=
  negb (tiene reinicia (codigo hu))
  && (negb (tiene toca (codigo hu)) || (negb (iniciado hu) && tardio u c0)).

End Fases.

Definition revisa_fases reinicia toca (m : mundo A D) : bool :=
  match hilos m with
  | [] => false
  | h0 :: hs =>
      orden_fases reinicia toca (codigo h0)
      && forallb (λ p, revisa_obrero reinicia toca (codigo h0) (S p.1) p.2)
           (imap pair hs)
  end.

Lemma fases_inicial va vr ve reinicia toca (m : mundo A D) h0 hs :
  hilos m = h0 :: hs →
  orden_fases reinicia toca (codigo h0) = true →
  (∀ u hu, hs !! u = Some hu →
     revisa_obrero reinicia toca (codigo h0) (S u) hu = true) →
  fases va vr ve reinicia toca (valor_fases va vr ve reinicia m) m.
Proof.
  intros Hh Ho Hw. exists h0. rewrite Hh. split_and!; try done.
  - intros [|u] hu Hu0 Hu; [done|]. simpl in Hu. specialize (Hw u hu Hu).
    apply andb_true_iff in Hw as [Hr Ht]. apply negb_true_iff in Hr.
    split; [done|]. intros _.
    apply orb_true_iff in Ht as [Ht|Ht].
    + left. by apply negb_true_iff in Ht.
    + right. apply andb_true_iff in Ht as [Hi Htd].
      by apply negb_true_iff in Hi.
  - unfold valor_fases. rewrite Hh. by destruct (tiene reinicia (codigo h0)).
Qed.

Lemma fases_revisada va vr ve reinicia toca (m : mundo A D) :
  revisa_fases reinicia toca m = true →
  fases va vr ve reinicia toca (valor_fases va vr ve reinicia m) m.
Proof.
  unfold revisa_fases. destruct (hilos m) as [|h0 hs] eqn:Hh; [done|].
  intros [Ho Hw]%andb_true_iff. eapply fases_inicial; try done.
  intros u hu Hu. rewrite forallb_forall in Hw.
  apply (Hw (u, hu)). apply list_elem_of_In, elem_of_lookup_imap. eauto.
Qed.

(** When the main thread has returned, every thread is over. *)
Lemma fin_quieto (m : mundo A D) h0 :
  horquilla m → hilos m !! 0%nat = Some h0 → codigo h0 = [] → error h0 = None →
  ∀ (t : nat) h, hilos m !! t = Some h → codigo h = [].
Proof.
  intros (h0' & H0' & Hi0 & Ho & Hw) H0 Hc He t h Hh.
  assert (h0' = h0) as -> by congruence.
  destruct (decide (t = 0%nat)) as [->|Hne]; [congruence|].
  destruct (Hw t h Hh Hne) as (_ & _ & Hb & Hc').
  rewrite Hc, He in Hb, Hc'. simpl in Hb, Hc'.
  destruct (iniciado h) eqn:Hi.
  - destruct (Hc' eq_refl) as [?|[Ht|[? ?]]]; try done.
    unfold terminado in Ht. rewrite Hi in Ht. simpl in Ht.
    by destruct (codigo h).
  - destruct (Hb eq_refl) as [?|[? ?]]; done.
Qed.

End Cantidades.
End Cantidades.
(** ** End of input, reports after the joins, runs that end well *)

Module Generico.
Import Maquina Pasos Reglas Teoria Cantidades.

Section Generico.
Context {A D : Type}.
Variable ejecutar : A → tid → nat → D → option (D * list (instr A)).
Context `{R : !reglas ejecutar}.

Lemma entradas_app (x r : list (instr A)) :
  entradas (x ++ r) = entradas x + entradas r.
Proof. induction x as [|i x IH]; simpl; [done|]. destruct i; simpl; lia. Qed.

(** A step, seen from the threads: the thread that steps runs a data
    action, or another instruction that leaves the data, or dies; the
    other threads keep their code. *)
Lemma paso_resumen t c (m m' : mundo A D) :
  paso ejecutar t c m = Some m' →
  ∃ h i r h',
    hilos m !! t = Some h ∧ iniciado h = true ∧ codigo h = i :: r
    ∧ hilos m' !! t = Some h'
    ∧ length (hilos m') = length (hilos m)
    ∧ (∀ u hu', u ≠ t → hilos m' !! u = Some hu' →
         ∃ hu, hilos m !! u = Some hu ∧ codigo hu' = codigo hu
               ∧ error hu' = error hu
               ∧ (iniciado hu = true → iniciado hu' = true))
    ∧ ((∃ a x, i = Dato a ∧ ejecutar a t c (datos m) = Some (datos m', x)
               ∧ h' = sigue h (x ++ r))
       ∨ ((∀ a, i ≠ Dato a) ∧ datos m' = datos m
          ∧ ((h' = sigue h r ∧ ∀ e, i ≠ Raise e) ∨ ∃ e, h' = falla_con h e))).
Proof.
  intros Hp. apply paso_transicion in Hp as (h & i & r & Hh & Hi & Hc & Ht).
  assert (Hlen : t < length (hilos m)) by by eapply lookup_lt_Some.
  exists h, i, r.
  destruct Ht as [a d x He| |l Hfree|l v Hheld|u hu Hu Hiu|u hu Hu Hiu
                  |s ss Hs'|i e Hx]; simpl.
  - exists (sigue h (x ++ r)). rewrite list_lookup_insert_eq, length_insert by done.
    split_and!; try done.
    + intros u hu' Hne Hl. rewrite list_lookup_insert_ne in Hl by done. eauto.
    + left. eauto.
  - exists (sigue h r). rewrite list_lookup_insert_eq, length_insert by done.
    split_and!; try done.
    + intros u hu' Hne Hl. rewrite list_lookup_insert_ne in Hl by done. eauto.
    + right. split_and!; try done. by left.
  - exists (sigue h r). rewrite list_lookup_insert_eq, length_insert by done.
    split_and!; try done.
    + intros u hu' Hne Hl. rewrite list_lookup_insert_ne in Hl by done. eauto.
    + right. split_and!; try done. by left.
  - exists (sigue h r). rewrite list_lookup_insert_eq, length_insert by done.
    split_and!; try done.
    + intros u hu' Hne Hl. rewrite list_lookup_insert_ne in Hl by done. eauto.
    + right. split_and!; try done. by left.
  - exists (sigue h r).
    rewrite list_lookup_insert_eq, !length_insert by (by rewrite length_insert).
    split_and!; try done.
    + intros u' hu' Hne Hl. rewrite list_lookup_insert_ne in Hl by done.
      apply list_lookup_insert_Some in Hl as [(<- & <- & _)|(_ & Hl)]; [|eauto].
      exists hu. split_and!; done.
    + right. split_and!; try done. by left.
  - exists (sigue h r). rewrite list_lookup_insert_eq, length_insert by done.
    split_and!; try done.
    + intros u' hu' Hne Hl. rewrite list_lookup_insert_ne in Hl by done. eauto.
    + right. split_and!; try done. by left.
  - exists (sigue h r). rewrite list_lookup_insert_eq, length_insert by done.
    split_and!; try done.
    + intros u hu' Hne Hl. rewrite list_lookup_insert_ne in Hl by done. eauto.
    + right. split_and!; try done. by left.
  - exists (falla_con h e). rewrite list_lookup_insert_eq, length_insert by done.
    split_and!; try done.
    + intros u hu' Hne Hl. rewrite list_lookup_insert_ne in Hl by done. eauto.
    + right. split_and!; [by intros a ->; inversion Hx|done|]. right. eauto.
Qed.

Lemma plan_length ds (m m' : mundo A D) :
  ejecutar_plan ejecutar ds m = Some m' → length (hilos m') = length (hilos m).
Proof.
  revert m. induction ds as [|d ds IH]; intros m Hp; simpl in Hp.
  - by injection Hp as <-.
  - destruct (paso ejecutar (quien d) (elige d) m) as [m1|] eqn:H1; simpl in Hp; [|done].
    rewrite (IH m1 Hp).
    by apply paso_resumen in H1 as (? & ? & ? & ? & _ & _ & _ & _ & ? & _).
Qed.



(** *** Standard input at end of file *)

(** Standard input is empty and the main thread still has an [input()]
    to run, or an exception has ended it. *)
Definition sin_entrada (m : mundo A D) : Prop :=
  stdin m = []
  ∧ ∃ h0, hilos m !! 0 = Some h0
      ∧ (is_Some (error h0) ∨ 0 < entradas (codigo h0)).

Lemma sin_entrada_paso t c m m' :
  sin_entrada m → paso ejecutar t c m = Some m' → sin_entrada m'.
Proof.
  intros [Hs (h0 & H0 & Hor)] Hp.
  apply paso_transicion in Hp as (h & i & r & Hh & Hi & Hc & Ht).
  assert (Hlen : t < length (hilos m)) by by eapply lookup_lt_Some.
  split.
  - destruct Ht; simpl; try done. congruence.
  - destruct (decide (t = 0)) as [->|Hne].
    + assert (h = h0) as -> by congruence.
      assert (Hcola : ∀ x, i ≠ Input →
                is_Some (error (sigue h0 (x ++ r)))
                ∨ 0 < entradas (codigo (sigue h0 (x ++ r)))).
      { intros x Hi'. destruct Hor as [?|Hent]; [by left|]. right. simpl.
        rewrite Hc in Hent. rewrite entradas_app.
        destruct i; simpl in Hent; try lia. done. }
      destruct Ht as [a d x He| |l Hfree|l v Hheld|u hu Hu Hiu|u hu Hu Hiu
                      |s ss Hs'|i e Hx]; simpl.
      * exists (sigue h0 (x ++ r)). rewrite list_lookup_insert_eq by done.
        split; [done|]. by apply Hcola.
      * exists (sigue h0 r). rewrite list_lookup_insert_eq by done.
        split; [done|]. by apply (Hcola []).
      * exists (sigue h0 r). rewrite list_lookup_insert_eq by done.
        split; [done|]. by apply (Hcola []).
      * exists (sigue h0 r). rewrite list_lookup_insert_eq by done.
        split; [done|]. by apply (Hcola []).
      * exists (sigue h0 r).
        rewrite list_lookup_insert_eq by (by rewrite length_insert).
        split; [done|]. by apply (Hcola []).
      * exists (sigue h0 r). rewrite list_lookup_insert_eq by done.
        split; [done|]. by apply (Hcola []).
      * congruence.
      * exists (falla_con h0 e). rewrite list_lookup_insert_eq by done.
        split; [done|]. left. by eexists.
    + assert (Hmain : ∀ hs : list (hilo A),
                hs !! 0 = Some h0 ∨ (∃ hu, hs !! 0 = Some (arranca hu)
                                       ∧ error hu = error h0 ∧ codigo hu = codigo h0) →
                ∀ h', ∃ h0', <[t := h']> hs !! 0 = Some h0'
                  ∧ (is_Some (error h0') ∨ 0 < entradas (codigo h0'))).
      { intros hs Hhs h'. rewrite list_lookup_insert_ne by done.
        destruct Hhs as [Hhs|(hu & Hhs & He & Hcu)].
        - by exists h0.
        - exists (arranca hu). split; [done|]. simpl. by rewrite He, Hcu. }
      destruct Ht as [a d x He| |l Hfree|l v Hheld|u hu Hu Hiu|u hu Hu Hiu
                      |s ss Hs'|i e Hx]; simpl; try (apply Hmain; by left).
      apply Hmain. destruct (decide (u = 0)) as [->|Hu0].
      * right. exists hu. rewrite list_lookup_insert_eq by by eapply lookup_lt_Some.
        split; [done|]. split; congruence.
      * left. by rewrite list_lookup_insert_ne.
Qed.

Lemma sin_entrada_plan ds m m' :
  sin_entrada m → ejecutar_plan ejecutar ds m = Some m' → sin_entrada m'.
Proof.
  intros H Hp. eapply (plan_inv ejecutar sin_entrada); eauto using sin_entrada_paso.
Qed.

(** At end of file the process does not end with status 0. *)
Lemma sin_entrada_salida m : sin_entrada m → codigo_salida m ≠ Some 0.
Proof.
  intros [_ (h0 & H0 & Hor)]. unfold codigo_salida. rewrite H0. simpl.
  unfold terminado. destruct (iniciado h0); simpl; [|done].
  destruct (codigo h0) eqn:Hc; simpl; [|done].
  destruct Hor as [[e ->]|?]; [done|]. simpl in *. lia.
Qed.

(** The main thread has returned. *)
Lemma salida_cero (m : mundo A D) :
  codigo_salida m = Some 0 →
  fin_principal m = true
  ∧ ∃ h0, hilos m !! 0 = Some h0 ∧ codigo h0 = [] ∧ error h0 = None.
Proof.
  unfold codigo_salida, fin_principal. destruct (hilos m !! 0) as [h0|]; [|done].
  simpl. destruct (terminado h0) eqn:Ht; [|done]. intros He.
  split; [done|]. exists h0. split_and!; [done| |].
  - unfold terminado in Ht. apply andb_true_iff in Ht as [_ Hv].
    by destruct (codigo h0).
  - by destruct (error h0).
Qed.

(** *** Reports *)

Section Informes.

(** [informe a]: the action prints a part of the final report. *)
Variable informe : A → bool.

Hypothesis extra_informe : ∀ a t c d d' x,
  ejecutar a t c d = Some (d', x) → tiene informe x = false.

(** In the main thread of a process of [n] threads, every thread still
    to be joined after a report is still to be started after it. *)
Fixpoint informe_ok (n : nat) (c : list (instr A)) : bool :=
  match c with
  | [] => true
  | Raise _ :: _ => true
  | Dato a :: r =>
      (if informe a
       then forallb (λ u, implb (espera_a u r) (arranca_a u r)) (seq 0 n)
       else true)
      && informe_ok n r
  | _ :: r => informe_ok n r
  end.

Definition informes (m : mundo A D) : Prop :=
  ∃ h0, hilos m !! 0 = Some h0
    ∧ informe_ok (length (hilos m)) (codigo h0) = true
    ∧ ∀ u hu, u ≠ 0 → hilos m !! u = Some hu → tiene informe (codigo hu) = false.

Lemma tiene_falso_app (p : A → bool) (x r : list (instr A)) :
  tiene p x = false → tiene p r = false → tiene p (x ++ r) = false.
Proof.
  intros Hx Hr. induction x as [|i x IH]; [done|]. simpl in *.
  destruct i; auto. apply orb_false_iff in Hx as [-> Hx]. simpl. auto.
Qed.

Lemma tiene_falso_cola (p : A → bool) (i : instr A) r :
  tiene p (i :: r) = false → (∀ e, i ≠ Raise e) → tiene p r = false.
Proof.
  destruct i; simpl; auto.
  - by intros [_ ?]%orb_false_iff.
  - intros _ H. by destruct (H e).
Qed.

Lemma informe_ok_app n x r :
  tiene informe x = false → informe_ok n r = true → informe_ok n (x ++ r) = true.
Proof.
  intros Hx Hr. induction x as [|i x IH]; [done|]. simpl in *.
  destruct i; auto. apply orb_false_iff in Hx as [-> Hx]. simpl. auto.
Qed.

Lemma informe_ok_cola n i r :
  informe_ok n (i :: r) = true → (∀ e, i ≠ Raise e) → informe_ok n r = true.
Proof.
  destruct i; simpl; auto.
  - by intros [_ ?]%andb_true_iff.
  - intros _ H. by destruct (H e).
Qed.

Lemma informes_paso t c m m' :
  informes m → paso ejecutar t c m = Some m' → informes m'.
Proof.
  intros (h0 & H0 & Hok & Hw) Hp.
  apply paso_transicion in Hp as (h & i & r & Hh & Hi & Hc & Ht).
  assert (Hlen : t < length (hilos m)) by by eapply lookup_lt_Some.
  (* the code of the stepping thread afterwards *)
  assert (Hcod : ∃ h', (∀ hs, length hs = length (hilos m) → hilos m' = <[t := h']> hs
                          → True)
             ∧ (t = 0 → informe_ok (length (hilos m)) (codigo h') = true)
             ∧ (t ≠ 0 → tiene informe (codigo h') = false)
             ∧ ∃ hs, hilos m' = <[t := h']> hs ∧ length hs = length (hilos m)
                 ∧ ∀ u hu, u ≠ t → hs !! u = Some hu →
                     ∃ hu', hilos m !! u = Some hu' ∧ codigo hu = codigo hu').
  { assert (Hr0 : (∀ e', i ≠ Raise e') →
              (t = 0 → informe_ok (length (hilos m)) r = true)
              ∧ (t ≠ 0 → tiene informe r = false)).
    { intros Hi'. split.
      - intros ->. assert (h = h0) as -> by congruence. rewrite Hc in Hok.
        by eapply informe_ok_cola.
      - intros Hne. pose proof (Hw t h Hne Hh) as Hti. rewrite Hc in Hti.
        by eapply tiene_falso_cola. }
    destruct Ht as [a d x He| |l Hfree|l v Hheld|u hu Hu Hiu|u hu Hu Hiu
                    |s ss Hs'|i e Hx]; simpl.
    - destruct Hr0 as [H1 H2]; [done|].
      exists (sigue h (x ++ r)). split_and!; [done| | |].
      + intros Ht0. simpl. apply informe_ok_app; [by eapply extra_informe|auto].
      + intros Hne. simpl. apply tiene_falso_app; [by eapply extra_informe|auto].
      + exists (hilos m). split_and!; eauto.
    - destruct Hr0 as [H1 H2]; [done|].
      exists (sigue h r). split_and!; [done|auto|auto|].
      exists (hilos m). split_and!; eauto.
    - destruct Hr0 as [H1 H2]; [done|].
      exists (sigue h r). split_and!; [done|auto|auto|].
      exists (hilos m). split_and!; eauto.
    - destruct Hr0 as [H1 H2]; [done|].
      exists (sigue h r). split_and!; [done|auto|auto|].
      exists (hilos m). split_and!; eauto.
    - destruct Hr0 as [H1 H2]; [done|].
      exists (sigue h r). split_and!; [done|auto|auto|].
      exists (<[u := arranca hu]> (hilos m)). split_and!; [done|by rewrite length_insert|].
      intros u' hu' Hu' Hl.
      apply list_lookup_insert_Some in Hl as [(<- & <- & _)|(_ & Hl)]; eauto.
    - destruct Hr0 as [H1 H2]; [done|].
      exists (sigue h r). split_and!; [done|auto|auto|].
      exists (hilos m). split_and!; eauto.
    - destruct Hr0 as [H1 H2]; [done|].
      exists (sigue h r). split_and!; [done|auto|auto|].
      exists (hilos m). split_and!; eauto.
    - exists (falla_con h e). split_and!; [done|done|done|].
      exists (hilos m). split_and!; eauto. }
  destruct Hcod as (h' & _ & Hm0 & Hmw & hs & Hhs & Hlhs & Hotros).
  unfold informes. rewrite Hhs, length_insert, Hlhs.
  destruct (decide (t = 0)) as [->|Hne].
  - exists h'. rewrite list_lookup_insert_eq by lia.
    split_and!; [done|auto|].
    intros u hu Hu Hl. rewrite list_lookup_insert_ne in Hl by done.
    destruct (Hotros u hu Hu Hl) as (hu' & Hl' & ->). eauto.
  - destruct (lookup_lt_is_Some_2 hs 0) as [h0' H0'];
      [rewrite Hlhs; by eapply lookup_lt_Some|].
    destruct (Hotros 0 h0' (not_eq_sym Hne) H0') as (h0'' & H0'' & Hc0).
    assert (h0'' = h0) as -> by congruence.
    exists h0'. rewrite list_lookup_insert_ne by done.
    rewrite Hc0. split_and!; [done|done|].
    intros u hu Hu Hl.
    apply list_lookup_insert_Some in Hl as [(<- & <- & _)|(Hut & Hl)]; [auto|].
    destruct (Hotros u hu (not_eq_sym Hut) Hl) as (hu' & Hl'' & ->). eauto.
Qed.

Lemma informes_plan ds m m' :
  informes m → ejecutar_plan ejecutar ds m = Some m' → informes m'.
Proof.
  intros H Hp. eapply (plan_inv ejecutar informes); eauto using informes_paso.
Qed.

(** When a report is about to be printed, the main thread prints it and
    every thread that was started is over. *)
Lemma informe_unidos m t h a r :
  horquilla m → muertos m → informes m →
  hilos m !! t = Some h → codigo h = Dato a :: r → informe a = true →
  t = 0 ∧ ∀ u hu, u ≠ 0 → hilos m !! u = Some hu → iniciado hu = true →
            terminado hu = true.
Proof.
  intros (h0 & H0 & Hi0 & Ho & Hq) Hm (h0' & H0' & Hok & Hw) Hh Hc Ha.
  assert (h0' = h0) as -> by congruence.
  assert (t = 0) as ->.
  { destruct (decide (t = 0)) as [|Hne]; [done|].
    pose proof (Hw t h Hne Hh) as Hti. rewrite Hc in Hti. simpl in Hti.
    by rewrite Ha in Hti. }
  split; [done|]. assert (h = h0) as -> by congruence.
  intros u hu Hu Hl Hi. destruct (Hq u hu Hl Hu) as (_ & Harr & _ & Hesp).
  rewrite Hc in Hok. simpl in Hok. rewrite Ha in Hok.
  apply andb_true_iff in Hok as [Hall _]. rewrite forallb_forall in Hall.
  assert (Hin : In u (seq 0 (length (hilos m)))).
  { apply in_seq. apply lookup_lt_Some in Hl. lia. }
  specialize (Hall u Hin).
  assert (Hno : arranca_a u (codigo h0) = false).
  { destruct (arranca_a u (codigo h0)) eqn:Hau; [|done].
    rewrite (Harr eq_refl) in Hi. done. }
  rewrite Hc in Hno. change (arranca_a u (Dato a :: r)) with (arranca_a u r) in Hno.
  rewrite Hno in Hall.
  destruct (Hesp Hi) as [He|[?|Herr]]; [|done|].
  - rewrite Hc in He. change (espera_a u (Dato a :: r)) with (espera_a u r) in He.
    by rewrite He in Hall.
  - rewrite (Hm 0 h0 H0 Herr) in Hc. done.
Qed.

(** Along every run from [m0], a report is printed by the main thread
    when every thread that was started is over. *)
Definition informa_tras_unir (m0 : mundo A D) : Prop :=
  ∀ ds m t h a r,
    ejecutar_plan ejecutar ds m0 = Some m →
    hilos m !! t = Some h → codigo h = Dato a :: r → informe a = true →
    t = 0 ∧ ∀ u hu, u ≠ 0 → hilos m !! u = Some hu → iniciado hu = true →
              terminado hu = true.

Lemma informa_tras_unir_de m0 :
  estable ejecutar m0 → informes m0 → informa_tras_unir m0.
Proof.
  intros He Hi ds m t h a r Hp Hh Hc Ha.
  pose proof (estable_plan ejecutar ds m0 m He Hp) as (_ & Hq & Hm).
  pose proof (informes_plan ds m0 m Hi Hp) as Hi'.
  by eapply informe_unidos.
Qed.

End Informes.

(** *** Runs that end well *)

(** From a sound state every run is bounded by the measure, and a run
    that cannot go on has ended with status 0, provided no thread waits
    for ever at a data action. *)
Definition termina_bien (m0 : mundo A D) : Prop :=
  (∀ ds m, ejecutar_plan ejecutar ds m0 = Some m → length ds ≤ medida ejecutar m0)
  ∧ (∀ ds m, ejecutar_plan ejecutar ds m0 = Some m → atascado ejecutar m →
       quieto m = true ∧ codigo_salida m = Some 0).

Lemma termina_bien_de (m0 : mundo A D) :
  estable_sano ejecutar m0 →
  (∀ ds m, ejecutar_plan ejecutar ds m0 = Some m → atascado ejecutar m →
     ¬ espera_dato ejecutar m) →
  termina_bien m0.
Proof.
  intros Hs Hno. split.
  - intros ds m Hp. pose proof (plan_acotado ejecutar ds m0 m Hp). lia.
  - intros ds m Hp Hat.
    pose proof (estable_sano_plan ejecutar ds m0 m Hs Hp) as [(Hd & Hq & Hm) Hsano].
    destruct (progreso ejecutar m Hd Hq Hat) as [Hquieto|Hesp].
    + split; [done|]. by apply salida_exitosa.
    + by destruct (Hno ds m Hp Hat).
Qed.

(** Why a thread cannot step: a worker waits at a data action, the main
    thread at a data action or at the join of a running thread. *)
Lemma obrero_atascado (m : mundo A D) t h i r :
  disciplina ejecutar m → horquilla m → atascado ejecutar m →
  hilos m !! t = Some h → t ≠ 0 → iniciado h = true → codigo h = i :: r →
  ∃ a, i = Dato a ∧ ∀ c, ejecutar a t c (datos m) = None.
Proof.
  intros Hd (h0 & Hh0 & Hi0 & Ho & Hw) Hat Hh Hne Hi Hc.
  destruct (Hw t h Hh Hne) as (Hob & _). rewrite Hc in Hob. simpl in Hob.
  assert (Hpaso : ∀ c, paso ejecutar t c m = None) by (intros c; apply Hat).
  unfold paso in Hpaso. rewrite Hh in Hpaso. simpl in Hpaso. rewrite Hi, Hc in Hpaso.
  destruct i as [a| |l|l|u|u| |e]; simpl in *; try done;
    try (by specialize (Hpaso 0)).
  - exists a. split; [done|]. intros c. specialize (Hpaso c).
    by destruct (ejecutar a t c (datos m)) as [[??]|].
  - specialize (Hpaso 0). destruct (cerrojos m !! l) as [v|] eqn:Hl; [|done].
    destruct (duenno_listo ejecutar m l v Hd Hl) as [m' Hm']. by rewrite Hat in Hm'.
  - specialize (Hpaso 0). by destruct (cerrojos m !! l).
Qed.

Lemma principal_atascado (m : mundo A D) h0 i r :
  disciplina ejecutar m → horquilla m → atascado ejecutar m →
  hilos m !! 0 = Some h0 → codigo h0 = i :: r →
  (∃ a, i = Dato a ∧ ∀ c, ejecutar a 0 c (datos m) = None)
  ∨ (∃ u hu, i = Join u ∧ u ≠ 0 ∧ hilos m !! u = Some hu ∧ iniciado hu = true
             ∧ codigo hu ≠ []).
Proof.
  intros Hd (h0' & Hh0 & Hi0 & Ho & Hw) Hat H0 Hc.
  assert (h0' = h0) as -> by congruence.
  assert (Hpaso : ∀ c, paso ejecutar 0 c m = None) by (intros c; apply Hat).
  unfold paso in Hpaso. rewrite H0 in Hpaso. simpl in Hpaso. rewrite Hi0, Hc in Hpaso.
  rewrite Hc in Ho. simpl in Ho.
  destruct i as [a| |l|l|u|u| |e]; simpl in *; try done;
    try (by specialize (Hpaso 0)).
  - left. exists a. split; [done|]. intros c. specialize (Hpaso c).
    by destruct (ejecutar a 0 c (datos m)) as [[??]|].
  - specialize (Hpaso 0). destruct (cerrojos m !! l) as [v|] eqn:Hl; [|done].
    destruct (duenno_listo ejecutar m l v Hd Hl) as [m' Hm']. by rewrite Hat in Hm'.
  - specialize (Hpaso 0). by destruct (cerrojos m !! l).
  - specialize (Hpaso 0).
    apply andb_true_iff in Ho as [Ho _]. apply andb_true_iff in Ho as [Ho _].
    apply andb_true_iff in Ho as [Hu0 _]. apply bool_decide_eq_true in Hu0.
    destruct (lookup_lt_is_Some_2 (hilos m) u) as [hu Hu]; [lia|].
    rewrite Hu in Hpaso. simpl in Hpaso. by destruct (iniciado hu).
  - specialize (Hpaso 0).
    apply andb_true_iff in Ho as [Ho _]. apply andb_true_iff in Ho as [Hu0 _].
    apply bool_decide_eq_true in Hu0.
    destruct (lookup_lt_is_Some_2 (hilos m) u) as [hu Hu]; [lia|].
    rewrite Hu in Hpaso. simpl in Hpaso.
    destruct (iniciado hu) eqn:Hiu; [|done].
    destruct (terminado hu) eqn:Htu; [done|].
    right. exists u, hu. split_and!; try done; [lia|].
    unfold terminado in Htu. rewrite Hiu in Htu. simpl in Htu.
    by destruct (codigo hu).
  - specialize (Hpaso 0). by destruct (stdin m).
Qed.


End Generico.
End Generico.
(** ** The download simulator: rules of its data actions *)

Module SimuladorReglas.
Import Maquina Pasos Reglas Teoria Cantidades Simulador.

Definition sim_simple (a : accion) : bool :=
  match a with TomarTrabajo | SiguienteFuturo => false | _ => true end.

(** The updates of [estadisticas] stand under [stats_lock]. *)
Definition sim_protegida (a : accion) : option cerrojo :=
  match a with Leer _ | Sumar _ _ => Some stats_lock | _ => None end.

Definition sim_peso (a : accion) : nat :=
  match a with Submit _ => 201 | _ => 1 end.

Definition sim_potencial (d : globales) : nat := 200 * length (cola d).

(** Every data action of the code satisfies [p]. *)
Definition solo {A} (p : A → bool) (c : list (instr A)) : bool :=
  forallb (λ i, match i with Dato a => p a | _ => true end) c.

Lemma solo_app {A} (p : A → bool) x r : solo p (x ++ r) = solo p x && solo p r.
Proof. apply forallb_app. Qed.

Lemma solo_fallar_en {A} (p : A → bool) k e held c :
  solo p c = true → solo p (fallar_en k e held c) = true.
Proof.
  revert k held. induction c as [|i c IH]; intros k held Hc; simpl; [done|].
  simpl in Hc. apply andb_true_iff in Hc as [Hi Hc].
  destruct k as [|k].
  - unfold solo. rewrite forallb_app. apply andb_true_iff. split; [|done].
    induction held; simpl; auto.
  - simpl. rewrite Hi. simpl. by apply IH.
Qed.

Lemma solo_atrapar p i r c :
  solo p c = true → p (SetResult i r) = true → (∀ e, p (SetException i e) = true) →
  solo p (atrapar i r c) = true.
Proof.
  intros Hc Hr He. induction c as [|x c IH]; simpl in *.
  - by rewrite Hr.
  - apply andb_true_iff in Hc as [Hx Hc].
    destruct x; simpl; rewrite ?Hx, ?IH; try done. by rewrite He.
Qed.

Lemma sin_raise_atrapar i r c : sin_raise (atrapar i r c) = true.
Proof. induction c as [|x c IH]; simpl; [done|]. by destruct x. Qed.

Lemma es_obrero_fallar_en {A} k e held (c : list (instr A)) :
  es_obrero c = true → es_obrero (fallar_en k e held c) = true.
Proof.
  revert k held. induction c as [|i c IH]; intros k held Hc; simpl; [done|].
  simpl in Hc. apply andb_true_iff in Hc as [Hi Hc].
  destruct k as [|k].
  - unfold es_obrero. rewrite forallb_app. apply andb_true_iff. split; [|done].
    induction held; simpl; auto.
  - simpl. rewrite Hi. simpl. by apply IH.
Qed.

Lemma es_obrero_atrapar i r c :
  es_obrero c = true → es_obrero (atrapar i r c) = true.
Proof.
  induction c as [|x c IH]; simpl; [done|].
  intros [Hx Hc]%andb_true_iff. destruct x; simpl; auto.
Qed.

Lemma length_fallar_en {A} k e held (c : list (instr A)) :
  length (fallar_en k e held c) ≤ 2 * length c + length held + 1.
Proof.
  revert k held. induction c as [|i c IH]; intros k held; simpl; [lia|].
  destruct k as [|k].
  - rewrite length_app, length_map. simpl. lia.
  - simpl. specialize (IH k (match i with
                             | Acquire l => l :: held
                             | Release _ => tail held
                             | _ => held
                             end)).
    destruct i; simpl in *; try lia. destruct held; simpl in *; lia.
Qed.

Lemma length_atrapar i r c : length (atrapar i r c) ≤ length c + 1.
Proof.
  induction c as [|x c IH]; simpl; [lia|]. destruct x; simpl; lia.
Qed.

Lemma forma_fallar_en {A} (sp : A → bool) pr o k e (c : list (instr A)) :
  forma sp pr o c = true →
  forma sp pr o (fallar_en k e (option_list o) c) = true.
Proof.
  revert o k. induction c as [|i c IH]; intros o k Hc; simpl; [done|].
  destruct k as [|k].
  - destruct o as [l|]; simpl; [|done]. by rewrite bool_decide_eq_true_2.
  - simpl in Hc. destruct i as [a| |l|l|u|u| |e0]; simpl.
    + destruct o as [l|].
      * apply andb_true_iff in Hc as [-> Hc]. simpl. by apply (IH (Some l)).
      * apply andb_true_iff in Hc as [-> Hc]. simpl. by apply (IH None).
    + by apply IH.
    + destruct o; [done|]. by apply (IH (Some l)).
    + destruct o as [l'|]; [|done]. apply andb_true_iff in Hc as [-> Hc].
      simpl. by apply (IH None).
    + destruct o; [done|]. by apply (IH None).
    + destruct o; [done|]. by apply (IH None).
    + destruct o; [done|]. by apply (IH None).
    + done.
Qed.

Lemma forma_atrapar o i r c :
  forma sim_simple sim_protegida o c = true →
  forma sim_simple sim_protegida o (atrapar i r c) = true.
Proof.
  revert o. induction c as [|x c IH]; intros o Hc; simpl in *.
  - by destruct o.
  - destruct x as [a| |l|l|u|u| |e0]; simpl in *; try (destruct o; by auto).
    + destruct o; apply andb_true_iff in Hc as [-> Hc]; simpl; by apply IH.
    + destruct o; [|done]. apply andb_true_iff in Hc as [-> Hc]; simpl; by apply IH.
Qed.

(** The code of descargar_archivo, whatever the file and the thread. *)
Lemma descargar_forma a i :
  forma sim_simple sim_protegida None (descargar_archivo a i) = true.
Proof. reflexivity. Qed.

Lemma descargar_obrero a i : es_obrero (descargar_archivo a i) = true.
Proof. reflexivity. Qed.

Lemma descargar_length a i : length (descargar_archivo a i) = 92.
Proof. reflexivity. Qed.

Lemma descargar_peso a i : solo (λ a, bool_decide (sim_peso a = 1)) (descargar_archivo a i) = true.
Proof. reflexivity. Qed.

Section ConFallos.
Variable falla : nat → option (nat * string).

Lemma llamar_forma i a :
  forma sim_simple sim_protegida None (llamar falla i a) = true.
Proof.
  unfold llamar. destruct (falla i) as [[k e]|]; [|apply descargar_forma].
  apply (forma_fallar_en _ _ None). apply descargar_forma.
Qed.

Lemma llamar_obrero i a : es_obrero (llamar falla i a) = true.
Proof.
  unfold llamar. destruct (falla i) as [[k e]|]; [|apply descargar_obrero].
  apply es_obrero_fallar_en, descargar_obrero.
Qed.

Lemma llamar_solo p i a :
  solo p (descargar_archivo a i) = true → solo p (llamar falla i a) = true.
Proof.
  unfold llamar. destruct (falla i) as [[k e]|]; [|done]. apply solo_fallar_en.
Qed.

Lemma llamar_length i a : length (llamar falla i a) ≤ 187.
Proof.
  unfold llamar. destruct (falla i) as [[k e]|].
  - pose proof (length_fallar_en k e [] (descargar_archivo a i)) as H.
    rewrite descargar_length in H. change (length (@nil string)) with 0 in H. lia.
  - rewrite descargar_length. lia.
Qed.

Lemma peso_codigo_solo (c : codigo_t) :
  solo (λ a, bool_decide (sim_peso a = 1)) c = true →
  peso_codigo sim_peso c = length c.
Proof.
  induction c as [|x c IH]; simpl; [done|].
  intros [Hx Hc]%andb_true_iff. unfold peso_codigo in *. simpl. rewrite IH by done.
  destruct x; simpl; try done. apply bool_decide_eq_true in Hx. by rewrite Hx.
Qed.

Lemma trabajo_peso i a : peso_codigo sim_peso (trabajo falla i a) < 200.
Proof.
  rewrite peso_codigo_solo.
  - unfold trabajo. pose proof (length_atrapar i (resultado_de a) (llamar falla i a)).
    pose proof (llamar_length i a). lia.
  - unfold trabajo. apply solo_atrapar; [|done..].
    apply llamar_solo, descargar_peso.
Qed.

Lemma trabajo_forma i a :
  forma sim_simple sim_protegida None (trabajo falla i a) = true.
Proof. apply forma_atrapar, llamar_forma. Qed.

Lemma trabajo_obrero i a : es_obrero (trabajo falla i a) = true.
Proof. apply es_obrero_atrapar, llamar_obrero. Qed.

(** What [ejecutar] returns: no code, but for a worker that takes a work
    item. *)
Lemma ejecutar_extra x t c d d' y :
  ejecutar falla x t c d = Some (d', y) →
  y = [] ∨ ∃ i a q, x = TomarTrabajo ∧ cola d = i :: q ∧ ARCHIVOS !! i = Some a
                    ∧ d' = con_cola q d
                    ∧ y = trabajo falla i a ++ [Dato TomarTrabajo].
Proof.
  destruct x; simpl; intros H; try (injection H as <- <-; by left).
  - destruct (cola d) as [|i q] eqn:Hq.
    + destruct (cerrado d); [|done]. injection H as <- <-. by left.
    + destruct (ARCHIVOS !! i) as [a|] eqn:Ha; simpl in H; [|done].
      injection H as <- <-. right. eauto 10.
  - destruct (listos d !! c) as [[i f]|]; simpl in H; [|done].
    destruct (ARCHIVOS !! i); simpl in H; [|done]. injection H as <- <-. by left.
Qed.

#[export] Program Instance sim_reglas : reglas (ejecutar falla) := {|
  simple := sim_simple;
  protegida := sim_protegida;
  peso := sim_peso;
  potencial := sim_potencial
|}.
Next Obligation.
  intros a t c d Ha. destruct a; simpl in *; try done; eauto.
Qed.
Next Obligation.
  intros a t c d d' x H.
  destruct (ejecutar_extra _ _ _ _ _ _ H) as [->|(i & f & q & -> & Hq & Ha & -> & ->)];
    [done|].
  apply forma_app; [apply trabajo_forma|done].
Qed.
Next Obligation.
  intros a t c d d' x H.
  destruct (ejecutar_extra _ _ _ _ _ _ H) as [->|(i & f & q & -> & Hq & Ha & -> & ->)];
    [done|].
  rewrite es_obrero_app, trabajo_obrero. done.
Qed.
Next Obligation.
  intros a t c d d' x H.
  destruct (ejecutar_extra _ _ _ _ _ _ H) as [->|(i & f & q & -> & Hq & Ha & -> & ->)];
    [done|].
  rewrite sin_raise_app. unfold trabajo. by rewrite sin_raise_atrapar.
Qed.
Next Obligation.
  intros a t c d d' x H.
  destruct (ejecutar_extra _ _ _ _ _ _ H) as [->|(i & f & q & -> & Hq & Ha & -> & ->)].
  - destruct a; simpl in *; try (injection H as <-; simpl;
      unfold sim_potencial; simpl; lia).
    + injection H as <-. unfold sim_potencial. simpl. rewrite length_app. simpl. lia.
    + destruct (cola d) as [|i q] eqn:Hq.
      * destruct (cerrado d); [|done]. injection H as <-. lia.
      * destruct (ARCHIVOS !! i); simpl in H; [|done]. injection H as <- ?.
        unfold sim_potencial. simpl. rewrite Hq. simpl. lia.
    + destruct (listos d !! c) as [[i f]|]; simpl in H; [|done].
      destruct (ARCHIVOS !! i); simpl in H; [|done]. injection H as <-.
      destruct f; unfold sim_potencial; simpl; lia.
  - pose proof (trabajo_peso i f) as Hp. unfold peso_codigo in *.
    rewrite sum_list_with_app. unfold sim_potencial, con_cola. cbn [cola].
    rewrite Hq. cbn [length].
    change (sum_list_with (peso_instr sim_peso) [Dato TomarTrabajo]) with 1.
    change (sim_peso TomarTrabajo) with 1. lia.
Qed.

End ConFallos.

End SimuladorReglas.
(** ** The download simulator: invariants *)

Module SimuladorInv.
Import Maquina Pasos Reglas Teoria Cantidades Simulador SimuladorReglas.

Lemma tiene_solo {A} (p : A → bool) (c : list (instr A)) :
  solo (λ a, negb (p a)) c = true → tiene p c = false.
Proof.
  induction c as [|i c IH]; simpl; [done|].
  intros [Hi Hc]%andb_true_iff. destruct i; auto.
  apply negb_true_iff in Hi. by rewrite Hi, IH.
Qed.

(** A thread about to run a protected action holds its lock. *)
Lemma cabeza_protegida {A D} (ejecutar : A → tid → nat → D → option (D * list (instr A)))
    `{R : !reglas ejecutar} (m : mundo A D) t h a r l :
  disciplina ejecutar m → hilos m !! t = Some h → codigo h = Dato a :: r →
  protegida a = Some l → cerrojos m !! l = Some t.
Proof.
  intros [Hd1 _] Hh Hc Hp. destruct (Hd1 t h Hh) as (o & Hf & Hl).
  rewrite Hc in Hf. simpl in Hf. rewrite Hp in Hf.
  destruct o as [l0|]; [|done].
  apply andb_true_iff in Hf as [Hf _]. apply andb_true_iff in Hf as [_ Hf].
  apply bool_decide_eq_true in Hf as ->. by apply Hl.
Qed.

(** *** Shape of the updates: a store follows its load *)

Definition cabeza_suma (c : codigo_t) : bool :=
  match c with Dato (Sumar _ _) :: _ => true | _ => false end.

Fixpoint pares (c : codigo_t) : bool :=
  match c with
  | [] => true
  | i :: r =>
      match r with
      | Dato (Sumar k _) :: _ =>
          match i with Dato (Leer k') => bool_decide (k' = k) | _ => false end
      | _ => true
      end && pares r
  end.

Lemma pares_cola i r : pares (i :: r) = true → pares r = true.
Proof. simpl. by intros [_ ?]%andb_true_iff. Qed.

Lemma pares_app x y :
  pares x = true → pares y = true → cabeza_suma y = false → pares (x ++ y) = true.
Proof.
  induction x as [|i x IH]; intros Hx Hy Hc; [done|].
  simpl in Hx. apply andb_true_iff in Hx as [Hi Hx].
  change ((i :: x) ++ y) with (i :: (x ++ y)). cbn [pares].
  rewrite IH by done. rewrite andb_true_r.
  destruct x as [|j x]; simpl in *.
  - destruct y as [|[[]| | | | | | |] y]; try done.
  - done.
Qed.

Lemma pares_fallar_en k e held c :
  pares c = true → pares (fallar_en k e held c) = true.
Proof.
  revert k held. induction c as [|i c IH]; intros k held Hc; [done|].
  simpl in Hc. apply andb_true_iff in Hc as [Hi Hc].
  destruct k as [|k]; cbn [fallar_en].
  - induction held as [|l held IHh]; [done|]. simpl.
    simpl in IHh. rewrite IHh, andb_true_r. by destruct held.
  - cbn [pares]. rewrite IH by done. rewrite andb_true_r.
    destruct c as [|j c]; [done|]. destruct k as [|k]; cbn [fallar_en].
    + by destruct (match i with
                   | Acquire l => l :: held
                   | Release _ => tail held
                   | _ => held
                   end).
    + done.
Qed.

Lemma pares_atrapar i r c : pares c = true → pares (atrapar i r c) = true.
Proof.
  induction c as [|x c IH]; [done|]. intros Hc. pose proof (pares_cola _ _ Hc) as Hc'.
  specialize (IH Hc'). simpl in Hc. apply andb_true_iff in Hc as [Hx _].
  destruct x as [a| |l|l|u|u| |e]; cbn [atrapar pares]; try done;
    rewrite IH, andb_true_r; destruct c as [|[[]| | | | | | |] c]; try done.
Qed.

Lemma descargar_pares a i : pares (descargar_archivo a i) = true.
Proof. reflexivity. Qed.

Section ConFallos.
Variable falla : nat → option (nat * string).

Local Abbreviation ejec := (ejecutar falla).
Local Abbreviation mundo_t := (mundo accion globales).

Lemma llamar_pares i a : pares (llamar falla i a) = true.
Proof.
  unfold llamar. destruct (falla i) as [[k e]|]; [|apply descargar_pares].
  apply pares_fallar_en, descargar_pares.
Qed.

Lemma trabajo_pares i a : pares (trabajo falla i a) = true.
Proof. apply pares_atrapar, llamar_pares. Qed.

Lemma trabajo_solo p i a :
  solo p (descargar_archivo a i) = true →
  p (SetResult i (resultado_de a)) = true → (∀ e, p (SetException i e) = true) →
  solo p (trabajo falla i a) = true.
Proof. intros Hd Hr He. apply solo_atrapar; try done. by apply llamar_solo. Qed.

Lemma trabajo_sin_raise i a : sin_raise (trabajo falla i a) = true.
Proof. apply sin_raise_atrapar. Qed.


Local Open Scope Z_scope.

(** *** Quantities carried by the tasks *)

Section Tareas.

(** [va0] values the actions of a task; a pending [submit] is worth what
    its work item will run. *)
Variable va0 : accion → Z.

Definition aporte (i : nat) : Z :=
  match ARCHIVOS !! i with
  | Some a => valor_codigo va0 (trabajo falla i a)
  | None => 0
  end.

Definition con_submit (a : accion) : Z :=
  match a with Submit i => aporte i | _ => va0 a end.

Definition en_cola (q : list nat) : Z := foldr (λ i s, aporte i + s) 0 q.

Lemma en_cola_app q i : en_cola (q ++ [i]) = en_cola q + aporte i.
Proof. induction q as [|j q IH]; simpl; [lia|]. rewrite IH. lia. Qed.

Lemma valor_sin_submit (c : codigo_t) :
  solo (λ a, match a with Submit _ => false | _ => true end) c = true →
  valor_codigo con_submit c = valor_codigo va0 c.
Proof.
  induction c as [|x c IH]; [done|]. simpl.
  intros [Hx Hc]%andb_true_iff. specialize (IH Hc).
  destruct x as [[]| | | | | | |]; simpl in *; try done; by rewrite IH.
Qed.

Lemma valor_trabajo i a :
  ARCHIVOS !! i = Some a → va0 TomarTrabajo = 0 →
  valor_codigo con_submit (trabajo falla i a ++ [Dato TomarTrabajo]) = aporte i.
Proof.
  intros Ha H0. rewrite valor_codigo_app by apply trabajo_sin_raise.
  rewrite valor_sin_submit by (by apply trabajo_solo).
  unfold aporte. rewrite Ha. simpl. lia.
Qed.

End Tareas.

Definition en_listos (vl : nat * futuro → Z) (l : list (nat * futuro)) : Z :=
  foldr (λ x s, vl x + s) 0 l.

Lemma en_listos_app vl l x : en_listos vl (l ++ [x]) = en_listos vl l + vl x.
Proof. induction l as [|y l IH]; simpl; [lia|]. rewrite IH. lia. Qed.

Lemma en_listos_delete vl l (c : nat) x :
  l !! c = Some x → en_listos vl (delete c l) = en_listos vl l - vl x.
Proof.
  revert c. induction l as [|y l IH]; intros [|c] Hl; simpl in *; try done.
  - injection Hl as ->. lia.
  - rewrite (IH c Hl). lia.
Qed.

(** *** The counters of [estadisticas] *)

Definition va0_est (k : clave) (a : accion) : Z :=
  match a with Sumar k' v => if decide (k' = k) then v else 0 | _ => 0 end.

Definition va_est (k : clave) : accion → Z := con_submit (va0_est k).
Definition vr_est (k : clave) (d : globales) : Z := est_get k (estadisticas d).
Definition ve_est (k : clave) (d : globales) : Z := en_cola (va0_est k) (cola d).

Definition reinicia_est (k : clave) (a : accion) : bool :=
  match a with Reiniciar k' => bool_decide (k' = k) | _ => false end.

Definition toca_est (k : clave) (a : accion) : bool :=
  match a with
  | Sumar k' _ => bool_decide (k' = k)
  | TomarTrabajo => true
  | _ => false
  end.

Definition fases_est (k : clave) : Z → mundo_t → Prop :=
  fases (va_est k) (vr_est k) (ve_est k) (reinicia_est k) (toca_est k).

Lemma est_get_set k k' v e :
  est_get k (est_set k' v e) = if decide (k' = k) then v else est_get k e.
Proof. by destruct k, k', e. Qed.

Lemma trabajo_sin_reinicio k i a :
  tiene (reinicia_est k) (trabajo falla i a ++ [Dato TomarTrabajo]) = false.
Proof.
  apply tiene_solo. rewrite solo_app. apply andb_true_iff. split; [|done].
  by apply trabajo_solo.
Qed.

Lemma est_extra k a t c d d' x :
  ejec a t c d = Some (d', x) →
  tiene (reinicia_est k) x = false
  ∧ (toca_est k a = false → tiene (toca_est k) x = false).
Proof.
  intros H.
  destruct (ejecutar_extra _ _ _ _ _ _ _ H) as [->|(i & f & q & -> & Hq & Ha & -> & ->)];
    [done|].
  split; [apply trabajo_sin_reinicio|done].
Qed.

Lemma est_reinicia k a t c d d' x :
  reinicia_est k a = true → ejec a t c d = Some (d', x) →
  vr_est k d' = 0 ∧ ve_est k d' = ve_est k d ∧ x = [] ∧ va_est k a = 0.
Proof.
  destruct a; try done. simpl. intros ->%bool_decide_eq_true [= <- <-].
  unfold vr_est. simpl. rewrite est_get_set. by rewrite decide_True.
Qed.

Lemma est_neutra k a t c d d' x :
  reinicia_est k a = false → toca_est k a = false → ejec a t c d = Some (d', x) →
  vr_est k d' = vr_est k d
  ∧ ve_est k d' + valor_codigo (va_est k) x = ve_est k d + va_est k a.
Proof.
  intros Hr Ht H. unfold vr_est, ve_est.
  destruct a; simpl in *; try done; try (injection H as <- <-; simpl; split; lia).
  - apply bool_decide_eq_false in Ht. injection H as <- <-. simpl.
    rewrite est_get_set, !decide_False by done. split; lia.
  - apply bool_decide_eq_false in Hr. injection H as <- <-. simpl.
    rewrite est_get_set, !decide_False by done. split; lia.
  - injection H as <- <-. simpl. rewrite en_cola_app. split; lia.
  - destruct (listos d !! c) as [[i f]|]; simpl in H; [|done].
    destruct (ARCHIVOS !! i); simpl in H; [|done]. injection H as <- <-.
    destruct f; simpl; split; lia.
Qed.

(** A pending store holds the current value of its counter. *)
Definition operandos (m : mundo_t) : Prop :=
  ∀ t h, hilos m !! t = Some h →
    pares (codigo h) = true
    ∧ ∀ k v r, codigo h = Dato (Sumar k v) :: r →
        operando (datos m) !! t = Some (est_get k (estadisticas (datos m))).

Lemma est_toca k t c (m : mundo_t) h a r d' x :
  operandos m → hilos m !! t = Some h → codigo h = Dato a :: r →
  toca_est k a = true → reinicia_est k a = false →
  ejec a t c (datos m) = Some (d', x) →
  vr_est k d' + ve_est k d' + valor_codigo (va_est k) x
  = vr_est k (datos m) + ve_est k (datos m) + va_est k a.
Proof.
  intros Hop Hh Hc Ht Hr H. unfold vr_est, ve_est.
  destruct a; simpl in *; try done.
  - apply bool_decide_eq_true in Ht as ->. injection H as <- <-. simpl.
    destruct (Hop t h Hh) as [_ Hs]. rewrite (Hs _ _ _ Hc). simpl.
    rewrite est_get_set, !decide_True by done. lia.
  - destruct (cola (datos m)) as [|i q] eqn:Hq.
    + destruct (cerrado (datos m)); [|done]. injection H as <- <-. simpl.
      rewrite Hq. simpl. lia.
    + destruct (ARCHIVOS !! i) as [f|] eqn:Ha; simpl in H; [|done].
      injection H as <- <-. simpl.
      change (valor_codigo (va_est k)) with (valor_codigo (con_submit (va0_est k))).
      rewrite valor_trabajo by done. lia.
Qed.


(** No thread waits at a store while the main thread resets the counter. *)
Lemma sin_reinicio_concurrente k C (m : mundo_t) (t t' : nat) h h' r v r' :
  seguro ejec m → fases_est k C m →
  hilos m !! t = Some h → codigo h = Dato (Reiniciar k) :: r →
  hilos m !! t' = Some h' → t' ≠ t → codigo h' = Dato (Sumar k v) :: r' → False.
Proof.
  intros [(Hd & Hq & Hm) _] (h0 & H0 & Hof & Hw & Hval) Hh Hc Hh' Hne Hc'.
  assert (t = 0%nat) as ->.
  { destruct (decide (t = 0%nat)) as [|Ht]; [done|].
    destruct (Hw t h Ht Hh) as [Hr _]. rewrite Hc in Hr. simpl in Hr.
    by rewrite bool_decide_eq_true_2 in Hr. }
  assert (h = h0) as -> by congruence.
  destruct (Hw t' h' Hne Hh') as [_ Himp].
  rewrite Hc, Hc' in Himp. simpl in Himp.
  rewrite !bool_decide_eq_true_2 in Himp by done.
  destruct (Himp eq_refl) as [?|[Hi _]]; [done|].
  pose proof (cabeza_protegida ejec m t' h' _ _ stats_lock Hd Hh' Hc' eq_refl) as Hl.
  destruct Hd as [_ Hd2]. destruct (Hd2 _ _ Hl) as (h'' & Hh'' & Hi'').
  congruence.
Qed.

Lemma operandos_paso t c (m m' : mundo_t) :
  seguro ejec m → (∀ k, ∃ C, fases_est k C m) → operandos m →
  paso ejec t c m = Some m' → operandos m'.
Proof.
  intros Hseg Hfa Hop Hp. pose proof Hseg as [(Hd & Hq & Hm) _].
  apply paso_transicion in Hp as (h & i & r & Hh & Hi & Hc & Ht).
  assert (Hlen : (t < length (hilos m))%nat) by by eapply lookup_lt_Some.
  destruct (Hop t h Hh) as [Hpar Hs]. rewrite Hc in Hpar.
  pose proof (pares_cola _ _ Hpar) as Hpr.
  (* the stepping thread lands on a store only from its load *)
  assert (Hcab : ∀ k v r', r = Dato (Sumar k v) :: r' → i = Dato (Leer k)).
  { intros k v r' ->. simpl in Hpar. apply andb_true_iff in Hpar as [Hpar _].
    destruct i as [[]| | | | | | |]; try done.
    by apply bool_decide_eq_true in Hpar as ->. }
  (* steps that leave the data alone *)
  assert (Hmismo : ∀ hs' cs' st',
            (∀ t' h', hs' !! t' = Some h' →
               (t' = t ∧ (codigo h' = r ∨ codigo h' = []))
               ∨ (t' ≠ t ∧ ∃ h'', hilos m !! t' = Some h'' ∧ codigo h' = codigo h'')) →
            (∀ a, i ≠ Dato a) →
            operandos (Mundo hs' cs' st' (datos m))).
  { intros hs' cs' st' Hhs Hnd t' h' Hl'.
    destruct (Hhs t' h' Hl') as [[-> [Hr|Hr]]|[Hne (h'' & Hl'' & Hcod)]].
    - rewrite Hr. split; [done|]. intros k v r' Hr'.
      destruct (Hnd _ (Hcab _ _ _ Hr')).
    - by rewrite Hr.
    - rewrite Hcod. simpl. by apply Hop. }
  destruct Ht as [a d x He| |l Hfree|l v Hheld|u hu Hu Hiu|u hu Hu Hiu|s ss Hs'|i e Hx].
  - (* a data action *)
    intros t' h' Hl'. simpl in Hl'.
    apply list_lookup_insert_Some in Hl' as [(<- & <- & _)|(Hne & Hl')]; simpl.
    + destruct (ejecutar_extra _ _ _ _ _ _ _ He)
        as [->|(j & f & q & -> & Hq' & Ha & -> & ->)]; simpl.
      * split; [done|]. intros k v r' Hr'. pose proof (Hcab _ _ _ Hr') as [= ->].
        simpl in He. injection He as <-. simpl. by rewrite lookup_insert_eq.
      * split.
        -- rewrite <- app_assoc. apply pares_app; [apply trabajo_pares|done..].
        -- intros k v r' Hr'. exfalso.
           pose proof (trabajo_forma falla j f) as Hf.
           destruct (trabajo falla j f) as [|[[]| | | | | | |] tr]; simpl in Hr'; done.
    + destruct (Hop t' h' Hl') as [Hpar' Hs'']. split; [done|].
      intros k v r' Hc'. specialize (Hs'' k v r' Hc').
      destruct a; simpl in He;
        try (injection He as <- <-; simpl; done).
      * injection He as <- <-. simpl. by rewrite lookup_insert_ne.
      * exfalso.
        pose proof (cabeza_protegida ejec m t h _ _ stats_lock Hd Hh Hc eq_refl).
        pose proof (cabeza_protegida ejec m t' h' _ _ stats_lock Hd Hl' Hc' eq_refl).
        congruence.
      * injection He as <- <-. simpl. rewrite est_get_set.
        destruct (decide (k0 = k)) as [->|Hk]; [|done]. exfalso.
        destruct (Hfa k) as [C HC].
        by eapply (sin_reinicio_concurrente k C m t t').
      * destruct (cola (datos m)) as [|j q].
        -- destruct (cerrado (datos m)); [|done]. by injection He as <- <-.
        -- destruct (ARCHIVOS !! j); simpl in He; [|done]. by injection He as <- <-.
      * destruct (listos (datos m) !! c) as [[j f]|]; simpl in He; [|done].
        destruct (ARCHIVOS !! j); simpl in He; [|done]. injection He as <- <-.
        by destruct f.
  - apply Hmismo; [|done]. intros t' h' Hl'.
    apply list_lookup_insert_Some in Hl' as [(<- & <- & _)|(Hne & Hl')]; eauto 10.
  - apply Hmismo; [|done]. intros t' h' Hl'.
    apply list_lookup_insert_Some in Hl' as [(<- & <- & _)|(Hne & Hl')]; eauto 10.
  - apply Hmismo; [|done]. intros t' h' Hl'.
    apply list_lookup_insert_Some in Hl' as [(<- & <- & _)|(Hne & Hl')]; eauto 10.
  - apply Hmismo; [|done]. intros t' h' Hl'.
    apply list_lookup_insert_Some in Hl' as [(<- & <- & _)|(Hne & Hl')]; [eauto 10|].
    right. split; [done|].
    apply list_lookup_insert_Some in Hl' as [(<- & <- & _)|(Hne' & Hl')]; eauto.
  - apply Hmismo; [|done]. intros t' h' Hl'.
    apply list_lookup_insert_Some in Hl' as [(<- & <- & _)|(Hne & Hl')]; eauto 10.
  - apply Hmismo; [|done]. intros t' h' Hl'.
    apply list_lookup_insert_Some in Hl' as [(<- & <- & _)|(Hne & Hl')]; eauto 10.
  - apply Hmismo; [|by destruct Hx]. intros t' h' Hl'.
    apply list_lookup_insert_Some in Hl' as [(<- & <- & _)|(Hne & Hl')]; eauto 10.
Qed.


(** *** The futures of the executor *)

(** Every submitted task is in the queue, in a worker, ready, or already
    yielded by as_completed. *)
Definition va0_fut (a : accion) : Z :=
  match a with
  | SetResult _ _ | SetException _ _ => 1
  | SiguienteFuturo => -1
  | _ => 0
  end.

Definition va_fut : accion → Z := con_submit va0_fut.

Definition vd_fut (d : globales) : Z :=
  en_cola va0_fut (cola d) + Z.of_nat (length (listos d)).

Definition futuros_ok (m : mundo_t) : Prop := valor va_fut vd_fut m = 0.

Lemma valor_fut_atrapar i r c :
  solo (λ a, bool_decide (va0_fut a = 0)) c = true →
  valor_codigo va0_fut (atrapar i r c) = 1.
Proof.
  induction c as [|x c IH]; [done|]. simpl.
  intros [Hx Hc]%andb_true_iff. specialize (IH Hc).
  destruct x as [a| | | | | | |]; simpl; try done.
  apply bool_decide_eq_true in Hx. lia.
Qed.

Lemma aporte_fut i a : ARCHIVOS !! i = Some a → aporte va0_fut i = 1.
Proof.
  intros Ha. unfold aporte. rewrite Ha. unfold trabajo.
  apply valor_fut_atrapar. by apply llamar_solo.
Qed.

Lemma aporte_fut_pos i : 0 ≤ aporte va0_fut i.
Proof.
  unfold aporte. destruct (ARCHIVOS !! i) as [a|] eqn:Ha; [|done].
  pose proof (aporte_fut i a Ha) as H. unfold aporte in H. rewrite Ha in H. lia.
Qed.

Lemma en_cola_fut_pos q : 0 ≤ en_cola va0_fut q.
Proof.
  induction q as [|i q IH]; simpl; [done|]. pose proof (aporte_fut_pos i). lia.
Qed.

(** An empty count of the queue empties every quantity of the queue. *)
Lemma en_cola_nada va0 q : en_cola va0_fut q = 0 → en_cola va0 q = 0.
Proof.
  induction q as [|i q IH]; simpl; [done|]. intros H.
  pose proof (aporte_fut_pos i). pose proof (en_cola_fut_pos q).
  rewrite IH by lia. unfold aporte in *.
  destruct (ARCHIVOS !! i) as [a|] eqn:Ha; [|done].
  pose proof (aporte_fut i a Ha) as Hun. unfold aporte in Hun. rewrite Ha in Hun. lia.
Qed.

Lemma fut_ley a t c d d' x :
  ejec a t c d = Some (d', x) →
  vd_fut d' + valor_codigo va_fut x = vd_fut d + va_fut a.
Proof.
  intros H. unfold vd_fut.
  destruct a; simpl in *; try (injection H as <- <-; simpl; lia).
  - injection H as <- <-. simpl. rewrite en_cola_app. lia.
  - destruct (cola d) as [|i q] eqn:Hq.
    + destruct (cerrado d); [|done]. injection H as <- <-. simpl. rewrite Hq. simpl. lia.
    + destruct (ARCHIVOS !! i) as [f|] eqn:Ha; simpl in H; [|done].
      injection H as <- <-. simpl.
      change (valor_codigo va_fut) with (valor_codigo (con_submit va0_fut)).
      rewrite valor_trabajo by done. lia.
  - injection H as <- <-. simpl. rewrite length_app. simpl. lia.
  - injection H as <- <-. simpl. rewrite length_app. simpl. lia.
  - destruct (listos d !! c) as [[i f]|] eqn:Hl; simpl in H; [|done].
    destruct (ARCHIVOS !! i); simpl in H; [|done]. injection H as <- <-.
    pose proof (lookup_lt_Some _ _ _ Hl).
    destruct f; simpl; rewrite length_delete by eauto; lia.
Qed.

Lemma futuros_paso t c (m m' : mundo_t) :
  seguro ejec m → futuros_ok m → paso ejec t c m = Some m' → futuros_ok m'.
Proof.
  intros Hseg Hf Hp. unfold futuros_ok.
  rewrite (valor_conservado ejec va_fut vd_fut t c m m'); try done.
  intros h a r d' x _ _ _ He. by eapply fut_ley.
Qed.

(** *** The invariants of the statistics, together *)

Definition inv_est (CT CC : Z) (m : mundo_t) : Prop :=
  seguro ejec m ∧ operandos m
  ∧ fases_est TotalMb CT m ∧ fases_est ArchivosCompletados CC m
  ∧ futuros_ok m.

Lemma fases_est_paso k C t c (m m' : mundo_t) :
  seguro ejec m → operandos m → fases_est k C m →
  paso ejec t c m = Some m' → fases_est k C m'.
Proof.
  intros Hseg Hop Hf Hp.
  eapply (fases_paso ejec (va_est k) (vr_est k) (ve_est k)); try done.
  - apply est_extra.
  - apply est_reinicia.
  - apply est_neutra.
  - intros h a r d' x Hh Hi Hc Ht Hr He. by eapply est_toca.
Qed.

Lemma inv_est_paso CT CC t c (m m' : mundo_t) :
  inv_est CT CC m → paso ejec t c m = Some m' → inv_est CT CC m'.
Proof.
  intros (Hseg & Hop & HT & HC & HF) Hp. split_and!.
  - by eapply seguro_paso.
  - eapply operandos_paso; try done. intros []; eauto.
  - by eapply fases_est_paso.
  - by eapply fases_est_paso.
  - by eapply futuros_paso.
Qed.

Lemma inv_est_plan CT CC ds (m m' : mundo_t) :
  inv_est CT CC m → ejecutar_plan ejec ds m = Some m' → inv_est CT CC m'.
Proof.
  intros H Hp. eapply (plan_inv ejec (inv_est CT CC)); eauto using inv_est_paso.
Qed.

(** When the process is over nothing is queued or ready. *)
Lemma futuros_final (m : mundo_t) :
  futuros_ok m → (∀ (t : nat) h, hilos m !! t = Some h → codigo h = []) →
  listos (datos m) = [] ∧ ∀ va0, en_cola va0 (cola (datos m)) = 0.
Proof.
  unfold futuros_ok, valor, vd_fut. intros Hf Hv.
  rewrite valor_hilos_vacio in Hf by done.
  pose proof (en_cola_fut_pos (cola (datos m))).
  split.
  - destruct (listos (datos m)); [done|]. simpl in Hf. lia.
  - intros va0. apply en_cola_nada. lia.
Qed.

Lemma inv_est_final CT CC (m : mundo_t) h0 :
  inv_est CT CC m → hilos m !! 0%nat = Some h0 → codigo h0 = [] → error h0 = None →
  estadisticas (datos m) = Estadisticas CT CC.
Proof.
  intros ([(Hd & Hq & Hm) Hin] & Hop & HT & HC & HF) H0 Hc He.
  pose proof (fin_quieto _ h0 Hq H0 Hc He) as Hv.
  destruct (futuros_final m HF Hv) as [_ Hcola].
  assert (Hk : ∀ k C, fases_est k C m → est_get k (estadisticas (datos m)) = C).
  { intros k C (h0' & H0' & _ & _ & Hval).
    assert (h0' = h0) as -> by congruence. rewrite Hc in Hval. simpl in Hval.
    unfold valor in Hval. rewrite valor_hilos_vacio in Hval by done.
    unfold vr_est, ve_est in Hval. rewrite Hcola in Hval. lia. }
  apply Hk in HT, HC. simpl in HT, HC.
  destruct (estadisticas (datos m)). simpl in *. by subst.
Qed.

Lemma operandos_inicial (m : mundo_t) :
  forallb (λ h, pares (codigo h) && negb (cabeza_suma (codigo h))) (hilos m) = true →
  operandos m.
Proof.
  intros Hf t h Hh. rewrite forallb_forall in Hf.
  assert (Hin : In h (hilos m)) by (apply list_elem_of_In; by eapply list_elem_of_lookup_2).
  apply Hf in Hin. apply andb_true_iff in Hin as [Hp Hc]. split; [done|].
  intros k v r Hr. by rewrite Hr in Hc.
Qed.

End ConFallos.
End SimuladorInv.
(** ** The download simulator: the result list and the console *)

Module SimuladorRes.
Import Maquina Pasos Reglas Teoria Cantidades Simulador SimuladorReglas SimuladorInv.

Local Open Scope Z_scope.

Definition suma_de {X} (g : X → Z) (l : list X) : Z := foldr (λ x s, g x + s) 0 l.

Lemma suma_de_app {X} (g : X → Z) l x : suma_de g (l ++ [x]) = suma_de g l + g x.
Proof. induction l as [|y l IH]; simpl; [lia|]. rewrite IH. lia. Qed.

Lemma suma_de_uno {X} (l : list X) : suma_de (λ _, 1) l = Z.of_nat (length l).
Proof. induction l as [|y l IH]; simpl; [done|]. rewrite IH. lia. Qed.

Lemma suma_de_cuenta {X} `{EqDecision X} (x : X) (l : list X) :
  suma_de (λ y, if decide (y = x) then 1 else 0) l
  = Z.of_nat (count_occ (λ a b, decide (a = b)) l x).
Proof.
  induction l as [|y l IH]; simpl; [done|]. rewrite IH.
  destruct (decide (y = x)); lia.
Qed.

(** A value that vanishes outside [p] vanishes on code that runs only
    actions outside [p]. *)
Lemma valor_nulo (va : accion → Z) (p : accion → bool) (c : codigo_t) :
  (∀ a, p a = false → va a = 0) →
  solo (λ a, negb (p a)) c = true → valor_codigo va c = 0.
Proof.
  intros Hva. induction c as [|x c IH]; [done|]. simpl.
  intros [Hx Hc]%andb_true_iff. specialize (IH Hc).
  destruct x as [a| | | | | | |]; simpl; try done.
  apply negb_true_iff in Hx. rewrite (Hva a Hx). lia.
Qed.

Lemma valor_atrapar (va : accion → Z) (p : accion → bool) i r (c : codigo_t) :
  (∀ a, p a = false → va a = 0) →
  solo (λ a, negb (p a)) c = true → sin_raise c = true →
  valor_codigo va (atrapar i r c) = va (SetResult i r).
Proof.
  intros Hva. induction c as [|x c IH]; [simpl; lia|]. simpl.
  intros [Hx Hc]%andb_true_iff [Hr Hs]%andb_true_iff. specialize (IH Hc Hs).
  destruct x as [a| | | | | | |]; simpl; try done.
  apply negb_true_iff in Hx. rewrite (Hva a Hx). lia.
Qed.

Lemma valor_atrapar_fallo (va : accion → Z) (p : accion → bool) i r k e held
    (c : codigo_t) :
  (∀ a, p a = false → va a = 0) →
  solo (λ a, negb (p a)) c = true → sin_raise c = true → (k < length c)%nat →
  valor_codigo va (atrapar i r (fallar_en k e held c)) = va (SetException i e).
Proof.
  intros Hva. revert k held.
  induction c as [|x c IH]; intros k held Hc Hsr Hk; [simpl in Hk; lia|].
  simpl in Hc, Hsr. apply andb_true_iff in Hc as [Hx Hc].
  apply andb_true_iff in Hsr as [Hxr Hsr].
  destruct k as [|k]; cbn [fallar_en].
  - clear. induction held as [|l held IH]; simpl; [lia|done].
  - simpl in Hk.
    assert (IH' := IH k (match x with
                         | Acquire l => l :: held
                         | Release _ => tail held
                         | _ => held
                         end) Hc Hsr ltac:(lia)).
    destruct x as [a| | | | | | |]; simpl; try done.
    apply negb_true_iff in Hx. rewrite (Hva a Hx). simpl in IH'. lia.
Qed.

Lemma fallar_en_largo {A} k e held (c : list (instr A)) :
  (length c ≤ k)%nat → fallar_en k e held c = c.
Proof.
  revert k held. induction c as [|x c IH]; intros k held Hk; [done|].
  simpl in Hk. destruct k as [|k]; [lia|]. cbn [fallar_en]. rewrite IH; [done|lia].
Qed.

Lemma descargar_sin_raise a i : sin_raise (descargar_archivo a i) = true.
Proof. reflexivity. Qed.

Section ConFallos.
Variable falla : nat → option (nat * string).

Local Abbreviation ejec := (ejecutar falla).
Local Abbreviation mundo_t := (mundo accion globales).

(** The exception that the call for task [i] raises, if it raises. *)
Definition fracasa (i : nat) : option string :=
  match falla i with
  | Some (k, e) => if decide (k < 92)%nat then Some e else None
  | None => None
  end.

(** What a work item is worth: the value of its result when the call
    returns, of its exception when the call raises. *)
Lemma valor_trabajo_de (va : accion → Z) (p : accion → bool) i a :
  (∀ x, p x = false → va x = 0) →
  solo (λ x, negb (p x)) (descargar_archivo a i) = true →
  valor_codigo va (trabajo falla i a)
  = match fracasa i with
    | Some e => va (SetException i e)
    | None => va (SetResult i (resultado_de a))
    end.
Proof.
  intros Hva Hs. unfold trabajo, llamar, fracasa.
  destruct (falla i) as [[k e]|].
  - destruct (decide (k < 92)%nat) as [Hk|Hk].
    + apply (valor_atrapar_fallo va p); try done.
    + rewrite fallar_en_largo by (rewrite descargar_length; lia).
      apply (valor_atrapar va p); try done.
  - apply (valor_atrapar va p); try done.
Qed.

(** *** The result list *)

Section Resultados.
Variable g : resultado → Z.

Definition va0_res (a : accion) : Z :=
  match a with Anexar r | SetResult _ r => g r | _ => 0 end.

Definition vl_res (x : nat * futuro) : Z :=
  match x.2 with Hecho r => g r | Excepcion _ => 0 end.

Definition va_res : accion → Z := con_submit falla va0_res.
Definition vr_res (d : globales) : Z := suma_de g (resultados d).
Definition ve_res (d : globales) : Z :=
  en_cola falla va0_res (cola d) + en_listos vl_res (listos d).

Definition reinicia_res (a : accion) : bool :=
  match a with NuevaLista => true | _ => false end.

Definition toca_res (a : accion) : bool :=
  match a with Anexar _ | SiguienteFuturo => true | _ => false end.

Definition fases_res : Z → mundo_t → Prop :=
  fases va_res vr_res ve_res reinicia_res toca_res.

Lemma res_extra a t c d d' x :
  ejec a t c d = Some (d', x) →
  tiene reinicia_res x = false ∧ (toca_res a = false → tiene toca_res x = false).
Proof.
  intros H.
  destruct (ejecutar_extra _ _ _ _ _ _ _ H) as [->|(i & f & q & -> & Hq & Ha & -> & ->)];
    [done|].
  split; intros; apply tiene_solo; rewrite solo_app; apply andb_true_iff;
    (split; [by apply trabajo_solo|done]).
Qed.

Lemma res_reinicia a t c d d' x :
  reinicia_res a = true → ejec a t c d = Some (d', x) →
  vr_res d' = 0 ∧ ve_res d' = ve_res d ∧ x = [] ∧ va_res a = 0.
Proof. destruct a; try done. by intros _ [= <- <-]. Qed.

Lemma res_neutra a t c d d' x :
  reinicia_res a = false → toca_res a = false → ejec a t c d = Some (d', x) →
  vr_res d' = vr_res d
  ∧ ve_res d' + valor_codigo va_res x = ve_res d + va_res a.
Proof.
  intros Hr Ht H. unfold vr_res, ve_res.
  destruct a; simpl in *; try done; try (injection H as <- <-; simpl; split; lia).
  - injection H as <- <-. simpl. rewrite en_cola_app. split; lia.
  - destruct (cola d) as [|i q] eqn:Hq.
    + destruct (cerrado d); [|done]. injection H as <- <-. simpl. rewrite Hq. simpl.
      split; lia.
    + destruct (ARCHIVOS !! i) as [f|] eqn:Ha; simpl in H; [|done].
      injection H as <- <-. simpl.
      change (valor_codigo va_res) with (valor_codigo (con_submit falla va0_res)).
      rewrite valor_trabajo by done. split; lia.
  - injection H as <- <-. simpl. rewrite en_listos_app. split; [done|].
    unfold vl_res. simpl. lia.
  - injection H as <- <-. simpl. rewrite en_listos_app. split; [done|].
    unfold vl_res. simpl. lia.
Qed.

Lemma res_toca a t c d d' x :
  toca_res a = true → ejec a t c d = Some (d', x) →
  vr_res d' + ve_res d' + valor_codigo va_res x = vr_res d + ve_res d + va_res a.
Proof.
  intros Ht H. unfold vr_res, ve_res.
  destruct a; simpl in *; try done.
  - injection H as <- <-. simpl. rewrite suma_de_app. lia.
  - destruct (listos d !! c) as [[i f]|] eqn:Hl; simpl in H; [|done].
    destruct (ARCHIVOS !! i); simpl in H; [|done]. injection H as <- <-.
    destruct f; simpl; rewrite (en_listos_delete _ _ _ _ Hl); unfold vl_res; simpl.
    + rewrite suma_de_app. lia.
    + lia.
Qed.

Lemma fases_res_paso C t c (m m' : mundo_t) :
  seguro ejec m → fases_res C m → paso ejec t c m = Some m' → fases_res C m'.
Proof.
  intros Hseg Hf Hp.
  eapply (fases_paso ejec va_res vr_res ve_res); try done.
  - apply res_extra.
  - apply res_reinicia.
  - apply res_neutra.
  - intros h a r d' x Hh Hi Hc Ht Hr He. by eapply res_toca.
Qed.

Definition inv_res (C : Z) (m : mundo_t) : Prop :=
  seguro ejec m ∧ fases_res C m ∧ futuros_ok falla m.

Lemma inv_res_paso C t c (m m' : mundo_t) :
  inv_res C m → paso ejec t c m = Some m' → inv_res C m'.
Proof.
  intros (Hseg & HR & HF) Hp. split_and!.
  - by eapply seguro_paso.
  - by eapply fases_res_paso.
  - by eapply futuros_paso.
Qed.

Lemma inv_res_plan C ds (m m' : mundo_t) :
  inv_res C m → ejecutar_plan ejec ds m = Some m' → inv_res C m'.
Proof.
  intros H Hp. eapply (plan_inv ejec (inv_res C)); eauto using inv_res_paso.
Qed.

Lemma inv_res_final C (m : mundo_t) h0 :
  inv_res C m → hilos m !! 0%nat = Some h0 → codigo h0 = [] → error h0 = None →
  suma_de g (resultados (datos m)) = C.
Proof.
  intros ([(Hd & Hq & Hm) Hin] & (h0' & H0' & _ & _ & Hval) & HF) H0 Hc He.
  pose proof (fin_quieto _ h0 Hq H0 Hc He) as Hv.
  destruct (futuros_final falla m HF Hv) as [Hl Hcola].
  assert (h0' = h0) as -> by congruence. rewrite Hc in Hval. simpl in Hval.
  unfold valor in Hval. rewrite valor_hilos_vacio in Hval by done.
  unfold vr_res, ve_res in Hval. rewrite Hcola, Hl in Hval. simpl in Hval. lia.
Qed.

End Resultados.

(** *** The lines of the console *)

Section Consola.
Variable s : string.

Definition cuenta_linea (l : linea) : Z := if decide (l = LTexto s) then 1 else 0.

Definition vl_err (x : nat * futuro) : Z :=
  match x.2, ARCHIVOS !! x.1 with
  | Excepcion e, Some a => cuenta_linea (LTexto (texto_error (nombre a) e))
  | _, _ => 0
  end.

Definition va0_err (a : accion) : Z :=
  match a with
  | Print l => cuenta_linea l
  | SetException i e => vl_err (i, Excepcion e)
  | _ => 0
  end.

Definition va_err : accion → Z := con_submit falla va0_err.

Definition vd_err (d : globales) : Z :=
  suma_de cuenta_linea (consola d)
  + en_cola falla va0_err (cola d) + en_listos vl_err (listos d).

Lemma err_ley a t c d d' x :
  ejec a t c d = Some (d', x) →
  vd_err d' + valor_codigo va_err x = vd_err d + va_err a.
Proof.
  intros H. unfold vd_err.
  destruct a; simpl in *; try (injection H as <- <-; simpl; lia).
  - injection H as <- <-. simpl. rewrite suma_de_app. lia.
  - injection H as <- <-. simpl. rewrite suma_de_app. unfold cuenta_linea at 2.
    simpl. lia.
  - injection H as <- <-. simpl. rewrite en_cola_app. lia.
  - destruct (cola d) as [|i q] eqn:Hq.
    + destruct (cerrado d); [|done]. injection H as <- <-. simpl. rewrite Hq. simpl. lia.
    + destruct (ARCHIVOS !! i) as [f|] eqn:Ha; simpl in H; [|done].
      injection H as <- <-. simpl.
      change (valor_codigo va_err) with (valor_codigo (con_submit falla va0_err)).
      rewrite valor_trabajo by done. lia.
  - injection H as <- <-. simpl. rewrite en_listos_app. unfold vl_err. simpl. lia.
  - injection H as <- <-. simpl. rewrite en_listos_app. lia.
  - destruct (listos d !! c) as [[i f]|] eqn:Hl; simpl in H; [|done].
    destruct (ARCHIVOS !! i) as [a|] eqn:Ha; simpl in H; [|done]. injection H as <- <-.
    destruct f; simpl; rewrite (en_listos_delete _ _ _ _ Hl); unfold vl_err; simpl.
    + lia.
    + rewrite suma_de_app, Ha. lia.
Qed.

Definition inv_err (C : Z) (m : mundo_t) : Prop :=
  seguro ejec m ∧ valor va_err vd_err m = C ∧ futuros_ok falla m.

Lemma inv_err_paso C t c (m m' : mundo_t) :
  inv_err C m → paso ejec t c m = Some m' → inv_err C m'.
Proof.
  intros (Hseg & HE & HF) Hp. split_and!.
  - by eapply seguro_paso.
  - rewrite (valor_conservado ejec va_err vd_err t c m m'); try done.
    intros h a r d' x _ _ _ He. by eapply err_ley.
  - by eapply futuros_paso.
Qed.

Lemma inv_err_plan C ds (m m' : mundo_t) :
  inv_err C m → ejecutar_plan ejec ds m = Some m' → inv_err C m'.
Proof.
  intros H Hp. eapply (plan_inv ejec (inv_err C)); eauto using inv_err_paso.
Qed.

Lemma inv_err_final C (m : mundo_t) h0 :
  inv_err C m → hilos m !! 0%nat = Some h0 → codigo h0 = [] → error h0 = None →
  suma_de cuenta_linea (consola (datos m)) = C.
Proof.
  intros ([(Hd & Hq & Hm) Hin] & Hval & HF) H0 Hc He.
  pose proof (fin_quieto _ h0 Hq H0 Hc He) as Hv.
  destruct (futuros_final falla m HF Hv) as [Hl Hcola].
  unfold valor in Hval. rewrite valor_hilos_vacio in Hval by done.
  unfold vd_err in Hval. rewrite Hcola, Hl in Hval. simpl in Hval. lia.
Qed.

End Consola.

End ConFallos.
End SimuladorRes.
(** ** The download simulator: the first state of a mode *)

Module SimuladorInicial.
Import Maquina Pasos Reglas Teoria Cantidades.
Import Simulador SimuladorReglas SimuladorInv SimuladorRes.

Section ConFallos.
Variable falla : nat → option (nat * string).

Local Abbreviation ejec := (ejecutar falla).
Local Abbreviation mundo_t := (mundo accion globales).
Local Abbreviation forma_sim := (forma sim_simple sim_protegida).

Lemma tarea_forma a i : forma_sim None (tarea falla a i) = true.
Proof. apply forma_app; [apply llamar_forma|done]. Qed.

Lemma tarea_obrero a i : es_obrero (tarea falla a i) = true.
Proof. unfold tarea. by rewrite es_obrero_app, llamar_obrero. Qed.

Definition cuerpo_sec (p : nat * archivo) : codigo_t :=
  llamar falla p.1 p.2 ++ [Dato (Anexar (resultado_de p.2))].

Lemma modo_secuencial_eq :
  modo_secuencial falla
  = (cabecera "  MODO SECUENCIAL (sin concurrencia)"
              "  Los archivos se descargan UNO A LA VEZ"
     ++ reinicio ++ [Dato NuevaLista])
    ++ flat_map cuerpo_sec (enumerar ARCHIVOS) ++ [Dato (Resumen "SECUENCIAL")].
Proof. reflexivity. Qed.

Lemma cuerpo_sec_forma p : forma_sim None (cuerpo_sec p) = true.
Proof. apply forma_app; [apply llamar_forma|done]. Qed.

Lemma cuerpo_sec_obrero p : es_obrero (cuerpo_sec p) = true.
Proof. unfold cuerpo_sec. by rewrite es_obrero_app, llamar_obrero. Qed.

Lemma forma_flat_map {X} (F : X → codigo_t) l r :
  (∀ x, forma_sim None (F x) = true) → forma_sim None r = true →
  forma_sim None (flat_map F l ++ r) = true.
Proof.
  intros HF Hr. induction l as [|x l IH]; [done|]. simpl.
  rewrite <- app_assoc. by apply forma_app.
Qed.

Lemma es_obrero_flat_map {X} (F : X → codigo_t) l :
  (∀ x, es_obrero (F x) = true) → es_obrero (flat_map F l) = true.
Proof.
  intros HF. induction l as [|x l IH]; [done|]. simpl.
  by rewrite es_obrero_app, HF, IH.
Qed.

Lemma modo_secuencial_forma : forma_sim None (modo_secuencial falla) = true.
Proof.
  rewrite modo_secuencial_eq. apply forma_app; [done|].
  apply forma_flat_map; [apply cuerpo_sec_forma|done].
Qed.

Lemma modo_secuencial_obrero : es_obrero (modo_secuencial falla) = true.
Proof.
  rewrite modo_secuencial_eq. rewrite !es_obrero_app.
  by rewrite es_obrero_flat_map by apply cuerpo_sec_obrero.
Qed.

Lemma hilos_tareas_en h :
  h ∈ hilos_tareas falla → ∃ a i, h = Hilo false (tarea falla a i) None.
Proof.
  unfold hilos_tareas. intros (p & -> & _)%list_elem_of_fmap.
  destruct p as [i a]. eauto.
Qed.

Lemma inicial_bien_formado md e con :
  bien_formado ejec (inicial falla md e con) = true.
Proof.
  destruct md.
  - apply (bien_formado_de ejec _ (Hilo true (modo_secuencial falla) None) []).
    + done.
    + done.
    + intros h ->%list_elem_of_singleton. split; [|done].
      apply modo_secuencial_forma.
    + done.
    + cbn [length codigo]. rewrite <- (app_nil_r (modo_secuencial falla)).
      rewrite orden_obrero; [done|]. apply modo_secuencial_obrero.
    + intros h Hin. by apply elem_of_nil in Hin.
    + cbn [length]. lia.
  - apply (bien_formado_de ejec _ (Hilo true (modo_threads 1) None)
             (hilos_tareas falla)).
    + done.
    + done.
    + intros h [->|Hin]%elem_of_cons; [done|].
      apply hilos_tareas_en in Hin as (a & i & ->). split; [|done].
      apply tarea_forma.
    + done.
    + done.
    + intros h Hin. apply hilos_tareas_en in Hin as (a & i & ->).
      split; [done|]. apply tarea_obrero.
    + intros u Hu. change (length (hilos_tareas falla)) with 6 in Hu.
      destruct u as [|[|[|[|[|[|[|u]]]]]]]; try lia; done.
  - by vm_compute.
Qed.

Lemma inicial_seguro md e con : seguro ejec (inicial falla md e con).
Proof.
  split.
  - apply bien_formado_estable, inicial_bien_formado.
  - intros h0 H0. destruct md; simpl in H0; injection H0 as <-; simpl.
    + rewrite entradas_de_obrero; [lia|]. apply modo_secuencial_obrero.
    + by vm_compute.
    + by vm_compute.
Qed.


Lemma inicial_sano_con_fallos md e con :
  md ≠ Secuencial → estable_sano ejec (inicial falla md e con).
Proof.
  intros Hmd. apply bien_formado_estable_sano. unfold bien_formado_sano.
  rewrite inicial_bien_formado. by destruct md.
Qed.

Local Open Scope Z_scope.

(** The records of the tasks whose call returns. *)
Definition fruto (p : nat * archivo) : list resultado :=
  if fracasa falla p.1 is Some _ then [] else [resultado_de p.2].

Definition frutos : list resultado := flat_map fruto (enumerar ARCHIVOS).

Lemma sin_raise_fallar_en {A} k e held (c : list (instr A)) :
  (k < length c)%nat → sin_raise (fallar_en k e held c) = false.
Proof.
  revert k held. induction c as [|x c IH]; intros k held Hk; [simpl in Hk; lia|].
  destruct k as [|k]; cbn [fallar_en].
  - unfold sin_raise. rewrite forallb_app. simpl. apply andb_false_r.
  - simpl in Hk. simpl. rewrite IH by lia. apply andb_false_r.
Qed.

Lemma llamar_sin_raise i a :
  sin_raise (llamar falla i a) = if fracasa falla i is Some _ then false else true.
Proof.
  unfold llamar, fracasa. destruct (falla i) as [[k e]|]; [|done].
  destruct (decide (k < 92)%nat).
  - apply sin_raise_fallar_en. by rewrite descargar_length.
  - by rewrite fallar_en_largo by (rewrite descargar_length; lia).
Qed.

Section Resultados.
Variable g : resultado → Z.

Definition es_res (a : accion) : bool :=
  match a with Anexar _ | SetResult _ _ => true | _ => false end.

Lemma va0_res_nulo a : es_res a = false → va0_res g a = 0.
Proof. by destruct a. Qed.

Lemma descargar_sin_res a i : solo (λ x, negb (es_res x)) (descargar_archivo a i) = true.
Proof. reflexivity. Qed.

Lemma aporte_res i a :
  ARCHIVOS !! i = Some a →
  aporte falla (va0_res g) i = suma_de g (fruto (i, a)).
Proof.
  intros Ha. unfold aporte, fruto. rewrite Ha.
  rewrite (valor_trabajo_de falla (va0_res g) es_res);
    [|apply va0_res_nulo|apply descargar_sin_res].
  simpl. destruct (fracasa falla i); simpl; lia.
Qed.

Lemma valor_tarea a i :
  valor_codigo (va_res falla g) (tarea falla a i) = suma_de g (fruto (i, a)).
Proof.
  unfold tarea, va_res. rewrite valor_sin_submit.
  - rewrite valor_codigo_app_gen, llamar_sin_raise.
    rewrite (valor_nulo (va0_res g) es_res);
      [|apply va0_res_nulo|by apply llamar_solo, descargar_sin_res].
    unfold fruto. simpl. destruct (fracasa falla i); simpl; lia.
  - rewrite solo_app. apply andb_true_iff. split; [by apply llamar_solo|done].
Qed.

Lemma suma_de_app_gen {X} (f : X → Z) l1 l2 :
  suma_de f (l1 ++ l2) = suma_de f l1 + suma_de f l2.
Proof. induction l1 as [|x l1 IH]; simpl; [lia|]. rewrite IH. lia. Qed.

Lemma en_cola_frutos ps :
  (∀ p, p ∈ ps → ARCHIVOS !! p.1 = Some p.2) →
  en_cola falla (va0_res g) (map fst ps) = suma_de g (flat_map fruto ps).
Proof.
  induction ps as [|[i a] ps IH]; intros Hps; [done|]. simpl.
  rewrite suma_de_app_gen, IH.
  - rewrite (aporte_res i a); [done|]. apply (Hps (i, a)). by left.
  - intros p Hp. apply Hps. by right.
Qed.

Lemma enumerar_archivos p : p ∈ enumerar ARCHIVOS → ARCHIVOS !! p.1 = Some p.2.
Proof.
  unfold enumerar. intros (i & a & -> & Hi)%elem_of_lookup_imap. done.
Qed.

Lemma valor_hilos_tareas :
  valor_hilos (va_res falla g) (hilos_tareas falla) = suma_de g frutos.
Proof.
  unfold hilos_tareas, frutos. induction (enumerar ARCHIVOS) as [|[i a] ps IH]; [done|].
  simpl. rewrite suma_de_app_gen, IH. by rewrite valor_tarea.
Qed.

Lemma inicial_fases_res md e con :
  md ≠ Secuencial →
  fases_res falla g (suma_de g frutos) (inicial falla md e con).
Proof.
  intros Hmd. destruct md; [done| |].
  - (* threads *)
    assert (Hv : valor_fases (va_res falla g) (vr_res g) (ve_res falla g) reinicia_res
                   (inicial falla Threads e con) = suma_de g frutos).
    { unfold valor_fases, valor. cbn [hilos inicial hilos_de codigo datos].
      change (tiene reinicia_res (modo_threads 1)) with true. cbn [valor_hilos foldr].
      change (valor_codigo (va_res falla g) (modo_threads 1)) with 0.
      fold (valor_hilos (va_res falla g) (hilos_tareas falla)).
      rewrite valor_hilos_tareas. unfold ve_res. simpl. lia. }
    rewrite <- Hv.
    eapply (fases_inicial _ _ _ _ _ _ (Hilo true (modo_threads 1) None)
              (hilos_tareas falla)); try done.
    intros u hu Hu. apply list_elem_of_lookup_2 in Hu as Hin.
    apply hilos_tareas_en in Hin as (a & i & ->).
    unfold revisa_obrero. cbn [codigo iniciado].
    apply andb_true_iff. split.
    + apply negb_true_iff, tiene_solo. unfold tarea. rewrite solo_app.
      apply andb_true_iff. split; [by apply llamar_solo|done].
    + apply orb_true_iff. right. apply lookup_lt_Some in Hu.
      change (length (hilos_tareas falla)) with 6%nat in Hu.
      destruct u as [|[|[|[|[|[|u]]]]]]; try lia; done.
  - (* pool *)
    assert (Hv : valor_fases (va_res falla g) (vr_res g) (ve_res falla g) reinicia_res
                   (inicial falla Pool e con) = suma_de g frutos).
    { unfold frutos. rewrite <- en_cola_frutos by apply enumerar_archivos.
      cbv -[Z.add aporte]. lia. }
    rewrite <- Hv. apply fases_revisada. by vm_compute.
Qed.

Lemma inicial_futuros md e con : futuros_ok falla (inicial falla md e con).
Proof.
  unfold futuros_ok. destruct md.
  - unfold valor. cbn [hilos inicial hilos_de datos valor_hilos foldr codigo].
    rewrite (valor_nulo (va_fut falla) (λ a, match a with
                                              | Submit _ | SetResult _ _
                                              | SetException _ _ | SiguienteFuturo => true
                                              | _ => false
                                              end)); [done|by intros []|].
    rewrite modo_secuencial_eq, !solo_app.
    apply andb_true_iff. split; [done|]. apply andb_true_iff. split; [|done].
    induction (enumerar ARCHIVOS) as [|[i a] ps IH]; [done|]. cbn [flat_map].
    rewrite solo_app, IH. unfold cuerpo_sec. rewrite solo_app, llamar_solo; done.
  - unfold valor. cbn [hilos inicial hilos_de datos valor_hilos foldr codigo].
    change (valor_codigo (va_fut falla) (modo_threads 1)) with 0.
    assert (Hz : valor_hilos (va_fut falla) (hilos_tareas falla) = 0).
    { apply valor_hilos_vacio_de. intros h Hin.
      apply hilos_tareas_en in Hin as (a & i & ->). simpl.
      apply (valor_nulo (va_fut falla) (λ a, match a with
                                              | Submit _ | SetResult _ _
                                              | SetException _ _ | SiguienteFuturo => true
                                              | _ => false
                                              end)); [by intros []|].
      unfold tarea. rewrite solo_app. by rewrite llamar_solo. }
    fold (valor_hilos (va_fut falla) (hilos_tareas falla)). rewrite Hz. done.
  - assert (Ha : ∀ i, (i < 6)%nat → aporte falla va0_fut i = 1).
    { intros i Hi. destruct (lookup_lt_is_Some_2 ARCHIVOS i Hi) as [a Ha].
      by eapply aporte_fut. }
    assert (Hv : valor (va_fut falla) (vd_fut falla) (inicial falla Pool e con)
                 = en_cola falla va0_fut [0; 1; 2; 3; 4; 5]%nat - 6).
    { cbv -[Z.add Z.sub aporte]. lia. }
    rewrite Hv. cbn [en_cola foldr].
    rewrite !Ha by lia. done.
Qed.

Lemma inv_res_inicial md e con :
  md ≠ Secuencial → inv_res falla g (suma_de g frutos) (inicial falla md e con).
Proof.
  intros Hmd. split_and!.
  - apply inicial_seguro.
  - by apply inicial_fases_res.
  - apply inicial_futuros.
Qed.

End Resultados.

End ConFallos.
End SimuladorInicial.
(** ** The download simulator: which updates stand under which lock *)

Module SimuladorCerrojos.
Import Maquina Pasos Reglas Teoria Cantidades.
Import Simulador SimuladorReglas SimuladorInv SimuladorRes SimuladorInicial.


Lemma forma_atrapar_de sp pr o i r c :
  pr (SetResult i r) = None → (∀ e, pr (SetException i e) = None) →
  forma sp pr o c = true → forma sp pr o (atrapar i r c) = true.
Proof.
  intros Hr He. revert o. induction c as [|x c IH]; intros o Hc; simpl in *.
  - destruct o; [done|]. by rewrite Hr.
  - destruct x as [a| |l|l|u|u| |e0]; simpl in *; try (destruct o; by auto).
    + destruct o; apply andb_true_iff in Hc as [-> Hc]; simpl; by apply IH.
    + destruct o; [|done]. apply andb_true_iff in Hc as [-> Hc]; simpl; by apply IH.
    + destruct o; [done|]. by rewrite He.
Qed.






Section ConFallos.
Variable falla : nat → option (nat * string).

Local Abbreviation ejec := (ejecutar falla).
Local Abbreviation mundo_t := (mundo accion globales).










Lemma tiene_cola {A} (p : A → bool) (i : instr A) r :
  tiene p (i :: r) = false → (∀ e, i ≠ Raise e) → tiene p r = false.
Proof.
  destruct i; simpl; auto.
  - by intros [_ ?]%orb_false_iff.
  - intros _ H. by destruct (H e).
Qed.




End ConFallos.
End SimuladorCerrojos.
(** ** The download simulator: what a finished mode leaves *)

Module SimuladorFinal.
Import Maquina Pasos Reglas Teoria Cantidades.
Import Simulador SimuladorReglas SimuladorInv SimuladorRes SimuladorInicial.

(** How often a line stands on the console. *)
Definition veces (l : linea) (con : list linea) : nat :=
  count_occ (λ a b : linea, decide (a = b)) con l.

(** Two lists that every weighing [g] finds equal hold the same elements,
    as often. *)
Lemma suma_de_permutacion {X} `{EqDecision X} (l1 l2 : list X) :
  (∀ g : X → Z, suma_de g l1 = suma_de g l2) → l1 ≡ₚ l2.
Proof.
  intros H. apply (Permutation_count_occ (λ a b : X, decide (a = b))).
  intros x. apply Nat2Z.inj. rewrite <- !suma_de_cuenta. apply H.
Qed.

Lemma suma_de_pos {X} (g : X → Z) l : (∀ x, 0 ≤ g x)%Z → (0 ≤ suma_de g l)%Z.
Proof. intros Hg. induction l as [|x l IH]; simpl; [done|]. specialize (Hg x). lia. Qed.

(** No two files of ARCHIVOS give the same record. *)
Lemma resultado_de_inj i j a b :
  ARCHIVOS !! i = Some a → ARCHIVOS !! j = Some b →
  resultado_de a = resultado_de b → i = j.
Proof.
  intros Hi Hj.
  destruct i as [|[|[|[|[|[|i]]]]]]; simpl in Hi; try done; injection Hi as <-;
    destruct j as [|[|[|[|[|[|j]]]]]]; simpl in Hj; try done; injection Hj as <-;
    try done; intros H; by vm_compute in H.
Qed.

Section ConFallos.
Variable falla : nat → option (nat * string).

Local Abbreviation ejec := (ejecutar falla).
Local Abbreviation mundo_t := (mundo accion globales).

(** The main thread has returned. *)
Lemma final_principal (m : mundo_t) :
  estable_sano ejec m → fin_principal m = true →
  ∃ h0, hilos m !! 0 = Some h0 ∧ codigo h0 = [] ∧ error h0 = None.
Proof.
  intros [_ (h0 & H0 & He & _)] Hfin. unfold fin_principal in Hfin.
  rewrite H0 in Hfin. apply andb_true_iff in Hfin as [_ Hv].
  exists h0. split_and!; try done. by destruct (codigo h0).
Qed.

Lemma final_salida (m : mundo_t) :
  estable_sano ejec m → fin_principal m = true → codigo_salida m = Some 0.
Proof.
  intros Hs Hfin. destruct (final_principal m Hs Hfin) as (h0 & H0 & Hc & He).
  unfold codigo_salida, fin_principal in *. rewrite H0 in *. simpl.
  by rewrite Hfin, He.
Qed.

Lemma fruto_en x :
  x ∈ frutos falla ↔
  ∃ i a, ARCHIVOS !! i = Some a ∧ fracasa falla i = None ∧ x = resultado_de a.
Proof.
  unfold frutos. rewrite list_elem_of_In, in_flat_map. split.
  - intros ([i a] & Hin%list_elem_of_In%enumerar_archivos & Hx).
    unfold fruto in Hx. simpl in *. exists i, a.
    destruct (fracasa falla i); [done|]. destruct Hx as [<-|[]]. done.
  - intros (i & a & Ha & Hf & ->). exists (i, a). split.
    + apply list_elem_of_In, elem_of_lookup_imap. eauto.
    + unfold fruto. simpl. rewrite Hf. by left.
Qed.

Lemma fruto_dentro i a :
  ARCHIVOS !! i = Some a → fracasa falla i = None → resultado_de a ∈ frutos falla.
Proof. intros Ha Hf. apply fruto_en. eauto. Qed.

Lemma fruto_fuera i a e :
  ARCHIVOS !! i = Some a → fracasa falla i = Some e → resultado_de a ∉ frutos falla.
Proof.
  intros Ha Hf (j & b & Hb & Hfj & Heq)%fruto_en.
  assert (i = j) as -> by by eapply resultado_de_inj. congruence.
Qed.

(** The records that a finished mode has collected, when no exception
    can reach the main thread. *)
Lemma resultados_de_frutos md e con ds (m : mundo_t) :
  md ≠ Secuencial →
  ejecutar_plan ejec ds (inicial falla md e con) = Some m →
  fin_principal m = true →
  resultados (datos m) ≡ₚ frutos falla.
Proof.
  intros Hmd Hp Hfin.
  pose proof (estable_sano_plan _ _ _ _ (inicial_sano_con_fallos falla md e con Hmd) Hp)
    as Hs.
  destruct (final_principal m Hs Hfin) as (h0 & H0 & Hc & He).
  apply suma_de_permutacion. intros g.
  eapply (inv_res_final falla g); try done.
  eapply inv_res_plan; [|done]. by apply inv_res_inicial.
Qed.

Local Open Scope Z_scope.

(** *** The error lines of modo_pool *)

Lemma valor_codigo_pos (va : accion → Z) (c : codigo_t) :
  (∀ a, 0 ≤ va a) → 0 ≤ valor_codigo va c.
Proof.
  intros Hva. induction c as [|i c IH]; simpl; [done|].
  destruct i; try done. specialize (Hva a). lia.
Qed.

Lemma valor_codigo_dato (va : accion → Z) (c : codigo_t) a :
  (∀ a, 0 ≤ va a) → sin_raise c = true → In (Dato a) c → va a ≤ valor_codigo va c.
Proof.
  intros Hva. induction c as [|i c IH]; simpl; [done|].
  intros [Hi Hc]%andb_true_iff [->|Hin].
  - pose proof (valor_codigo_pos va c Hva). lia.
  - specialize (IH Hc Hin). destruct i; try done. specialize (Hva a0). lia.
Qed.

Lemma valor_hilos_pos (va : accion → Z) (hs : list (hilo accion)) :
  (∀ a, 0 ≤ va a) → 0 ≤ valor_hilos va hs.
Proof.
  intros Hva. induction hs as [|h hs IH]; simpl; [done|].
  pose proof (valor_codigo_pos va (codigo h) Hva). lia.
Qed.

Section Consola.
Variable s : string.

Definition es_err (a : accion) : bool :=
  match a with Print (LTexto _) | SetException _ _ => true | _ => false end.

Lemma cuenta_linea_pos l : 0 ≤ cuenta_linea s l.
Proof. unfold cuenta_linea. destruct (decide _); lia. Qed.

Lemma vl_err_pos x : 0 ≤ vl_err s x.
Proof.
  unfold vl_err. destruct (x.2); [done|]. destruct (ARCHIVOS !! x.1); [|done].
  apply cuenta_linea_pos.
Qed.

Lemma va0_err_pos a : 0 ≤ va0_err s a.
Proof.
  destruct a; simpl; try done; [|apply vl_err_pos].
  apply cuenta_linea_pos.
Qed.

Lemma aporte_err i a :
  ARCHIVOS !! i = Some a →
  aporte falla (va0_err s) i
  = match fracasa falla i with
    | Some e => cuenta_linea s (LTexto (texto_error (nombre a) e))
    | None => 0
    end.
Proof.
  intros Ha. unfold aporte. rewrite Ha.
  rewrite (valor_trabajo_de falla (va0_err s) es_err).
  - destruct (fracasa falla i); [|done]. unfold va0_err, vl_err. simpl. by rewrite Ha.
  - intros x Hx. destruct x; try done. simpl in *. by destruct l.
  - reflexivity.
Qed.

Lemma va_err_pos a : 0 ≤ va_err falla s a.
Proof.
  unfold va_err, con_submit. destruct a; try apply va0_err_pos.
  unfold aporte. destruct (ARCHIVOS !! i) as [f|] eqn:Hf; [|done].
  pose proof (aporte_err i f Hf) as H. unfold aporte in H. rewrite Hf in H.
  rewrite H. destruct (fracasa falla i); [apply cuenta_linea_pos|done].
Qed.

Lemma submit_en_pool i : (i < 6)%nat → In (Dato (Submit i)) (modo_pool 1).
Proof.
  intros Hi. destruct i as [|[|[|[|[|[|i]]]]]]; [..|lia];
    vm_compute; repeat (first [left; reflexivity|right]).
Qed.

(** A line that says so is printed for every task that raises. *)
Lemma error_impreso e con ds (m : mundo_t) i a ex :
  s = texto_error (nombre a) ex →
  ARCHIVOS !! i = Some a → fracasa falla i = Some ex →
  ejecutar_plan ejec ds (inicial falla Pool e con) = Some m →
  fin_principal m = true →
  (veces (LTexto s) con < veces (LTexto s) (consola (datos m)))%nat.
Proof.
  intros Hs Ha Hf Hp Hfin.
  assert (Hmd : Pool ≠ Secuencial) by done.
  pose proof (estable_sano_plan _ _ _ _ (inicial_sano_con_fallos falla Pool e con Hmd) Hp)
    as Hsano.
  destruct (final_principal m Hsano Hfin) as (h0 & H0 & Hc & He).
  set (C := valor (va_err falla s) (vd_err falla s) (inicial falla Pool e con)).
  assert (Hinv : inv_err falla s C (inicial falla Pool e con)).
  { split_and!; [apply inicial_seguro|done|apply inicial_futuros]. }
  pose proof (inv_err_final falla s C m h0 (inv_err_plan falla s C ds _ m Hinv Hp)
                H0 Hc He) as Hfinal.
  assert (HC : suma_de (cuenta_linea s) con + 1 ≤ C).
  { unfold C, valor. cbn [hilos inicial hilos_de datos valor_hilos foldr codigo].
    pose proof (valor_hilos_pos (va_err falla s) hilos_pool va_err_pos) as Hw.
    fold (valor_hilos (va_err falla s) hilos_pool).
    assert (Hd : vd_err falla s (datos_iniciales e con) = suma_de (cuenta_linea s) con).
    { unfold vd_err. simpl. lia. }
    assert (Hi : (i < 6)%nat) by (by apply lookup_lt_Some in Ha).
    pose proof (valor_codigo_dato (va_err falla s) (modo_pool 1) (Submit i)
                  va_err_pos eq_refl (submit_en_pool i Hi)) as Hm.
    assert (Hun : va_err falla s (Submit i) = 1).
    { unfold va_err, con_submit. rewrite (aporte_err i a Ha), Hf.
      unfold cuenta_linea. by rewrite decide_True by by rewrite Hs. }
    lia. }
  unfold cuenta_linea in Hfinal, HC. rewrite suma_de_cuenta in Hfinal, HC.
  unfold veces. lia.
Qed.

End Consola.

End ConFallos.
End SimuladorFinal.
(** ** The download simulator: the executor does not starve, the runs end *)

Module SimuladorPrograma.
Import Maquina Pasos Reglas Teoria Cantidades Generico.
Import Simulador SimuladorReglas SimuladorInv SimuladorRes SimuladorInicial.

Local Abbreviation mundo_t := (mundo accion globales).

(** The summary of a mode and the comparison of the three. *)
Definition informe (a : accion) : bool :=
  match a with
  | Resumen _ => true
  | Print (LTexto s) =>
      bool_decide (s = "  COMPARACION DE RENDIMIENTO" ∨ s = "Secuencial"
                   ∨ s = "Threads paralelos" ∨ s = "Pool (3 workers)")
  | _ => false
  end.

Lemma programa_extra_informe a t c d d' x :
  ejecutar sin_fallos a t c d = Some (d', x) → tiene informe x = false.
Proof.
  intros H.
  destruct (ejecutar_extra _ _ _ _ _ _ _ H) as [->|(i & f & q & -> & Hq & Ha & -> & ->)];
    [done|].
  apply tiene_falso_app; [|done]. apply tiene_solo. by apply trabajo_solo.
Qed.



Lemma programa_informes entrada : informes informe (programa sin_fallos entrada).
Proof.
  eexists. split; [reflexivity|]. split; [by vm_compute|].
  intros u hu Hu Hl.
  assert (HF : forallb (λ h, negb (tiene informe (codigo h)))
                 (hilos_tareas sin_fallos ++ hilos_pool) = true) by (by vm_compute).
  rewrite forallb_forall in HF. destruct u as [|u]; [done|].
  apply negb_true_iff, HF, list_elem_of_In.
  apply (list_elem_of_lookup_2 _ u). exact Hl.
Qed.


(** *** The pool does not starve *)

Definition es_shutdown (a : accion) : bool :=
  match a with Shutdown => true | _ => false end.

Definition es_submit (a : accion) : bool :=
  match a with Submit _ => true | _ => false end.

(** The actions of a work item, and those of the thread of a task. *)
Definition obra (a : accion) : bool :=
  match a with
  | Print _ | Leer _ | Sumar _ _ => true
  | SetResult i _ | SetException i _ => bool_decide (i < 6)
  | _ => false
  end.

Definition tarea_ok (a : accion) : bool :=
  match a with Print _ | Leer _ | Sumar _ _ | Anexar _ => true | _ => false end.

(** The code of a worker of the executor: work, then the queue again. *)
Fixpoint toma_final (c : codigo_t) : bool :=
  match c with
  | [] => true
  | i :: r =>
      match i, r with
      | Dato TomarTrabajo, [] => true
      | Dato a, _ => obra a && negb (vacio r) && toma_final r
      | (Sleep | Acquire _ | Release _), _ => negb (vacio r) && toma_final r
      | _, _ => false
      end
  end.

Lemma toma_final_cola i r :
  toma_final (i :: r) = true →
  (i = Dato TomarTrabajo ∧ r = [])
  ∨ (i ≠ Dato TomarTrabajo ∧ (∀ e, i ≠ Raise e) ∧ r ≠ [] ∧ toma_final r = true
     ∧ ∀ a, i = Dato a → obra a = true).
Proof.
  intros H. cbn [toma_final] in H.
  destruct i as [a| |l|l|u|u| |e]; try done.
  - destruct a; try (destruct r; done);
      try (apply andb_true_iff in H as [[Ho Hr]%andb_true_iff Ht]; right;
           split_and!; try done; [by destruct r|by intros ? [= <-]]).
    destruct r; [by left|done].
  - apply andb_true_iff in H as [Hr Ht]. right. split_and!; try done. by destruct r.
  - apply andb_true_iff in H as [Hr Ht]. right. split_and!; try done. by destruct r.
  - apply andb_true_iff in H as [Hr Ht]. right. split_and!; try done. by destruct r.
Qed.

Lemma solo_cola {A} (p : A → bool) (i : instr A) r :
  solo p (i :: r) = true → solo p r = true.
Proof. unfold solo. simpl. by intros [_ ?]%andb_true_iff. Qed.

(** Work that raises nothing and starts no thread, before the queue. *)
Lemma toma_final_app (x : codigo_t) :
  solo obra x = true → es_obrero x = true → sin_raise x = true →
  toma_final (x ++ [Dato TomarTrabajo]) = true.
Proof.
  induction x as [|i x IH]; [done|]. intros Hs Ho Hr.
  apply andb_true_iff in Hs as [Hi Hs]. apply andb_true_iff in Ho as [Hio Ho].
  apply andb_true_iff in Hr as [Hir Hr]. specialize (IH Hs Ho Hr).
  change ((i :: x) ++ [Dato TomarTrabajo]) with (i :: (x ++ [Dato TomarTrabajo])).
  assert (Hv : vacio (x ++ [Dato TomarTrabajo]) = false) by (by destruct x).
  cbn [toma_final]. destruct (x ++ [Dato TomarTrabajo]) as [|j y] eqn:Hxy; [done|].
  rewrite IH. destruct i as [a| |l|l|u|u| |e]; try done.
  destruct a; simpl in *; try done; by rewrite Hi.
Qed.

Section Piscina.

Variable falla : nat → option (nat * string).

(** The workers of the executor are the threads [b], [b + 1], [b + 2]. *)
Variable b : tid.

Local Abbreviation ejec := (ejecutar falla).

Definition es_pool (t : tid) : bool := bool_decide (b ≤ t < b + max_workers).

(** The code of main around the executor: every task is submitted and
    every worker started before the first future is awaited; the executor
    is shut down once, after the futures and before the joins. *)
Fixpoint orden_pool (c : codigo_t) : bool :=
  match c with
  | [] => true
  | i :: r =>
      match i with
      | Dato SiguienteFuturo =>
          negb (tiene es_submit r)
          && forallb (λ u, negb (arranca_a u r)) (seq b max_workers)
          && tiene es_shutdown r
      | Dato Shutdown => negb (tiene es_shutdown r)
      | Dato TomarTrabajo => false
      | Dato (Submit i) => bool_decide (i < 6)
      | Dato (SetResult _ _) | Dato (SetException _ _) => false
      | Join u => if es_pool u then negb (tiene es_shutdown r) else true
      | Raise _ => false
      | _ => true
      end
      && orden_pool r
  end.

Definition piscina (m : mundo_t) : Prop :=
  (Forall (λ i, i < 6) (cola (datos m))
   ∧ Forall (λ p, p.1 < 6) (listos (datos m)))
  ∧ (∃ h0, hilos m !! 0 = Some h0 ∧ orden_pool (codigo h0) = true
       ∧ cerrado (datos m) = negb (tiene es_shutdown (codigo h0)))
  ∧ (∀ t h, hilos m !! t = Some h → t ≠ 0 →
       if es_pool t
       then toma_final (codigo h) = true
            ∧ (codigo h = [] → cerrado (datos m) = true)
       else solo tarea_ok (codigo h) = true).

Definition sanos (m : mundo_t) : Prop :=
  ∀ t h, hilos m !! t = Some h → sano t m.

Lemma sanos_paso t c (m m' : mundo_t) :
  estable_sano ejec m → sanos m → paso ejec t c m = Some m' → sanos m'.
Proof.
  intros [(Hd & Hq & _) H0] Hs Hp u hu Hl.
  pose proof Hp as Hp'.
  apply paso_resumen in Hp' as (h & i & r & h' & Hh & _ & _ & Hh' & Hlen & _).
  destruct (lookup_lt_is_Some_2 (hilos m) u) as [hu0 Hu0];
    [rewrite <- Hlen; by eapply lookup_lt_Some|].
  eapply (sano_paso ejec u); eauto.
Qed.

(** What an action does to the queue and to the executor. *)
Lemma programa_datos a t c d d' x :
  ejec a t c d = Some (d', x) →
  cerrado d' = es_shutdown a || cerrado d
  ∧ match a with
    | Submit i => cola d' = cola d ++ [i] ∧ listos d' = listos d ∧ x = []
    | TomarTrabajo =>
        listos d' = listos d
        ∧ ((cola d = [] ∧ cerrado d = true ∧ cola d' = [] ∧ x = [])
           ∨ ∃ i f, cola d = i :: cola d' ∧ ARCHIVOS !! i = Some f
                    ∧ x = trabajo falla i f ++ [Dato TomarTrabajo])
    | SetResult i r => cola d' = cola d ∧ listos d' = listos d ++ [(i, Hecho r)] ∧ x = []
    | SetException i e =>
        cola d' = cola d ∧ listos d' = listos d ++ [(i, Excepcion e)] ∧ x = []
    | SiguienteFuturo => cola d' = cola d ∧ listos d' = delete c (listos d) ∧ x = []
    | _ => cola d' = cola d ∧ listos d' = listos d ∧ x = []
    end.
Proof.
  intros H. destruct a; simpl in H; try (by injection H as <- <-).
  - destruct (cola d) as [|i q] eqn:Hq.
    + destruct (cerrado d) eqn:Hc; [|done]. injection H as <- <-.
      split; [done|]. split; [done|]. left. by split_and!.
    + destruct (ARCHIVOS !! i) as [f|] eqn:Ha; simpl in H; [|done].
      injection H as <- <-. split; [done|]. split; [done|]. right.
      exists i, f. by split_and!.
  - destruct (listos d !! c) as [[i f]|]; simpl in H; [|done].
    destruct (ARCHIVOS !! i); simpl in H; [|done]. injection H as <- <-.
    by destruct f.
Qed.

Lemma toma_final_trabajo i f :
  ARCHIVOS !! i = Some f →
  toma_final (trabajo falla i f ++ [Dato TomarTrabajo]) = true.
Proof.
  intros Hf. apply lookup_lt_Some in Hf. change (length ARCHIVOS) with 6 in Hf.
  apply toma_final_app.
  - apply trabajo_solo; [reflexivity|by apply bool_decide_eq_true|].
    intros e. by apply bool_decide_eq_true.
  - apply trabajo_obrero.
  - apply trabajo_sin_raise.
Qed.

Lemma orden_pool_cola i r : orden_pool (i :: r) = true → orden_pool r = true.
Proof. cbn [orden_pool]. by intros [_ ?]%andb_true_iff. Qed.

Lemma orden_pool_sin_raise c : orden_pool c = true → sin_raise c = true.
Proof.
  induction c as [|i c IH]; [done|]. cbn [orden_pool]. intros [Hi Hc]%andb_true_iff.
  simpl. rewrite IH by done. by destruct i.
Qed.

Lemma piscina_paso t c (m m' : mundo_t) :
  estable_sano ejec m → sanos m → piscina m →
  paso ejec t c m = Some m' → piscina m'.
Proof.
  intros Hes Hsan ([Hcola Hlistos] & (h0 & H0 & Hop & Hcer) & Hw) Hp.
  pose proof (sanos_paso t c m m' Hes Hsan Hp) as Hsan'.
  apply paso_resumen in Hp
    as (h & i & r & h' & Hh & Hi & Hc & Hh' & Hlen & Hrest & Hcasos).
  (* the thread that steps does not die *)
  assert (Hvivo : ∀ e, h' ≠ falla_con h e).
  { intros e ->. destruct (Hsan' t _ Hh') as (h2 & Hh2 & He2 & _).
    assert (h2 = falla_con h e) as -> by congruence. done. }
  assert (Hmono : ∀ a x, i = Dato a → ejec a t c (datos m) = Some (datos m', x) →
            cerrado (datos m) = true → cerrado (datos m') = true).
  { intros a x _ He Hc1. destruct (programa_datos _ _ _ _ _ _ He) as [-> _].
    rewrite Hc1. apply orb_true_r. }
  destruct (decide (t = 0)) as [->|Hne].
  - (* the main thread *)
    assert (h = h0) as -> by congruence. rewrite Hc in Hop, Hcer.
    pose proof (orden_pool_cola _ _ Hop) as Hopr.
    destruct Hcasos as [(a & x & -> & He & ->)|(Hnd & Hdat & [[-> Hnr]|[e ->]])].
    + destruct (programa_datos _ _ _ _ _ _ He) as [Hcer' Hdatos].
      cbn [orden_pool] in Hop. apply andb_true_iff in Hop as [Ha _].
      assert (Hx : x = [] ∧ Forall (λ i, i < 6) (cola (datos m'))
                   ∧ Forall (λ p, p.1 < 6) (listos (datos m'))).
      { destruct a; try (destruct Hdatos as (-> & -> & ->); done).
        - destruct Hdatos as (-> & -> & ->). split_and!; [done| |done].
          apply Forall_app. split; [done|].
          apply Forall_singleton. by apply bool_decide_eq_true in Ha.
        - done.
        - destruct Hdatos as (-> & -> & ->). split_and!; [done|done|].
          by apply Forall_delete. }
      destruct Hx as (-> & Hcola' & Hlistos'). split_and!; [done|done| |].
      * exists (sigue h0 r). split; [exact Hh'|]. split; [exact Hopr|].
        rewrite Hcer', Hcer. cbn [codigo sigue tiene].
        destruct a; simpl; try done; simpl in Ha; by rewrite Ha.
      * intros u hu Hl Hu. destruct (Hrest u hu Hu Hl) as (hu0 & Hl0 & Hcu & _).
        pose proof (Hw u hu0 Hl0 Hu) as Hwu. rewrite Hcu.
        destruct (es_pool u); [|done]. destruct Hwu as [Htf Hvac]. split; [done|].
        intros Hv. by eapply Hmono; eauto.
    + unfold piscina. rewrite Hdat. split_and!; [done|done| |].
      * exists (sigue h0 r). split; [exact Hh'|]. split; [exact Hopr|].
        rewrite Hcer. cbn [codigo sigue].
        destruct i; try done. by destruct (Hnd a).
      * intros u hu Hl Hu. destruct (Hrest u hu Hu Hl) as (hu0 & Hl0 & Hcu & _).
        pose proof (Hw u hu0 Hl0 Hu) as Hwu. by rewrite Hcu.
    + by destruct (Hvivo e).
  - (* a worker *)
    pose proof (Hw t h Hh Hne) as Hwt. rewrite Hc in Hwt.
    destruct (lookup_lt_is_Some_2 (hilos m') 0) as [h0' H0'];
      [rewrite Hlen; by eapply lookup_lt_Some|].
    destruct (Hrest 0 h0' (not_eq_sym Hne) H0') as (h0'' & H0'' & Hc0 & _).
    assert (h0'' = h0) as -> by congruence.
    (* what the step does to the data and to the code of [t] *)
    assert (Hpaso : cerrado (datos m') = cerrado (datos m)
              ∧ (Forall (λ i, i < 6) (cola (datos m'))
                 ∧ Forall (λ p, p.1 < 6) (listos (datos m')))
              ∧ if es_pool t
                then toma_final (codigo h') = true
                     ∧ (codigo h' = [] → cerrado (datos m') = true)
                else solo tarea_ok (codigo h') = true).
    { destruct Hcasos as [(a & x & -> & He & ->)|(Hnd & Hdat & [[-> Hnr]|[e ->]])].
      - destruct (programa_datos _ _ _ _ _ _ He) as [Hcer' Hdatos].
        destruct (es_pool t).
        + destruct Hwt as [Htf _].
          destruct (toma_final_cola _ _ Htf) as [[[= ->] ->]|(Hnt & _ & Hr & Htr & Hob)].
          * destruct Hdatos as [Hl' [(Hq & Hc1 & Hq' & ->)|(j & f & Hq & Hf & ->)]].
            -- split_and!; [by rewrite Hcer'|by rewrite Hq'|by rewrite Hl'|done|].
               intros _. by rewrite Hcer', Hc1.
            -- split_and!; [by rewrite Hcer'| |by rewrite Hl'| |].
               ++ rewrite Hq in Hcola. by apply Forall_inv_tail in Hcola.
               ++ cbn [codigo sigue]. rewrite app_nil_r. by apply toma_final_trabajo.
               ++ cbn [codigo sigue]. rewrite app_nil_r. intros Hnil.
                  by apply app_eq_nil in Hnil as [_ ?].
          * specialize (Hob a eq_refl).
            destruct a; try done; destruct Hdatos as (Hq' & Hl' & ->);
              (split_and!;
               [by rewrite Hcer'|by rewrite Hq'| |done|by destruct r]);
              rewrite Hl'; try done;
              (apply Forall_app; split; [done|]; apply Forall_singleton;
               by apply bool_decide_eq_true in Hob).
        + apply andb_true_iff in Hwt as [Ha Hr]. fold (solo tarea_ok r) in Hr.
          destruct a; try done; destruct Hdatos as (Hq' & Hl' & ->);
            (split_and!; [by rewrite Hcer'|by rewrite Hq'|by rewrite Hl'|done]).
      - rewrite Hdat. split_and!; [done|done|done|]. destruct (es_pool t).
        + destruct Hwt as [Htf _].
          destruct (toma_final_cola _ _ Htf) as [[-> ->]|(Hnt & _ & Hr & Htr & Hob)].
          * by destruct (Hnd TomarTrabajo).
          * split; [done|]. by destruct r.
        + by eapply solo_cola.
      - by destruct (Hvivo e). }
    destruct Hpaso as (Hcer' & Hcola' & Ht').
    split_and!; [by destruct Hcola'|by destruct Hcola'| |].
    + exists h0'. split_and!; [done|by rewrite Hc0|]. by rewrite Hcer', Hc0.
    + intros u hu Hl Hu. destruct (decide (u = t)) as [->|Hut].
      * by assert (hu = h') as -> by congruence.
      * destruct (Hrest u hu Hut Hl) as (hu0 & Hl0 & Hcu & _).
        pose proof (Hw u hu0 Hl0 Hu) as Hwu. rewrite Hcu, Hcer'. done.
Qed.

(** The invariants of the executor, together. *)
Definition inv_programa (m : mundo_t) : Prop :=
  estable_sano ejec m ∧ sanos m ∧ piscina m ∧ futuros_ok falla m
  ∧ 0 < b < length (hilos m).

Lemma inv_programa_plan ds (m0 m : mundo_t) :
  inv_programa m0 → ejecutar_plan ejec ds m0 = Some m → inv_programa m.
Proof.
  apply (plan_inv ejec inv_programa).
  intros t c m1 m2 (Hes & Hsan & Hpis & Hfut & Hb) Hp. split_and!.
  - by eapply estable_sano_paso.
  - by eapply sanos_paso.
  - by eapply piscina_paso.
  - eapply futuros_paso; [|done..]. by apply estable_sano_seguro.
  - lia.
  - apply paso_resumen in Hp as (? & ? & ? & ? & _ & _ & _ & _ & Hlen & _). lia.
Qed.

(** The actions that wait: [TomarTrabajo] for a work item or the
    shutdown, [SiguienteFuturo] for a finished future. *)
Lemma programa_bloqueo a t d :
  (∀ c, ejec a t c d = None) →
  Forall (λ i, i < 6) (cola d) → Forall (λ p, p.1 < 6) (listos d) →
  (a = TomarTrabajo ∧ cola d = [] ∧ cerrado d = false)
  ∨ (a = SiguienteFuturo ∧ listos d = []).
Proof.
  intros Hb Hq Hl. specialize (Hb 0). destruct a; simpl in Hb; try done.
  - left. destruct (cola d) as [|i q] eqn:Hcola.
    + by destruct (cerrado d).
    + apply Forall_inv in Hq.
      destruct (lookup_lt_is_Some_2 ARCHIVOS i Hq) as [f Hf]. by rewrite Hf in Hb.
  - right. destruct (listos d) as [|[i f] l] eqn:Hlistos; [done|].
    apply Forall_inv in Hl. simpl in *.
    destruct (lookup_lt_is_Some_2 ARCHIVOS i Hl) as [f' Hf']. by rewrite Hf' in Hb.
Qed.

Lemma obra_no_bloquea a t d : obra a = true → is_Some (ejec a t 0 d).
Proof. destruct a; simpl; try done; eauto. Qed.

Lemma tarea_ok_no_bloquea a t d : tarea_ok a = true → is_Some (ejec a t 0 d).
Proof. destruct a; simpl; try done; eauto. Qed.

Local Open Scope Z_scope.

Lemma en_cola_validos q :
  Forall (λ i, (i < 6)%nat) q → en_cola falla va0_fut q = Z.of_nat (length q).
Proof.
  induction q as [|i q IH]; intros Hq; [done|]. simpl.
  rewrite IH by by apply Forall_inv_tail in Hq.
  apply Forall_inv in Hq. destruct (lookup_lt_is_Some_2 ARCHIVOS i Hq) as [f Hf].
  rewrite (aporte_fut falla i f Hf). lia.
Qed.

(** In the code of main, after the submits, the futures only go down. *)
Lemma valor_principal c :
  orden_pool c = true → tiene es_submit c = false →
  valor_codigo (va_fut falla) c ≤ 0.
Proof.
  induction c as [|i c IH]; [done|]. cbn [orden_pool].
  intros [Hi Hc]%andb_true_iff Hs.
  destruct i as [a| | | | | | |]; simpl in *; try (by apply IH); [|done].
  apply orb_false_iff in Hs as [Ha Hs]. specialize (IH Hc Hs).
  destruct a; simpl in *; try done; lia.
Qed.

Lemma valor_tarea_ok c :
  solo tarea_ok c = true → valor_codigo (va_fut falla) c = 0.
Proof.
  induction c as [|i c IH]; [done|]. intros [Hi Hc]%andb_true_iff.
  specialize (IH Hc). destruct i as [a| | | | | | |]; simpl; try done.
  destruct a; simpl in *; try done; lia.
Qed.

Local Close Scope Z_scope.

(** A worker of the executor that cannot step waits at the queue, with
    no work left in its code. *)
Lemma obrero_en_cola (m : mundo_t) u hu :
  inv_programa m → atascado ejec m →
  hilos m !! u = Some hu → es_pool u = true → iniciado hu = true →
  codigo hu = [] ∨ (codigo hu = [Dato TomarTrabajo]
                    ∧ ∀ c, ejec TomarTrabajo u c (datos m) = None).
Proof.
  intros ([(Hd & Hq & Hm) H0s] & _ & (_ & _ & Hw) & _ & Hb) Hat Hu Hpool Hi.
  assert (Hne : u ≠ 0) by (apply bool_decide_eq_true in Hpool; lia).
  pose proof (Hw u hu Hu Hne) as Hwu. rewrite Hpool in Hwu. destruct Hwu as [Htf _].
  destruct (codigo hu) as [|i r] eqn:Hc; [by left|right].
  destruct (obrero_atascado ejec m u hu i r Hd Hq Hat Hu Hne Hi Hc) as (x & -> & Hx).
  destruct (toma_final_cola _ _ Htf) as [[[= ->] ->]|(_ & _ & _ & _ & Hob)]; [done|].
  destruct (obra_no_bloquea x u (datos m) (Hob x eq_refl)) as [y Hy].
  by rewrite Hx in Hy.
Qed.

(** Main does not wait for ever for a future. *)
Lemma futuro_llega (m : mundo_t) h0 r :
  inv_programa m → atascado ejec m →
  hilos m !! 0 = Some h0 → codigo h0 = Dato SiguienteFuturo :: r →
  listos (datos m) = [] → False.
Proof.
  intros Hinv Hat H0 Hc0 Hlistos. pose proof Hinv as Hinv'.
  destruct Hinv as ([(Hd & Hq & Hm) H0s] & Hsan & ([Hcola _] & (h0' & H0' & Hop & Hcer) & Hw)
                    & Hfut & Hb).
  assert (h0' = h0) as -> by congruence. rewrite Hc0 in Hop, Hcer.
  cbn [orden_pool] in Hop. apply andb_true_iff in Hop as [Hsf Hopr].
  apply andb_true_iff in Hsf as [Hsf Hshut]. apply andb_true_iff in Hsf as [Hsub Hst].
  apply negb_true_iff in Hsub.
  simpl in Hcer. rewrite Hshut in Hcer. simpl in Hcer.
  destruct H0s as (h0s & H0s & He0 & _). assert (h0s = h0) as -> by congruence.
  (* the three workers are started *)
  assert (Hini : ∀ u hu, es_pool u = true → hilos m !! u = Some hu → iniciado hu = true).
  { intros u hu Hpool Hu. destruct (iniciado hu) eqn:Hi; [done|].
    destruct Hq as (h0q & H0q & _ & _ & Hq). assert (h0q = h0) as -> by congruence.
    apply bool_decide_eq_true in Hpool.
    assert (Hne : u ≠ 0) by lia.
    destruct (Hq u hu Hu Hne) as (_ & _ & Hno & _).
    destruct (Hno Hi) as [Harr|[e He]]; [|congruence].
    rewrite Hc0 in Harr. change (arranca_a u (Dato SiguienteFuturo :: r))
      with (arranca_a u r) in Harr.
    rewrite forallb_forall in Hst.
    assert (Hin : In u (seq b max_workers)) by (apply in_seq; lia).
    specialize (Hst u Hin). by rewrite Harr in Hst. }
  (* no work is left in the code of the workers *)
  assert (Hnulo : ∀ u hu, hilos m !! u = Some hu → u ≠ 0 →
            valor_codigo (va_fut falla) (codigo hu) = 0%Z).
  { intros u hu Hu Hne. pose proof (Hw u hu Hu Hne) as Hwu.
    destruct (es_pool u) eqn:Hpool.
    - destruct (obrero_en_cola m u hu Hinv' Hat Hu Hpool (Hini u hu Hpool Hu))
        as [->|[-> _]]; done.
    - by apply valor_tarea_ok. }
  (* so a task is queued *)
  assert (Hq1 : (1 ≤ length (cola (datos m)))).
  { unfold futuros_ok, valor, vd_fut in Hfut.
    destruct (hilos m) as [|h0' hs] eqn:Hhs; [done|].
    injection H0 as ->. simpl in Hfut.
    rewrite (valor_hilos_vacio_de (va_fut falla) hs) in Hfut.
    - rewrite Hc0, Hlistos, (en_cola_validos _ Hcola) in Hfut. simpl in Hfut.
      pose proof (valor_principal r Hopr Hsub). lia.
    - intros h Hin. apply list_elem_of_lookup in Hin as [u Hu].
      by apply (Hnulo (S u) h). }
  destruct (cola (datos m)) as [|j q] eqn:Hcola'; [simpl in Hq1; lia|].
  (* and the first worker can take it *)
  destruct (lookup_lt_is_Some_2 (hilos m) b) as [hb Hhb]; [lia|].
  assert (Hpb : es_pool b = true).
  { apply bool_decide_eq_true. unfold max_workers. lia. }
  destruct (obrero_en_cola m b hb Hinv' Hat Hhb Hpb (Hini b hb Hpb Hhb))
    as [Hcb|[_ Hblk]].
  - assert (Hne : b ≠ 0) by lia.
    pose proof (Hw b hb Hhb Hne) as Hwb. rewrite Hpb in Hwb.
    destruct Hwb as [_ Hcerr]. rewrite (Hcerr Hcb) in Hcer. done.
  - specialize (Hblk 0). simpl in Hblk. rewrite Hcola' in Hblk.
    apply Forall_inv in Hcola.
    destruct (lookup_lt_is_Some_2 ARCHIVOS j Hcola) as [f Hf]. by rewrite Hf in Hblk.
Qed.

(** No thread waits for ever at a data action. *)
Lemma piscina_sin_espera (m : mundo_t) :
  inv_programa m → atascado ejec m → ¬ espera_dato ejec m.
Proof.
  intros Hinv Hat (t & h & a & r & Hh & Hi & Hc & Hblk). pose proof Hinv as Hinv'.
  destruct Hinv as ([(Hd & Hq & Hm) H0s] & Hsan
                    & ([Hcola Hlistos] & (h0 & H0 & Hop & Hcer) & Hw) & Hfut & Hb).
  (* the thread of a task never waits *)
  assert (Htarea : ∀ u hu x r', hilos m !! u = Some hu → u ≠ 0 → es_pool u = false →
            codigo hu = Dato x :: r' → (∀ c, ejec x u c (datos m) = None) → False).
  { intros u hu x r' Hu Hne Hpool Hcu Hx. pose proof (Hw u hu Hu Hne) as Hwu.
    rewrite Hpool, Hcu in Hwu. apply andb_true_iff in Hwu as [Hok _].
    destruct (tarea_ok_no_bloquea x u (datos m) Hok) as [y Hy]. by rewrite Hx in Hy. }
  destruct (programa_bloqueo a t (datos m) Hblk Hcola Hlistos)
    as [(-> & Hvacia & Hcerr)|(-> & Hsin)].
  - (* a worker waits for work: main is before the shutdown *)
    rewrite Hcerr in Hcer. symmetry in Hcer. apply negb_false_iff in Hcer.
    destruct (codigo h0) as [|i0 r0] eqn:Hc0; [done|].
    destruct (principal_atascado ejec m h0 i0 r0 Hd Hq Hat H0 Hc0)
      as [(a0 & -> & Hb0)|(u & hu & -> & Hne & Hu & Hiu & Hcu)].
    + destruct (programa_bloqueo a0 0 (datos m) Hb0 Hcola Hlistos)
        as [(-> & _)|(-> & Hsin)].
      * cbn [orden_pool] in Hop. done.
      * by eapply (futuro_llega m h0 r0).
    + destruct (codigo hu) as [|j q] eqn:Hcj; [done|].
      destruct (obrero_atascado ejec m u hu j q Hd Hq Hat Hu Hne Hiu Hcj)
        as (x & -> & Hx).
      destruct (es_pool u) eqn:Hpool.
      * cbn [orden_pool] in Hop. apply andb_true_iff in Hop as [Hj _].
        rewrite Hpool in Hj. simpl in Hcer. by rewrite Hcer in Hj.
      * by eapply (Htarea u hu x q).
  - (* a thread waits for a future: it is main *)
    destruct (decide (t = 0)) as [->|Hne].
    + assert (h = h0) as -> by congruence. by eapply (futuro_llega m h0 r).
    + pose proof (Hw t h Hh Hne) as Hwt. rewrite Hc in Hwt.
      destruct (es_pool t).
      * destruct Hwt as [Htf _]. destruct r; done.
      * by apply andb_true_iff in Hwt as [? _].
Qed.

(** Every run around the executor is bounded and ends with status 0. *)
Lemma piscina_termina (m0 : mundo_t) : inv_programa m0 → termina_bien ejec m0.
Proof.
  intros Hinv. apply termina_bien_de; [by destruct Hinv|].
  intros ds m Hp Hat. apply piscina_sin_espera; [|done].
  by eapply inv_programa_plan.
Qed.

End Piscina.

(** *** The whole script *)



(** *** The modes under failures *)

Section ConFallos.

Variable falla : nat → option (nat * string).

Local Abbreviation ejec := (ejecutar falla).

Lemma pool_inv e con : inv_programa falla 1 (inicial falla Pool e con).
Proof.
  assert (Hsano : estable_sano ejec (inicial falla Pool e con))
    by (by apply inicial_sano_con_fallos).
  split_and!.
  - done.
  - intros t h Hl. destruct t as [|t]; [apply Hsano|].
    assert (h = Hilo false [Dato TomarTrabajo] None) as ->.
    { destruct t as [|[|[|t]]]; simpl in Hl; try done; by injection Hl. }
    exists (Hilo false [Dato TomarTrabajo] None). split_and!; [done|done|done|].
    simpl. lia.
  - split_and!; [apply Forall_nil|apply Forall_nil| |].
    + eexists. split; [reflexivity|]. split; by vm_compute.
    + intros t h Hl Ht. destruct t as [|t]; [done|].
      assert (h = Hilo false [Dato TomarTrabajo] None ∧ t < 3) as [-> Hlt].
      { destruct t as [|[|[|t]]]; simpl in Hl; try done; split; (by injection Hl) || lia. }
      assert (Hp : es_pool 1 (S t) = true).
      { apply bool_decide_eq_true. unfold max_workers. lia. }
      rewrite Hp. done.
  - apply inicial_futuros.
  - lia.
  - simpl. lia.
Qed.

(** Whatever task raises, every run of modo_pool is bounded and ends with
    the return of the mode function. *)
Lemma pool_termina e con : termina_bien ejec (inicial falla Pool e con).
Proof. apply (piscina_termina falla 1), pool_inv. Qed.

(** Code of which no data action waits. *)
Definition sin_esperas (m : mundo_t) : Prop :=
  ∀ t h, hilos m !! t = Some h → solo sim_simple (codigo h) = true.

Lemma sin_esperas_paso t c (m m' : mundo_t) :
  sin_esperas m → paso ejec t c m = Some m' → sin_esperas m'.
Proof.
  intros Hs Hp u hu Hu.
  apply paso_resumen in Hp
    as (h & i & r & h' & Hh & Hi & Hc & Hh' & Hlen & Hrest & Hcasos).
  destruct (decide (u = t)) as [->|Hne].
  - assert (hu = h') as -> by congruence.
    pose proof (Hs t h Hh) as Hq. rewrite Hc in Hq.
    apply andb_true_iff in Hq as [Hi' Hr]. fold (solo sim_simple r) in Hr.
    destruct Hcasos as [(a & x & -> & He & ->)|(_ & _ & [[-> _]|[e ->]])]; simpl.
    + destruct (simple_ok (reglas := sim_reglas falla) a t c (datos m) Hi') as [d' Hd'].
      rewrite He in Hd'. injection Hd' as _ ->. done.
    + done.
    + done.
  - destruct (Hrest u hu Hne Hu) as (hu0 & Hu0 & -> & _). by apply (Hs u).
Qed.

Lemma sin_esperas_termina (m0 : mundo_t) :
  estable_sano ejec m0 → sin_esperas m0 → termina_bien ejec m0.
Proof.
  intros Hsano Hs0. apply termina_bien_de; [done|].
  intros ds m Hp Hat (t & h & a & r & Hh & Hi & Hc & Hblk).
  assert (Hs : sin_esperas m).
  { revert Hs0 Hp. apply (plan_inv ejec sin_esperas).
    intros ????. apply sin_esperas_paso. }
  pose proof (Hs t h Hh) as Hq. rewrite Hc in Hq. apply andb_true_iff in Hq as [Ha _].
  destruct (simple_ok (reglas := sim_reglas falla) a t 0 (datos m) Ha) as [d' Hd'].
  by rewrite Hblk in Hd'.
Qed.

Lemma sin_esperas_threads e con : sin_esperas (inicial falla Threads e con).
Proof.
  intros t h Hl. destruct t as [|t].
  - injection Hl as <-. by vm_compute.
  - change (hilos_tareas falla !! t = Some h) in Hl.
    apply list_elem_of_lookup_2 in Hl. apply hilos_tareas_en in Hl as (a & i & ->).
    cbn [codigo]. unfold tarea. rewrite solo_app.
    apply andb_true_iff. split; [by apply llamar_solo|done].
Qed.

(** Whatever task raises, every run of modo_threads is bounded and ends
    with the return of the mode function. *)
Lemma threads_termina e con : termina_bien ejec (inicial falla Threads e con).
Proof.
  apply sin_esperas_termina; [by apply inicial_sano_con_fallos|].
  apply sin_esperas_threads.
Qed.

End ConFallos.

(** When no task raises, every run of each of the three modes is bounded
    and ends with the return of the mode function. *)
Lemma modo_termina md e con :
  termina_bien (ejecutar sin_fallos) (inicial sin_fallos md e con).
Proof.
  destruct md.
  - apply sin_esperas_termina.
    + apply bien_formado_estable_sano. by vm_compute.
    + intros t h Hl. destruct t as [|t]; [|done]. injection Hl as <-. by vm_compute.
  - apply threads_termina.
  - apply pool_termina.
Qed.

End SimuladorPrograma.
(** ** The runners' race (Corredores.py) *)

Module Corredores.
Import Maquina Pasos Reglas Teoria Cantidades Generico.
Import SimuladorReglas SimuladorInv SimuladorRes SimuladorFinal.

Definition CORREDORES : list string :=
  ["🧍 Ana"; "🧍 Luis"; "🧍 Marta"; "🧍 Carlos"; "🧍 Sofía"].
Definition DISTANCIA : nat := 10.

Definition lock : cerrojo := "lock".

(** What the program prints, line by line. *)
Inductive linea : Type :=
| LTexto (s : string)
| LRegla
| LPaso (nombre : string) (paso : nat)
| LLlego (nombre : string) (posicion : nat)
| LPuesto (i : nat) (nombre : string).

(** The list [llegadas], the console, and the local [posicion] of each
    runner. *)
Record estado : Type := Estado {
  llegadas : list string;
  consola : list linea;
  posicion : gmap tid nat
}.

Inductive accion : Type :=
| Print (l : linea)
| CalcularPosicion
| Anexar (nombre : string)
| PrintLlego (nombre : string)
| Resultados.

Definition codigo_t : Type := list (instr accion).

Definition P (l : linea) : instr accion := Dato (Print l).

(** for i, nombre in enumerate(llegadas, 1): print(...) *)
Definition podio (l : list string) : list linea := imap (λ i n, LPuesto (S i) n) l.

Definition ejecutar (a : accion) (t : tid) (c : nat) (d : estado)
    : option (estado * codigo_t) :=
  match a with
  | Print l => Some (Estado (llegadas d) (consola d ++ [l]) (posicion d), [])
  | CalcularPosicion =>
      Some (Estado (llegadas d) (consola d)
              (<[t := length (llegadas d) + 1]> (posicion d)), [])
  | Anexar n => Some (Estado (llegadas d ++ [n]) (consola d) (posicion d), [])
  | PrintLlego n =>
      Some (Estado (llegadas d)
              (consola d ++ [LLlego n (default 0 (posicion d !! t))])
              (posicion d), [])
  | Resultados =>
      Some (Estado (llegadas d) (consola d ++ podio (llegadas d)) (posicion d), [])
  end.

(** correr(nombre) *)
Definition correr (nombre : string) : codigo_t :=
  flat_map (λ paso, [Sleep; P (LPaso nombre paso)]) (seq 1 DISTANCIA)
  ++ with_ lock [Dato CalcularPosicion; Dato (Anexar nombre); Dato (PrintLlego nombre)].

Definition titulo_final : string := "   🏆 RESULTADOS FINALES".
Definition tiempo_total : string := "  Tiempo total de carrera".
Definition sin_concurrencia : string := "  (Sin concurrencia habría tardado ~12.5s)".

(** main(); the thread of runner [i] is thread [i + 1]. *)
Definition main : codigo_t :=
  [P LRegla; P (LTexto "   🏁 CARRERA — Programación Concurrente"); P LRegla;
   P (LTexto "  Corredores : 5"); P (LTexto "  Distancia  : 10 pasos");
   P (LTexto "  Cada uno corre en su propio HILO (en paralelo)");
   P (LTexto "  Presiona ENTER para dar la salida... 🚦"); Input;
   P (LTexto "  ¡FUERA! 🏃‍♂️🏃‍♀️")]
  ++ imap (λ i _, Start (S i)) CORREDORES
  ++ imap (λ i _, Join (S i)) CORREDORES
  ++ [P LRegla; P (LTexto titulo_final); P LRegla; Dato Resultados;
      P (LTexto tiempo_total); P (LTexto sin_concurrencia); P LRegla].

Definition programa (entrada : list string) : mundo accion estado :=
  Mundo (Hilo true main None :: map (λ n, Hilo false (correr n) None) CORREDORES)
        ∅ entrada (Estado [] [] ∅).

(** The final report: its title, the podium, the closing lines. *)
Definition informe (a : accion) : bool :=
  match a with
  | Resultados => true
  | Print (LTexto s) =>
      bool_decide (s = titulo_final ∨ s = tiempo_total ∨ s = sin_concurrencia)
  | _ => false
  end.

(** The positions that the runners print on arrival, in order. *)
Definition puestos (con : list linea) : list (string * nat) :=
  flat_map (λ l, match l with LLlego n p => [(n, p)] | _ => [] end) con.

(** The positions of an arrival list. *)
Definition esperados (l : list string) : list (string * nat) :=
  imap (λ i n, (n, S i)) l.

Definition cor_simple (a : accion) : bool := true.

(** The three statements of the critical section stand under [lock]. *)
Definition cor_protegida (a : accion) : option cerrojo :=
  match a with
  | CalcularPosicion | Anexar _ | PrintLlego _ => Some lock
  | _ => None
  end.

Definition cor_peso (a : accion) : nat := 1.
Definition cor_potencial (d : estado) : nat := 0.

Lemma corredores_sin_extra a t c d d' x : ejecutar a t c d = Some (d', x) → x = [].
Proof. intros H. by destruct a; injection H as <- <-. Qed.

Lemma corredores_simple_ok a t c d :
  cor_simple a = true → ∃ d', ejecutar a t c d = Some (d', []).
Proof. intros _. destruct a; simpl; eauto. Qed.

Lemma corredores_extra_forma a t c d d' x :
  ejecutar a t c d = Some (d', x) → forma cor_simple cor_protegida None x = true.
Proof. by intros ->%corredores_sin_extra. Qed.

Lemma corredores_extra_obrero a t c d d' x :
  ejecutar a t c d = Some (d', x) → es_obrero x = true.
Proof. by intros ->%corredores_sin_extra. Qed.

Lemma corredores_extra_sin_raise a t c d d' x :
  ejecutar a t c d = Some (d', x) → sin_raise x = true.
Proof. by intros ->%corredores_sin_extra. Qed.

Lemma corredores_peso_ok a t c d d' x :
  ejecutar a t c d = Some (d', x) →
  peso_codigo cor_peso x + cor_potencial d' < cor_peso a + cor_potencial d.
Proof. intros ->%corredores_sin_extra. unfold cor_peso, cor_potencial. simpl. lia. Qed.

#[export] Instance reglas_corredores : reglas ejecutar := {|
  simple := cor_simple;
  protegida := cor_protegida;
  peso := cor_peso;
  potencial := cor_potencial;
  simple_ok := corredores_simple_ok;
  extra_forma := corredores_extra_forma;
  extra_obrero := corredores_extra_obrero;
  extra_sin_raise := corredores_extra_sin_raise;
  peso_ok := corredores_peso_ok
|}.


Lemma corredores_distintos : NoDup CORREDORES.
Proof. apply (bool_decide_unpack (NoDup CORREDORES)). by vm_compute. Qed.

(** *** The first state *)

Lemma corredores_estable entrada : estable ejecutar (programa entrada).
Proof. apply bien_formado_estable. by vm_compute. Qed.

Lemma corredores_sano s ss : estable_sano ejecutar (programa (s :: ss)).
Proof.
  split; [apply corredores_estable|].
  eexists. split; [reflexivity|]. split_and!; try done. simpl. lia.
Qed.

Lemma corredores_sin_entrada : sin_entrada (programa []).
Proof. split; [done|]. eexists. split; [reflexivity|]. right. simpl. lia. Qed.

Lemma corredores_informes entrada : informes informe (programa entrada).
Proof.
  eexists. split; [reflexivity|]. split; [by vm_compute|].
  intros u hu Hu Hl. destruct u as [|u]; [done|]. simpl in Hl.
  apply list_elem_of_lookup_2, list_elem_of_In in Hl. simpl in Hl.
  repeat (destruct Hl as [<-|Hl]; [by vm_compute|]). done.
Qed.


Lemma corredores_extra_informe a t c d d' x :
  ejecutar a t c d = Some (d', x) → tiene informe x = false.
Proof. by intros ->%corredores_sin_extra. Qed.

(** *** Every runner arrives once *)

Local Open Scope Z_scope.

Section Llegadas.
Variable g : string → Z.

Definition va_lleg (a : accion) : Z := match a with Anexar n => g n | _ => 0 end.
Definition vd_lleg (d : estado) : Z := suma_de g (llegadas d).

Lemma corredores_ley a t c d d' x :
  ejecutar a t c d = Some (d', x) →
  vd_lleg d' + valor_codigo va_lleg x = vd_lleg d + va_lleg a.
Proof.
  intros H. unfold vd_lleg. destruct a; injection H as <- <-; simpl; try lia.
  rewrite suma_de_app. lia.
Qed.

Lemma corredores_valor_inicial entrada :
  valor va_lleg vd_lleg (programa entrada) = suma_de g CORREDORES.
Proof. cbv -[Z.add]. lia. Qed.

Lemma corredores_valor ds s ss m :
  ejecutar_plan ejecutar ds (programa (s :: ss)) = Some m →
  valor va_lleg vd_lleg m = suma_de g CORREDORES.
Proof.
  intros Hp. rewrite <- (corredores_valor_inicial (s :: ss)).
  revert Hp.
  apply (plan_inv ejecutar
           (λ m, seguro ejecutar m
                 ∧ valor va_lleg vd_lleg m
                   = valor va_lleg vd_lleg (programa (s :: ss)))).
  - intros t c m1 m2 [Hseg Hv] Hp. split; [by eapply seguro_paso|].
    rewrite <- Hv. apply (valor_conservado ejecutar va_lleg vd_lleg t c m1 m2 Hseg Hp).
    intros h a r d' x _ _ _ He. by eapply corredores_ley.
  - split; [|done]. apply estable_sano_seguro, corredores_sano.
Qed.

End Llegadas.

Local Close Scope Z_scope.

Lemma corredores_llegadas ds s ss m :
  ejecutar_plan ejecutar ds (programa (s :: ss)) = Some m →
  fin_principal m = true →
  llegadas (datos m) ≡ₚ CORREDORES.
Proof.
  intros Hp Hfin.
  pose proof (estable_sano_plan _ _ _ _ (corredores_sano s ss) Hp) as [(Hd & Hq & Hm) Hs].
  destruct Hs as (h0 & H0 & He & _).
  assert (Hc : codigo h0 = []).
  { unfold fin_principal in Hfin. rewrite H0 in Hfin.
    apply andb_true_iff in Hfin as [_ Hv]. by destruct (codigo h0). }
  pose proof (fin_quieto m h0 Hq H0 Hc He) as Hv.
  apply suma_de_permutacion. intros g.
  pose proof (corredores_valor g ds s ss m Hp) as Hval.
  unfold valor in Hval. rewrite valor_hilos_vacio in Hval by done.
  unfold vd_lleg in Hval. lia.
Qed.

(** *** The positions *)

(** The three statements of the critical section follow one another, and
    no other statement prints an arrival. *)
Fixpoint trio (c : codigo_t) : bool :=
  match c with
  | [] => true
  | i :: r =>
      match i with
      | Dato (Anexar n) =>
          if r is Dato (PrintLlego n') :: _ then bool_decide (n' = n) else false
      | Dato (Print (LLlego _ _)) => false
      | _ => true
      end
      && match r with
         | Dato (Anexar _) :: _ => if i is Dato CalcularPosicion then true else false
         | Dato (PrintLlego n) :: _ =>
             if i is Dato (Anexar n') then bool_decide (n' = n) else false
         | _ => true
         end
      && trio r
  end.

Definition en_seccion (c : codigo_t) : bool :=
  match c with
  | Dato (Anexar _) :: _ | Dato (PrintLlego _) :: _ => true
  | _ => false
  end.

Definition en_print (c : codigo_t) : bool :=
  match c with Dato (PrintLlego _) :: _ => true | _ => false end.

Definition marcador (m : mundo accion estado) : Prop :=
  (∀ t h, hilos m !! t = Some h →
     trio (codigo h) = true
     ∧ match codigo h with
       | Dato (Anexar n) :: _ =>
           posicion (datos m) !! t = Some (length (llegadas (datos m)) + 1)
       | Dato (PrintLlego n) :: _ =>
           ∃ l, llegadas (datos m) = l ++ [n]
                ∧ posicion (datos m) !! t = Some (length l + 1)
                ∧ puestos (consola (datos m)) = esperados l
       | _ => True
       end)
  ∧ ((∀ t h, hilos m !! t = Some h → en_print (codigo h) = false) →
     puestos (consola (datos m)) = esperados (llegadas (datos m))).

Lemma puestos_app c1 c2 : puestos (c1 ++ c2) = puestos c1 ++ puestos c2.
Proof. unfold puestos. apply flat_map_app. Qed.

Lemma puestos_podio l : puestos (podio l) = [].
Proof.
  unfold podio.
  assert (H : ∀ f : nat → string → linea,
            (∀ i n, ∃ k, f i n = LPuesto k n) → puestos (imap f l) = []).
  { induction l as [|x l IH]; intros f Hf; [done|]. simpl.
    destruct (Hf 0 x) as [k ->]. simpl. apply IH. intros i n. apply Hf. }
  apply H. eauto.
Qed.

Lemma esperados_app l n : esperados (l ++ [n]) = esperados l ++ [(n, length l + 1)].
Proof.
  unfold esperados. rewrite imap_app. simpl. by rewrite Nat.add_0_r, Nat.add_1_r.
Qed.

Lemma trio_cola i r : trio (i :: r) = true → trio r = true.
Proof. simpl. by intros [_ ?]%andb_true_iff. Qed.

Lemma trio_previo i r :
  trio (i :: r) = true →
  match r with
  | Dato (Anexar _) :: _ => i = Dato CalcularPosicion
  | Dato (PrintLlego n) :: _ => i = Dato (Anexar n)
  | _ => True
  end.
Proof.
  simpl. intros [[_ H]%andb_true_iff _]%andb_true_iff.
  destruct r as [|[[| |n|n|]| | | | | | |] r']; try done.
  - by destruct i as [[]| | | | | | |].
  - destruct i as [[| |n'| |]| | | | | | |]; try done.
    by apply bool_decide_eq_true in H as ->.
Qed.

Lemma trio_siguiente n r :
  trio (Dato (Anexar n) :: r) = true → ∃ r', r = Dato (PrintLlego n) :: r'.
Proof.
  simpl. intros [[H _]%andb_true_iff _]%andb_true_iff.
  destruct r as [|[[| |n'|n'|]| | | | | | |] r']; try done.
  apply bool_decide_eq_true in H as ->. eauto.
Qed.

Lemma trio_limpio l r :
  trio (Dato (Print l) :: r) = true → puestos [l] = [].
Proof.
  simpl. intros [[H _]%andb_true_iff _]%andb_true_iff. by destruct l.
Qed.

Lemma en_seccion_cerrojo (m : mundo accion estado) t h :
  disciplina ejecutar m → hilos m !! t = Some h → en_seccion (codigo h) = true →
  cerrojos m !! lock = Some t.
Proof.
  intros Hd Hh Hs. destruct (codigo h) as [|[[]| | | | | | |] r] eqn:Hc; try done;
    by eapply (cabeza_protegida ejecutar m t h).
Qed.

Lemma marcador_paso t c m m' :
  disciplina ejecutar m → marcador m → paso ejecutar t c m = Some m' → marcador m'.
Proof.
  intros Hd [Hth Hcon] Hp.
  apply paso_transicion in Hp as (h & i & r & Hh & Hi & Hc & Ht).
  assert (Hlen : t < length (hilos m)) by by eapply lookup_lt_Some.
  destruct (Hth t h Hh) as [Htrio Hcab]. rewrite Hc in Htrio, Hcab.
  pose proof (trio_cola _ _ Htrio) as Htr.
  (* a step that is not a data action leaves the data and shortens the
     code of [t] to [r] or to nothing *)
  assert (Hotro : (∀ a, i ≠ Dato a) →
            ∀ hs h', datos m' = datos m →
              hilos m' = <[t := h']> hs → length hs = length (hilos m) →
              (codigo h' = r ∨ codigo h' = []) →
              (∀ u hu, u ≠ t → hs !! u = Some hu →
                 ∃ hu', hilos m !! u = Some hu' ∧ codigo hu = codigo hu') →
              marcador m').
  { intros Hnd hs h' Hdat Hhs Hlhs Hcod Hrest.
    assert (Hr : en_seccion r = false).
    { pose proof (trio_previo _ _ Htrio) as Hpre.
      destruct r as [|[[]| | | | | | |] r']; try done; by destruct (Hnd _ Hpre). }
    split.
    - intros u hu Hl. rewrite Hhs in Hl. rewrite Hdat.
      apply list_lookup_insert_Some in Hl as [(<- & <- & _)|(Hne & Hl)].
      + destruct Hcod as [->| ->]; [|done]. split; [done|].
        by destruct r as [|[[]| | | | | | |] r'].
      + destruct (Hrest u hu (not_eq_sym Hne) Hl) as (hu' & Hl' & ->). by apply Hth.
    - intros Hno. rewrite Hdat. apply Hcon. intros u hu Hl.
      destruct (decide (u = t)) as [->|Hne].
      + assert (hu = h) as -> by congruence. rewrite Hc.
        destruct i as [a| | | | | | |]; try done. by destruct (Hnd a).
      + destruct (lookup_lt_is_Some_2 hs u) as [hu2 Hl2];
          [rewrite Hlhs; by eapply lookup_lt_Some|].
        destruct (Hrest u hu2 Hne Hl2) as (hu' & Hl' & Hcu).
        assert (hu' = hu) as -> by congruence. rewrite <- Hcu.
        apply (Hno u hu2). rewrite Hhs. by rewrite list_lookup_insert_ne. }
  destruct Ht as [a d x He| |l Hfree|l v Hheld|u hu Hu Hiu|u hu Hu Hiu
                  |s ss Hs'|i e Hx].
  - (* a data action *)
    pose proof (corredores_sin_extra _ _ _ _ _ _ He) as ->. simpl.
    (* no other thread is in the critical section with [t] *)
    assert (Hsolo : ∀ u hu, u ≠ t → hilos m !! u = Some hu →
              en_seccion (codigo hu) = true → en_seccion (Dato a :: r) = false).
    { intros u hu Hne Hl Hs.
      destruct (en_seccion (Dato a :: r)) eqn:Hst; [|done].
      pose proof (en_seccion_cerrojo m u hu Hd Hl Hs).
      rewrite <- Hc in Hst. pose proof (en_seccion_cerrojo m t h Hd Hh Hst).
      congruence. }
    split.
    + intros u hu Hl. simpl in Hl.
      apply list_lookup_insert_Some in Hl as [(<- & <- & _)|(Hne & Hl)]; simpl.
      * split; [done|].
        destruct r as [|[[| |n|n|]| | | | | | |] r']; try done.
        -- (* lands on the append: it comes from the computation *)
           pose proof (trio_previo _ _ Htrio) as [= ->]. injection He as <-. simpl.
           by rewrite lookup_insert_eq.
        -- (* lands on the print: it comes from the append *)
           pose proof (trio_previo _ _ Htrio) as [= ->].
           injection He as <-. simpl. exists (llegadas (datos m)).
           split_and!; [done|done|]. apply Hcon. intros u hu Hl.
           destruct (decide (u = t)) as [->|Hne].
           ++ assert (hu = h) as -> by congruence. by rewrite Hc.
           ++ destruct (en_print (codigo hu)) eqn:Hep; [|done].
              assert (Hs : en_seccion (codigo hu) = true)
                by (by destruct (codigo hu) as [|[[]| | | | | | |] ?]).
              by pose proof (Hsolo u hu Hne Hl Hs).
      * destruct (Hth u hu Hl) as [Htu Hcu]. split; [done|].
        destruct (en_seccion (codigo hu)) eqn:Hs;
          [|by destruct (codigo hu) as [|[[]| | | | | | |] ?]].
        pose proof (Hsolo u hu (not_eq_sym Hne) Hl Hs) as Hfuera.
        destruct a as [l| |n|n|]; try done; injection He as <-; simpl.
        -- destruct (codigo hu) as [|[[| |n|n|]| | | | | | |] ?]; try done.
           destruct Hcu as (lx & ? & ? & Hpu). exists lx. split_and!; try done.
           rewrite puestos_app, Hpu, (trio_limpio _ _ Htrio). apply app_nil_r.
        -- destruct (codigo hu) as [|[[| |n|n|]| | | | | | |] ?]; try done.
           ++ by rewrite lookup_insert_ne.
           ++ destruct Hcu as (lx & ? & ? & Hpu). exists lx.
              by rewrite lookup_insert_ne.
        -- destruct (codigo hu) as [|[[| |n|n|]| | | | | | |] ?]; try done.
           destruct Hcu as (lx & ? & ? & Hpu). exists lx. split_and!; try done.
           by rewrite puestos_app, puestos_podio, app_nil_r.
    + intros Hno. simpl.
      assert (Hdec : (∃ n, a = PrintLlego n) ∨ ¬ (∃ n, a = PrintLlego n)).
      { destruct a; try (right; by intros [? ?]). left. eauto. }
      destruct Hdec as [[n ->]|Hnp].
      * destruct Hcab as (l0 & Hl0 & Hp0 & Hpu). injection He as <-. simpl.
        rewrite puestos_app, Hpu, Hp0, Hl0. simpl. by rewrite esperados_app.
      * assert (Hprev : puestos (consola (datos m)) = esperados (llegadas (datos m))).
        { apply Hcon. intros u hu Hl. destruct (decide (u = t)) as [->|Hne].
          - assert (hu = h) as -> by congruence. rewrite Hc.
            destruct a; try done. destruct Hnp. eauto.
          - apply (Hno u hu). simpl. by rewrite list_lookup_insert_ne. }
        destruct a as [l| |n|n|]; injection He as <-; simpl.
        -- rewrite puestos_app, Hprev, (trio_limpio _ _ Htrio). apply app_nil_r.
        -- done.
        -- exfalso. specialize (Hno t (sigue h r)). simpl in Hno.
           rewrite list_lookup_insert_eq in Hno by done. specialize (Hno eq_refl).
           destruct (trio_siguiente _ _ Htrio) as [r' ->]. done.
        -- destruct Hnp. eauto.
        -- by rewrite puestos_app, puestos_podio, app_nil_r.
  - eapply (Hotro ltac:(done) (hilos m) (sigue h r)); eauto.
  - eapply (Hotro ltac:(done) (hilos m) (sigue h r)); eauto.
  - eapply (Hotro ltac:(done) (hilos m) (sigue h r)); eauto.
  - eapply (Hotro ltac:(done) (<[u := arranca hu]> (hilos m)) (sigue h r)); eauto.
    + by rewrite length_insert.
    + intros u' hu' Hne Hl.
      apply list_lookup_insert_Some in Hl as [(<- & <- & _)|(_ & Hl)]; eauto.
  - eapply (Hotro ltac:(done) (hilos m) (sigue h r)); eauto.
  - eapply (Hotro ltac:(done) (hilos m) (sigue h r)); eauto.
  - assert (Hnd : ∀ a, i ≠ Dato a) by (intros a ->; inversion Hx).
    eapply (Hotro Hnd (hilos m) (falla_con h e)); eauto.
Qed.

Lemma marcador_inicial entrada : marcador (programa entrada).
Proof.
  split.
  - intros t h Hl. apply list_elem_of_lookup_2, list_elem_of_In in Hl. simpl in Hl.
    repeat (destruct Hl as [<-|Hl]; [by vm_compute|]). done.
  - done.
Qed.

Lemma marcador_plan entrada ds m :
  ejecutar_plan ejecutar ds (programa entrada) = Some m → marcador m.
Proof.
  intros Hp.
  assert (H : estable ejecutar m ∧ marcador m); [|by destruct H].
  revert Hp. apply (plan_inv ejecutar (λ m, estable ejecutar m ∧ marcador m)).
  - intros t c m1 m2 [He Hm] Hp. split; [by eapply estable_paso|].
    destruct He as (Hd & _). by eapply marcador_paso.
  - split; [apply corredores_estable|apply marcador_inicial].
Qed.

Lemma esperados_snd l : map snd (esperados l) = seq 1 (length l).
Proof.
  unfold esperados.
  assert (H : ∀ k, map snd (imap (λ i n, (n, S (k + i))) l) = seq (S k) (length l)).
  { induction l as [|x l IH]; intros k; [done|]. simpl.
    rewrite Nat.add_0_r. f_equal. rewrite <- (IH (S k)).
    f_equal. apply imap_ext. intros i y _. simpl. f_equal. f_equal. lia. }
  apply (H 0).
Qed.

Lemma esperados_fst l : map fst (esperados l) = l.
Proof.
  unfold esperados. generalize S. induction l as [|x l IH]; intros f; [done|].
  simpl. f_equal. apply IH.
Qed.

(** When the main thread has returned, the positions printed on arrival
    are those of the arrival list. *)
Lemma corredores_puestos entrada ds m :
  ejecutar_plan ejecutar ds (programa entrada) = Some m →
  codigo_salida m = Some 0 →
  puestos (consola (datos m)) = esperados (llegadas (datos m)).
Proof.
  intros Hp Hs. destruct (salida_cero m Hs) as [Hfin (h0 & H0 & Hc & He)].
  pose proof (estable_plan _ _ _ _ (corredores_estable entrada) Hp) as (Hd & Hq & Hm).
  pose proof (fin_quieto m h0 Hq H0 Hc He) as Hv.
  destruct (marcador_plan entrada ds m Hp) as [_ Hcon]. apply Hcon.
  intros t h Hh. by rewrite (Hv t h Hh).
Qed.

End Corredores.
(** ** The hospital (Hospital.py) *)

Module Hospital.
Import Maquina Pasos Reglas Teoria Cantidades Generico.
Import SimuladorReglas SimuladorInv SimuladorRes SimuladorFinal.

Record medico : Type := Medico {
  nombre : string;
  especialidad : string;
  emoji : string
}.

Definition MEDICOS : list medico :=
  [ Medico "Dra. García" "Cardiología" "👩‍⚕️";
    Medico "Dr. Ramírez" "Pediatría" "👨‍⚕️";
    Medico "Dra. Torres" "Neurología" "👩‍⚕️";
    Medico "Dr. Mendoza" "Traumatología" "👨‍⚕️" ].

Definition PACIENTES_POR_MEDICO : nat := 3.

Definition lock : cerrojo := "lock".

(** What the program prints, line by line. *)
Inductive linea : Type :=
| LTexto (s : string)
| LRegla
| LEsperando (m : medico)
| LSenal (nombre : string)
| LAtendio (nombre : string) (i total : nat)
| LTurno (nombre : string)
| LTotal (n : nat)
| LEstado (activo : bool).

(** The flag of the event [apertura_hospital], the list [registro] (the
    entry "<nombre> → Paciente <i>" as a pair), the console. *)
Record estado : Type := Estado {
  apertura_hospital : bool;
  registro : list (string * nat);
  consola : list linea
}.

Inductive accion : Type :=
| Print (l : linea)
| EventSet
| EventWait
| Anexar (nombre : string) (i : nat)
| PrintAtendio (nombre : string) (i : nat)
| PrintTotal
| PrintEstado.

Definition codigo_t : Type := list (instr accion).

Definition P (l : linea) : instr accion := Dato (Print l).

Definition imprime (l : linea) (d : estado) : estado :=
  Estado (apertura_hospital d) (registro d) (consola d ++ [l]).

Definition ejecutar (a : accion) (t : tid) (c : nat) (d : estado)
    : option (estado * codigo_t) :=
  match a with
  | Print l => Some (imprime l d, [])
  | EventSet => Some (Estado true (registro d) (consola d), [])
  | EventWait => if apertura_hospital d then Some (d, []) else None
  | Anexar n i =>
      Some (Estado (apertura_hospital d) (registro d ++ [(n, i)]) (consola d), [])
  | PrintAtendio n i => Some (imprime (LAtendio n i (length (registro d))) d, [])
  | PrintTotal => Some (imprime (LTotal (length (registro d))) d, [])
  | PrintEstado => Some (imprime (LEstado (apertura_hospital d)) d, [])
  end.

(** director() *)
Definition director : codigo_t :=
  [P (LTexto "  🏢 Director: revisando que todo esté listo..."); Sleep;
   P (LTexto "  🏢 Director: ¡HOSPITAL ABIERTO! Los médicos pueden atender.");
   Dato EventSet].

(** atender_pacientes(medico) *)
Definition atender_pacientes (med : medico) : codigo_t :=
  [P (LEsperando med); Dato EventWait; P (LSenal (nombre med))]
  ++ flat_map
       (λ i, Sleep :: with_ lock [Dato (Anexar (nombre med) i);
                                  Dato (PrintAtendio (nombre med) i)])
       (seq 1 PACIENTES_POR_MEDICO)
  ++ [P (LTurno (nombre med))].

Definition titulo_resumen : string := "   📋 RESUMEN DEL TURNO".

(** The threads: main is 0, the doctor of index [i] is [i + 1], the
    director is 5. *)
Definition t_director : tid := 5.

Definition main : codigo_t :=
  [P LRegla; P (LTexto "   🏥 SIMULADOR DE HOSPITAL — threading.Event"); P LRegla;
   P (LTexto "  Médicos disponibles : 4"); P (LTexto "  Pacientes por médico: 3");
   P (LTexto "  Total de atenciones : 12"); P (LTexto "  ¿Cómo funciona?");
   P (LTexto "  → Cada médico (hilo) espera con .wait()");
   P (LTexto "  → El director llama a .set() y los desbloquea a todos");
   P (LTexto "  Presiona ENTER para abrir el hospital... 🚪"); Input]
  ++ imap (λ i _, Start (S i)) MEDICOS
  ++ [Sleep; Start t_director; Join t_director]
  ++ imap (λ i _, Join (S i)) MEDICOS
  ++ [P LRegla; P (LTexto titulo_resumen); P LRegla;
      Dato PrintTotal; Dato PrintEstado;
      P (LTexto "  Conceptos usados:");
      P (LTexto "   • threading.Event  → .wait() bloqueó los hilos hasta .set()");
      P (LTexto "   • threading.Lock   → registro compartido sin conflictos");
      P (LTexto "   • thread.join()    → esperamos a cada médico antes de imprimir");
      P LRegla].

Definition programa (entrada : list string) : mundo accion estado :=
  Mundo (Hilo true main None
         :: map (λ med, Hilo false (atender_pacientes med) None) MEDICOS
         ++ [Hilo false director None])
        ∅ entrada (Estado false [] []).

(** The final report: its title, the total, the state of the event. *)
Definition informe (a : accion) : bool :=
  match a with
  | PrintTotal | PrintEstado => true
  | Print (LTexto s) => bool_decide (s = titulo_resumen)
  | _ => false
  end.

Definition es_medico (t : tid) : bool := bool_decide (1 ≤ t ≤ length MEDICOS).

(** *** Rules *)

Definition hos_simple (a : accion) : bool :=
  match a with EventWait => false | _ => true end.

(** The update of [registro] and the line that reads its length stand
    under [lock]. *)
Definition hos_protegida (a : accion) : option cerrojo :=
  match a with
  | Anexar _ _ | PrintAtendio _ _ => Some lock
  | _ => None
  end.

Definition hos_peso (a : accion) : nat := 1.
Definition hos_potencial (d : estado) : nat := 0.

Lemma hospital_sin_extra a t c d d' x : ejecutar a t c d = Some (d', x) → x = [].
Proof.
  intros H. destruct a; simpl in H; try (by injection H as <- <-).
  destruct (apertura_hospital d); [|done]. by injection H as <- <-.
Qed.

Lemma hospital_simple_ok a t c d :
  hos_simple a = true → ∃ d', ejecutar a t c d = Some (d', []).
Proof. intros H. destruct a; simpl; try done; eauto. Qed.

Lemma hospital_extra_forma a t c d d' x :
  ejecutar a t c d = Some (d', x) → forma hos_simple hos_protegida None x = true.
Proof. by intros ->%hospital_sin_extra. Qed.

Lemma hospital_extra_obrero a t c d d' x :
  ejecutar a t c d = Some (d', x) → es_obrero x = true.
Proof. by intros ->%hospital_sin_extra. Qed.

Lemma hospital_extra_sin_raise a t c d d' x :
  ejecutar a t c d = Some (d', x) → sin_raise x = true.
Proof. by intros ->%hospital_sin_extra. Qed.

Lemma hospital_peso_ok a t c d d' x :
  ejecutar a t c d = Some (d', x) →
  peso_codigo hos_peso x + hos_potencial d' < hos_peso a + hos_potencial d.
Proof. intros ->%hospital_sin_extra. unfold hos_peso, hos_potencial. simpl. lia. Qed.

#[export] Instance reglas_hospital : reglas ejecutar := {|
  simple := hos_simple;
  protegida := hos_protegida;
  peso := hos_peso;
  potencial := hos_potencial;
  simple_ok := hospital_simple_ok;
  extra_forma := hospital_extra_forma;
  extra_obrero := hospital_extra_obrero;
  extra_sin_raise := hospital_extra_sin_raise;
  peso_ok := hospital_peso_ok
|}.

(** *** The first state *)

Lemma hospital_estable entrada : estable ejecutar (programa entrada).
Proof. apply bien_formado_estable. by vm_compute. Qed.

Lemma hospital_sano s ss : estable_sano ejecutar (programa (s :: ss)).
Proof.
  split; [apply hospital_estable|].
  eexists. split; [reflexivity|]. split_and!; try done. simpl. lia.
Qed.

Lemma hospital_sin_entrada : sin_entrada (programa []).
Proof. split; [done|]. eexists. split; [reflexivity|]. right. simpl. lia. Qed.

Lemma hospital_informes entrada : informes informe (programa entrada).
Proof.
  eexists. split; [reflexivity|]. split; [by vm_compute|].
  intros u hu Hu Hl. destruct u as [|u]; [done|]. simpl in Hl.
  apply list_elem_of_lookup_2, list_elem_of_In in Hl. simpl in Hl.
  repeat (destruct Hl as [<-|Hl]; [by vm_compute|]). done.
Qed.

(** *** The gate *)

(** The code of a doctor who has not passed [wait()]. *)
Fixpoint antes (c : codigo_t) : bool :=
  match c with
  | Dato EventWait :: _ => true
  | Dato (Print _) :: r => antes r
  | Sleep :: r => antes r
  | _ => false
  end.

Definition sin_anexar (c : codigo_t) : bool :=
  solo (λ a, match a with Anexar _ _ => false | _ => true end) c.

(** While the gate is closed, [registro] is empty and every doctor is
    before or at its [wait()], unless an exception ended it. *)
Definition puerta (m : mundo accion estado) : Prop :=
  (apertura_hospital (datos m) = false → registro (datos m) = [])
  ∧ ∀ t h, hilos m !! t = Some h →
      if es_medico t
      then apertura_hospital (datos m) = false →
           antes (codigo h) = true ∨ is_Some (error h)
      else sin_anexar (codigo h) = true.

Lemma hospital_abierto_paso t c (m m' : mundo accion estado) :
  paso ejecutar t c m = Some m' →
  apertura_hospital (datos m) = true → apertura_hospital (datos m') = true.
Proof.
  intros Hp Hab. apply paso_transicion in Hp as (h & i & r & Hh & Hi & Hc & Ht).
  destruct Ht as [a d x He| | | | | | |]; simpl; try done.
  destruct a; simpl in He; try (by injection He as <- <-).
  rewrite Hab in He. by injection He as <- <-.
Qed.

Lemma sin_anexar_cola i r : sin_anexar (i :: r) = true → sin_anexar r = true.
Proof. unfold sin_anexar. simpl. by intros [_ ?]%andb_true_iff. Qed.

Lemma puerta_paso t c m m' :
  muertos m → puerta m → paso ejecutar t c m = Some m' → puerta m'.
Proof.
  intros Hm [Hreg Hth] Hp.
  pose proof (hospital_abierto_paso t c m m' Hp) as Hmono.
  apply paso_transicion in Hp as (h & i & r & Hh & Hi & Hc & Ht).
  assert (Hlen : t < length (hilos m)) by by eapply lookup_lt_Some.
  assert (Hab : apertura_hospital (datos m') = false →
                apertura_hospital (datos m) = false).
  { intros H'. destruct (apertura_hospital (datos m)) eqn:E; [|done].
    rewrite Hmono in H'; done. }
  assert (Herr : error h = None).
  { destruct (error h) eqn:He; [|done].
    rewrite (Hm t h Hh) in Hc; [done|]. by rewrite He. }
  pose proof (Hth t h Hh) as Ht0. rewrite Hc in Ht0.
  (* what is left to show on the thread that steps and on the data *)
  assert (Hde : ∀ hs h',
            hilos m' = <[t := h']> hs →
            (∀ u hu, hs !! u = Some hu →
               ∃ hu0, hilos m !! u = Some hu0 ∧ codigo hu = codigo hu0
                      ∧ error hu = error hu0) →
            (apertura_hospital (datos m') = false → registro (datos m') = []) →
            (if es_medico t
             then apertura_hospital (datos m') = false →
                  antes (codigo h') = true ∨ is_Some (error h')
             else sin_anexar (codigo h') = true) →
            puerta m').
  { intros hs h' Hhs Hrest Hreg' Hh'. split; [done|].
    intros u hu Hl. rewrite Hhs in Hl.
    apply list_lookup_insert_Some in Hl as [(<- & <- & _)|(Hne & Hl)]; [done|].
    destruct (Hrest u hu Hl) as (hu0 & Hl0 & Hcu & Heu).
    pose proof (Hth u hu0 Hl0) as Hu0. rewrite Hcu, Heu.
    destruct (es_medico u); [|done]. intros Hab'. by apply Hu0, Hab. }
  assert (Hmismos : ∀ u hu, hilos m !! u = Some hu →
            ∃ hu0, hilos m !! u = Some hu0 ∧ codigo hu = codigo hu0
                   ∧ error hu = error hu0) by eauto.
  (* a step that is not a data action and does not raise *)
  assert (Hcola : (∀ a, i ≠ Dato a) → (∀ e, i ≠ Raise e) →
            datos m' = datos m →
            if es_medico t
            then apertura_hospital (datos m') = false →
                 antes (codigo (sigue h r)) = true ∨ is_Some (error (sigue h r))
            else sin_anexar (codigo (sigue h r)) = true).
  { intros Hnd Hnr Hdat. simpl. destruct (es_medico t).
    - intros Hab'. destruct (Ht0 (Hab Hab')) as [Ha|[e He]]; [|congruence].
      left. destruct i as [a| | | | | | |]; simpl in Ha; try done.
      by destruct (Hnd a).
    - by eapply sin_anexar_cola. }
  destruct Ht as [a d x He| |l Hfree|l v Hheld|u hu Hu Hiu|u hu Hu Hiu
                  |s ss Hs'|i e Hx].
  - pose proof (hospital_sin_extra _ _ _ _ _ _ He) as ->.
    apply (Hde (hilos m) (sigue h r)); [done|done| |]; simpl.
    + intros Hab'. pose proof (Hab Hab') as Hcer. specialize (Hreg Hcer).
      destruct a; simpl in He; try (injection He as <-; simpl; done).
      * by rewrite Hcer in He.
      * exfalso. destruct (es_medico t).
        -- destruct (Ht0 Hcer) as [?|[? ?]]; [done|congruence].
        -- done.
    + destruct (es_medico t).
      * intros Hab'. pose proof (Hab Hab') as Hcer.
        destruct (Ht0 Hcer) as [Ha|[e0 He0]]; [|congruence]. left.
        destruct a; simpl in Ha; try done. simpl in He. by rewrite Hcer in He.
      * by eapply sin_anexar_cola.
  - apply (Hde (hilos m) (sigue h r)); first [done|by apply Hcola].
  - apply (Hde (hilos m) (sigue h r)); first [done|by apply Hcola].
  - apply (Hde (hilos m) (sigue h r)); first [done|by apply Hcola].
  - apply (Hde (<[u := arranca hu]> (hilos m)) (sigue h r));
      [done| |done|by apply Hcola].
    intros u' hu' Hl.
    apply list_lookup_insert_Some in Hl as [(<- & <- & _)|(_ & Hl)]; eauto.
  - apply (Hde (hilos m) (sigue h r)); first [done|by apply Hcola].
  - apply (Hde (hilos m) (sigue h r)); first [done|by apply Hcola].
  - apply (Hde (hilos m) (falla_con h e)); try done. simpl.
    destruct (es_medico t); [|done]. intros _. right. by eexists.
Qed.

Lemma puerta_inicial entrada : puerta (programa entrada).
Proof.
  split; [done|]. intros t h Hl.
  destruct t as [|[|[|[|[|[|t]]]]]]; simpl in Hl; try done;
    injection Hl as <-; vm_compute; auto.
Qed.

Lemma puerta_plan entrada ds m :
  ejecutar_plan ejecutar ds (programa entrada) = Some m → puerta m.
Proof.
  intros Hp.
  assert (H : estable ejecutar m ∧ puerta m); [|by destruct H].
  revert Hp. apply (plan_inv ejecutar (λ m, estable ejecutar m ∧ puerta m)).
  - intros t c m1 m2 [He Hpu] Hp. split; [by eapply estable_paso|].
    destruct He as (_ & _ & Hm). by eapply puerta_paso.
  - split; [apply hospital_estable|apply puerta_inicial].
Qed.

(** *** One opening *)

(** The calls of [set()] left in the code. *)
Fixpoint cuenta_set (c : codigo_t) : nat :=
  match c with
  | [] => 0
  | Dato EventSet :: r => S (cuenta_set r)
  | _ :: r => cuenta_set r
  end.

Definition pendientes (m : mundo accion estado) : nat :=
  sum_list_with (λ h, cuenta_set (codigo h)) (hilos m).

(** Did the step from [m] to [m'] open the gate? *)
Definition abre (m m' : mundo accion estado) : bool :=
  negb (apertura_hospital (datos m)) && apertura_hospital (datos m').

(** The openings of the gate along a run: the steps that find the flag
    false and leave it true. *)
Fixpoint aperturas (ds : list decision) (m : mundo accion estado) : nat :=
  match ds with
  | [] => 0
  | d :: r =>
      match paso ejecutar (quien d) (elige d) m with
      | Some m' => (if abre m m' then 1 else 0) + aperturas r m'
      | None => 0
      end
  end.

(** Only the director calls [set()]. *)
Definition solo_director (m : mundo accion estado) : Prop :=
  ∀ t h, hilos m !! t = Some h → t ≠ t_director → cuenta_set (codigo h) = 0.

Lemma cuenta_set_cola i r : cuenta_set r ≤ cuenta_set (i :: r).
Proof. destruct i as [[]| | | | | | |]; simpl; lia. Qed.

Lemma solo_director_paso t c m m' :
  solo_director m → paso ejecutar t c m = Some m' → solo_director m'.
Proof.
  intros Hsd Hp.
  apply paso_resumen in Hp as (h & i & r & h' & Hh & Hi & Hc & Hh' & _ & Hrest & Hcasos).
  intros u hu Hl Hu. destruct (decide (u = t)) as [->|Hne].
  - assert (hu = h') as -> by congruence.
    pose proof (Hsd t h Hh Hu) as H0. rewrite Hc in H0.
    pose proof (cuenta_set_cola i r) as Hle.
    destruct Hcasos as [(a & x & -> & He & ->)|(_ & _ & [[-> _]|[e ->]])]; simpl.
    + pose proof (hospital_sin_extra _ _ _ _ _ _ He) as ->. simpl. lia.
    + lia.
    + done.
  - destruct (Hrest u hu Hne Hl) as (hu0 & Hl0 & -> & _). by apply (Hsd u hu0).
Qed.

(** An opening is a call of [set()]: it takes one from the code. *)
Lemma hospital_abre_paso t c m m' :
  paso ejecutar t c m = Some m' →
  (if abre m m' then 1 else 0) + pendientes m' ≤ pendientes m
  ∧ (abre m m' = true →
       ∃ h r, hilos m !! t = Some h ∧ codigo h = Dato EventSet :: r).
Proof.
  intros Hp. pose proof Hp as Hp'.
  apply paso_transicion in Hp as (h & i & r & Hh & Hi & Hc & Ht).
  assert (Hsum : ∀ h', pendientes (Mundo (<[t := h']> (hilos m)) (cerrojos m)
                                     (stdin m) (datos m)) + cuenta_set (codigo h)
                       = pendientes m + cuenta_set (codigo h')).
  { intros h'. unfold pendientes. simpl.
    apply (suma_insert (λ h, cuenta_set (codigo h)) (hilos m) t h h' Hh). }
  rewrite Hc in Hsum. pose proof (cuenta_set_cola i r) as Hle.
  unfold abre.
  destruct Ht as [a d x He| |l Hfree|l v Hheld|u hu Hu Hiu|u hu Hu Hiu
                  |s ss Hs'|i e Hx]; simpl;
    try (specialize (Hsum (sigue h r)); unfold pendientes in *; simpl in *;
         rewrite andb_negb_l; split; [lia|done]).
  - pose proof (hospital_sin_extra _ _ _ _ _ _ He) as ->.
    specialize (Hsum (sigue h r)). unfold pendientes in *. simpl in *.
    destruct a; simpl in He;
      try (injection He as <-; simpl; rewrite andb_negb_l; split; [lia|done]).
    + injection He as <-. simpl. split; [|eauto].
      destruct (apertura_hospital (datos m)); simpl; lia.
    + destruct (apertura_hospital (datos m)) eqn:Hab; [|done].
      injection He as <-. rewrite Hab. simpl. split; [lia|done].
  - unfold pendientes in *. simpl in *. rewrite andb_negb_l. split; [|done].
    assert (Hu' : <[u := arranca hu]> (hilos m) !! t = Some h
                  ∨ (u = t ∧ <[u := arranca hu]> (hilos m) !! t = Some (arranca h))).
    { destruct (decide (u = t)) as [->|Hne].
      - right. split; [done|]. assert (hu = h) as -> by congruence.
        apply list_lookup_insert_eq. by eapply lookup_lt_Some.
      - left. by rewrite list_lookup_insert_ne. }
    pose proof (suma_insert (λ h, cuenta_set (codigo h)) (hilos m) u hu (arranca hu) Hu)
      as H1. simpl in H1.
    destruct Hu' as [Hl|[-> Hl]].
    + pose proof (suma_insert (λ h, cuenta_set (codigo h)) _ t h (sigue h r) Hl) as H2.
      simpl in H2. rewrite Hc in H2. simpl in H2. lia.
    + pose proof (suma_insert (λ h, cuenta_set (codigo h)) _ t (arranca h) (sigue h r) Hl)
        as H2. simpl in H2. rewrite Hc in H2. simpl in H2. lia.
  - specialize (Hsum (falla_con h e)). unfold pendientes in *. simpl in *.
    rewrite andb_negb_l. split; [lia|done].
Qed.

Lemma hospital_aperturas_cota ds m m' :
  ejecutar_plan ejecutar ds m = Some m' →
  aperturas ds m + pendientes m' ≤ pendientes m.
Proof.
  revert m. induction ds as [|d ds IH]; intros m Hp; simpl in *.
  - injection Hp as <-. lia.
  - destruct (paso ejecutar (quien d) (elige d) m) as [m1|] eqn:H1; simpl in Hp; [|done].
    pose proof (hospital_abre_paso _ _ _ _ H1) as [Hle _]. specialize (IH m1 Hp). lia.
Qed.

(** A run that finds the gate closed and leaves it open has opened it. *)
Lemma hospital_aperturas_alguna ds m m' :
  ejecutar_plan ejecutar ds m = Some m' →
  apertura_hospital (datos m) = false → apertura_hospital (datos m') = true →
  1 ≤ aperturas ds m.
Proof.
  revert m. induction ds as [|d ds IH]; intros m Hp Hc Ha; simpl in *.
  - injection Hp as <-. congruence.
  - destruct (paso ejecutar (quien d) (elige d) m) as [m1|] eqn:H1; simpl in Hp; [|done].
    unfold abre. rewrite Hc. simpl.
    destruct (apertura_hospital (datos m1)) eqn:H1a; [lia|].
    specialize (IH m1 Hp H1a Ha). lia.
Qed.

(** The director will open the gate, or has opened it, unless an
    exception ended it. *)
Definition director_abre (m : mundo accion estado) : Prop :=
  ∃ h, hilos m !! t_director = Some h
    ∧ (cuenta_set (codigo h) = 1 ∨ apertura_hospital (datos m) = true
       ∨ is_Some (error h)).

Lemma director_abre_paso t c m m' :
  director_abre m → paso ejecutar t c m = Some m' → director_abre m'.
Proof.
  intros (h5 & H5 & Hor) Hp.
  pose proof (hospital_abierto_paso t c m m' Hp) as Hmono.
  apply paso_resumen in Hp as (h & i & r & h' & Hh & Hi & Hc & Hh' & Hlen & Hrest & Hcasos).
  destruct (decide (t = t_director)) as [->|Hne].
  - assert (h5 = h) as -> by congruence. exists h'. split; [done|].
    destruct Hor as [Hcs|[Hab|[e0 He0]]]; [|auto|].
    + rewrite Hc in Hcs.
      destruct Hcasos as [(a & x & -> & He & ->)|(Hnd & _ & [[-> _]|[e ->]])]; simpl.
      * pose proof (hospital_sin_extra _ _ _ _ _ _ He) as ->. simpl.
        destruct a; simpl in He, Hcs; try (by left).
        right. left. by injection He as <-.
      * left. destruct i as [[]| | | | | | |]; simpl in Hcs; try done.
        by destruct (Hnd EventSet).
      * right. right. by eexists.
    + right. right.
      destruct Hcasos as [(a & x & -> & He & ->)|(Hnd & _ & [[-> _]|[e ->]])]; simpl;
        by eexists.
  - destruct (lookup_lt_is_Some_2 (hilos m') t_director) as [h5' H5'];
      [rewrite Hlen; by eapply lookup_lt_Some|].
    destruct (Hrest _ _ (not_eq_sym Hne) H5') as (h5'' & H5'' & Hc5 & He5 & _).
    assert (h5'' = h5) as -> by congruence.
    exists h5'. split; [done|]. rewrite Hc5, He5.
    destruct Hor as [?|[?|?]]; auto.
Qed.

Lemma hospital_abierto_plan ds m m' :
  ejecutar_plan ejecutar ds m = Some m' →
  apertura_hospital (datos m) = true → apertura_hospital (datos m') = true.
Proof.
  revert m. induction ds as [|d ds IH]; intros m Hp Ha; simpl in Hp.
  - by injection Hp as <-.
  - destruct (paso ejecutar (quien d) (elige d) m) as [m1|] eqn:H1; simpl in Hp; [|done].
    apply (IH m1 Hp). by eapply hospital_abierto_paso.
Qed.

(** When main has returned without an exception the gate is open. *)
Lemma hospital_abierto_final s ss ds m :
  ejecutar_plan ejecutar ds (programa (s :: ss)) = Some m →
  fin_principal m = true →
  apertura_hospital (datos m) = true.
Proof.
  intros Hp Hfin.
  assert (Hinv : (estable_sano ejecutar m ∧ sano t_director m) ∧ director_abre m).
  { revert Hp.
    apply (plan_inv ejecutar
             (λ m, (estable_sano ejecutar m ∧ sano t_director m) ∧ director_abre m)).
    - intros t c m1 m2 [[Hes Hs5] Hda] Hp. split; [split|].
      + by eapply estable_sano_paso.
      + destruct Hes as [(Hd & Hq & _) Hs0]. by eapply (sano_paso ejecutar t_director).
      + by eapply director_abre_paso.
    - split; [split|].
      + apply hospital_sano.
      + eexists. split; [reflexivity|]. split_and!; try done. simpl. lia.
      + eexists. split; [reflexivity|]. by left. }
  destruct Hinv as [[[(Hd & Hq & Hm) (h0 & H0 & He0 & _)] (h5 & H5 & He5 & _)]
                    (h5' & H5' & Hor)].
  assert (h5' = h5) as -> by congruence.
  assert (Hc0 : codigo h0 = []).
  { unfold fin_principal in Hfin. rewrite H0 in Hfin.
    apply andb_true_iff in Hfin as [_ Hv]. by destruct (codigo h0). }
  pose proof (fin_quieto m h0 Hq H0 Hc0 He0 t_director h5 H5) as Hc5.
  rewrite Hc5, He5 in Hor. destruct Hor as [?|[?|[? ?]]]; done.
Qed.

Lemma solo_director_plan entrada ds m :
  ejecutar_plan ejecutar ds (programa entrada) = Some m → solo_director m.
Proof.
  apply (plan_inv ejecutar solo_director); [apply solo_director_paso|].
  intros t h Hl Ht. unfold t_director in Ht.
  destruct t as [|[|[|[|[|[|t]]]]]]; simpl in Hl; try done; by injection Hl as <-.
Qed.

Lemma hospital_extra_informe a t c d d' x :
  ejecutar a t c d = Some (d', x) → tiene informe x = false.
Proof. by intros ->%hospital_sin_extra. Qed.

(** *** No doctor waits for ever *)







End Hospital.
(** ** The three short programs: processes, coroutines, threads *)

Module Demos.
Import Maquina Pasos Reglas Teoria Cantidades Generico.

(** What the programs print, line by line. *)
Inductive linea : Type :=
| LTexto (s : string)
| LCalculando (numero : nat)
| LResultado (cuadrado : nat)
| LConsultando (nombre : string)
| LRespuesta (nombre : string) (tiempo : nat)
| LIniciando (nombre : string)
| LCompletada (nombre : string) (tiempo : nat).

(** The console and the local [tiempo] of each worker. *)
Record estado : Type := Estado {
  consola : list linea;
  tiempo : gmap tid nat
}.

Inductive accion : Type :=
| Print (l : linea)
| Azar (lo hi : nat)
| PrintRespuesta (nombre : string)
| PrintCompletada (nombre : string).

Definition codigo_t : Type := list (instr accion).

Definition P (l : linea) : instr accion := Dato (Print l).

(** [Azar lo hi] is tiempo = random.randint(lo, hi): the choice of the
    step gives the number. *)
Definition ejecutar (a : accion) (t : tid) (c : nat) (d : estado)
    : option (estado * codigo_t) :=
  match a with
  | Print l => Some (Estado (consola d ++ [l]) (tiempo d), [])
  | Azar lo hi =>
      Some (Estado (consola d) (<[t := lo + c `mod` (hi - lo + 1)]> (tiempo d)), [])
  | PrintRespuesta n =>
      Some (Estado (consola d ++ [LRespuesta n (default 0 (tiempo d !! t))])
              (tiempo d), [])
  | PrintCompletada n =>
      Some (Estado (consola d ++ [LCompletada n (default 0 (tiempo d !! t))])
              (tiempo d), [])
  end.

(** The loops of the three programs: a worker per item, started in
    order, then joined in order. *)
Definition lanzar {X} (l : list X) : codigo_t := imap (λ i _, Start (S i)) l.
Definition unir {X} (l : list X) : codigo_t := imap (λ i _, Join (S i)) l.

Definition mundo_de (main : codigo_t) (obreros : list codigo_t) (entrada : list string)
    : mundo accion estado :=
  Mundo (Hilo true main None :: map (λ c, Hilo false c None) obreros)
        ∅ entrada (Estado [] ∅).

(** *** Calculo_intensivo_(Multiprocessing).py *)

Definition calcular (numero : nat) : codigo_t :=
  [P (LCalculando numero); Sleep; P (LResultado (numero * numero))].

Definition fin_calculo : string := "Todos los cálculos terminaron.".

Definition main_calculo : codigo_t :=
  lanzar (seq 1 3) ++ unir (seq 1 3) ++ [P (LTexto fin_calculo)].

Definition calculo (entrada : list string) : mundo accion estado :=
  mundo_de main_calculo (map calcular (seq 1 3)) entrada.

(** *** Simulador_API_(Asyncio).py *)

Definition servicios : list string := ["Servicio 1"; "Servicio 2"; "Servicio 3"].

Definition consultar_api (nombre : string) : codigo_t :=
  [P (LConsultando nombre); Dato (Azar 1 4); Sleep; Dato (PrintRespuesta nombre)].

(** main(): await asyncio.gather(...) schedules the three coroutines and
    returns when the three are over. *)
Definition main_api : codigo_t := lanzar servicios ++ unir servicios.

Definition api (entrada : list string) : mundo accion estado :=
  mundo_de main_api (map consultar_api servicios) entrada.

(** *** Simulador_descargas_Hilos_(threading).py *)

Definition archivos : list string := ["archivo1.zip"; "archivo2.mp4"; "archivo3.pdf"].

Definition descargar_archivo (nombre : string) : codigo_t :=
  [P (LIniciando nombre); Dato (Azar 2 5); Sleep; Dato (PrintCompletada nombre)].

Definition fin_descargas : string := "Todas las descargas finalizaron.".

Definition main_descargas : codigo_t :=
  lanzar archivos ++ unir archivos ++ [P (LTexto fin_descargas)].

Definition descargas (entrada : list string) : mundo accion estado :=
  mundo_de main_descargas (map descargar_archivo archivos) entrada.

(** The final line of a program. *)
Definition informe (a : accion) : bool :=
  match a with
  | Print (LTexto s) => bool_decide (s = fin_calculo ∨ s = fin_descargas)
  | _ => false
  end.

(** *** Rules *)

Definition demo_simple (a : accion) : bool := true.
Definition demo_protegida (a : accion) : option cerrojo := None.
Definition demo_peso (a : accion) : nat := 1.
Definition demo_potencial (d : estado) : nat := 0.

Lemma demos_sin_extra a t c d d' x : ejecutar a t c d = Some (d', x) → x = [].
Proof. intros H. by destruct a; injection H as <- <-. Qed.

Lemma demos_simple_ok a t c d :
  demo_simple a = true → ∃ d', ejecutar a t c d = Some (d', []).
Proof. intros _. destruct a; simpl; eauto. Qed.

Lemma demos_extra_forma a t c d d' x :
  ejecutar a t c d = Some (d', x) → forma demo_simple demo_protegida None x = true.
Proof. by intros ->%demos_sin_extra. Qed.

Lemma demos_extra_obrero a t c d d' x :
  ejecutar a t c d = Some (d', x) → es_obrero x = true.
Proof. by intros ->%demos_sin_extra. Qed.

Lemma demos_extra_sin_raise a t c d d' x :
  ejecutar a t c d = Some (d', x) → sin_raise x = true.
Proof. by intros ->%demos_sin_extra. Qed.

Lemma demos_peso_ok a t c d d' x :
  ejecutar a t c d = Some (d', x) →
  peso_codigo demo_peso x + demo_potencial d' < demo_peso a + demo_potencial d.
Proof. intros ->%demos_sin_extra. unfold demo_peso, demo_potencial. simpl. lia. Qed.

#[export] Instance reglas_demos : reglas ejecutar := {|
  simple := demo_simple;
  protegida := demo_protegida;
  peso := demo_peso;
  potencial := demo_potencial;
  simple_ok := demos_simple_ok;
  extra_forma := demos_extra_forma;
  extra_obrero := demos_extra_obrero;
  extra_sin_raise := demos_extra_sin_raise;
  peso_ok := demos_peso_ok
|}.


Lemma demos_extra_informe a t c d d' x :
  ejecutar a t c d = Some (d', x) → tiene informe x = false.
Proof. by intros ->%demos_sin_extra. Qed.

(** *** The first states *)

Lemma calculo_sano entrada : estable_sano ejecutar (calculo entrada).
Proof.
  split; [apply bien_formado_estable; by vm_compute|].
  eexists. split; [reflexivity|]. split_and!; try done. simpl. lia.
Qed.

Lemma api_sano entrada : estable_sano ejecutar (api entrada).
Proof.
  split; [apply bien_formado_estable; by vm_compute|].
  eexists. split; [reflexivity|]. split_and!; try done. simpl. lia.
Qed.

Lemma descargas_sano entrada : estable_sano ejecutar (descargas entrada).
Proof.
  split; [apply bien_formado_estable; by vm_compute|].
  eexists. split; [reflexivity|]. split_and!; try done. simpl. lia.
Qed.




Lemma demos_informes main obreros entrada :
  informe_ok informe (S (length obreros)) main = true →
  forallb (λ c, negb (tiene informe c)) obreros = true →
  informes informe (mundo_de main obreros entrada).
Proof.
  intros Hm Hw. eexists. split; [reflexivity|]. split.
  - simpl. by rewrite length_map.
  - intros u hu Hu Hl. destruct u as [|u]; [done|]. simpl in Hl.
    apply list_lookup_fmap_Some in Hl as (c & -> & Hc). simpl.
    rewrite forallb_forall in Hw. apply negb_true_iff, Hw.
    apply list_elem_of_In. by eapply list_elem_of_lookup_2.
Qed.

End Demos.
(** ** The properties of the programs *)

Import Maquina Pasos Reglas Teoria Cantidades.
Import Simulador SimuladorReglas SimuladorInv SimuladorRes SimuladorInicial.
Import SimuladorCerrojos SimuladorFinal.

#[local] Existing Instance Corredores.reglas_corredores.
#[local] Existing Instance Hospital.reglas_hospital.
#[local] Existing Instance Demos.reglas_demos.

Lemma inicial_sano md e con :
  estable_sano (ejecutar sin_fallos) (inicial sin_fallos md e con).
Proof. apply bien_formado_estable_sano. by destruct md; vm_compute. Qed.

Lemma inicial_inv_est md e con :
  inv_est sin_fallos 2025 6 (inicial sin_fallos md e con).
Proof.
  split_and!.
  - apply estable_sano_seguro, inicial_sano.
  - apply operandos_inicial. by destruct md; vm_compute.
  - pose proof (fases_revisada (va_est sin_fallos TotalMb) (vr_est TotalMb)
                  (ve_est sin_fallos TotalMb) (reinicia_est TotalMb) (toca_est TotalMb)
                  (inicial sin_fallos md e con)) as H.
    assert (Hv : valor_fases (va_est sin_fallos TotalMb) (vr_est TotalMb)
                   (ve_est sin_fallos TotalMb) (reinicia_est TotalMb)
                   (inicial sin_fallos md e con) = 2025%Z)
      by (by destruct md; vm_compute).
    rewrite Hv in H. apply H. by destruct md; vm_compute.
  - pose proof (fases_revisada (va_est sin_fallos ArchivosCompletados)
                  (vr_est ArchivosCompletados)
                  (ve_est sin_fallos ArchivosCompletados)
                  (reinicia_est ArchivosCompletados) (toca_est ArchivosCompletados)
                  (inicial sin_fallos md e con)) as H.
    assert (Hv : valor_fases (va_est sin_fallos ArchivosCompletados)
                   (vr_est ArchivosCompletados)
                   (ve_est sin_fallos ArchivosCompletados)
                   (reinicia_est ArchivosCompletados)
                   (inicial sin_fallos md e con) = 6%Z)
      by (by destruct md; vm_compute).
    rewrite Hv in H. apply H. by destruct md; vm_compute.
  - unfold futuros_ok. by destruct md; vm_compute.
Qed.


(** The counters that a finished mode leaves. *)
Lemma contadores_de_modo md e con ds m :
  ejecutar_plan (ejecutar sin_fallos) ds (inicial sin_fallos md e con) = Some m →
  fin_principal m = true →
  estadisticas (datos m) = Estadisticas 2025 6.
Proof.
  intros Hp Hfin.
  pose proof (inv_est_plan _ _ _ _ _ _ (inicial_inv_est md e con) Hp) as Hinv.
  pose proof (estable_sano_plan _ _ _ _ (inicial_sano md e con) Hp) as Hs.
  destruct (final_principal _ m Hs Hfin) as (h0 & H0 & Hc & He).
  by eapply inv_est_final.
Qed.

Lemma inicial_inv_res_sec g e con :
  inv_res sin_fallos g (suma_de g (map resultado_de ARCHIVOS))
    (inicial sin_fallos Secuencial e con).
Proof.
  split_and!.
  - apply inicial_seguro.
  - assert (Hv : valor_fases (va_res sin_fallos g) (vr_res g) (ve_res sin_fallos g)
                   reinicia_res (inicial sin_fallos Secuencial e con)
                 = suma_de g (map resultado_de ARCHIVOS))
      by (cbv -[Z.add]; lia).
    rewrite <- Hv. apply fases_revisada. by vm_compute.
  - apply inicial_futuros.
Qed.

(** The records that a finished mode has collected. *)
Lemma resultados_de_modo md e con ds m :
  ejecutar_plan (ejecutar sin_fallos) ds (inicial sin_fallos md e con) = Some m →
  fin_principal m = true →
  resultados (datos m) ≡ₚ map resultado_de ARCHIVOS.
Proof.
  intros Hp Hfin.
  assert (Hmd : md = Secuencial ∨ md ≠ Secuencial) by (destruct md; auto).
  destruct Hmd as [->|Hmd].
  - pose proof (estable_sano_plan _ _ _ _ (inicial_sano Secuencial e con) Hp) as Hs.
    destruct (final_principal _ m Hs Hfin) as (h0 & H0 & Hc & He).
    apply suma_de_permutacion. intros g.
    eapply (inv_res_final sin_fallos g); try done.
    eapply inv_res_plan; [|done]. apply inicial_inv_res_sec.
  - by apply (resultados_de_frutos sin_fallos md e con ds m).
Qed.

(** Schedules for the examples: the workers before the main thread, the
    oldest future first. *)
Definition plan_de (falla : nat → option (nat * string)) (m0 : mundo accion globales)
    : list decision :=
  planificar (ejecutar falla) (ultimo_listo (ejecutar falla) 10 6) 5000 m0.

(** The task of the third file raises in the middle of its download: the
    print of its 17th progress line fails. *)
Definition falla_ejemplo (i : nat) : option (nat * string) :=
  if decide (i = 2) then Some (69, "conexion perdida") else None.

(** C1.  In every mode of the download simulator, for every schedule,
    once the mode function has returned (all workers joined) the list
    [resultados] holds exactly 6 records, the record of each file of
    ARCHIVOS once; and every run of the mode is bounded and, when it can
    go on no more, the mode function has returned and every worker is
    over. *)
Theorem resultados_completos md e con ds m :
  ejecutar_plan (ejecutar sin_fallos) ds (inicial sin_fallos md e con) = Some m →
  fin_principal m = true →
  length (resultados (datos m)) = length ARCHIVOS
  ∧ length (resultados (datos m)) = 6
  ∧ resultados (datos m) ≡ₚ map resultado_de ARCHIVOS
  ∧ Generico.termina_bien (ejecutar sin_fallos) (inicial sin_fallos md e con).
Proof.
  intros Hp Hfin. pose proof (resultados_de_modo md e con ds m Hp Hfin) as Hperm.
  apply Permutation_length in Hperm as Hlen. rewrite Hlen.
  split_and!; [done|done|done|]. apply SimuladorPrograma.modo_termina.
Qed.

Lemma resultados_completos_witness :
  match ejecutar_plan (ejecutar sin_fallos)
          (plan_de sin_fallos (inicial sin_fallos Pool (Estadisticas 0 0) []))
          (inicial sin_fallos Pool (Estadisticas 0 0) []) with
  | Some m => fin_principal m = true ∧ length (resultados (datos m)) = 6
  | None => False
  end.
Proof.
  assert (Hf : match ejecutar_plan (ejecutar sin_fallos)
                       (plan_de sin_fallos (inicial sin_fallos Pool (Estadisticas 0 0) []))
                       (inicial sin_fallos Pool (Estadisticas 0 0) []) with
               | Some m => fin_principal m
               | None => false
               end = true) by (vm_compute; reflexivity).
  destruct (ejecutar_plan (ejecutar sin_fallos)
              (plan_de sin_fallos (inicial sin_fallos Pool (Estadisticas 0 0) []))
              (inicial sin_fallos Pool (Estadisticas 0 0) [])) as [m|] eqn:Hp;
    [|discriminate Hf].
  split; [exact Hf|].
  exact (proj1 (proj2 (resultados_completos Pool _ _ _ m Hp Hf))).
Defined.

(** C2.  In every mode of the download simulator, for every schedule of
    the workers, once the mode function has returned the counters of
    [estadisticas] are the totals over ARCHIVOS: 2025 megabytes and 6
    files. *)
Theorem contadores_finales md e con ds m :
  ejecutar_plan (ejecutar sin_fallos) ds (inicial sin_fallos md e con) = Some m →
  fin_principal m = true →
  estadisticas (datos m) = Estadisticas 2025 6.
Proof.
  intros Hp Hfin.
  pose proof (inv_est_plan _ _ _ _ _ _ (inicial_inv_est md e con) Hp) as Hinv.
  pose proof (estable_sano_plan _ _ _ _ (inicial_sano md e con) Hp) as Hs.
  destruct (final_principal _ m Hs Hfin) as (h0 & H0 & Hc & He).
  by eapply inv_est_final.
Qed.

Lemma contadores_finales_witness :
  match ejecutar_plan (ejecutar sin_fallos)
          (plan_de sin_fallos (inicial sin_fallos Threads (Estadisticas 7 7) []))
          (inicial sin_fallos Threads (Estadisticas 7 7) []) with
  | Some m => fin_principal m = true ∧ estadisticas (datos m) = Estadisticas 2025 6
  | None => False
  end.
Proof.
  assert (Hf : match ejecutar_plan (ejecutar sin_fallos)
                       (plan_de sin_fallos (inicial sin_fallos Threads (Estadisticas 7 7) []))
                       (inicial sin_fallos Threads (Estadisticas 7 7) []) with
               | Some m => fin_principal m
               | None => false
               end = true) by (vm_compute; reflexivity).
  destruct (ejecutar_plan (ejecutar sin_fallos)
              (plan_de sin_fallos (inicial sin_fallos Threads (Estadisticas 7 7) []))
              (inicial sin_fallos Threads (Estadisticas 7 7) [])) as [m|] eqn:Hp;
    [|discriminate Hf].
  split; [exact Hf|].
  exact (contadores_finales Threads _ _ _ m Hp Hf).
Defined.




(** C5.  In modo_pool, whatever task raises and wherever in its download:
    every run is bounded and, when it can go on no more, the mode function
    has returned and the three workers are over; the mode function returns
    normally (the exception is caught for that task), a line
    "Error descargando <nombre>: <e>" with the name of the file is
    printed, the record of the task is not in [resultados], and the record
    of every task that does not raise is. *)
Theorem fallo_en_pool falla e con ds m :
  ejecutar_plan (ejecutar falla) ds (inicial falla Pool e con) = Some m →
  fin_principal m = true →
  codigo_salida m = Some 0
  ∧ (∀ i a ex, ARCHIVOS !! i = Some a → fracasa falla i = Some ex →
       veces (LTexto (texto_error (nombre a) ex)) con
       < veces (LTexto (texto_error (nombre a) ex)) (consola (datos m))
       ∧ resultado_de a ∉ resultados (datos m))
  ∧ (∀ i a, ARCHIVOS !! i = Some a → fracasa falla i = None →
       resultado_de a ∈ resultados (datos m))
  ∧ resultados (datos m) ≡ₚ frutos falla
  ∧ Generico.termina_bien (ejecutar falla) (inicial falla Pool e con).
Proof.
  intros Hp Hfin.
  assert (Hmd : Pool ≠ Secuencial) by done.
  pose proof (resultados_de_frutos falla Pool e con ds m Hmd Hp Hfin) as Hperm.
  split_and!.
  - apply (final_salida falla); [|done].
    by eapply estable_sano_plan; [apply inicial_sano_con_fallos|].
  - intros i a ex Ha Hf. split.
    + by eapply (error_impreso falla _ e con ds m i a ex).
    + rewrite Hperm. by eapply fruto_fuera.
  - intros i a Ha Hf. rewrite Hperm. by eapply fruto_dentro.
  - done.
  - apply SimuladorPrograma.pool_termina.
Qed.

Lemma fallo_en_pool_witness :
  match ejecutar_plan (ejecutar falla_ejemplo)
          (plan_de falla_ejemplo (inicial falla_ejemplo Pool (Estadisticas 0 0) []))
          (inicial falla_ejemplo Pool (Estadisticas 0 0) []) with
  | Some m =>
      fin_principal m = true
      ∧ codigo_salida m = Some 0
      ∧ 0 < veces (LTexto "  Error descargando backup_fotos.tar: conexion perdida")
              (consola (datos m))
  | None => False
  end.
Proof.
  assert (Hf : match ejecutar_plan (ejecutar falla_ejemplo)
                       (plan_de falla_ejemplo
                          (inicial falla_ejemplo Pool (Estadisticas 0 0) []))
                       (inicial falla_ejemplo Pool (Estadisticas 0 0) []) with
               | Some m => fin_principal m
               | None => false
               end = true) by (vm_compute; reflexivity).
  destruct (ejecutar_plan (ejecutar falla_ejemplo)
              (plan_de falla_ejemplo (inicial falla_ejemplo Pool (Estadisticas 0 0) []))
              (inicial falla_ejemplo Pool (Estadisticas 0 0) [])) as [m|] eqn:Hp;
    [|discriminate Hf].
  pose proof (fallo_en_pool falla_ejemplo _ _ _ m Hp Hf) as (H0 & Herr & _).
  split; [exact Hf|]. split; [exact H0|].
  exact (proj1 (Herr 2 (Archivo "backup_fotos.tar" 310) "conexion perdida"
                  eq_refl eq_refl)).
Defined.




(** C10.  The three modes agree on the statistics they leave: whatever
    the counters were before, and for every schedule, two finished runs
    of any two modes end with the same [estadisticas], the totals over
    ARCHIVOS. *)
Theorem modos_equivalentes md1 md2 e1 e2 con1 con2 ds1 ds2 m1 m2 :
  ejecutar_plan (ejecutar sin_fallos) ds1 (inicial sin_fallos md1 e1 con1) = Some m1 →
  fin_principal m1 = true →
  ejecutar_plan (ejecutar sin_fallos) ds2 (inicial sin_fallos md2 e2 con2) = Some m2 →
  fin_principal m2 = true →
  estadisticas (datos m1) = estadisticas (datos m2)
  ∧ total_mb (estadisticas (datos m1)) = total_mb (estadisticas (datos m2))
  ∧ archivos_completados (estadisticas (datos m1))
    = archivos_completados (estadisticas (datos m2)).
Proof.
  intros Hp1 Hf1 Hp2 Hf2.
  rewrite (contadores_de_modo md1 e1 con1 ds1 m1 Hp1 Hf1).
  by rewrite (contadores_de_modo md2 e2 con2 ds2 m2 Hp2 Hf2).
Qed.

Lemma modos_equivalentes_witness :
  match ejecutar_plan (ejecutar sin_fallos)
          (plan_de sin_fallos (inicial sin_fallos Secuencial (Estadisticas 3 1) []))
          (inicial sin_fallos Secuencial (Estadisticas 3 1) []),
        ejecutar_plan (ejecutar sin_fallos)
          (plan_de sin_fallos (inicial sin_fallos Pool (Estadisticas 2025 6) []))
          (inicial sin_fallos Pool (Estadisticas 2025 6) []) with
  | Some m1, Some m2 =>
      fin_principal m1 = true ∧ fin_principal m2 = true
      ∧ estadisticas (datos m1) = estadisticas (datos m2)
  | _, _ => False
  end.
Proof.
  assert (Hf1 : match ejecutar_plan (ejecutar sin_fallos)
                        (plan_de sin_fallos
                           (inicial sin_fallos Secuencial (Estadisticas 3 1) []))
                        (inicial sin_fallos Secuencial (Estadisticas 3 1) []) with
                | Some m => fin_principal m
                | None => false
                end = true) by (vm_compute; reflexivity).
  assert (Hf2 : match ejecutar_plan (ejecutar sin_fallos)
                        (plan_de sin_fallos
                           (inicial sin_fallos Pool (Estadisticas 2025 6) []))
                        (inicial sin_fallos Pool (Estadisticas 2025 6) []) with
                | Some m => fin_principal m
                | None => false
                end = true) by (vm_compute; reflexivity).
  destruct (ejecutar_plan (ejecutar sin_fallos)
              (plan_de sin_fallos (inicial sin_fallos Secuencial (Estadisticas 3 1) []))
              (inicial sin_fallos Secuencial (Estadisticas 3 1) [])) as [m1|] eqn:Hp1;
    [|discriminate Hf1].
  destruct (ejecutar_plan (ejecutar sin_fallos)
              (plan_de sin_fallos (inicial sin_fallos Pool (Estadisticas 2025 6) []))
              (inicial sin_fallos Pool (Estadisticas 2025 6) [])) as [m2|] eqn:Hp2;
    [|discriminate Hf2].
  split; [exact Hf1|]. split; [exact Hf2|].
  exact (proj1 (modos_equivalentes Secuencial Pool _ _ _ _ _ _ m1 m2 Hp1 Hf1 Hp2 Hf2)).
Defined.

(** C9.  In the race, for every input and every schedule, when main has
    returned (all runner threads joined): [llegadas] is a permutation of
    CORREDORES, every runner stands in it once, and the positions that
    the runners computed and printed in the critical section are
    1, 2, ..., 5 in the order of arrival, each once. *)
Theorem carrera_completa entrada ds m :
  ejecutar_plan Corredores.ejecutar ds (Corredores.programa entrada) = Some m →
  codigo_salida m = Some 0 →
  Corredores.llegadas (datos m) ≡ₚ Corredores.CORREDORES
  ∧ NoDup (Corredores.llegadas (datos m))
  ∧ Corredores.puestos (Corredores.consola (datos m))
    = Corredores.esperados (Corredores.llegadas (datos m))
  ∧ map snd (Corredores.puestos (Corredores.consola (datos m)))
    = seq 1 (length Corredores.CORREDORES).
Proof.
  intros Hp Hs. destruct entrada as [|s ss].
  - destruct (Generico.sin_entrada_salida m); [|done].
    eapply Generico.sin_entrada_plan; [|done]. apply Corredores.corredores_sin_entrada.
  - destruct (Generico.salida_cero m Hs) as [Hfin _].
    pose proof (Corredores.corredores_llegadas ds s ss m Hp Hfin) as Hperm.
    pose proof (Corredores.corredores_puestos (s :: ss) ds m Hp Hs) as Hpu.
    split_and!; [done| |done|].
    + rewrite Hperm. apply Corredores.corredores_distintos.
    + rewrite Hpu, Corredores.esperados_snd. by rewrite Hperm.
Qed.

Lemma carrera_completa_witness :
  match ejecutar_plan Corredores.ejecutar
          (planificar Corredores.ejecutar (ultimo_listo Corredores.ejecutar 6 1) 500
             (Corredores.programa [EmptyString]))
          (Corredores.programa [EmptyString]) with
  | Some m =>
      codigo_salida m = Some 0
      ∧ map snd (Corredores.puestos (Corredores.consola (datos m))) = [1; 2; 3; 4; 5]
  | None => False
  end.
Proof.
  assert (Hs : match ejecutar_plan Corredores.ejecutar
                       (planificar Corredores.ejecutar
                          (ultimo_listo Corredores.ejecutar 6 1) 500
                          (Corredores.programa [EmptyString]))
                       (Corredores.programa [EmptyString]) with
               | Some m => codigo_salida m
               | None => None
               end = Some 0) by (vm_compute; reflexivity).
  destruct (ejecutar_plan Corredores.ejecutar
              (planificar Corredores.ejecutar (ultimo_listo Corredores.ejecutar 6 1) 500
                 (Corredores.programa [EmptyString]))
              (Corredores.programa [EmptyString])) as [m|] eqn:Hp; [|discriminate Hs].
  split; [exact Hs|].
  exact (proj2 (proj2 (proj2 (carrera_completa _ _ m Hp Hs)))).
Defined.

(** C4.  In the hospital, for every input and every schedule: a step
    never closes the gate; a step that opens it is the call of [set()] by
    the director; a run opens it at most once, and exactly once when main
    returns; and while the gate is closed [registro] is empty and every
    doctor is before or at its [wait()]. *)
Theorem puerta_del_hospital entrada ds m :
  ejecutar_plan Hospital.ejecutar ds (Hospital.programa entrada) = Some m →
  (∀ t c m', paso Hospital.ejecutar t c m = Some m' →
     (Hospital.apertura_hospital (datos m) = true →
      Hospital.apertura_hospital (datos m') = true)
     ∧ (Hospital.abre m m' = true →
        t = Hospital.t_director
        ∧ ∃ h r, hilos m !! t = Some h ∧ codigo h = Dato Hospital.EventSet :: r))
  ∧ Hospital.aperturas ds (Hospital.programa entrada) ≤ 1
  ∧ (codigo_salida m = Some 0 →
     Hospital.aperturas ds (Hospital.programa entrada) = 1)
  ∧ (Hospital.apertura_hospital (datos m) = false →
     Hospital.registro (datos m) = []
     ∧ ∀ t h, Hospital.es_medico t = true → hilos m !! t = Some h →
         Hospital.antes (codigo h) = true ∨ is_Some (error h)).
Proof.
  intros Hp.
  pose proof (Hospital.hospital_aperturas_cota ds _ m Hp) as Hcota.
  change (Hospital.pendientes (Hospital.programa entrada)) with 1 in Hcota.
  split_and!.
  - intros t c m' Hpaso. split; [by eapply Hospital.hospital_abierto_paso|].
    intros Habre.
    destruct (Hospital.hospital_abre_paso t c m m' Hpaso) as [_ Hset].
    destruct (Hset Habre) as (h & r & Hh & Hc). split; [|eauto].
    destruct (decide (t = Hospital.t_director)) as [|Hne]; [done|].
    pose proof (Hospital.solo_director_plan entrada ds m Hp t h Hh Hne) as Hz.
    by rewrite Hc in Hz.
  - lia.
  - intros Hs. assert (1 ≤ Hospital.aperturas ds (Hospital.programa entrada)); [|lia].
    destruct entrada as [|s ss].
    + destruct (Generico.sin_entrada_salida m); [|done].
      eapply Generico.sin_entrada_plan; [|done]. apply Hospital.hospital_sin_entrada.
    + destruct (Generico.salida_cero m Hs) as [Hfin _].
      eapply Hospital.hospital_aperturas_alguna; [done|done|].
      by eapply Hospital.hospital_abierto_final.
  - intros Hcer. destruct (Hospital.puerta_plan entrada ds m Hp) as [Hreg Hth].
    split; [auto|]. intros t h Hmed Hh. specialize (Hth t h Hh).
    rewrite Hmed in Hth. auto.
Qed.

Lemma puerta_del_hospital_witness :
  match ejecutar_plan Hospital.ejecutar
          (planificar Hospital.ejecutar (primero_listo Hospital.ejecutar 6 1) 500
             (Hospital.programa [EmptyString]))
          (Hospital.programa [EmptyString]) with
  | Some m =>
      codigo_salida m = Some 0
      ∧ Hospital.aperturas
          (planificar Hospital.ejecutar (primero_listo Hospital.ejecutar 6 1) 500
             (Hospital.programa [EmptyString]))
          (Hospital.programa [EmptyString]) = 1
  | None => False
  end.
Proof.
  assert (Hs : match ejecutar_plan Hospital.ejecutar
                       (planificar Hospital.ejecutar
                          (primero_listo Hospital.ejecutar 6 1) 500
                          (Hospital.programa [EmptyString]))
                       (Hospital.programa [EmptyString]) with
               | Some m => codigo_salida m
               | None => None
               end = Some 0) by (vm_compute; reflexivity).
  destruct (ejecutar_plan Hospital.ejecutar
              (planificar Hospital.ejecutar (primero_listo Hospital.ejecutar 6 1) 500
                 (Hospital.programa [EmptyString]))
              (Hospital.programa [EmptyString])) as [m|] eqn:Hp; [|discriminate Hs].
  split; [exact Hs|].
  exact (proj1 (proj2 (proj2 (puerta_del_hospital _ _ m Hp))) Hs).
Defined.

(** C8.  In each of the six programs, for every input and every
    schedule, a line of the final report is printed by the main thread,
    and when it is printed every thread (or process, or coroutine) that
    was started is over: the main thread has joined it. *)
Theorem informe_tras_los_join entrada :
  Generico.informa_tras_unir Corredores.ejecutar Corredores.informe
    (Corredores.programa entrada)
  ∧ Generico.informa_tras_unir Hospital.ejecutar Hospital.informe
      (Hospital.programa entrada)
  ∧ Generico.informa_tras_unir (ejecutar sin_fallos) SimuladorPrograma.informe
      (programa sin_fallos entrada)
  ∧ Generico.informa_tras_unir Demos.ejecutar Demos.informe (Demos.calculo entrada)
  ∧ Generico.informa_tras_unir Demos.ejecutar Demos.informe (Demos.api entrada)
  ∧ Generico.informa_tras_unir Demos.ejecutar Demos.informe (Demos.descargas entrada).
Proof.
  split_and!.
  - apply (@Generico.informa_tras_unir_de _ _ Corredores.ejecutar
             Corredores.reglas_corredores Corredores.informe Corredores.corredores_extra_informe).
    + apply Corredores.corredores_estable.
    + apply Corredores.corredores_informes.
  - apply (@Generico.informa_tras_unir_de _ _ Hospital.ejecutar
             Hospital.reglas_hospital Hospital.informe Hospital.hospital_extra_informe).
    + apply Hospital.hospital_estable.
    + apply Hospital.hospital_informes.
  - apply (@Generico.informa_tras_unir_de _ _ (ejecutar sin_fallos)
             (sim_reglas sin_fallos) SimuladorPrograma.informe SimuladorPrograma.programa_extra_informe).
    + apply bien_formado_estable. by vm_compute.
    + apply SimuladorPrograma.programa_informes.
  - apply (@Generico.informa_tras_unir_de _ _ Demos.ejecutar
             Demos.reglas_demos Demos.informe Demos.demos_extra_informe).
    + apply Demos.calculo_sano.
    + by apply Demos.demos_informes.
  - apply (@Generico.informa_tras_unir_de _ _ Demos.ejecutar
             Demos.reglas_demos Demos.informe Demos.demos_extra_informe).
    + apply Demos.api_sano.
    + by apply Demos.demos_informes.
  - apply (@Generico.informa_tras_unir_de _ _ Demos.ejecutar
             Demos.reglas_demos Demos.informe Demos.demos_extra_informe).
    + apply Demos.descargas_sano.
    + by apply Demos.demos_informes.
Qed.

(** A run of the race up to the title of the final report. *)
Definition plan_hasta_informe : list decision :=
  take 145 (planificar Corredores.ejecutar (ultimo_listo Corredores.ejecutar 6 1) 500
              (Corredores.programa [EmptyString])).

Definition va_a_informar (m : mundo Corredores.accion Corredores.estado) : bool :=
  match hilos m !! 0 with
  | Some h =>
      match codigo h with
      | Dato a :: _ => Corredores.informe a
      | _ => false
      end
  | None => false
  end.

Lemma informe_tras_los_join_witness :
  match ejecutar_plan Corredores.ejecutar plan_hasta_informe
          (Corredores.programa [EmptyString]) with
  | Some m =>
      va_a_informar m = true
      ∧ match hilos m !! 3 with
        | Some hu => iniciado hu = true ∧ terminado hu = true
        | None => False
        end
  | None => False
  end.
Proof.
  assert (Hf : match ejecutar_plan Corredores.ejecutar plan_hasta_informe
                       (Corredores.programa [EmptyString]) with
               | Some m =>
                   va_a_informar m
                   && match hilos m !! 3 with
                      | Some hu => iniciado hu
                      | None => false
                      end
               | None => false
               end = true) by (vm_compute; reflexivity).
  destruct (ejecutar_plan Corredores.ejecutar plan_hasta_informe
              (Corredores.programa [EmptyString])) as [m|] eqn:Hp; [|discriminate Hf].
  apply andb_true_iff in Hf as [Hva Hi]. split; [exact Hva|].
  unfold va_a_informar in Hva.
  destruct (hilos m !! 0) as [h|] eqn:Hh; [|discriminate Hva].
  destruct (codigo h) as [|[a| | | | | | |] r] eqn:Hc; try discriminate Hva.
  destruct (hilos m !! 3) as [hu|] eqn:Hu; [|discriminate Hi].
  split; [exact Hi|].
  assert (Hne : 3 ≠ 0) by discriminate.
  exact (proj2 (proj1 (informe_tras_los_join [EmptyString]) _ m 0 h a r Hp Hh Hc Hva)
           3 hu Hne Hu Hi).
Defined.



From stdpp Require Import pretty.

(** ** What the final report reads *)

Module Informe.
Import Maquina Pasos Reglas Teoria Cantidades Generico SimuladorReglas.

Section Fases.
Context {A D : Type}.
Variable ejecutar : A → tid → nat → D → option (D * list (instr A)).
Context `{R : !reglas ejecutar}.

(** [marca]: the action of the main thread that reads the shared data for
    the report.  [previa]: the actions that run before it, in any thread.
    [posterior]: the actions of the main thread after it.  [P0] holds of
    the data before the report, [Q] from the report on. *)
Variables (marca previa posterior : A → bool) (P0 Q : D → Prop).

Hypothesis extra_previa : ∀ a t c d d' x,
  ejecutar a t c d = Some (d', x) → solo previa x = true.

Hypothesis previa_no_marca : ∀ a, previa a = true → marca a = false.

Hypothesis ley_previa : ∀ a t c d d' x,
  ejecutar a t c d = Some (d', x) → previa a = true → P0 d → P0 d'.

Hypothesis ley_marca : ∀ a c d d' x,
  ejecutar a 0 c d = Some (d', x) → marca a = true → P0 d → Q d' ∧ x = [].

Hypothesis ley_posterior : ∀ a c d d' x,
  ejecutar a 0 c d = Some (d', x) → posterior a = true → Q d → Q d' ∧ x = [].

(** The code of the main thread: when the report reads the data, no
    thread is left to start or to join. *)
Fixpoint forma_marca (c : list (instr A)) : bool :=
  match c with
  | [] => true
  | Dato a :: r =>
      (if marca a then es_obrero r && solo posterior r else previa a)
      && forma_marca r
  | _ :: r => forma_marca r
  end.

Definition fase (m : mundo A D) : Prop :=
  ∃ h0, hilos m !! 0 = Some h0
    ∧ (∀ u hu, u ≠ 0 → hilos m !! u = Some hu → solo previa (codigo hu) = true)
    ∧ (is_Some (error h0)
       ∨ (P0 (datos m) ∧ forma_marca (codigo h0) = true
          ∧ tiene marca (codigo h0) = true)
       ∨ (Q (datos m) ∧ solo posterior (codigo h0) = true
          ∧ es_obrero (codigo h0) = true
          ∧ ∀ u hu, u ≠ 0 → hilos m !! u = Some hu → codigo hu = [])).

Lemma solo_cabeza (p : A → bool) (i : instr A) r :
  solo p (i :: r) = true →
  (∀ a, i = Dato a → p a = true) ∧ solo p r = true.
Proof.
  unfold solo. simpl. intros [Hi Hr]%andb_true_iff. split; [|done].
  by intros a ->.
Qed.

Lemma solo_previa_sin_marca (x : list (instr A)) :
  solo previa x = true → tiene marca x = false.
Proof.
  induction x as [|i x IH]; [done|]. intros [Hi Hx]%andb_true_iff.
  specialize (IH Hx). destruct i; simpl; try done.
  by rewrite (previa_no_marca _ Hi).
Qed.

Lemma forma_marca_app (x r : list (instr A)) :
  solo previa x = true → forma_marca r = true → forma_marca (x ++ r) = true.
Proof.
  intros Hx Hr. induction x as [|i x IH]; [done|].
  apply andb_true_iff in Hx as [Hi Hx]. specialize (IH Hx).
  destruct i; simpl; try done. by rewrite (previa_no_marca _ Hi), Hi, IH.
Qed.

Lemma forma_marca_cola i (r : list (instr A)) :
  forma_marca (i :: r) = true → forma_marca r = true.
Proof. destruct i; simpl; try done. by intros [_ ?]%andb_true_iff. Qed.

Lemma es_obrero_sin_hilos (c : list (instr A)) v :
  es_obrero c = true → arranca_a v c = false ∧ espera_a v c = false.
Proof.
  unfold arranca_a, espera_a, es_obrero.
  induction c as [|i c IH]; [done|]. simpl.
  intros [Hi Hc]%andb_true_iff. destruct (IH Hc) as [-> ->]. by destruct i.
Qed.

(** When the main thread has no thread left to start or to join, the
    other threads are over. *)
Lemma sin_joins_fin (m : mundo A D) h0 :
  horquilla m → hilos m !! 0 = Some h0 → error h0 = None →
  es_obrero (codigo h0) = true →
  ∀ u hu, u ≠ 0 → hilos m !! u = Some hu → codigo hu = [].
Proof.
  intros (h0' & H0' & Hi0 & Ho & Hw) H0 He Hob u hu Hne Hu.
  assert (h0' = h0) as -> by congruence.
  destruct (Hw u hu Hu Hne) as (_ & _ & Hb & Hc').
  destruct (es_obrero_sin_hilos _ u Hob) as [Ha Hj]. rewrite Ha, He in Hb. rewrite Hj, He in Hc'.
  destruct (iniciado hu) eqn:Hi.
  - destruct (Hc' eq_refl) as [?|[Ht|[? ?]]]; try done.
    unfold terminado in Ht. rewrite Hi in Ht. simpl in Ht. by destruct (codigo hu).
  - destruct (Hb eq_refl) as [?|[? ?]]; done.
Qed.

Lemma fase_paso t c (m m' : mundo A D) :
  estable ejecutar m → fase m → paso ejecutar t c m = Some m' → fase m'.
Proof.
  intros (Hd & Hq & Hm) (h0 & H0 & Hw & Hf) Hp.
  apply paso_resumen in Hp
    as (h & i & r & h' & Hh & Hi & Hc & Hh' & Hlen & Hrest & Hcasos).
  (* the code of the workers *)
  assert (Hw' : ∀ h1, (t = 0 → hilos m' !! 0 = Some h1) →
            ∀ u hu, u ≠ 0 → hilos m' !! u = Some hu → solo previa (codigo hu) = true).
  { intros h1 _ u hu Hne Hu. destruct (decide (u = t)) as [->|Hut].
    - assert (hu = h') as -> by congruence.
      pose proof (Hw t h Hne Hh) as Hs. rewrite Hc in Hs.
      apply solo_cabeza in Hs as [Hsi Hsr].
      destruct Hcasos as [(a & x & -> & He & ->)|(_ & _ & [[-> _]|[e ->]])];
        cbn [codigo sigue falla_con].
      + rewrite solo_app, Hsr. by rewrite (extra_previa _ _ _ _ _ _ He).
      + done.
      + done.
    - destruct (Hrest u hu Hut Hu) as (hu0 & Hu0 & -> & _). by apply (Hw u). }
  destruct (decide (t = 0)) as [->|Hne].
  - (* the main thread *)
    assert (h = h0) as -> by congruence.
    assert (He0 : error h0 = None).
    { destruct (error h0) eqn:He; [|done].
      rewrite (Hm 0 h0 H0) in Hc by (by rewrite He). done. }
    exists h'. split; [done|]. split; [by apply (Hw' h')|].
    destruct Hf as [[e He]|[(HP & Hfm & Htm)|(HQ & Hsp & Hob & Hfin)]]; [congruence| |].
    + rewrite Hc in Hfm, Htm.
      destruct Hcasos as [(a & x & -> & He & ->)|(Hnd & Hdat & [[-> Hnr]|[e ->]])].
      * cbn [forma_marca] in Hfm. apply andb_true_iff in Hfm as [Ha Hfr].
        destruct (marca a) eqn:Hma.
        -- apply andb_true_iff in Ha as [Hor Hpr].
           destruct (ley_marca _ _ _ _ _ He Hma HP) as [HQ' ->].
           right. right. cbn [codigo sigue app]. split_and!; try done.
           intros u hu Hu Hl. destruct (Hrest u hu Hu Hl) as (hu0 & Hl0 & -> & _).
           assert (Hob0 : es_obrero (codigo h0) = true) by (by rewrite Hc).
           exact (sin_joins_fin m h0 Hq H0 He0 Hob0 u hu0 Hu Hl0).
        -- right. left. cbn [codigo sigue]. split_and!.
           ++ by eapply ley_previa.
           ++ apply forma_marca_app; [by eapply extra_previa|done].
           ++ rewrite tiene_app by (by eapply extra_sin_raise).
              simpl in Htm. rewrite Hma in Htm. simpl in Htm. rewrite Htm.
              apply orb_true_r.
      * right. left. rewrite Hdat. cbn [codigo sigue]. split_and!; [done| |].
        -- by eapply forma_marca_cola.
        -- destruct i; try done. by destruct (Hnd a).
      * left. by eexists.
    + rewrite Hc in Hsp, Hob. apply solo_cabeza in Hsp as [Hsi Hsr].
      assert (Hor : es_obrero r = true).
      { unfold es_obrero in *. simpl in Hob. by apply andb_true_iff in Hob as [_ ?]. }
      assert (Hfin' : ∀ u hu, u ≠ 0 → hilos m' !! u = Some hu → codigo hu = []).
      { intros u hu Hu Hl. destruct (Hrest u hu Hu Hl) as (hu0 & Hl0 & -> & _).
        by apply (Hfin u). }
      destruct Hcasos as [(a & x & -> & He & ->)|(Hnd & Hdat & [[-> Hnr]|[e ->]])].
      * destruct (ley_posterior _ _ _ _ _ He (Hsi a eq_refl) HQ) as [HQ' ->].
        right. right. by split_and!.
      * right. right. rewrite Hdat. by split_and!.
      * left. by eexists.
  - (* a worker *)
    destruct (lookup_lt_is_Some_2 (hilos m') 0) as [h0' H0'];
      [rewrite Hlen; by eapply lookup_lt_Some|].
    destruct (Hrest 0 h0' (not_eq_sym Hne) H0') as (h0'' & H0'' & Hc0 & He0 & _).
    assert (h0'' = h0) as -> by congruence.
    exists h0'. split; [done|]. split; [by apply (Hw' h0')|].
    rewrite Hc0, He0.
    destruct Hf as [?|[(HP & Hfm & Htm)|(HQ & Hsp & Hob & Hfin)]]; [by left| |].
    + right. left. split_and!; [|done|done].
      pose proof (Hw t h Hne Hh) as Hs. rewrite Hc in Hs.
      apply solo_cabeza in Hs as [Hsi _].
      destruct Hcasos as [(a & x & -> & He & ->)|(_ & -> & _)]; [|done].
      eapply ley_previa; [done| |done]. by apply Hsi.
    + rewrite (Hfin t h Hne Hh) in Hc. done.
Qed.

Lemma fase_plan ds (m0 m : mundo A D) :
  estable ejecutar m0 → fase m0 → ejecutar_plan ejecutar ds m0 = Some m → fase m.
Proof.
  intros He Hf Hp.
  assert (H : estable ejecutar m ∧ fase m); [|by destruct H].
  revert Hp. apply (plan_inv ejecutar (λ m, estable ejecutar m ∧ fase m)); [|done].
  intros t c m1 m2 [He1 Hf1] Hp. split; [by eapply estable_paso|by eapply fase_paso].
Qed.

(** When the main thread has returned, the data are as the report read
    them. *)
Lemma fase_final ds (m0 m : mundo A D) :
  estable ejecutar m0 → fase m0 → ejecutar_plan ejecutar ds m0 = Some m →
  codigo_salida m = Some 0 → Q (datos m).
Proof.
  intros He Hf Hp Hs.
  destruct (fase_plan ds m0 m He Hf Hp) as (h0 & H0 & _ & Hor).
  destruct (salida_cero m Hs) as [_ (h0' & H0' & Hc & Herr)].
  assert (h0' = h0) as -> by congruence.
  destruct Hor as [[e He']|[(_ & _ & Ht)|(HQ & _)]]; [congruence| |done].
  by rewrite Hc in Ht.
Qed.

(** The first state: the report is still to come. *)
Lemma fase_inicial (m0 : mundo A D) h0 hs :
  hilos m0 = h0 :: hs → P0 (datos m0) →
  forma_marca (codigo h0) = true → tiene marca (codigo h0) = true →
  (∀ h, h ∈ hs → solo previa (codigo h) = true) →
  fase m0.
Proof.
  intros Hh HP Hf Ht Hw. exists h0. rewrite Hh. split; [done|]. split.
  - intros [|u] hu Hu Hl; [done|]. simpl in Hl. apply Hw.
    by eapply list_elem_of_lookup_2.
  - right. left. done.
Qed.

End Fases.
End Informe.
(** ** The order of what one task emits *)

Module Orden.
Import Maquina Pasos Reglas Teoria Cantidades Generico SimuladorReglas.

Lemma suma_salvo {X} (g : X → nat) (l l' : list X) t x y :
  length l' = length l → l !! t = Some x → l' !! t = Some y →
  (∀ u z', u ≠ t → l' !! u = Some z' → ∃ z, l !! u = Some z ∧ g z' = g z) →
  sum_list_with g l' + g x = sum_list_with g l + g y.
Proof.
  revert l' t. induction l as [|z l IH]; intros [|z' l'] t Hlen Hx Hy Hr;
    simpl in *; try done.
  destruct t as [|t]; simpl in *.
  - injection Hx as ->. injection Hy as ->.
    assert (Heq : sum_list_with g l' = sum_list_with g l); [|lia].
    clear IH. revert l' Hlen Hr. induction l as [|w l IH]; intros [|w' l'] Hlen Hr;
      simpl in *; try done.
    destruct (Hr 1 w' ltac:(done) eq_refl) as (w0 & [= <-] & ->).
    rewrite (IH l'); [done|lia|].
    intros [|u] z' Hu Hl; [done|]. apply (Hr (S (S u)) z'); [done|exact Hl].
  - destruct (Hr 0 z' ltac:(done) eq_refl) as (z0 & [= <-] & ->).
    assert (sum_list_with g l' + g x = sum_list_with g l + g y); [|lia].
    apply (IH l' t); [lia|done|done|].
    intros u w' Hu Hl. apply (Hr (S u) w'); [lia|exact Hl].
Qed.

Section Orden.
Context {A D L : Type}.
Variable ejecutar : A → tid → nat → D → option (D * list (instr A)).
Context `{R : !reglas ejecutar}.

(** Under the invariants a thread that dies has run a [raise]. *)
Lemma muerte_es_raise t c (m m' : mundo A D) h i r e :
  seguro ejecutar m → paso ejecutar t c m = Some m' →
  hilos m !! t = Some h → codigo h = i :: r →
  hilos m' !! t = Some (falla_con h e) → i = Raise e.
Proof.
  intros Hseg Hp Hh Hc Hh'. pose proof Hseg as [(_ & _ & Hm) _].
  apply paso_transicion in Hp as (h1 & i1 & r1 & Hh1 & Hi & Hc1 & Ht).
  assert (h1 = h) as -> by congruence.
  assert (i1 = i ∧ r1 = r) as [-> ->] by (split; congruence).
  assert (Hlen : t < length (hilos m)) by by eapply lookup_lt_Some.
  assert (Hvivo : ∀ x, Some (sigue h x) = Some (falla_con h e) → False).
  { intros x [= _ He]. rewrite (Hm t h Hh) in Hc; [done|]. by rewrite He. }
  destruct Ht as [a d x He| |l Hfree|l v Hheld|u hu Hu Hiu|u hu Hu Hiu
                  |s ss Hs'|i e' Hx]; simpl in Hh';
    try (rewrite list_lookup_insert_eq in Hh' by done; by destruct (Hvivo _ Hh')).
  - rewrite list_lookup_insert_eq in Hh' by (by rewrite length_insert).
    by destruct (Hvivo _ Hh').
  - rewrite list_lookup_insert_eq in Hh' by done. injection Hh' as ->.
    by eapply (excepcion_raise ejecutar t m h).
Qed.

(** [sal]: the sequence that is observed, a part of the data that only
    grows.  [emite a]: what the action [a] appends to it.  [cred a]: the
    action hands the task over to a queue of the data, which holds
    [cred_d] tasks not yet taken.  [E]: what the code of the task emits,
    when a thread takes it from the queue. *)
Variables (sal : D → list L) (emite : A → list L).
Variables (cred : A → nat) (cred_d : D → nat).
Variable E : list L.

(** What the code emits, up to its first [raise]. *)
Fixpoint pend (c : list (instr A)) : list L :=
  match c with
  | [] => []
  | Raise _ :: _ => []
  | Dato a :: r => emite a ++ pend r
  | _ :: r => pend r
  end.

Fixpoint cred_codigo (c : list (instr A)) : nat :=
  match c with
  | [] => 0
  | Raise _ :: _ => 0
  | Dato a :: r => cred a + cred_codigo r
  | _ :: r => cred_codigo r
  end.

Lemma pend_app x r : sin_raise x = true → pend (x ++ r) = pend x ++ pend r.
Proof.
  induction x as [|i x IH]; [done|]. simpl. intros [Hi Hx]%andb_true_iff.
  destruct i; simpl in *; try done; auto. by rewrite IH, app_assoc.
Qed.

Lemma cred_codigo_app x r :
  sin_raise x = true → cred_codigo (x ++ r) = cred_codigo x + cred_codigo r.
Proof.
  induction x as [|i x IH]; [done|]. simpl. intros [Hi Hx]%andb_true_iff.
  destruct i; simpl in *; try done; auto. rewrite IH by done. lia.
Qed.

Lemma pend_solo c :
  solo (λ a, if emite a is [] then true else false) c = true → pend c = [].
Proof.
  induction c as [|i c IH]; [done|]. intros [Hi Hc]%andb_true_iff.
  destruct i as [a| | | | | | |]; simpl; auto.
  rewrite IH by done. by destruct (emite a).
Qed.

Lemma cred_codigo_solo c :
  solo (λ a, bool_decide (cred a = 0)) c = true → cred_codigo c = 0.
Proof.
  induction c as [|i c IH]; [done|]. intros [Hi Hc]%andb_true_iff.
  destruct i as [a| | | | | | |]; simpl; auto.
  apply bool_decide_eq_true in Hi. rewrite IH by done. lia.
Qed.

(** The tasks handed over and not yet taken. *)
Definition creditos (m : mundo A D) : nat :=
  sum_list_with (λ h, cred_codigo (codigo h)) (hilos m) + cred_d (datos m).

(** What the task has emitted stands at the end of [sal], in the order of
    its code: either no thread has taken the task yet, or one thread runs
    it and has the rest of [E0] to emit. *)
Definition en_orden (S0 E0 : list L) (m : mundo A D) : Prop :=
  ∃ pre, sal (datos m) = S0 ++ pre ∧
    ((pre = [] ∧ E0 = E ∧ creditos m = 1
      ∧ ∀ u hu, hilos m !! u = Some hu → pend (codigo hu) = [])
     ∨ (creditos m = 0
        ∧ ∃ t h, hilos m !! t = Some h ∧ pre ++ pend (codigo h) = E0
                 ∧ ∀ u hu, u ≠ t → hilos m !! u = Some hu → pend (codigo hu) = [])).

Hypothesis ley : ∀ a t c d d' x, ejecutar a t c d = Some (d', x) →
  sal d' = sal d ++ emite a ∧ cred_codigo x = 0
  ∧ ((pend x = [] ∧ cred_d d' = cred_d d + cred a)
     ∨ (emite a = [] ∧ cred a = 0 ∧ cred_d d = S (cred_d d') ∧ pend x = E)).

Lemma en_orden_paso S0 E0 t c (m m' : mundo A D) :
  seguro ejecutar m → en_orden S0 E0 m → paso ejecutar t c m = Some m' →
  en_orden S0 E0 m'.
Proof.
  intros Hseg (pre & Hsal & Hfase) Hp. pose proof Hp as Hp'.
  apply paso_resumen in Hp'
    as (h & i & r & h' & Hh & Hi & Hc & Hh' & Hlen & Hrest & Hcasos).
  assert (Hsum : sum_list_with (λ h, cred_codigo (codigo h)) (hilos m')
                 + cred_codigo (codigo h)
                 = sum_list_with (λ h, cred_codigo (codigo h)) (hilos m)
                   + cred_codigo (codigo h')).
  { apply (suma_salvo (λ h, cred_codigo (codigo h)) (hilos m) (hilos m') t h h');
      try done.
    intros u z' Hu Hl. destruct (Hrest u z' Hu Hl) as (z & Hz & Hcz & _).
    exists z. by rewrite Hcz. }
  assert (Hotros : ∀ u hu', u ≠ t → hilos m' !! u = Some hu' →
            ∃ hu, hilos m !! u = Some hu ∧ codigo hu' = codigo hu).
  { intros u hu' Hu Hl. destruct (Hrest u hu' Hu Hl) as (hu & ? & ? & _). eauto. }
  assert (Hvuelta : ∀ u hu, u ≠ t → hilos m !! u = Some hu →
            ∃ hu', hilos m' !! u = Some hu' ∧ codigo hu' = codigo hu).
  { intros u hu Hu Hl.
    destruct (lookup_lt_is_Some_2 (hilos m') u) as [hu' Hl'].
    { rewrite Hlen. by eapply lookup_lt_Some. }
    destruct (Hotros u hu' Hu Hl') as (hu0 & Hl0 & Hc0).
    exists hu'. split; [done|]. congruence. }
  (* the step seen from the code of [t]: what it emits, the credit it moves *)
  assert (Hpaso : ∃ out,
    sal (datos m') = sal (datos m) ++ out
    ∧ ((out ++ pend (codigo h') = pend (codigo h)
        ∧ cred_codigo (codigo h') + cred_d (datos m')
          = cred_codigo (codigo h) + cred_d (datos m))
       ∨ (out = [] ∧ pend (codigo h) = pend r
          ∧ pend (codigo h') = E ++ pend r
          ∧ cred_codigo (codigo h') = cred_codigo (codigo h)
          ∧ cred_d (datos m) = S (cred_d (datos m'))))).
  { rewrite Hc.
    destruct Hcasos as [(a & x & -> & He & ->)|(Hnd & Hdat & [[-> Hnr]|[e ->]])].
    - destruct (ley _ _ _ _ _ _ He) as (Hs & Hcx & Hb).
      pose proof (extra_sin_raise _ _ _ _ _ _ He) as Hsr.
      exists (emite a). split; [done|]. cbn [codigo sigue pend cred_codigo].
      rewrite pend_app, cred_codigo_app, Hcx by done.
      destruct Hb as [[Hpx Hcd]|(Hem & Hcr & Hcd & Hpx)].
      + left. rewrite Hpx. simpl. split; [done|lia].
      + right. rewrite Hem, Hcr, Hpx. done.
    - exists []. rewrite app_nil_r, Hdat. split; [done|]. left.
      cbn [codigo sigue]. destruct i; try done; [by destruct (Hnd a)|by destruct (Hnr e)].
    - exists []. rewrite app_nil_r, Hdat. split; [done|]. left.
      pose proof (muerte_es_raise t c m m' h i r e Hseg Hp Hh Hc Hh') as ->.
      done. }
  destruct Hpaso as (out & Hs' & Hb). unfold en_orden, creditos in *.
  destruct Hfase as [(-> & HE & Hcr & Hnada)|(Hcr & t0 & h0 & H0 & Hpre & Hnada)].
  - (* not yet taken *)
    pose proof (Hnada t h Hh) as Hph.
    destruct Hb as [[Ho Hcd]|(-> & Hpr & Hph' & Hch & Hcd)].
    + rewrite Hph in Ho. apply app_eq_nil in Ho as [-> Hph'].
      exists []. split; [by rewrite Hs', Hsal, !app_nil_r|]. left.
      split_and!; [done|done|lia|].
      intros u hu' Hl. destruct (decide (u = t)) as [->|Hu]; [congruence|].
      destruct (Hotros u hu' Hu Hl) as (hu & Hl0 & ->). eauto.
    + exists []. split; [by rewrite Hs', Hsal, !app_nil_r|]. right.
      split; [lia|]. exists t, h'. split; [done|]. split.
      * rewrite Hph', <- Hpr, Hph, app_nil_r. done.
      * intros u hu' Hu Hl. destruct (Hotros u hu' Hu Hl) as (hu & Hl0 & ->). eauto.
  - (* taken by [t0] *)
    destruct Hb as [[Ho Hcd]|(-> & Hpr & Hph' & Hch & Hcd)]; [|lia].
    destruct (decide (t = t0)) as [->|Hne].
    + assert (h0 = h) as -> by congruence.
      exists (pre ++ out). split; [by rewrite Hs', Hsal, app_assoc|]. right.
      split; [lia|]. exists t0, h'. split; [done|]. split.
      * by rewrite <- app_assoc, Ho.
      * intros u hu' Hu Hl. destruct (Hotros u hu' Hu Hl) as (hu & Hl0 & ->). eauto.
    + pose proof (Hnada t h Hne Hh) as Hph. rewrite Hph in Ho.
      apply app_eq_nil in Ho as [-> Hph'].
      destruct (Hvuelta t0 h0 ltac:(done) H0) as (h0' & H0' & Hc0).
      exists pre. split; [by rewrite Hs', Hsal, app_nil_r|]. right.
      split; [lia|]. exists t0, h0'. split; [done|]. split; [by rewrite Hc0|].
      intros u hu' Hu Hl. destruct (decide (u = t)) as [->|Hut]; [congruence|].
      destruct (Hotros u hu' Hut Hl) as (hu & Hl0 & ->). eauto.
Qed.

Lemma en_orden_plan S0 E0 ds (m0 m : mundo A D) :
  seguro ejecutar m0 → en_orden S0 E0 m0 →
  ejecutar_plan ejecutar ds m0 = Some m → en_orden S0 E0 m.
Proof.
  intros Hseg Hinv Hp.
  assert (H : seguro ejecutar m ∧ en_orden S0 E0 m); [|by destruct H].
  revert Hp. apply (plan_inv ejecutar (λ m, seguro ejecutar m ∧ en_orden S0 E0 m)).
  - intros t c m1 m2 [H1 H2] Hp. split; [by eapply seguro_paso|].
    by eapply en_orden_paso.
  - done.
Qed.

(** At every moment the task has emitted a prefix of what it emits. *)
Lemma en_orden_prefijo S0 E0 (m : mundo A D) :
  en_orden S0 E0 m → ∃ pre suf, sal (datos m) = S0 ++ pre ∧ pre ++ suf = E0.
Proof.
  intros (pre & Hsal & [(-> & _)|(_ & t & h & _ & Hpre & _)]).
  - by exists [], E0.
  - by exists pre, (pend (codigo h)).
Qed.

(** When every thread is over and the queue is empty, it has emitted
    all. *)
Lemma en_orden_final S0 E0 (m : mundo A D) :
  en_orden S0 E0 m → (∀ t h, hilos m !! t = Some h → codigo h = []) →
  cred_d (datos m) = 0 → sal (datos m) = S0 ++ E0.
Proof.
  intros (pre & Hsal & [(-> & _ & Hcr & _)|(_ & t & h & Hh & Hpre & _)]) Hfin Hq.
  - unfold creditos in Hcr. rewrite Hq in Hcr.
    assert (sum_list_with (λ h, cred_codigo (codigo h)) (hilos m) = 0); [|lia].
    clear Hcr. induction (hilos m) as [|h l IH]; [done|]. simpl.
    rewrite (Hfin 0 h eq_refl). simpl. apply IH.
    intros t h' Hl. by apply (Hfin (S t) h').
  - rewrite (Hfin t h Hh) in Hpre. simpl in Hpre. rewrite app_nil_r in Hpre.
    by rewrite Hsal, Hpre.
Qed.

End Orden.

(** *** Programs without a queue: a task stays with its thread *)

Section Fila.
Context {A D L : Type}.
Variable ejecutar : A → tid → nat → D → option (D * list (instr A)).
Context `{R : !reglas ejecutar}.
Variables (sal : D → list L) (emite : A → list L).

Definition en_fila (S0 E0 : list L) (m : mundo A D) : Prop :=
  en_orden sal emite (λ _, 0) (λ _, 0) [] S0 E0 m.

Hypothesis ley : ∀ a t c d d' x, ejecutar a t c d = Some (d', x) →
  x = [] ∧ sal d' = sal d ++ emite a.

Lemma cred_codigo_nulo (c : list (instr A)) : cred_codigo (λ _ : A, 0) c = 0.
Proof. induction c as [|i c IH]; [done|]. by destruct i. Qed.

Lemma en_fila_inicial S0 E0 (m0 : mundo A D) t h :
  sal (datos m0) = S0 → hilos m0 !! t = Some h → pend emite (codigo h) = E0 →
  (∀ u hu, u ≠ t → hilos m0 !! u = Some hu → pend emite (codigo hu) = []) →
  en_fila S0 E0 m0.
Proof.
  intros Hs Hh Hp Ho. exists []. split; [by rewrite app_nil_r|]. right. split.
  - unfold creditos. rewrite Nat.add_0_r. clear.
    induction (hilos m0) as [|h' l IH]; [done|]. simpl.
    by rewrite cred_codigo_nulo.
  - by exists t, h.
Qed.

Lemma en_fila_plan S0 E0 ds (m0 m : mundo A D) :
  seguro ejecutar m0 → en_fila S0 E0 m0 →
  ejecutar_plan ejecutar ds m0 = Some m → en_fila S0 E0 m.
Proof.
  intros Hseg Hinv Hp.
  eapply (en_orden_plan ejecutar sal emite (λ _, 0) (λ _, 0) []); try done.
  intros a t c d d' x He. destruct (ley _ _ _ _ _ _ He) as [-> Hs].
  split_and!; [done|done|by left].
Qed.

Lemma en_fila_prefijo S0 E0 (m : mundo A D) :
  en_fila S0 E0 m → ∃ pre suf, sal (datos m) = S0 ++ pre ∧ pre ++ suf = E0.
Proof. apply en_orden_prefijo. Qed.

Lemma en_fila_final S0 E0 (m : mundo A D) :
  en_fila S0 E0 m → (∀ t h, hilos m !! t = Some h → codigo h = []) →
  sal (datos m) = S0 ++ E0.
Proof. intros Hinv Hv. by apply (en_orden_final _ _ _ _ _ _ _ m Hinv Hv). Qed.

End Fila.

End Orden.
(** ** The race: the final table *)

Module CorredoresTabla.
Import Maquina Pasos Reglas Teoria Cantidades Generico SimuladorReglas.
Import Corredores Informe.

(** medalla = {1: "🥇", 2: "🥈", 3: "🥉"}.get(i, f"  {i}.") *)
Definition medallas : gmap nat string := {[ 1 := "🥇"; 2 := "🥈"; 3 := "🥉" ]}.

Definition medalla (i : nat) : string :=
  default ("  " +:+ pretty i +:+ ".") (medallas !! i).

(** print(f"  {medalla}  {nombre}") *)
Definition texto_puesto (i : nat) (nombre : string) : string :=
  "  " +:+ medalla i +:+ "  " +:+ nombre.

(** The rows of the final table on the console, in order. *)
Definition filas (con : list linea) : list (nat * string) :=
  flat_map (λ l, match l with LPuesto i n => [(i, n)] | _ => [] end) con.

(** enumerate(llegadas, 1) *)
Definition enumerados (l : list string) : list (nat * string) :=
  imap (λ i n, (S i, n)) l.

Definition es_resultados (a : accion) : bool :=
  match a with Resultados => true | _ => false end.

Definition antes_tabla (a : accion) : bool :=
  match a with Resultados | Print (LPuesto _ _) => false | _ => true end.

Definition tras_tabla (a : accion) : bool :=
  match a with Print (LTexto _) | Print LRegla => true | _ => false end.

Lemma filas_app c1 c2 : filas (c1 ++ c2) = filas c1 ++ filas c2.
Proof. unfold filas. apply flat_map_app. Qed.

Lemma filas_podio l : filas (podio l) = enumerados l.
Proof.
  unfold podio, enumerados.
  assert (H : ∀ (f : nat → string → linea) (g : nat → nat),
            (∀ i n, f i n = LPuesto (g i) n) →
            filas (imap f l) = imap (λ i n, (g i, n)) l).
  { induction l as [|x l IH]; intros f g Hf; [done|]. simpl.
    rewrite Hf. simpl. f_equal. apply (IH (f ∘ S) (g ∘ S)).
    intros i n. apply Hf. }
  by apply (H _ S).
Qed.

Lemma enumerados_snd l : map snd (enumerados l) = l.
Proof.
  unfold enumerados. generalize S. induction l as [|x l IH]; intros f; [done|].
  simpl. f_equal. apply IH.
Qed.

Lemma enumerados_fst l : map fst (enumerados l) = seq 1 (length l).
Proof.
  unfold enumerados.
  assert (H : ∀ f : nat → nat, map fst (imap (λ i (n : string), (f i, n)) l)
                               = map f (seq 0 (length l))).
  { induction l as [|x l IH]; intros f; [done|]. simpl. f_equal.
    rewrite <- seq_shift, map_map. apply (IH (f ∘ S)). }
  rewrite (H S). apply seq_shift.
Qed.

Lemma tabla_fase entrada :
  fase es_resultados antes_tabla tras_tabla
    (λ d, filas (consola d) = [])
    (λ d, filas (consola d) = enumerados (llegadas d))
    (programa entrada).
Proof.
  eapply fase_inicial; [reflexivity|done|by vm_compute|by vm_compute|].
  intros h Hin. apply list_elem_of_In in Hin. simpl in Hin.
  repeat (destruct Hin as [<-|Hin]; [by vm_compute|]). done.
Qed.

(** When main has returned, the rows of the final table are the arrival
    list, numbered from 1. *)
Lemma tabla_final entrada ds m :
  ejecutar_plan ejecutar ds (programa entrada) = Some m →
  codigo_salida m = Some 0 →
  filas (consola (datos m)) = enumerados (llegadas (datos m)).
Proof.
  intros Hp Hs.
  apply (fase_final ejecutar es_resultados antes_tabla tras_tabla
           (λ d, filas (consola d) = [])
           (λ d, filas (consola d) = enumerados (llegadas d)))
    with (ds := ds) (m0 := programa entrada); try done.
  - intros a t c d d' x ->%corredores_sin_extra. done.
  - by intros [[]| | | |].
  - intros a t c d d' x He Ha Hd.
    destruct a as [l| | | |]; injection He as <- _; simpl in *; try done.
    + rewrite filas_app, Hd. by destruct l.
    + by rewrite filas_app, Hd.
  - intros a c d d' x He Ha Hd. destruct a; try done. injection He as <- <-.
    simpl. by rewrite filas_app, Hd, filas_podio.
  - intros a c d d' x He Ha Hd.
    destruct a as [l| | | |]; try done. injection He as <- <-. simpl.
    rewrite filas_app, Hd. destruct l; try done; simpl; by rewrite app_nil_r.
  - apply corredores_estable.
  - apply tabla_fase.
Qed.

(** A position without a medal gets its number. *)
Lemma medalla_sin (i : nat) : i = 0 ∨ 4 ≤ i → medalla i = "  " +:+ pretty i +:+ ".".
Proof.
  intros Hi. unfold medalla, medallas.
  rewrite !lookup_insert_ne by lia. by rewrite lookup_singleton_ne by lia.
Qed.

Lemma medalla_inj i j : medalla i = medalla j → i = j.
Proof.
  assert (Hm : ∀ k, k = 1 ∨ k = 2 ∨ k = 3 ∨ (k = 0 ∨ 4 ≤ k)) by lia.
  assert (Hn : ∀ k s, (k = 0 ∨ 4 ≤ k) → medalla k = s →
            ∃ r, s = "  " +:+ r).
  { intros k s Hk <-. rewrite medalla_sin by done. eauto. }
  intros H.
  destruct (Hm i) as [->|[->|[->|Hi]]]; destruct (Hm j) as [->|[->|[->|Hj]]];
    try done;
    try (destruct (Hn _ _ Hj eq_refl) as [r Hr]; rewrite <- H in Hr; by vm_compute in Hr);
    try (destruct (Hn _ _ Hi eq_refl) as [r Hr]; rewrite H in Hr; by vm_compute in Hr);
    try (by vm_compute in H).
  rewrite !medalla_sin in H by done.
  apply (inj (String.app "  ")) in H.
  assert (Hp : pretty i = pretty j).
  { revert H. generalize (pretty i) (pretty j). intros s1.
    induction s1 as [|a s1 IH]; intros [|b s2]; simpl; try done.
    - intros [= <- H]. by destruct s2.
    - intros [= -> H]. by destruct s1.
    - intros [= -> H]. f_equal. by apply IH. }
  by apply (inj pretty).
Qed.

End CorredoresTabla.
(** ** The race: what one runner does, in order *)

Module CorredoresOrden.
Import Maquina Pasos Reglas Teoria Cantidades Generico Orden.
Import Corredores.

(** What a line of the console tells about a runner; the rank that the
    arrival line shows is left out. *)
Inductive evento : Type :=
| EvPaso (paso : nat)
| EvLlego.

Definition evento_de (n : string) (l : linea) : list evento :=
  match l with
  | LPaso n' k => if bool_decide (n' = n) then [EvPaso k] else []
  | LLlego n' _ => if bool_decide (n' = n) then [EvLlego] else []
  | _ => []
  end.

Definition eventos (n : string) (con : list linea) : list evento :=
  flat_map (evento_de n) con.

(** The lines of correr, in the order of its code. *)
Definition trayecto : list evento := map EvPaso (seq 1 DISTANCIA) ++ [EvLlego].

Definition muestra (n : string) (a : accion) : list evento :=
  match a with
  | Print l => evento_de n l
  | PrintLlego n' => if bool_decide (n' = n) then [EvLlego] else []
  | _ => []
  end.

(** The entries of [llegadas] of the runner [n]. *)
Definition del_corredor (n : string) (l : list string) : list string :=
  List.filter (λ x, bool_decide (x = n)) l.

Definition anota (n : string) (a : accion) : list string :=
  match a with
  | Anexar n' => if bool_decide (n' = n) then [n'] else []
  | _ => []
  end.

Lemma corredor_eventos_app n c1 c2 : eventos n (c1 ++ c2) = eventos n c1 ++ eventos n c2.
Proof. apply flat_map_app. Qed.

Lemma eventos_podio n l : eventos n (podio l) = [].
Proof.
  unfold podio.
  assert (H : ∀ f : nat → string → linea,
            (∀ i x, evento_de n (f i x) = []) → eventos n (imap f l) = []).
  { induction l as [|x l IH]; intros f Hf; [done|]. simpl.
    rewrite Hf. simpl. apply IH. intros i y. apply Hf. }
  by apply H.
Qed.

Section Corredor.
Variable n : string.

Lemma corredor_muestra_ley a t c d d' x :
  ejecutar a t c d = Some (d', x) →
  x = [] ∧ eventos n (consola d') = eventos n (consola d) ++ muestra n a.
Proof.
  intros He. split; [by eapply corredores_sin_extra|].
  destruct a; injection He as <- _; simpl; rewrite ?corredor_eventos_app; simpl;
    rewrite ?eventos_podio, ?app_nil_r; done.
Qed.

Lemma corredor_anota_ley a t c d d' x :
  ejecutar a t c d = Some (d', x) →
  x = [] ∧ del_corredor n (llegadas d') = del_corredor n (llegadas d) ++ anota n a.
Proof.
  intros He. split; [by eapply corredores_sin_extra|].
  destruct a as [l| |quien|quien|]; injection He as <- _; simpl;
    rewrite ?app_nil_r; try done.
  unfold del_corredor. rewrite List.filter_app. simpl.
  by destruct (bool_decide (quien = n)).
Qed.

Definition consola_ordenada (E0 : list evento) (m : mundo accion estado) : Prop :=
  en_fila (eventos n ∘ consola) (muestra n) [] E0 m.

Definition llegada_unica (E0 : list string) (m : mundo accion estado) : Prop :=
  en_fila (del_corredor n ∘ llegadas) (anota n) [] E0 m.

End Corredor.

Local Ltac lo_lleva t :=
  eapply (en_fila_inicial _ _ _ _ _ t); [reflexivity|reflexivity|by vm_compute|];
  intros [|[|[|[|[|[|u]]]]]] hu Hu Hl; try done; simpl in Hl;
  injection Hl as <-; by vm_compute.

Lemma corredor_ordenado_inicial k n entrada :
  CORREDORES !! k = Some n →
  consola_ordenada n trayecto (programa entrada)
  ∧ llegada_unica n [n] (programa entrada).
Proof.
  intros Hk.
  assert (Hcasos : k < 5) by (by apply lookup_lt_Some in Hk).
  destruct k as [|[|[|[|[|k]]]]]; try lia; injection Hk as <-.
  all: split.
  - lo_lleva 1.
  - lo_lleva 1.
  - lo_lleva 2.
  - lo_lleva 2.
  - lo_lleva 3.
  - lo_lleva 3.
  - lo_lleva 4.
  - lo_lleva 4.
  - lo_lleva 5.
  - lo_lleva 5.
Qed.

Lemma corredor_ordenado_plan k n s ss ds (m : mundo accion estado) :
  CORREDORES !! k = Some n →
  ejecutar_plan ejecutar ds (programa (s :: ss)) = Some m →
  consola_ordenada n trayecto m ∧ llegada_unica n [n] m.
Proof.
  intros Hk Hp.
  destruct (corredor_ordenado_inicial k n (s :: ss) Hk) as [Hc Hl].
  pose proof (estable_sano_seguro _ _ (corredores_sano s ss)) as Hseg.
  split.
  - eapply (en_fila_plan ejecutar (eventos n ∘ consola) (muestra n)); try done.
    intros a t c d d' x. apply corredor_muestra_ley.
  - eapply (en_fila_plan ejecutar (del_corredor n ∘ llegadas) (anota n)); try done.
    intros a t c d d' x. apply corredor_anota_ley.
Qed.

End CorredoresOrden.
(** ** The hospital: the register, the running total, the summary *)

Module HospitalRegistro.
Import Maquina Pasos Reglas Teoria Cantidades Generico.
Import SimuladorReglas SimuladorInv SimuladorRes SimuladorFinal.
Import Hospital Informe.

(** Every attention of the shift: each doctor, the patients 1 to 3. *)
Definition atenciones : list (string * nat) :=
  flat_map (λ med, map (λ i, (nombre med, i)) (seq 1 PACIENTES_POR_MEDICO)) MEDICOS.

Local Open Scope Z_scope.

Section Registro.
Variable g : string * nat → Z.

Definition va_reg (a : accion) : Z :=
  match a with Anexar n i => g (n, i) | _ => 0 end.
Definition vd_reg (d : estado) : Z := suma_de g (registro d).

Lemma hospital_ley a t c d d' x :
  ejecutar a t c d = Some (d', x) →
  vd_reg d' + valor_codigo va_reg x = vd_reg d + va_reg a.
Proof.
  intros H. unfold vd_reg.
  destruct a; simpl in H; try (injection H as <- <-; simpl; lia).
  - destruct (apertura_hospital d); [|done]. injection H as <- <-. simpl. lia.
  - injection H as <- <-. simpl. rewrite suma_de_app. lia.
Qed.

Lemma hospital_valor_inicial entrada :
  valor va_reg vd_reg (programa entrada) = suma_de g atenciones.
Proof. cbv -[Z.add]. lia. Qed.

Lemma hospital_valor ds s ss m :
  ejecutar_plan ejecutar ds (programa (s :: ss)) = Some m →
  valor va_reg vd_reg m = suma_de g atenciones.
Proof.
  intros Hp. rewrite <- (hospital_valor_inicial (s :: ss)).
  revert Hp.
  apply (plan_inv ejecutar
           (λ m, seguro ejecutar m
                 ∧ valor va_reg vd_reg m
                   = valor va_reg vd_reg (programa (s :: ss)))).
  - intros t c m1 m2 [Hseg Hv] Hp. split; [by eapply seguro_paso|].
    rewrite <- Hv. apply (valor_conservado ejecutar va_reg vd_reg t c m1 m2 Hseg Hp).
    intros h a r d' x _ _ _ He. by eapply hospital_ley.
  - split; [|done]. apply estable_sano_seguro, hospital_sano.
Qed.

End Registro.

Local Close Scope Z_scope.

(** When main has returned, every attention is in the register once. *)
Lemma hospital_registro ds s ss m :
  ejecutar_plan ejecutar ds (programa (s :: ss)) = Some m →
  fin_principal m = true →
  registro (datos m) ≡ₚ atenciones.
Proof.
  intros Hp Hfin.
  pose proof (estable_sano_plan _ _ _ _ (hospital_sano s ss) Hp) as [(Hd & Hq & Hm) Hs].
  destruct Hs as (h0 & H0 & He & _).
  assert (Hc : codigo h0 = []).
  { unfold fin_principal in Hfin. rewrite H0 in Hfin.
    apply andb_true_iff in Hfin as [_ Hv]. by destruct (codigo h0). }
  pose proof (fin_quieto m h0 Hq H0 Hc He) as Hv.
  apply suma_de_permutacion. intros g.
  pose proof (hospital_valor g ds s ss m Hp) as Hval.
  unfold valor in Hval. rewrite valor_hilos_vacio in Hval by done.
  unfold vd_reg in Hval. lia.
Qed.

(** *** The summary *)

(** The totals and the states of the event that the console shows. *)
Definition totales (con : list linea) : list nat :=
  flat_map (λ l, match l with LTotal n => [n] | _ => [] end) con.

Definition estados (con : list linea) : list bool :=
  flat_map (λ l, match l with LEstado b => [b] | _ => [] end) con.

Lemma totales_app c1 c2 : totales (c1 ++ c2) = totales c1 ++ totales c2.
Proof. unfold totales. apply flat_map_app. Qed.

Lemma estados_app c1 c2 : estados (c1 ++ c2) = estados c1 ++ estados c2.
Proof. unfold estados. apply flat_map_app. Qed.

Definition es_total (a : accion) : bool :=
  match a with PrintTotal => true | _ => false end.

Definition antes_total (a : accion) : bool :=
  match a with PrintTotal | Print (LTotal _) => false | _ => true end.

Definition tras_total (a : accion) : bool :=
  match a with Print (LTexto _) | Print LRegla | PrintEstado => true | _ => false end.

Definition es_estado (a : accion) : bool :=
  match a with PrintEstado => true | _ => false end.

Definition antes_estado (a : accion) : bool :=
  match a with PrintEstado | Print (LEstado _) => false | _ => true end.

Definition tras_estado (a : accion) : bool :=
  match a with Print (LTexto _) | Print LRegla => true | _ => false end.

Lemma programa_obreros entrada (p : codigo_t → bool) :
  forallb (λ h, p (codigo h))
    (map (λ med, Hilo false (atender_pacientes med) None) MEDICOS
     ++ [Hilo false director None]) = true →
  ∀ h, h ∈ tail (hilos (programa entrada)) → p (codigo h) = true.
Proof.
  intros HF h Hin. rewrite forallb_forall in HF. apply HF.
  by apply list_elem_of_In.
Qed.

(** When main has returned, the total that the summary shows is the
    length of the register. *)
Lemma total_final entrada ds m :
  ejecutar_plan ejecutar ds (programa entrada) = Some m →
  codigo_salida m = Some 0 →
  totales (consola (datos m)) = [length (registro (datos m))].
Proof.
  intros Hp Hs.
  apply (fase_final ejecutar es_total antes_total tras_total
           (λ d, totales (consola d) = [])
           (λ d, totales (consola d) = [length (registro d)]))
    with (ds := ds) (m0 := programa entrada); try done.
  - intros a t c d d' x ->%hospital_sin_extra. done.
  - by intros [[]| | | | | |].
  - intros a t c d d' x He Ha Hd.
    destruct a as [l| | | | | |]; simpl in He; try (injection He as <- _); simpl;
      try done; try (by rewrite totales_app, Hd).
    + rewrite totales_app, Hd. by destruct l.
    + destruct (apertura_hospital d); [|done]. by injection He as <- _.
  - intros a c d d' x He Ha Hd. destruct a; try done. injection He as <- <-.
    simpl. by rewrite totales_app, Hd.
  - intros a c d d' x He Ha Hd.
    destruct a as [l| | | | | |]; try done; injection He as <- <-; simpl.
    + rewrite totales_app, Hd. destruct l; try done; simpl; by rewrite app_nil_r.
    + by rewrite totales_app, Hd.
  - apply hospital_estable.
  - eapply fase_inicial; [reflexivity|done|by vm_compute|by vm_compute|].
    apply (programa_obreros entrada (solo antes_total)). by vm_compute.
Qed.

(** When main has returned, the summary shows the state of the event
    once, as it is. *)
Lemma estado_final entrada ds m :
  ejecutar_plan ejecutar ds (programa entrada) = Some m →
  codigo_salida m = Some 0 →
  estados (consola (datos m)) = [apertura_hospital (datos m)].
Proof.
  intros Hp Hs.
  apply (fase_final ejecutar es_estado antes_estado tras_estado
           (λ d, estados (consola d) = [])
           (λ d, estados (consola d) = [apertura_hospital d]))
    with (ds := ds) (m0 := programa entrada); try done.
  - intros a t c d d' x ->%hospital_sin_extra. done.
  - by intros [[]| | | | | |].
  - intros a t c d d' x He Ha Hd.
    destruct a as [l| | | | | |]; simpl in He; try (injection He as <- _); simpl;
      try done; try (by rewrite estados_app, Hd).
    + rewrite estados_app, Hd. by destruct l.
    + destruct (apertura_hospital d); [|done]. by injection He as <- _.
  - intros a c d d' x He Ha Hd. destruct a; try done. injection He as <- <-.
    simpl. by rewrite estados_app, Hd.
  - intros a c d d' x He Ha Hd.
    destruct a as [l| | | | | |]; try done; injection He as <- <-; simpl.
    rewrite estados_app, Hd. destruct l; try done; simpl; by rewrite app_nil_r.
  - apply hospital_estable.
  - eapply fase_inicial; [reflexivity|done|by vm_compute|by vm_compute|].
    apply (programa_obreros entrada (solo antes_estado)). by vm_compute.
Qed.

(** *** The running total *)

(** The attentions that the console shows, with the total printed with
    each, in order. *)
Definition atendidos (con : list linea) : list (string * nat * nat) :=
  flat_map (λ l, match l with LAtendio n i k => [(n, i, k)] | _ => [] end) con.

(** The attentions of a register, each with its rank. *)
Definition numeradas (reg : list (string * nat)) : list (string * nat * nat) :=
  imap (λ j p, (p.1, p.2, S j)) reg.

Lemma atendidos_app c1 c2 : atendidos (c1 ++ c2) = atendidos c1 ++ atendidos c2.
Proof. unfold atendidos. apply flat_map_app. Qed.

Lemma numeradas_app l n i :
  numeradas (l ++ [(n, i)]) = numeradas l ++ [(n, i, length l + 1)].
Proof.
  unfold numeradas. rewrite imap_app. simpl. by rewrite Nat.add_0_r, Nat.add_1_r.
Qed.

(** The two statements of the critical section follow one another, and
    no other statement prints an attention. *)
Fixpoint duo (c : codigo_t) : bool :=
  match c with
  | [] => true
  | i :: r =>
      match i with
      | Dato (Anexar n k) =>
          if r is Dato (PrintAtendio n' k') :: _
          then bool_decide (n' = n ∧ k' = k) else false
      | Dato (Print (LAtendio _ _ _)) => false
      | _ => true
      end
      && match r with
         | Dato (PrintAtendio n k) :: _ =>
             if i is Dato (Anexar n' k') then bool_decide (n' = n ∧ k' = k) else false
         | _ => true
         end
      && duo r
  end.

Definition en_seccion (c : codigo_t) : bool :=
  match c with
  | Dato (Anexar _ _) :: _ | Dato (PrintAtendio _ _) :: _ => true
  | _ => false
  end.

Definition en_print (c : codigo_t) : bool :=
  match c with Dato (PrintAtendio _ _) :: _ => true | _ => false end.

Definition contador (m : mundo accion estado) : Prop :=
  (∀ t h, hilos m !! t = Some h → duo (codigo h) = true)
  ∧ (∀ t h n i r, hilos m !! t = Some h → codigo h = Dato (PrintAtendio n i) :: r →
       ∃ l, registro (datos m) = l ++ [(n, i)]
            ∧ atendidos (consola (datos m)) = numeradas l)
  ∧ ((∀ t h, hilos m !! t = Some h → en_print (codigo h) = false) →
     atendidos (consola (datos m)) = numeradas (registro (datos m))).

Lemma duo_cola i r : duo (i :: r) = true → duo r = true.
Proof. simpl. by intros [_ ?]%andb_true_iff. Qed.

Lemma duo_previo i r :
  duo (i :: r) = true → en_print r = true →
  ∃ n k r', i = Dato (Anexar n k) ∧ r = Dato (PrintAtendio n k) :: r'.
Proof.
  simpl. intros [[_ H]%andb_true_iff _]%andb_true_iff Hr.
  destruct r as [|[[| | | |n k| |]| | | | | | |] r']; try done.
  destruct i as [[| | |n' k'| | |]| | | | | | |]; try done.
  apply bool_decide_eq_true in H as [-> ->]. eauto.
Qed.

Lemma duo_siguiente n k r :
  duo (Dato (Anexar n k) :: r) = true → ∃ r', r = Dato (PrintAtendio n k) :: r'.
Proof.
  simpl. intros [[H _]%andb_true_iff _]%andb_true_iff.
  destruct r as [|[[| | | |n' k'| |]| | | | | | |] r']; try done.
  apply bool_decide_eq_true in H as [-> ->]. eauto.
Qed.

Lemma duo_limpio l r : duo (Dato (Print l) :: r) = true → atendidos [l] = [].
Proof.
  simpl. intros [[H _]%andb_true_iff _]%andb_true_iff. by destruct l.
Qed.

Lemma en_seccion_con_cerrojo (m : mundo accion estado) t h :
  disciplina ejecutar m → hilos m !! t = Some h → en_seccion (codigo h) = true →
  cerrojos m !! lock = Some t.
Proof.
  intros Hd Hh Hs. destruct (codigo h) as [|[[]| | | | | | |] r] eqn:Hc; try done;
    by eapply (cabeza_protegida ejecutar m t h).
Qed.

Lemma en_print_seccion c : en_print c = true → en_seccion c = true.
Proof. by destruct c as [|[[]| | | | | | |] ?]. Qed.

(** What a data action outside the critical section leaves. *)
Lemma fuera_de_seccion a t c d d' x r :
  ejecutar a t c d = Some (d', x) → en_seccion (Dato a :: r) = false →
  duo (Dato a :: r) = true →
  registro d' = registro d ∧ atendidos (consola d') = atendidos (consola d).
Proof.
  intros He Hs Hduo.
  destruct a as [l| | | | | |]; simpl in He; try done;
    try (injection He as <- _; simpl; split; [done|];
         rewrite ?atendidos_app; simpl; by rewrite ?app_nil_r).
  - injection He as <- _. simpl. split; [done|].
    rewrite atendidos_app, (duo_limpio _ _ Hduo). apply app_nil_r.
  - destruct (apertura_hospital d); [|done]. by injection He as <- _.
Qed.

Lemma contador_paso t c m m' :
  disciplina ejecutar m → contador m → paso ejecutar t c m = Some m' → contador m'.
Proof.
  intros Hd (Hduo & Hpr & Hcon) Hp.
  apply paso_resumen in Hp
    as (h & i & r & h' & Hh & Hi & Hc & Hh' & Hlen & Hrest & Hcasos).
  pose proof (Hduo t h Hh) as Hdt. rewrite Hc in Hdt.
  pose proof (duo_cola _ _ Hdt) as Hdr.
  (* the other threads keep their code *)
  assert (Hotros : ∀ u hu', u ≠ t → hilos m' !! u = Some hu' →
            ∃ hu, hilos m !! u = Some hu ∧ codigo hu' = codigo hu).
  { intros u hu' Hne Hl. destruct (Hrest u hu' Hne Hl) as (hu & ? & ? & _). eauto. }
  (* no other thread is in the critical section with [t] *)
  assert (Hsolo : en_seccion (i :: r) = true →
            ∀ u hu', u ≠ t → hilos m' !! u = Some hu' → en_seccion (codigo hu') = false).
  { intros Hst u hu' Hne Hl. destruct (Hotros u hu' Hne Hl) as (hu & Hl0 & ->).
    destruct (en_seccion (codigo hu)) eqn:Hs; [|done].
    pose proof (en_seccion_con_cerrojo m u hu Hd Hl0 Hs).
    rewrite <- Hc in Hst. pose proof (en_seccion_con_cerrojo m t h Hd Hh Hst).
    congruence. }
  (* the code of [t] after the step *)
  assert (Hcod : codigo h' = r ∨ codigo h' = []).
  { destruct Hcasos as [(a & x & -> & He & ->)|(_ & _ & [[-> _]|[e ->]])].
    - pose proof (hospital_sin_extra _ _ _ _ _ _ He) as ->. by left.
    - by left.
    - by right. }
  assert (Hduo' : ∀ u hu, hilos m' !! u = Some hu → duo (codigo hu) = true).
  { intros u hu Hl. destruct (decide (u = t)) as [->|Hne].
    - assert (hu = h') as -> by congruence. by destruct Hcod as [->| ->].
    - destruct (Hotros u hu Hne Hl) as (hu0 & Hl0 & ->). by apply (Hduo u). }
  (* the step leaves the register and the attentions shown *)
  assert (Hfuera : en_seccion (i :: r) = false →
            registro (datos m') = registro (datos m)
            ∧ atendidos (consola (datos m')) = atendidos (consola (datos m))).
  { intros Hs.
    destruct Hcasos as [(a & x & -> & He & ->)|(_ & -> & _)]; [|done].
    by eapply fuera_de_seccion. }
  unfold contador. destruct (en_seccion (i :: r)) eqn:Hsec.
  - (* a statement of the critical section *)
    specialize (Hsolo eq_refl).
    destruct i as [[| | |n k|n k| |]| | | | | | |]; try done.
    + (* the append *)
      destruct (duo_siguiente _ _ _ Hdt) as [r' ->].
      destruct Hcasos as [(a & x & [= <-] & He & ->)|(Hnd & _)];
        [|by destruct (Hnd (Anexar n k))].
      simpl in He. injection He as Hdat <-. rewrite <- Hdat. simpl in *.
      assert (Hprev : atendidos (consola (datos m)) = numeradas (registro (datos m))).
      { apply Hcon. intros u hu Hl. destruct (decide (u = t)) as [->|Hne].
        - assert (hu = h) as -> by congruence. by rewrite Hc.
        - destruct (lookup_lt_is_Some_2 (hilos m') u) as [hu' Hl'];
            [rewrite Hlen; by eapply lookup_lt_Some|].
          destruct (Hotros u hu' Hne Hl') as (hu0 & Hl0 & Hcu).
          assert (hu0 = hu) as -> by congruence.
          pose proof (Hsolo u hu' Hne Hl') as Hs. rewrite Hcu in Hs.
          destruct (en_print (codigo hu)) eqn:Hep; [|done].
          by rewrite (en_print_seccion _ Hep) in Hs. }
      split_and!; [done| |].
      * intros u hu n' i' r'' Hl Hcu. destruct (decide (u = t)) as [->|Hne].
        -- assert (hu = sigue h (Dato (PrintAtendio n k) :: r')) as -> by congruence.
           injection Hcu as <- <- <-. simpl. eauto.
        -- pose proof (Hsolo u hu Hne Hl) as Hs. by rewrite Hcu in Hs.
      * intros Hno. specialize (Hno t _ Hh'). done.
    + (* the print *)
      destruct Hcasos as [(a & x & [= <-] & He & ->)|(Hnd & _)];
        [|by destruct (Hnd (PrintAtendio n k))].
      simpl in He. injection He as Hdat <-. rewrite <- Hdat. simpl.
      destruct (Hpr t h n k r Hh Hc) as (l & Hl & Hat).
      split_and!; [done| |].
      * intros u hu n' i' r'' Hlu Hcu. destruct (decide (u = t)) as [->|Hne].
        -- rewrite Hh' in Hlu. injection Hlu as <-. simpl in Hcu.
           destruct (duo_previo _ _ Hdt) as (? & ? & ? & ? & _); [by rewrite Hcu|done].
        -- pose proof (Hsolo u hu Hne Hlu) as Hs. by rewrite Hcu in Hs.
      * intros _. rewrite atendidos_app, Hat, Hl. simpl.
        rewrite numeradas_app, length_app. simpl. done.
  - (* another step *)
    destruct (Hfuera eq_refl) as [Hreg Hat]. rewrite Hreg, Hat.
    assert (Hnp : en_print (codigo h') = false).
    { destruct Hcod as [->| ->]; [|done].
      destruct (en_print r) eqn:Hep; [|done].
      destruct (duo_previo _ _ Hdt Hep) as (n & k & r' & -> & _). done. }
    split_and!; [done| |].
    + intros u hu n i' r' Hl Hcu. destruct (decide (u = t)) as [->|Hne].
      * assert (hu = h') as -> by congruence. by rewrite Hcu in Hnp.
      * destruct (Hotros u hu Hne Hl) as (hu0 & Hl0 & Hcu0). rewrite Hcu in Hcu0.
        by eapply Hpr.
    + intros Hno. apply Hcon. intros u hu Hl. destruct (decide (u = t)) as [->|Hne].
      * assert (hu = h) as -> by congruence. rewrite Hc.
        destruct (en_print (i :: r)) eqn:Hep; [|done].
        by rewrite (en_print_seccion _ Hep) in Hsec.
      * destruct (lookup_lt_is_Some_2 (hilos m') u) as [hu' Hl'];
          [rewrite Hlen; by eapply lookup_lt_Some|].
        destruct (Hotros u hu' Hne Hl') as (hu0 & Hl0 & Hcu).
        assert (hu0 = hu) as -> by congruence. rewrite <- Hcu. by eapply Hno.
Qed.

Lemma contador_inicial entrada : contador (programa entrada).
Proof.
  assert (HF : forallb (λ h, duo (codigo h) && negb (en_print (codigo h)))
                 (hilos (programa entrada)) = true) by (by vm_compute).
  rewrite forallb_forall in HF.
  assert (HF' : ∀ t h, hilos (programa entrada) !! t = Some h →
            duo (codigo h) = true ∧ en_print (codigo h) = false).
  { intros t h Hl. apply list_elem_of_lookup_2, list_elem_of_In, HF in Hl.
    apply andb_true_iff in Hl as [? ?%negb_true_iff]. done. }
  split_and!.
  - intros t h Hl. by apply (HF' t h).
  - intros t h n i r Hl Hc. destruct (HF' t h Hl) as [_ Hp]. by rewrite Hc in Hp.
  - done.
Qed.

Lemma contador_plan entrada ds m :
  ejecutar_plan ejecutar ds (programa entrada) = Some m → contador m.
Proof.
  intros Hp.
  assert (H : estable ejecutar m ∧ contador m); [|by destruct H].
  revert Hp. apply (plan_inv ejecutar (λ m, estable ejecutar m ∧ contador m)).
  - intros t c m1 m2 [He Hm] Hp. split; [by eapply estable_paso|].
    destruct He as (Hd & _). by eapply contador_paso.
  - split; [apply hospital_estable|apply contador_inicial].
Qed.

(** When main has returned, the total printed with each attention is its
    rank in the register. *)
Lemma hospital_atendidos entrada ds m :
  ejecutar_plan ejecutar ds (programa entrada) = Some m →
  codigo_salida m = Some 0 →
  atendidos (consola (datos m)) = numeradas (registro (datos m)).
Proof.
  intros Hp Hs. destruct (salida_cero m Hs) as [Hfin (h0 & H0 & Hc & He)].
  pose proof (estable_plan _ _ _ _ (hospital_estable entrada) Hp) as (Hd & Hq & Hm).
  pose proof (fin_quieto m h0 Hq H0 Hc He) as Hv.
  destruct (contador_plan entrada ds m Hp) as (_ & _ & Hcon). apply Hcon.
  intros t h Hh. by rewrite (Hv t h Hh).
Qed.

Lemma numeradas_totales l : map snd (numeradas l) = seq 1 (length l).
Proof.
  unfold numeradas.
  assert (H : ∀ f : nat → nat,
            map snd (imap (λ j (p : string * nat), (p.1, p.2, f j)) l)
            = map f (seq 0 (length l))).
  { induction l as [|x l IH]; intros f; [done|]. simpl. f_equal.
    rewrite <- seq_shift, map_map. apply (IH (f ∘ S)). }
  rewrite (H S). apply seq_shift.
Qed.

Lemma numeradas_atenciones l : map fst (numeradas l) = l.
Proof.
  unfold numeradas. generalize S. induction l as [|[n i] l IH]; intros f; [done|].
  simpl. f_equal. apply IH.
Qed.

End HospitalRegistro.
(** ** The hospital: what one doctor does, in order *)

Module HospitalOrden.
Import Maquina Pasos Reglas Teoria Cantidades Generico Orden.
Import Hospital.

(** The entries of [registro] of the doctor [n]. *)
Definition del_medico (n : string) (reg : list (string * nat)) : list (string * nat) :=
  List.filter (λ p, bool_decide (p.1 = n)) reg.

(** The entries that atender_pacientes appends, in the order of its
    loop. *)
Definition consultas (n : string) : list (string * nat) :=
  map (pair n) (seq 1 PACIENTES_POR_MEDICO).

Definition anota (n : string) (a : accion) : list (string * nat) :=
  match a with
  | Anexar n' i => if bool_decide (n' = n) then [(n', i)] else []
  | _ => []
  end.

(** What a line of the console tells about a doctor; the total that the
    line of a patient shows is left out. *)
Inductive evento : Type :=
| EvEspera
| EvSenal
| EvAtendio (i : nat)
| EvTurno.

Definition evento_de (n : string) (l : linea) : list evento :=
  match l with
  | LEsperando med => if bool_decide (nombre med = n) then [EvEspera] else []
  | LSenal n' => if bool_decide (n' = n) then [EvSenal] else []
  | LAtendio n' i _ => if bool_decide (n' = n) then [EvAtendio i] else []
  | LTurno n' => if bool_decide (n' = n) then [EvTurno] else []
  | _ => []
  end.

Definition eventos (n : string) (con : list linea) : list evento :=
  flat_map (evento_de n) con.

(** The lines of atender_pacientes, in the order of its code. *)
Definition jornada : list evento :=
  [EvEspera; EvSenal] ++ map EvAtendio (seq 1 PACIENTES_POR_MEDICO) ++ [EvTurno].

Definition muestra (n : string) (a : accion) : list evento :=
  match a with
  | Print l => evento_de n l
  | PrintAtendio n' i => if bool_decide (n' = n) then [EvAtendio i] else []
  | _ => []
  end.

Lemma del_medico_app n r1 r2 :
  del_medico n (r1 ++ r2) = del_medico n r1 ++ del_medico n r2.
Proof. apply List.filter_app. Qed.

Lemma medico_eventos_app n c1 c2 : eventos n (c1 ++ c2) = eventos n c1 ++ eventos n c2.
Proof. apply flat_map_app. Qed.

Section Medico.
Variable n : string.

Lemma medico_anota_ley a t c d d' x :
  ejecutar a t c d = Some (d', x) →
  x = [] ∧ del_medico n (registro d') = del_medico n (registro d) ++ anota n a.
Proof.
  intros He. split; [by eapply hospital_sin_extra|].
  destruct a as [l| | |quien i|quien i| |]; simpl in He;
    try (injection He as <- _; simpl; by rewrite app_nil_r).
  - destruct (apertura_hospital d); [|done]. injection He as <- _.
    simpl. by rewrite app_nil_r.
  - injection He as <- _. simpl. rewrite del_medico_app. simpl.
    by destruct (bool_decide (quien = n)).
Qed.

Lemma medico_muestra_ley a t c d d' x :
  ejecutar a t c d = Some (d', x) →
  x = [] ∧ eventos n (consola d') = eventos n (consola d) ++ muestra n a.
Proof.
  intros He. split; [by eapply hospital_sin_extra|].
  destruct a; simpl in He;
    try (injection He as <- _; simpl; rewrite ?medico_eventos_app; simpl;
         by rewrite ?app_nil_r).
  destruct (apertura_hospital d); [|done]. injection He as <- _.
  simpl. by rewrite app_nil_r.
Qed.

Definition registro_ordenado (E0 : list (string * nat)) (m : mundo accion estado) : Prop :=
  en_fila (del_medico n ∘ registro) (anota n) [] E0 m.

Definition consola_ordenada (E0 : list evento) (m : mundo accion estado) : Prop :=
  en_fila (eventos n ∘ consola) (muestra n) [] E0 m.

End Medico.

(** The thread [t] runs the code of the doctor, the others show nothing
    of it. *)
Local Ltac lo_lleva t :=
  eapply (en_fila_inicial _ _ _ _ _ t); [reflexivity|reflexivity|by vm_compute|];
  intros [|[|[|[|[|[|u]]]]]] hu Hu Hl; try done; simpl in Hl;
  injection Hl as <-; by vm_compute.

Lemma medico_ordenado_inicial k med entrada :
  MEDICOS !! k = Some med →
  registro_ordenado (nombre med) (consultas (nombre med)) (programa entrada)
  ∧ consola_ordenada (nombre med) jornada (programa entrada).
Proof.
  intros Hk.
  assert (Hcasos : k < 4) by (by apply lookup_lt_Some in Hk).
  destruct k as [|[|[|[|k]]]]; try lia; injection Hk as <-.
  all: split.
  - lo_lleva 1.
  - lo_lleva 1.
  - lo_lleva 2.
  - lo_lleva 2.
  - lo_lleva 3.
  - lo_lleva 3.
  - lo_lleva 4.
  - lo_lleva 4.
Qed.

Lemma medico_ordenado_plan k med s ss ds (m : mundo accion estado) :
  MEDICOS !! k = Some med →
  ejecutar_plan ejecutar ds (programa (s :: ss)) = Some m →
  registro_ordenado (nombre med) (consultas (nombre med)) m
  ∧ consola_ordenada (nombre med) jornada m.
Proof.
  intros Hk Hp.
  destruct (medico_ordenado_inicial k med (s :: ss) Hk) as [Hr Hc].
  pose proof (estable_sano_seguro _ _ (hospital_sano s ss)) as Hseg.
  split.
  - eapply (en_fila_plan ejecutar (del_medico (nombre med) ∘ registro)
              (anota (nombre med))); try done.
    intros a t c d d' x. apply medico_anota_ley.
  - eapply (en_fila_plan ejecutar (eventos (nombre med) ∘ consola)
              (muestra (nombre med))); try done.
    intros a t c d d' x. apply medico_muestra_ley.
Qed.

End HospitalOrden.
(** ** The hospital: the announcement comes first *)

Module HospitalAnuncio.
Import Maquina Pasos Reglas Teoria Cantidades Generico.
Import Hospital.

#[local] Instance hos_medico_eq_dec : EqDecision medico.
Proof. solve_decision. Defined.

#[local] Instance hos_linea_eq_dec : EqDecision linea.
Proof. solve_decision. Defined.

(** The line that the director prints before it sets the event. *)
Definition anuncio : linea :=
  LTexto "  🏢 Director: ¡HOSPITAL ABIERTO! Los médicos pueden atender.".

(** The lines that a doctor prints after its [wait()]. *)
Definition activa (l : linea) : bool :=
  match l with
  | LSenal _ | LAtendio _ _ _ | LTurno _ => true
  | _ => false
  end.

(** No line of a doctor at work stands before the announcement;
    [visto]: the announcement stands before the lines looked at. *)
Fixpoint en_regla (visto : bool) (con : list linea) : bool :=
  match con with
  | [] => true
  | l :: r =>
      if bool_decide (l = anuncio) then en_regla true r
      else (if activa l then visto else true) && en_regla visto r
  end.

Definition anunciado (con : list linea) : bool :=
  existsb (λ l, bool_decide (l = anuncio)) con.

Lemma en_regla_visto con : en_regla false con = true → en_regla true con = true.
Proof.
  induction con as [|l r IH]; [done|]. simpl.
  destruct (bool_decide (l = anuncio)); [done|].
  intros [H1 H2]%andb_true_iff. rewrite IH by done. by destruct (activa l).
Qed.

Lemma en_regla_app v con l :
  en_regla v (con ++ [l])
  = en_regla v con && (if activa l then v || anunciado con else true).
Proof.
  revert v. induction con as [|x r IH]; intros v; simpl.
  - destruct (bool_decide (l = anuncio)) eqn:Hl.
    + apply bool_decide_eq_true in Hl as ->. done.
    + rewrite orb_false_r, andb_true_r. done.
  - destruct (bool_decide (x = anuncio)); simpl.
    + rewrite IH. simpl. by rewrite orb_true_r.
    + rewrite IH, andb_assoc. done.
Qed.

Lemma anunciado_app con l :
  anunciado (con ++ [l]) = anunciado con || bool_decide (l = anuncio).
Proof. unfold anunciado. rewrite existsb_app. simpl. by rewrite orb_false_r. Qed.

(** What [en_regla] says: a line of a doctor at work has the announcement
    before it. *)
Lemma en_regla_antes v con c1 l c2 :
  en_regla v con = true → con = c1 ++ l :: c2 → activa l = true →
  v = true ∨ anuncio ∈ c1.
Proof.
  revert v c1. induction con as [|x r IH]; intros v c1 Hr Hc Hl.
  - by destruct c1.
  - simpl in Hr. destruct c1 as [|y c1]; simpl in Hc; injection Hc as -> ->.
    + destruct (bool_decide (l = anuncio)) eqn:Hx.
      * apply bool_decide_eq_true in Hx as ->. done.
      * rewrite Hl in Hr. apply andb_true_iff in Hr as [-> _]. by left.
    + destruct (bool_decide (y = anuncio)) eqn:Hx.
      * apply bool_decide_eq_true in Hx as ->. right. by left.
      * apply andb_true_iff in Hr as [_ Hr].
        destruct (IH v c1 Hr eq_refl Hl) as [?|?]; [by left|right; by right].
Qed.

(** The code prints no line of a doctor at work before it passes a
    [wait()]. *)
Fixpoint pasivo (c : codigo_t) : bool :=
  match c with
  | [] => true
  | Dato EventWait :: _ => true
  | Dato (Print l) :: r => negb (activa l) && pasivo r
  | Dato (PrintAtendio _ _) :: _ => false
  | Raise _ :: _ => true
  | _ :: r => pasivo r
  end.

(** The code prints the announcement before it sets the event. *)
Fixpoint avisa (c : codigo_t) : bool :=
  match c with
  | [] => true
  | Dato EventSet :: _ => false
  | Dato (Print l) :: r => if bool_decide (l = anuncio) then true else avisa r
  | Raise _ :: _ => true
  | _ :: r => avisa r
  end.

Definition anuncio_primero (m : mundo accion estado) : Prop :=
  en_regla false (consola (datos m)) = true
  ∧ (apertura_hospital (datos m) = true → anunciado (consola (datos m)) = true)
  ∧ ∀ t h, hilos m !! t = Some h →
      (apertura_hospital (datos m) = false → pasivo (codigo h) = true)
      ∧ (avisa (codigo h) = true ∨ anunciado (consola (datos m)) = true).

Lemma anuncio_primero_paso t c (m m' : mundo accion estado) :
  anuncio_primero m → paso ejecutar t c m = Some m' → anuncio_primero m'.
Proof.
  intros (Hreg & Hab & Hth) Hp.
  apply paso_resumen in Hp
    as (h & i & r & h' & Hh & Hi & Hc & Hh' & Hlen & Hrest & Hcasos).
  destruct (Hth t h Hh) as [Hpas Hav]. rewrite Hc in Hpas, Hav.
  (* the other threads keep their code *)
  assert (Hotros : ∀ u hu', u ≠ t → hilos m' !! u = Some hu' →
            (apertura_hospital (datos m) = false → pasivo (codigo hu') = true)
            ∧ (avisa (codigo hu') = true
               ∨ anunciado (consola (datos m)) = true)).
  { intros u hu' Hu Hl. destruct (Hrest u hu' Hu Hl) as (hu & Hl0 & -> & _).
    by apply (Hth u hu). }
  unfold anuncio_primero.
  destruct Hcasos as [(a & x & -> & He & ->)|(Hnd & Hdat & [[-> Hnr]|[e ->]])].
  - pose proof (hospital_sin_extra _ _ _ _ _ _ He) as ->. cbn [app] in Hh'.
    destruct a as [l| | |n k|n k| |]; simpl in He.
    + (* print *)
      injection He as Hd. rewrite <- Hd. simpl.
      rewrite en_regla_app, anunciado_app, Hreg. simpl in Hpas, Hav.
      assert (Hl : (if activa l then anunciado (consola (datos m)) else true) = true).
      { destruct (activa l) eqn:Hl; [|done].
        destruct (apertura_hospital (datos m)) eqn:Ha; [by apply Hab|].
        by specialize (Hpas eq_refl). }
      split_and!.
      * simpl. by destruct (activa l).
      * intros Ha. rewrite Hab by done. done.
      * intros u hu' Hl'. destruct (decide (u = t)) as [->|Hu].
        -- assert (hu' = sigue h r) as -> by congruence. simpl. split.
           ++ intros Ha. specialize (Hpas Ha).
              by apply andb_true_iff in Hpas as [_ ?].
           ++ destruct (bool_decide (l = anuncio)); [right; apply orb_true_r|].
              destruct Hav as [?|Hv]; [by left|right; by rewrite Hv].
        -- destruct (Hotros u hu' Hu Hl') as [H1 [?|Hv]]; split; auto.
           right. by rewrite Hv.
    + (* set *)
      injection He as Hd. simpl in Hav.
      destruct Hav as [?|Hv]; [done|].
      rewrite <- Hd. simpl. split_and!; [done|done|].
      intros u hu' Hl'. split; [done|]. by right.
    + (* wait *)
      destruct (apertura_hospital (datos m)) eqn:Ha; [|done].
      injection He as Hd. rewrite <- Hd, Ha. split_and!; [done|done|].
      intros u hu' Hl'. split; [done|]. right. by apply Hab.
    + (* append *)
      injection He as Hd. rewrite <- Hd. simpl. split_and!; [done|done|].
      intros u hu' Hl'. destruct (decide (u = t)) as [->|Hu].
      * assert (hu' = sigue h r) as -> by congruence. simpl. split; [|done].
        intros Ha. by apply Hpas.
      * by apply (Hotros u hu').
    + (* the line of a patient *)
      injection He as Hd. simpl in Hpas.
      destruct (apertura_hospital (datos m)) eqn:Ha; [|by specialize (Hpas eq_refl)].
      rewrite <- Hd. simpl. rewrite Ha, en_regla_app, anunciado_app, Hreg.
      simpl. rewrite Hab by done. split_and!; [done|done|].
      intros u hu' Hl'. split; [done|]. by right.
    + (* the total *)
      injection He as Hd. rewrite <- Hd. simpl.
      rewrite en_regla_app, anunciado_app, Hreg. simpl. split_and!; [done| |].
      * intros Ha. by rewrite Hab.
      * intros u hu' Hl'. rewrite orb_false_r.
        destruct (decide (u = t)) as [->|Hu].
        -- assert (hu' = sigue h r) as -> by congruence. simpl. split; [|done].
           intros Ha. by apply Hpas.
        -- by apply (Hotros u hu').
    + (* the state of the event *)
      injection He as Hd. rewrite <- Hd. simpl.
      rewrite en_regla_app, anunciado_app, Hreg. simpl. split_and!; [done| |].
      * intros Ha. by rewrite Hab.
      * intros u hu' Hl'. rewrite orb_false_r.
        destruct (decide (u = t)) as [->|Hu].
        -- assert (hu' = sigue h r) as -> by congruence. simpl. split; [|done].
           intros Ha. by apply Hpas.
        -- by apply (Hotros u hu').
  - rewrite Hdat. split_and!; [done|done|].
    intros u hu' Hl'. destruct (decide (u = t)) as [->|Hu].
    + assert (hu' = sigue h r) as -> by congruence. simpl. split.
      * intros Ha. specialize (Hpas Ha).
        destruct i; try done; [by destruct (Hnd a)|by destruct (Hnr e)].
      * destruct Hav as [Hv|?]; [left|by right].
        destruct i; try done; [by destruct (Hnd a)|by destruct (Hnr e)].
    + by apply (Hotros u hu').
  - rewrite Hdat. split_and!; [done|done|].
    intros u hu' Hl'. destruct (decide (u = t)) as [->|Hu].
    + assert (hu' = falla_con h e) as -> by congruence. simpl. split; [done|by left].
    + by apply (Hotros u hu').
Qed.

Lemma anuncio_primero_inicial entrada : anuncio_primero (programa entrada).
Proof.
  split_and!; [done|done|]. intros t h Hl.
  destruct t as [|[|[|[|[|[|t]]]]]]; simpl in Hl; try done;
    injection Hl as <-; split; try (intros _); try left; by vm_compute.
Qed.

Lemma anuncio_primero_plan entrada ds m :
  ejecutar_plan ejecutar ds (programa entrada) = Some m → anuncio_primero m.
Proof.
  apply (plan_inv ejecutar anuncio_primero).
  - intros t c m1 m2. apply anuncio_primero_paso.
  - apply anuncio_primero_inicial.
Qed.

End HospitalAnuncio.
(** ** The download simulator: the summary of a mode *)

Module SimuladorResumen.
Import Maquina Pasos Reglas Teoria Cantidades Generico.
Import Simulador SimuladorReglas SimuladorInv SimuladorRes SimuladorInicial.
Import SimuladorFinal Informe.

Local Abbreviation mundo_t := (mundo accion globales).

(** The name that a mode gives to _mostrar_resumen. *)
Definition titulo (md : modo) : string :=
  match md with
  | Secuencial => "SECUENCIAL"
  | Threads => "CONCURRENTE (threads)"
  | Pool => "POOL (3 workers)"
  end.

(** The summaries that the console shows: mode, number of files, total. *)
Definition resumenes (con : list linea) : list (string * nat * Z) :=
  flat_map (λ l, match l with LResumen s n t => [(s, n, t)] | _ => [] end) con.

Lemma resumenes_app c1 c2 : resumenes (c1 ++ c2) = resumenes c1 ++ resumenes c2.
Proof. unfold resumenes. apply flat_map_app. Qed.

Definition es_resumen (md : modo) (a : accion) : bool :=
  match a with Resumen s => bool_decide (s = titulo md) | _ => false end.

Definition antes_resumen (a : accion) : bool :=
  match a with Resumen _ | Print (LResumen _ _ _) => false | _ => true end.

Definition nada (a : accion) : bool := false.

Lemma suma_tamanos_perm l1 l2 : l1 ≡ₚ l2 → suma_tamanos l1 = suma_tamanos l2.
Proof.
  unfold suma_tamanos.
  induction 1 as [|x l l' _ IH|x y l|l l' l'' _ IH1 _ IH2]; simpl; lia.
Qed.

Section ConFallos.
Variable falla : nat → option (nat * string).

Local Abbreviation ejec := (ejecutar falla).

Lemma descargar_antes_resumen a i :
  solo antes_resumen (descargar_archivo a i) = true.
Proof. reflexivity. Qed.

Lemma extra_antes_resumen a t c d d' x :
  ejec a t c d = Some (d', x) → solo antes_resumen x = true.
Proof.
  intros H.
  destruct (ejecutar_extra _ _ _ _ _ _ _ H) as [->|(i & f & q & -> & Hq & Ha & -> & ->)];
    [done|].
  rewrite solo_app. apply andb_true_iff. split; [|done].
  apply trabajo_solo; [apply descargar_antes_resumen|done..].
Qed.

Lemma resumen_previa con a t c d d' x :
  ejec a t c d = Some (d', x) → antes_resumen a = true →
  resumenes (consola d) = resumenes con → resumenes (consola d') = resumenes con.
Proof.
  intros He Ha Hd.
  destruct a as [l| | | | | | | | | | | |]; simpl in He; try done;
    try (injection He as <- _; simpl; done).
  - injection He as <- _. simpl. rewrite resumenes_app, Hd.
    destruct l; try done; simpl; by rewrite app_nil_r.
  - destruct (cola d) as [|i q].
    + destruct (cerrado d); [|done]. by injection He as <- _.
    + destruct (ARCHIVOS !! i); simpl in He; [|done]. by injection He as <- _.
  - destruct (listos d !! c) as [[i f]|]; simpl in He; [|done].
    destruct (ARCHIVOS !! i); simpl in He; [|done]. injection He as <- _.
    destruct f; simpl; [done|]. rewrite resumenes_app, Hd. simpl. by rewrite app_nil_r.
Qed.

(** When the mode function has returned, the console shows one summary
    more, with the number and the total size of the records of
    [resultados]. *)
Lemma resumen_de md con (m0 : mundo_t) ds m h0 hs :
  estable ejec m0 → hilos m0 = h0 :: hs → consola (datos m0) = con →
  forma_marca (es_resumen md) antes_resumen nada (codigo h0) = true →
  tiene (es_resumen md) (codigo h0) = true →
  (∀ h, h ∈ hs → solo antes_resumen (codigo h) = true) →
  ejecutar_plan ejec ds m0 = Some m →
  codigo_salida m = Some 0 →
  resumenes (consola (datos m))
  = resumenes con ++ [(titulo md, length (resultados (datos m)),
                       suma_tamanos (resultados (datos m)))].
Proof.
  intros Hest Hh Hcon Hfm Htm Hw Hp Hs.
  apply (fase_final ejec (es_resumen md) antes_resumen nada
           (λ d, resumenes (consola d) = resumenes con)
           (λ d, resumenes (consola d)
                 = resumenes con ++ [(titulo md, length (resultados d),
                                      suma_tamanos (resultados d))]))
    with (ds := ds) (m0 := m0); try done.
  - apply extra_antes_resumen.
  - by intros [].
  - intros a t c d d' x. apply resumen_previa.
  - intros a c d d' x He Ha Hd. destruct a; try done.
    apply bool_decide_eq_true in Ha as ->. injection He as <- <-. simpl.
    by rewrite resumenes_app, Hd.
  - eapply fase_inicial; try done. by rewrite Hcon.
Qed.

Lemma resumen_con_fallos md e con ds (m : mundo_t) :
  md ≠ Secuencial →
  ejecutar_plan ejec ds (inicial falla md e con) = Some m →
  codigo_salida m = Some 0 →
  resumenes (consola (datos m))
  = resumenes con ++ [(titulo md, length (resultados (datos m)),
                       suma_tamanos (resultados (datos m)))].
Proof.
  intros Hmd Hp Hs.
  assert (Hest : estable ejec (inicial falla md e con))
    by apply (inicial_sano_con_fallos falla md e con Hmd).
  destruct md; [done| |].
  - eapply (resumen_de Threads con (inicial falla Threads e con));
      [done|reflexivity|done|by vm_compute|by vm_compute| |done|done].
    intros h Hin. apply hilos_tareas_en in Hin as (a & i & ->). cbn [codigo].
    unfold tarea. rewrite solo_app. apply andb_true_iff. split; [|done].
    apply llamar_solo, descargar_antes_resumen.
  - eapply (resumen_de Pool con (inicial falla Pool e con));
      [done|reflexivity|done|by vm_compute|by vm_compute| |done|done].
    intros h Hin. apply list_elem_of_In in Hin. simpl in Hin.
    repeat (destruct Hin as [<-|Hin]; [done|]). done.
Qed.

End ConFallos.

Lemma resumen_sin_fallos md e con ds (m : mundo_t) :
  ejecutar_plan (ejecutar sin_fallos) ds (inicial sin_fallos md e con) = Some m →
  codigo_salida m = Some 0 →
  resumenes (consola (datos m))
  = resumenes con ++ [(titulo md, length (resultados (datos m)),
                       suma_tamanos (resultados (datos m)))].
Proof.
  intros Hp Hs.
  assert (Hmd : md = Secuencial ∨ md ≠ Secuencial) by (destruct md; auto).
  destruct Hmd as [->|Hmd]; [|by apply (resumen_con_fallos sin_fallos md e con ds)].
  eapply (resumen_de sin_fallos Secuencial con (inicial sin_fallos Secuencial e con));
    [|reflexivity|done|by vm_compute|by vm_compute| |done|done].
  - apply bien_formado_estable. by vm_compute.
  - intros h Hin. by apply elem_of_nil in Hin.
Qed.

End SimuladorResumen.
(** ** The download simulator: a failure in the sequential mode *)

Module SimuladorSecuencial.
Import Maquina Pasos Reglas Teoria Cantidades Generico.
Import Simulador SimuladorReglas SimuladorInv SimuladorRes SimuladorInicial.
Import SimuladorFinal Informe Orden SimuladorResumen.

Local Abbreviation mundo_t := (mundo accion globales).

(** The list [resultados] that the code of the main thread leaves, up to
    its first [raise]. *)
Fixpoint fut_res (res : list resultado) (c : codigo_t) : list resultado :=
  match c with
  | [] => res
  | Raise _ :: _ => res
  | Dato (Anexar r) :: c' => fut_res (res ++ [r]) c'
  | Dato NuevaLista :: c' => fut_res [] c'
  | _ :: c' => fut_res res c'
  end.

Definition sin_lista (a : accion) : bool :=
  match a with Anexar _ | NuevaLista => false | _ => true end.

Lemma fut_res_limpio res c : solo sin_lista c = true → fut_res res c = res.
Proof.
  induction c as [|i c IH]; [done|]. intros [Hi Hc]%andb_true_iff.
  specialize (IH Hc). destruct i as [a| | | | | | |]; simpl; try done.
  by destruct a.
Qed.

Lemma fut_res_app res x c :
  fut_res res (x ++ c)
  = if sin_raise x then fut_res (fut_res res x) c else fut_res res x.
Proof.
  revert res. induction x as [|i x IH]; intros res; [done|].
  destruct i as [a| | | | | | |]; simpl; try apply IH; [|done].
  destruct a; simpl; apply IH.
Qed.

Lemma tiene_app_raise {A} (p : A → bool) (x c : list (instr A)) :
  sin_raise x = false → tiene p (x ++ c) = tiene p x.
Proof.
  induction x as [|i x IH]; [done|]. simpl. intros H.
  destruct i; simpl in *; try (by apply IH); [|done].
  by rewrite IH.
Qed.

Section ConFallos.
Variable falla : nat → option (nat * string).

Local Abbreviation ejec := (ejecutar falla).

(** The records of the tasks before the first one that raises. *)
Fixpoint previos (ps : list (nat * archivo)) : list resultado :=
  match ps with
  | [] => []
  | p :: ps' =>
      if fracasa falla p.1 is Some _ then [] else resultado_de p.2 :: previos ps'
  end.

Fixpoint todos_bien (ps : list (nat * archivo)) : bool :=
  match ps with
  | [] => true
  | p :: ps' => (if fracasa falla p.1 is Some _ then false else true) && todos_bien ps'
  end.

Lemma descargar_sin_lista a i : solo sin_lista (descargar_archivo a i) = true.
Proof. reflexivity. Qed.

Lemma fut_res_cuerpo res p c :
  fut_res res (cuerpo_sec falla p ++ c)
  = if fracasa falla p.1 is Some _ then res
    else fut_res (res ++ [resultado_de p.2]) c.
Proof.
  unfold cuerpo_sec. rewrite <- app_assoc, fut_res_app, llamar_sin_raise.
  rewrite (fut_res_limpio res (llamar falla p.1 p.2))
    by apply llamar_solo, descargar_sin_lista.
  by destruct (fracasa falla p.1).
Qed.

Lemma fut_res_cuerpos res ps c :
  fut_res res (flat_map (cuerpo_sec falla) ps ++ c)
  = if todos_bien ps then fut_res (res ++ previos ps) c else res ++ previos ps.
Proof.
  revert res. induction ps as [|p ps IH]; intros res; simpl.
  - by rewrite app_nil_r.
  - rewrite <- app_assoc, fut_res_cuerpo.
    destruct (fracasa falla p.1); simpl; [by rewrite app_nil_r|].
    rewrite IH, <- !app_assoc. done.
Qed.

Lemma sin_raise_cuerpos ps :
  sin_raise (flat_map (cuerpo_sec falla) ps) = todos_bien ps.
Proof.
  induction ps as [|p ps IH]; [done|]. simpl.
  rewrite sin_raise_app, IH. unfold cuerpo_sec.
  rewrite sin_raise_app, llamar_sin_raise. simpl.
  by destruct (fracasa falla p.1).
Qed.

Lemma solo_cuerpos (q : accion → bool) ps :
  (∀ a i, solo q (descargar_archivo a i) = true) →
  (∀ r, q (Anexar r) = true) →
  solo q (flat_map (cuerpo_sec falla) ps) = true.
Proof.
  intros Hd Ha. induction ps as [|p ps IH]; [done|]. simpl.
  rewrite solo_app, IH. unfold cuerpo_sec. rewrite solo_app, llamar_solo by done.
  simpl. by rewrite Ha.
Qed.

(** The first task that raises is task [i]. *)
Definition primer_fallo (i : nat) : Prop :=
  i < length ARCHIVOS ∧ is_Some (fracasa falla i)
  ∧ ∀ j, j < i → fracasa falla j = None.

Lemma previos_desde b (l : list archivo) i :
  i < length l → is_Some (fracasa falla (b + i)) →
  (∀ j, j < i → fracasa falla (b + j) = None) →
  previos (imap (λ k a, (b + k, a)) l) = map resultado_de (take i l)
  ∧ todos_bien (imap (λ k a, (b + k, a)) l) = false.
Proof.
  revert b i. induction l as [|a l IH]; intros b i Hi Hf Hn; [simpl in Hi; lia|].
  simpl. destruct i as [|i].
  - rewrite Nat.add_0_r in *. destruct Hf as [e ->]. done.
  - pose proof (Hn 0 ltac:(lia)) as Hn0. rewrite Nat.add_0_r in Hn0 |- *.
    rewrite Hn0. simpl.
    assert (Heq : imap ((λ k a0, (b + k, a0)) ∘ S) l = imap (λ k a0, (S b + k, a0)) l).
    { apply imap_ext. intros k x _. simpl. f_equal. lia. }
    rewrite Heq. destruct (IH (S b) i) as [-> ->].
    + simpl in Hi. lia.
    + by replace (S b + i) with (b + S i) by lia.
    + intros j Hj. replace (S b + j) with (b + S j) by lia. apply Hn. lia.
    + done.
Qed.

Lemma previos_archivos i :
  primer_fallo i →
  previos (enumerar ARCHIVOS) = map resultado_de (take i ARCHIVOS)
  ∧ todos_bien (enumerar ARCHIVOS) = false.
Proof.
  intros (Hi & Hf & Hn). apply (previos_desde 0 ARCHIVOS i); done.
Qed.

(** The state of the sequential mode when a task is going to raise. *)
Definition sec_inv (target : list resultado) (con : list linea) (m : mundo_t) : Prop :=
  ∃ h0, hilos m !! 0 = Some h0 ∧ length (hilos m) = 1
    ∧ solo sim_simple (codigo h0) = true
    ∧ (is_Some (error h0) ∨ sin_raise (codigo h0) = false)
    ∧ fut_res (resultados (datos m)) (codigo h0) = target
    ∧ tiene (λ a, negb (antes_resumen a)) (codigo h0) = false
    ∧ resumenes (consola (datos m)) = resumenes con.

Lemma simple_sin_lista a t c d d' x :
  ejec a t c d = Some (d', x) → sim_simple a = true →
  x = []
  ∧ resultados d' = match a with
                    | Anexar r => resultados d ++ [r]
                    | NuevaLista => []
                    | _ => resultados d
                    end.
Proof.
  intros He Ha. destruct a; simpl in *; try done; by injection He as <- <-.
Qed.

Lemma sec_inv_paso target con t c (m m' : mundo_t) :
  seguro ejec m → sec_inv target con m → paso ejec t c m = Some m' →
  sec_inv target con m'.
Proof.
  intros Hseg (h0 & H0 & Hl1 & Hsim & Hmal & Hfut & Hti & Hres) Hp.
  pose proof Hp as Hp'.
  apply paso_resumen in Hp'
    as (h & i & r & h' & Hh & Hi & Hc & Hh' & Hlen & Hrest & Hcasos).
  assert (t = 0) as -> by (apply lookup_lt_Some in Hh; lia).
  assert (h = h0) as -> by congruence.
  rewrite Hc in Hsim, Hmal, Hfut, Hti.
  apply solo_cabeza in Hsim as [Hsi Hsr].
  assert (Hmal' : sin_raise (i :: r) = false).
  { destruct Hmal as [[e He]|?]; [|done].
    pose proof Hseg as [(_ & _ & Hm) _].
    rewrite (Hm 0 h0 H0) in Hc; [done|]. by rewrite He. }
  exists h'. rewrite Hlen. split; [done|]. split; [done|].
  destruct Hcasos as [(a & x & -> & He & ->)|(Hnd & Hdat & [[-> Hnr]|[e ->]])].
  - destruct (simple_sin_lista _ _ _ _ _ _ He (Hsi a eq_refl)) as [-> Hr'].
    cbn [codigo sigue app]. simpl in Hti. apply orb_false_iff in Hti as [Ha Htr].
    apply negb_false_iff in Ha. split_and!; [done|by right| |done|].
    + rewrite Hr'. by destruct a.
    + by eapply resumen_previa.
  - rewrite Hdat. cbn [codigo sigue]. split_and!; [done| | | |done].
    + right. destruct i; try done. by destruct (Hnr e).
    + destruct i; try done; [by destruct (Hnd a)|by destruct (Hnr e)].
    + by eapply tiene_falso_cola.
  - rewrite Hdat. cbn [codigo falla_con error].
    pose proof (muerte_es_raise ejec 0 c m m' h0 i r e Hseg Hp H0 Hc Hh') as ->.
    split_and!; [done|left; by eexists|done|done|done].
Qed.

Lemma sec_inv_inicial e con i :
  primer_fallo i →
  sec_inv (map resultado_de (take i ARCHIVOS)) con (inicial falla Secuencial e con).
Proof.
  intros Hpf. destruct (previos_archivos i Hpf) as [Hprev Hmal].
  exists (Hilo true (modo_secuencial falla) None).
  split; [done|]. split; [done|]. cbn [codigo error datos inicial resultados
    datos_iniciales consola].
  rewrite modo_secuencial_eq.
  set (hdr := cabecera "  MODO SECUENCIAL (sin concurrencia)"
                "  Los archivos se descargan UNO A LA VEZ"
              ++ reinicio ++ [Dato NuevaLista]).
  split_and!.
  - rewrite !solo_app. apply andb_true_iff. split; [done|].
    apply andb_true_iff. split; [|done]. by apply solo_cuerpos.
  - right. rewrite !sin_raise_app, sin_raise_cuerpos, Hmal.
    by rewrite andb_false_r.
  - rewrite fut_res_app.
    change (sin_raise hdr) with true. change (fut_res [] hdr) with (@nil resultado).
    cbv iota. by rewrite fut_res_cuerpos, Hmal, Hprev.
  - rewrite tiene_app by done. apply orb_false_iff. split; [done|].
    rewrite tiene_app_raise by (by rewrite sin_raise_cuerpos).
    apply tiene_solo. apply solo_cuerpos; [|done].
    intros a j. reflexivity.
  - done.
Qed.

Lemma sec_inv_plan e con i ds (m : mundo_t) :
  primer_fallo i →
  ejecutar_plan ejec ds (inicial falla Secuencial e con) = Some m →
  sec_inv (map resultado_de (take i ARCHIVOS)) con m.
Proof.
  intros Hpf Hp.
  assert (H : seguro ejec m
              ∧ sec_inv (map resultado_de (take i ARCHIVOS)) con m);
    [|by destruct H].
  revert Hp.
  apply (plan_inv ejec
           (λ m, seguro ejec m
                 ∧ sec_inv (map resultado_de (take i ARCHIVOS)) con m)).
  - intros t c m1 m2 [Hseg Hinv] Hp. split; [by eapply seguro_paso|].
    by eapply sec_inv_paso.
  - split; [apply inicial_seguro|by apply sec_inv_inicial].
Qed.

(** When the main thread is over, an exception has ended it and the list
    holds the records of the tasks before the one that raised. *)
Lemma sec_inv_fin target con (m : mundo_t) :
  seguro ejec m → sec_inv target con m → fin_principal m = true →
  codigo_salida m = Some 1 ∧ resultados (datos m) = target.
Proof.
  intros Hseg (h0 & H0 & Hl1 & Hsim & Hmal & Hfut & Hti & Hres) Hfin.
  unfold fin_principal in Hfin. unfold codigo_salida. rewrite H0 in Hfin |- *.
  simpl. rewrite Hfin.
  apply andb_true_iff in Hfin as [_ Hv].
  destruct (codigo h0) as [|i r] eqn:Hc; [|done].
  destruct Hmal as [[e He]|?]; [|done]. rewrite He. done.
Qed.

(** The sequential mode never waits: a run that cannot go on is over. *)
Lemma sec_inv_atascado target con (m : mundo_t) :
  seguro ejec m → sec_inv target con m → atascado ejec m →
  fin_principal m = true.
Proof.
  intros Hseg Hinv Hat. pose proof Hseg as [(Hd & Hq & Hm) _].
  destruct Hinv as (h0 & H0 & Hl1 & Hsim & Hmal & Hfut & Hti & Hres).
  pose proof Hq as (h0' & H0' & Hi0 & _).
  assert (h0' = h0) as -> by congruence.
  unfold fin_principal, terminado. rewrite H0, Hi0. simpl.
  destruct (codigo h0) as [|i r] eqn:Hc; [done|].
  destruct (principal_atascado ejec m h0 i r Hd Hq Hat H0 Hc)
    as [(a & -> & Hb)|(u & hu & -> & Hu & Hlu & _)].
  - apply solo_cabeza in Hsim as [Hsi _].
    destruct (simple_ok (ejecutar := ejec) (reglas := sim_reglas falla) a 0 0 (datos m)
                (Hsi a eq_refl)) as [d' Hd'].
    by rewrite Hb in Hd'.
  - apply lookup_lt_Some in Hlu. lia.
Qed.

(** *** The order of [resultados] *)

Lemma previos_todos b (l : list archivo) :
  (∀ j, j < length l → fracasa falla (b + j) = None) →
  previos (imap (λ k a, (b + k, a)) l) = map resultado_de l.
Proof.
  revert b. induction l as [|a l IH]; intros b Hn; [done|]. simpl.
  pose proof (Hn 0 ltac:(simpl; lia)) as Hn0. rewrite Nat.add_0_r in Hn0 |- *.
  rewrite Hn0. f_equal.
  assert (Heq : imap ((λ k a0, (b + k, a0)) ∘ S) l = imap (λ k a0, (S b + k, a0)) l).
  { apply imap_ext. intros k x _. simpl. f_equal. lia. }
  rewrite Heq. apply IH. intros j Hj.
  replace (S b + j) with (b + S j) by lia. apply Hn. simpl. lia.
Qed.

(** The list that the loop of the main thread is building. *)
Definition sec_res (target : list resultado) (m : mundo_t) : Prop :=
  ∃ h0, hilos m !! 0 = Some h0 ∧ length (hilos m) = 1
    ∧ solo sim_simple (codigo h0) = true
    ∧ fut_res (resultados (datos m)) (codigo h0) = target.

Lemma sec_res_paso target t c (m m' : mundo_t) :
  seguro ejec m → sec_res target m → paso ejec t c m = Some m' →
  sec_res target m'.
Proof.
  intros Hseg (h0 & H0 & Hl1 & Hsim & Hfut) Hp. pose proof Hp as Hp'.
  apply paso_resumen in Hp'
    as (h & i & r & h' & Hh & Hi & Hc & Hh' & Hlen & Hrest & Hcasos).
  assert (t = 0) as -> by (apply lookup_lt_Some in Hh; lia).
  assert (h = h0) as -> by congruence.
  rewrite Hc in Hsim, Hfut. apply solo_cabeza in Hsim as [Hsi Hsr].
  exists h'. rewrite Hlen. split; [done|]. split; [done|].
  destruct Hcasos as [(a & x & -> & He & ->)|(Hnd & Hdat & [[-> Hnr]|[e ->]])].
  - destruct (simple_sin_lista _ _ _ _ _ _ He (Hsi a eq_refl)) as [-> Hr'].
    cbn [codigo sigue app]. split; [done|]. rewrite Hr'. by destruct a.
  - rewrite Hdat. cbn [codigo sigue]. split; [done|].
    destruct i; try done; [by destruct (Hnd a)|by destruct (Hnr e)].
  - rewrite Hdat. cbn [codigo falla_con].
    pose proof (muerte_es_raise ejec 0 c m m' h0 i r e Hseg Hp H0 Hc Hh') as ->.
    done.
Qed.

Lemma sec_res_inicial e con :
  sec_res (previos (enumerar ARCHIVOS)) (inicial falla Secuencial e con).
Proof.
  exists (Hilo true (modo_secuencial falla) None).
  split; [done|]. split; [done|].
  cbn [codigo datos inicial resultados datos_iniciales].
  rewrite modo_secuencial_eq.
  set (hdr := cabecera "  MODO SECUENCIAL (sin concurrencia)"
                "  Los archivos se descargan UNO A LA VEZ"
              ++ reinicio ++ [Dato NuevaLista]).
  split.
  - rewrite !solo_app. apply andb_true_iff. split; [done|].
    apply andb_true_iff. split; [|done]. by apply solo_cuerpos.
  - rewrite fut_res_app.
    change (sin_raise hdr) with true. change (fut_res [] hdr) with (@nil resultado).
    cbv iota. rewrite fut_res_cuerpos. by destruct (todos_bien (enumerar ARCHIVOS)).
Qed.

Lemma sec_res_plan e con ds (m : mundo_t) :
  ejecutar_plan ejec ds (inicial falla Secuencial e con) = Some m →
  sec_res (previos (enumerar ARCHIVOS)) m.
Proof.
  intros Hp.
  assert (H : seguro ejec m ∧ sec_res (previos (enumerar ARCHIVOS)) m);
    [|by destruct H].
  revert Hp.
  apply (plan_inv ejec
           (λ m, seguro ejec m ∧ sec_res (previos (enumerar ARCHIVOS)) m)).
  - intros t c m1 m2 [Hseg Hinv] Hp. split; [by eapply seguro_paso|].
    by eapply sec_res_paso.
  - split; [apply inicial_seguro|apply sec_res_inicial].
Qed.

Lemma sec_res_fin target (m : mundo_t) :
  sec_res target m → fin_principal m = true → resultados (datos m) = target.
Proof.
  intros (h0 & H0 & _ & _ & Hfut) Hfin.
  unfold fin_principal in Hfin. rewrite H0 in Hfin.
  apply andb_true_iff in Hfin as [_ Hv].
  destruct (codigo h0); [done|done].
Qed.

End ConFallos.

End SimuladorSecuencial.
(** ** The download simulator: the lines of one download, in order *)

Module SimuladorOrden.
Import Maquina Pasos Reglas Teoria Cantidades Generico.
Import Simulador SimuladorReglas SimuladorInv SimuladorRes SimuladorInicial.
Import SimuladorFinal Orden.

Local Abbreviation mundo_t := (mundo accion globales).

(** Is the line one of the download of the file [n]? *)
Definition de_archivo (n : string) (l : linea) : bool :=
  match l with
  | LInicio _ n' _ | LProgreso _ n' _ | LCompleto _ n' => bool_decide (n' = n)
  | _ => false
  end.

(** The lines of the console that belong to the download of [n]. *)
Definition lineas_de (n : string) (con : list linea) : list linea :=
  List.filter (de_archivo n) con.

(** The lines that descargar_archivo prints, in the order of its code. *)
Definition esperadas (a : archivo) (i : nat) : list linea :=
  LInicio (_color_hilo i) (nombre a) (tamano_mb a)
  :: map (LProgreso (_color_hilo i) (nombre a)) (seq 1 pasos)
  ++ [LCompleto (_color_hilo i) (nombre a)].

Definition emite (n : string) (x : accion) : list linea :=
  match x with Print l => if de_archivo n l then [l] else [] | _ => [] end.

Definition cred (i : nat) (x : accion) : nat :=
  match x with Submit j => if bool_decide (j = i) then 1 else 0 | _ => 0 end.

(** How many times the task [i] stands in the queue of the executor. *)
Definition en_espera (i : nat) (q : list nat) : nat :=
  length (List.filter (λ j, bool_decide (j = i)) q).

Definition cred_d (i : nat) (d : globales) : nat := en_espera i (cola d).

Lemma lineas_de_app n c1 c2 : lineas_de n (c1 ++ c2) = lineas_de n c1 ++ lineas_de n c2.
Proof. apply List.filter_app. Qed.

Lemma nombre_inj i j a b :
  ARCHIVOS !! i = Some a → ARCHIVOS !! j = Some b → nombre a = nombre b → i = j.
Proof.
  intros Hi Hj.
  destruct i as [|[|[|[|[|[|i]]]]]]; simpl in Hi; try done; injection Hi as <-;
    destruct j as [|[|[|[|[|[|j]]]]]]; simpl in Hj; try done; injection Hj as <-;
    try done; intros H; by vm_compute in H.
Qed.

Lemma descargar_otro n b j :
  nombre b ≠ n →
  solo (λ x, if emite n x is [] then true else false) (descargar_archivo b j) = true.
Proof.
  intros Hne. unfold descargar_archivo, with_, P, emite, de_archivo.
  cbn -[bool_decide]. rewrite !bool_decide_eq_false_2 by done. reflexivity.
Qed.

Lemma descargar_esperadas a i :
  pend (emite (nombre a)) (descargar_archivo a i) = esperadas a i.
Proof.
  unfold descargar_archivo, with_, P, emite, de_archivo, esperadas.
  cbn -[bool_decide]. rewrite !bool_decide_eq_true_2 by done. reflexivity.
Qed.

Lemma descargar_sin_submit i a j :
  solo (λ x, bool_decide (cred i x = 0)) (descargar_archivo a j) = true.
Proof. reflexivity. Qed.

Lemma pend_liberar {L} (em : accion → list L) held e :
  pend em (map Release held ++ [Raise e]) = [].
Proof. by induction held. Qed.

Lemma pend_fallar_en {L} (em : accion → list L) k e held (c : codigo_t) :
  ∃ suf, pend em (fallar_en k e held c) ++ suf = pend em c.
Proof.
  revert k held. induction c as [|x c IH]; intros k held; [by exists []|].
  destruct k as [|k]; cbn [fallar_en].
  - rewrite pend_liberar. by eexists.
  - destruct (IH k (match x with
                    | Acquire l => l :: held
                    | Release _ => tail held
                    | _ => held
                    end)) as [suf Hs].
    destruct x as [a| | | | | | |]; simpl; try (by exists suf); [|by exists []].
    exists suf. by rewrite <- app_assoc, Hs.
Qed.

Lemma pend_atrapar {L} (em : accion → list L) i r (c : codigo_t) :
  (∀ r, em (SetResult i r) = []) → (∀ e, em (SetException i e) = []) →
  pend em (atrapar i r c) = pend em c.
Proof.
  intros Hr He. induction c as [|x c IH]; simpl; [by rewrite Hr|].
  destruct x as [a| | | | | | |]; simpl; try done; [by rewrite IH|by rewrite He].
Qed.

Lemma suma_nula {X} (g : X → nat) (l : list X) :
  (∀ x, x ∈ l → g x = 0) → sum_list_with g l = 0.
Proof.
  induction l as [|x l IH]; [done|]. intros H. simpl.
  rewrite (H x) by left. rewrite IH; [done|]. intros y Hy. apply H. by right.
Qed.

Section ConFallos.
Variable falla : nat → option (nat * string).
Variables (i : nat) (a : archivo).
Hypothesis Ha : ARCHIVOS !! i = Some a.

Local Abbreviation ejec := (ejecutar falla).
Local Abbreviation n := (nombre a).

(** What the call for the task [i] prints before it returns or raises. *)
Definition impreso : list linea := pend (emite n) (llamar falla i a).

Lemma impreso_prefijo : ∃ suf, impreso ++ suf = esperadas a i.
Proof.
  unfold impreso, llamar. rewrite <- descargar_esperadas.
  destruct (falla i) as [[k e]|]; [apply pend_fallar_en|].
  exists []. apply app_nil_r.
Qed.

Lemma impreso_completo : fracasa falla i = None → impreso = esperadas a i.
Proof.
  unfold impreso, llamar, fracasa. rewrite <- descargar_esperadas.
  destruct (falla i) as [[k e]|]; [|done].
  destruct (decide (k < 92)); [done|]. intros _.
  rewrite fallar_en_largo; [done|]. rewrite descargar_length. lia.
Qed.

Lemma llamar_otro j b :
  ARCHIVOS !! j = Some b → j ≠ i → pend (emite n) (llamar falla j b) = [].
Proof.
  intros Hb Hne. apply pend_solo, llamar_solo, descargar_otro.
  intros Hn. apply Hne. by eapply nombre_inj.
Qed.

Lemma llamar_sin_submit j b : cred_codigo (cred i) (llamar falla j b) = 0.
Proof. apply cred_codigo_solo, llamar_solo, descargar_sin_submit. Qed.

Lemma orden_ley x t c d d' ex :
  ejec x t c d = Some (d', ex) →
  lineas_de n (consola d') = lineas_de n (consola d) ++ emite n x
  ∧ cred_codigo (cred i) ex = 0
  ∧ ((pend (emite n) ex = [] ∧ cred_d i d' = cred_d i d + cred i x)
     ∨ (emite n x = [] ∧ cred i x = 0 ∧ cred_d i d = S (cred_d i d')
        ∧ pend (emite n) ex = impreso)).
Proof.
  intros He.
  destruct x as [l| | | | | | |j| | | | |]; simpl in He;
    try (injection He as <- <-; simpl; rewrite ?app_nil_r;
         split_and!; [done|done|left; split; [done|unfold cred_d; simpl; lia]]).
  - injection He as <- <-. simpl. rewrite lineas_de_app. simpl.
    split_and!; [by destruct (de_archivo n l)|done|left; split; [done|unfold cred_d; simpl; lia]].
  - injection He as <- <-. simpl. rewrite lineas_de_app, app_nil_r. simpl.
    rewrite app_nil_r. split_and!; [done|done|left; split; [done|unfold cred_d; simpl; lia]].
  - injection He as <- <-. simpl. split_and!; [by rewrite app_nil_r|done|].
    left. split; [done|]. unfold cred_d, en_espera. simpl.
    rewrite List.filter_app, length_app. simpl. by destruct (bool_decide (j = i)).
  - destruct (cola d) as [|j q] eqn:Hq.
    + destruct (cerrado d); [|done]. injection He as <- <-.
      rewrite app_nil_r. split_and!; [done|done|left; split; [done|unfold cred_d; simpl; lia]].
    + destruct (ARCHIVOS !! j) as [b|] eqn:Hb; simpl in He; [|done].
      injection He as <- <-. simpl. rewrite app_nil_r.
      split; [done|]. split.
      { rewrite cred_codigo_app by apply trabajo_sin_raise. simpl.
        rewrite Nat.add_0_r.
        apply cred_codigo_solo, trabajo_solo; [apply descargar_sin_submit|done|done]. }
      rewrite pend_app by apply trabajo_sin_raise. simpl. rewrite app_nil_r.
      unfold trabajo. rewrite pend_atrapar by done.
      unfold cred_d, en_espera. rewrite Hq. simpl.
      destruct (decide (j = i)) as [->|Hne].
      * assert (b = a) as -> by congruence. right.
        rewrite bool_decide_eq_true_2 by done. done.
      * left. rewrite bool_decide_eq_false_2 by done.
        split; [by apply llamar_otro|lia].
  - destruct (listos d !! c) as [[j f]|]; simpl in He; [|done].
    destruct (ARCHIVOS !! j) as [b|]; simpl in He; [|done]. injection He as <- <-.
    destruct f; simpl; rewrite ?lineas_de_app, ?app_nil_r; simpl;
      rewrite ?app_nil_r; split_and!; try done; left; split; try done; unfold cred_d; simpl; lia.
Qed.

Definition ordenado (S0 E0 : list linea) (m : mundo_t) : Prop :=
  en_orden (lineas_de n ∘ consola) (emite n) (cred i) (cred_d i) impreso S0 E0 m.

Lemma ordenado_plan S0 E0 ds (m0 m : mundo_t) :
  seguro ejec m0 → ordenado S0 E0 m0 → ejecutar_plan ejec ds m0 = Some m →
  ordenado S0 E0 m.
Proof.
  intros Hseg Hinv Hp.
  eapply (en_orden_plan ejec (lineas_de n ∘ consola) (emite n) (cred i) (cred_d i)
            impreso); try done.
  intros x t c d d' ex He. exact (orden_ley x t c d d' ex He).
Qed.

(** *** The three modes when they are entered *)

Lemma hilos_tareas_lookup j hu :
  hilos_tareas falla !! j = Some hu →
  ∃ b, ARCHIVOS !! j = Some b ∧ hu = Hilo false (tarea falla b j) None.
Proof.
  unfold hilos_tareas, enumerar. rewrite list_lookup_fmap, list_lookup_imap.
  destruct (ARCHIVOS !! j) as [b|]; simpl; [|done]. intros [= <-]. eauto.
Qed.

Lemma tarea_pend j b :
  pend (emite n) (tarea falla b j) = pend (emite n) (llamar falla j b).
Proof.
  unfold tarea. destruct (sin_raise (llamar falla j b)) eqn:Hs.
  - rewrite pend_app by done. simpl. by rewrite app_nil_r.
  - clear Ha. induction (llamar falla j b) as [|x c IH]; [done|].
    simpl in Hs. destruct x as [y| | | | | | |]; simpl in *; try done; auto.
    by rewrite IH.
Qed.

Lemma tarea_sin_submit j b : cred_codigo (cred i) (tarea falla b j) = 0.
Proof.
  apply cred_codigo_solo. unfold tarea. rewrite solo_app.
  apply andb_true_iff. split; [|done]. apply llamar_solo, descargar_sin_submit.
Qed.

Lemma ordenado_threads e con :
  ordenado (lineas_de n con) impreso (inicial falla Threads e con).
Proof.
  exists []. split; [by rewrite app_nil_r|]. right. split.
  - unfold creditos. cbn [hilos inicial hilos_de datos datos_iniciales sum_list_with].
    change (cred_d i (datos_iniciales e con)) with 0.
    change (cred_codigo (cred i) (codigo (Hilo true (modo_threads 1) None))) with 0.
    rewrite suma_nula; [done|]. intros h Hin.
    apply hilos_tareas_en in Hin as (b & j & ->). apply tarea_sin_submit.
  - exists (S i), (Hilo false (tarea falla a i) None). split_and!.
    + cbn [hilos inicial hilos_de]. simpl. unfold hilos_tareas, enumerar.
      rewrite list_lookup_fmap, list_lookup_imap, Ha. done.
    + cbn [codigo]. by rewrite tarea_pend.
    + intros u hu Hu Hl. destruct u as [|j]; simpl in Hl.
      * by injection Hl as <-.
      * apply hilos_tareas_lookup in Hl as (b & Hb & ->). cbn [codigo].
        rewrite tarea_pend. apply llamar_otro; [done|lia].
Qed.

Lemma ordenado_pool e con :
  ordenado (lineas_de n con) impreso (inicial falla Pool e con).
Proof.
  exists []. split; [by rewrite app_nil_r|]. left. split_and!; [done|done| |].
  - pose proof (lookup_lt_Some _ _ _ Ha) as Hi. clear Ha.
    destruct i as [|[|[|[|[|[|j]]]]]]; try (by vm_compute); simpl in Hi; lia.
  - intros u hu Hl. destruct u as [|u]; simpl in Hl.
    + by injection Hl as <-.
    + apply list_elem_of_lookup_2, list_elem_of_In in Hl. simpl in Hl.
      repeat (destruct Hl as [<-|Hl]; [done|]). done.
Qed.

Lemma modo_secuencial_sin_fallos :
  (∀ j, falla j = None) → modo_secuencial falla = modo_secuencial sin_fallos.
Proof.
  intros Hf. unfold modo_secuencial. do 3 f_equal. f_equal.
  apply flat_map_ext. intros [j b]. unfold llamar. by rewrite Hf.
Qed.

Lemma ordenado_secuencial e con :
  (∀ j, falla j = None) →
  ordenado (lineas_de n con) (esperadas a i) (inicial falla Secuencial e con).
Proof.
  intros Hf. exists []. split; [by rewrite app_nil_r|]. right. split.
  - unfold creditos. cbn [hilos inicial hilos_de datos datos_iniciales sum_list_with codigo].
    rewrite modo_secuencial_sin_fallos by done. done.
  - exists 0, (Hilo true (modo_secuencial falla) None). split_and!; [done| |].
    + cbn [codigo app]. rewrite modo_secuencial_sin_fallos by done.
      pose proof Ha as Ha'. clear Ha.
      destruct i as [|[|[|[|[|[|j]]]]]]; simpl in Ha'; try done;
        injection Ha' as <-; by vm_compute.
    + intros u hu Hu Hl. destruct u; [done|]. done.
Qed.

(** *** The lines of the download of task [i] on the console *)

Lemma en_espera_nula q :
  en_cola falla (va0_fut) q = 0%Z → en_espera i q = 0.
Proof.
  induction q as [|j q IH]; [done|]. simpl. intros H.
  pose proof (aporte_fut_pos falla j). pose proof (en_cola_fut_pos falla q).
  unfold en_espera in *. simpl. destruct (decide (j = i)) as [->|Hne].
  - pose proof (aporte_fut falla i a Ha). lia.
  - rewrite bool_decide_eq_false_2 by done. apply IH. lia.
Qed.

Lemma ordenado_prefijo S0 E0 (m : mundo_t) :
  ordenado S0 E0 m → (∃ suf, E0 ++ suf = esperadas a i) →
  ∃ pre suf, lineas_de n (consola (datos m)) = S0 ++ pre
             ∧ pre ++ suf = esperadas a i.
Proof.
  intros Hinv [suf Hs].
  destruct (en_orden_prefijo _ _ _ _ _ _ _ _ Hinv) as (pre & suf' & Hsal & Hpre).
  exists pre, (suf' ++ suf). split; [done|]. by rewrite app_assoc, Hpre.
Qed.

Lemma ordenado_final S0 E0 (m : mundo_t) :
  seguro ejec m → futuros_ok falla m → ordenado S0 E0 m →
  codigo_salida m = Some 0 →
  lineas_de n (consola (datos m)) = S0 ++ E0.
Proof.
  intros [(Hd & Hq & Hm) _] Hfut Hinv Hs.
  destruct (salida_cero m Hs) as (_ & h0 & H0 & Hc & He).
  pose proof (fin_quieto _ h0 Hq H0 Hc He) as Hv.
  destruct (futuros_final falla m Hfut Hv) as [_ Hcola].
  apply (en_orden_final (lineas_de n ∘ consola) (emite n) (cred i) (cred_d i)
           impreso S0 E0 m Hinv Hv).
  apply en_espera_nula, Hcola.
Qed.

End ConFallos.

End SimuladorOrden.
(** ** Locks: one at a time, and the prints of a download *)

Module Exclusion.
Import Maquina Pasos Reglas Teoria Cantidades SimuladorInv.

Section Exclusion.
Context {A D : Type}.
Variable ejecutar : A → tid → nat → D → option (D * list (instr A)).
Context `{R : !reglas ejecutar}.

(** A thread holds at most one lock. *)
Lemma un_cerrojo (m : mundo A D) t l1 l2 :
  disciplina ejecutar m →
  cerrojos m !! l1 = Some t → cerrojos m !! l2 = Some t → l1 = l2.
Proof.
  intros [Hd1 Hd2] H1 H2. destruct (Hd2 l1 t H1) as (h & Hh & _).
  destruct (Hd1 t h Hh) as (o & _ & Hl).
  apply Hl in H1, H2. congruence.
Qed.

(** A thread that is about to take a lock holds none. *)
Lemma espera_sin_cerrojo (m : mundo A D) t h l r l' :
  disciplina ejecutar m → hilos m !! t = Some h → codigo h = Acquire l :: r →
  cerrojos m !! l' ≠ Some t.
Proof.
  intros [Hd1 _] Hh Hc Hl'. destruct (Hd1 t h Hh) as (o & Hf & Hl).
  rewrite Hc in Hf. simpl in Hf. destruct o; [done|]. by apply Hl in Hl'.
Qed.

(** Two threads about to run actions that one lock protects are the same
    thread. *)
Lemma exclusion (m : mundo A D) t u ht hu a b r s l :
  disciplina ejecutar m →
  hilos m !! t = Some ht → codigo ht = Dato a :: r → protegida a = Some l →
  hilos m !! u = Some hu → codigo hu = Dato b :: s → protegida b = Some l →
  t = u.
Proof.
  intros Hd Ht Hct Ha Hu Hcu Hb.
  pose proof (cabeza_protegida ejecutar m t ht a r l Hd Ht Hct Ha) as H1.
  pose proof (cabeza_protegida ejecutar m u hu b s l Hd Hu Hcu Hb) as H2.
  congruence.
Qed.

(** No [with] block is entered inside another: a thread holds at most one
    lock, and none when it is about to take one. *)
Definition sin_anidar (m : mundo A D) : Prop :=
  (∀ t l1 l2, cerrojos m !! l1 = Some t → cerrojos m !! l2 = Some t → l1 = l2)
  ∧ (∀ t h l r l', hilos m !! t = Some h → codigo h = Acquire l :: r →
       cerrojos m !! l' ≠ Some t).

Lemma disciplina_sin_anidar (m : mundo A D) : disciplina ejecutar m → sin_anidar m.
Proof.
  intros Hd. split.
  - intros t l1 l2. by apply un_cerrojo.
  - intros t h l r l'. by apply espera_sin_cerrojo.
Qed.

End Exclusion.

End Exclusion.

Module SimuladorImpresion.
Import Maquina Pasos Reglas Teoria Cantidades.
Import Simulador SimuladorReglas SimuladorInv SimuladorRes SimuladorInicial.
Import SimuladorCerrojos.

(** The lines that descargar_archivo prints. *)
Definition es_linea_descarga (l : linea) : bool :=
  match l with
  | LInicio _ _ _ | LProgreso _ _ _ | LCompleto _ _ => true
  | _ => false
  end.

(** The discipline of the console: the lines of a download stand under
    [print_lock], the updates of [estadisticas] under [stats_lock]. *)
Definition sim_protegida_print (a : accion) : option cerrojo :=
  match a with
  | Leer _ | Sumar _ _ => Some stats_lock
  | Print l => if es_linea_descarga l then Some print_lock else None
  | _ => None
  end.

Local Abbreviation forma_print := (forma sim_simple sim_protegida_print).

Lemma descargar_forma_print a i : forma_print None (descargar_archivo a i) = true.
Proof. reflexivity. Qed.

Lemma forma_print_flat_map {X} (F : X → codigo_t) l r :
  (∀ x, forma_print None (F x) = true) → forma_print None r = true →
  forma_print None (flat_map F l ++ r) = true.
Proof.
  intros HF Hr. induction l as [|x l IH]; [done|]. simpl.
  rewrite <- app_assoc. by apply forma_app.
Qed.

Section ConFallos.
Variable falla : nat → option (nat * string).

Local Abbreviation ejec := (ejecutar falla).
Local Abbreviation mundo_t := (mundo accion globales).

Lemma llamar_forma_print i a : forma_print None (llamar falla i a) = true.
Proof.
  unfold llamar. destruct (falla i) as [[k e]|]; [|apply descargar_forma_print].
  apply (forma_fallar_en _ _ None). apply descargar_forma_print.
Qed.

Lemma trabajo_forma_print i a : forma_print None (trabajo falla i a) = true.
Proof. apply forma_atrapar_de; [done..|apply llamar_forma_print]. Qed.

Lemma tarea_forma_print a i : forma_print None (tarea falla a i) = true.
Proof. apply forma_app; [apply llamar_forma_print|done]. Qed.

Lemma modo_secuencial_forma_print : forma_print None (modo_secuencial falla) = true.
Proof.
  rewrite modo_secuencial_eq. apply forma_app; [done|].
  apply forma_print_flat_map; [|done].
  intros p. apply forma_app; [apply llamar_forma_print|done].
Qed.

Lemma extra_forma_print a t c d d' x :
  ejec a t c d = Some (d', x) → forma_print None x = true.
Proof.
  intros H.
  destruct (ejecutar_extra _ _ _ _ _ _ _ H) as [->|(i & f & q & -> & Hq & Ha & -> & ->)];
    [done|].
  apply forma_app; [apply trabajo_forma_print|done].
Qed.

Definition sim_reglas_print : reglas ejec := {|
  simple := sim_simple;
  protegida := sim_protegida_print;
  peso := sim_peso;
  potencial := sim_potencial;
  simple_ok := simple_ok (reglas := sim_reglas falla);
  extra_forma := extra_forma_print;
  extra_obrero := extra_obrero (reglas := sim_reglas falla);
  extra_sin_raise := extra_sin_raise (reglas := sim_reglas falla);
  peso_ok := peso_ok (reglas := sim_reglas falla)
|}.

Lemma inicial_disciplina_print md e con :
  disciplina (R := sim_reglas_print) ejec (inicial falla md e con).
Proof.
  split; [|by intros l t Hl].
  intros t h Hh. exists None. split; [|done]. destruct md.
  - destruct t as [|t]; simpl in Hh; [|done]. injection Hh as <-.
    apply modo_secuencial_forma_print.
  - destruct t as [|t]; simpl in Hh.
    + by injection Hh as <-.
    + apply list_elem_of_lookup_2, hilos_tareas_en in Hh as (a & i & ->).
      apply tarea_forma_print.
  - destruct t as [|t]; simpl in Hh.
    + by injection Hh as <-.
    + apply list_elem_of_lookup_2, list_elem_of_In in Hh. simpl in Hh.
      repeat (destruct Hh as [<-|Hh]; [done|]). done.
Qed.

Lemma disciplina_print_plan md e con ds (m : mundo_t) :
  ejecutar_plan ejec ds (inicial falla md e con) = Some m →
  disciplina (R := sim_reglas_print) ejec m.
Proof.
  intros Hp.
  eapply (plan_inv ejec (disciplina (R := sim_reglas_print) ejec));
    [|apply inicial_disciplina_print|done].
  intros t c m1 m2. apply (@disciplina_paso _ _ ejec sim_reglas_print t c m1 m2).
Qed.

End ConFallos.

End SimuladorImpresion.
(** ** The three short programs: what they print *)

Module DemosSalida.
Import Maquina Pasos Reglas Teoria Cantidades Generico Orden Informe.
Import SimuladorReglas SimuladorRes SimuladorFinal.
Import Demos.

#[local] Instance demo_linea_eq_dec : EqDecision linea.
Proof. solve_decision. Defined.

(** A line without the number that random.randint gave. *)
Definition borrar (l : linea) : linea :=
  match l with
  | LRespuesta n _ => LRespuesta n 0
  | LCompletada n _ => LCompletada n 0
  | _ => l
  end.

(** The line that an action prints, its time left out. *)
Definition linea_de (a : accion) : list linea :=
  match a with
  | Print l => [borrar l]
  | Azar _ _ => []
  | PrintRespuesta n => [LRespuesta n 0]
  | PrintCompletada n => [LCompletada n 0]
  end.

Lemma imprime_ley a t c d d' x :
  ejecutar a t c d = Some (d', x) →
  x = [] ∧ map borrar (consola d') = map borrar (consola d) ++ linea_de a.
Proof.
  intros He. destruct a; injection He as <- <-; simpl;
    rewrite ?map_app, ?app_nil_r; done.
Qed.

(** The lines of the three programs, in the order of their code. *)
Definition calculo_lineas : list linea :=
  flat_map (λ k, [LCalculando k; LResultado (k * k)]) (seq 1 3)
  ++ [LTexto fin_calculo].

Definition api_lineas : list linea :=
  flat_map (λ n, [LConsultando n; LRespuesta n 0]) servicios.

Definition descargas_lineas : list linea :=
  flat_map (λ n, [LIniciando n; LCompletada n 0]) archivos
  ++ [LTexto fin_descargas].

(** *** Every line is printed once *)

Section Peso.
Local Open Scope Z_scope.
Variable g : linea → Z.

Definition va_con (a : accion) : Z := suma_de g (linea_de a).
Definition vd_con (d : estado) : Z := suma_de g (map borrar (consola d)).

Lemma suma_de_mas (l1 l2 : list linea) :
  suma_de g (l1 ++ l2) = suma_de g l1 + suma_de g l2.
Proof. induction l1 as [|x l1 IH]; simpl; [done|]. rewrite IH. lia. Qed.

Lemma consola_ley a t c d d' x :
  ejecutar a t c d = Some (d', x) →
  vd_con d' + valor_codigo va_con x = vd_con d + va_con a.
Proof.
  intros He. destruct (imprime_ley _ _ _ _ _ _ He) as [-> Hc].
  unfold vd_con, va_con. rewrite Hc, suma_de_mas. simpl. lia.
Qed.

Lemma consola_valor ds (m0 m : mundo accion estado) :
  seguro ejecutar m0 → ejecutar_plan ejecutar ds m0 = Some m →
  valor va_con vd_con m = valor va_con vd_con m0.
Proof.
  intros Hseg Hp. revert Hp.
  apply (plan_inv ejecutar
           (λ m, seguro ejecutar m
                 ∧ valor va_con vd_con m = valor va_con vd_con m0)).
  - intros t c m1 m2 [Hs Hv] Hp. split; [by eapply seguro_paso|].
    rewrite <- Hv. apply (valor_conservado ejecutar va_con vd_con t c m1 m2 Hs Hp).
    intros h a r d' x _ _ _ He. by eapply consola_ley.
  - done.
Qed.

End Peso.

Lemma consola_completa E ds (m0 m : mundo accion estado) :
  estable_sano ejecutar m0 →
  (∀ g, valor (va_con g) (vd_con g) m0 = suma_de g E) →
  ejecutar_plan ejecutar ds m0 = Some m → codigo_salida m = Some 0 →
  map borrar (consola (datos m)) ≡ₚ E.
Proof.
  intros Hs0 Hini Hp Hs.
  pose proof (estable_sano_plan _ _ _ _ Hs0 Hp) as [(Hd & Hq & Hm) _].
  destruct (salida_cero m Hs) as (_ & h0 & H0 & Hc0 & He0).
  pose proof (fin_quieto _ h0 Hq H0 Hc0 He0) as Hv.
  apply suma_de_permutacion. intros g.
  pose proof (consola_valor g ds m0 m (estable_sano_seguro _ _ Hs0) Hp) as Hval.
  rewrite Hini in Hval. unfold valor in Hval.
  rewrite valor_hilos_vacio in Hval by done. unfold vd_con in Hval. lia.
Qed.

(** The lines of the console are the expected ones when none of these
    shows a time. *)
Lemma sin_tiempos (con E : list linea) :
  map borrar con ≡ₚ E → Forall (λ l, ∀ l', borrar l' = l → l' = l) E →
  con ≡ₚ E.
Proof.
  intros Hperm HE.
  assert (Hid : map borrar con = con); [|by rewrite <- Hid].
  rewrite <- (map_id con) at 2. apply map_ext_in. intros l Hin.
  rewrite Forall_forall in HE. symmetry. apply (HE (borrar l)); [|done].
  rewrite <- Hperm. apply list_elem_of_fmap. exists l. split; [done|].
  by apply list_elem_of_In.
Qed.

(** *** The lines of one worker, in order *)

(** The lines of calcular(k), and those of the worker named [n]. *)
Definition del_numero (k : nat) (l : linea) : bool :=
  match l with
  | LCalculando k' => bool_decide (k' = k)
  | LResultado q => bool_decide (q = k * k)
  | _ => false
  end.

Definition del_nombre (n : string) (l : linea) : bool :=
  match l with
  | LConsultando n' | LRespuesta n' _ | LIniciando n' | LCompletada n' _ =>
      bool_decide (n' = n)
  | _ => false
  end.

Section Obrero.
Variable sel : linea → bool.

Definition lineas_del (con : list linea) : list linea :=
  List.filter sel (map borrar con).

Definition emite (a : accion) : list linea := List.filter sel (linea_de a).

Lemma emite_ley a t c d d' x :
  ejecutar a t c d = Some (d', x) →
  x = [] ∧ lineas_del (consola d') = lineas_del (consola d) ++ emite a.
Proof.
  intros He. destruct (imprime_ley _ _ _ _ _ _ He) as [-> Hc].
  split; [done|]. unfold lineas_del, emite. by rewrite Hc, List.filter_app.
Qed.

Definition en_su_orden (E0 : list linea) (m : mundo accion estado) : Prop :=
  en_fila (lineas_del ∘ consola) emite [] E0 m.

Lemma en_su_orden_plan E0 ds (m0 m : mundo accion estado) :
  seguro ejecutar m0 → en_su_orden E0 m0 →
  ejecutar_plan ejecutar ds m0 = Some m → en_su_orden E0 m.
Proof.
  intros Hseg Hinv Hp.
  eapply (en_fila_plan ejecutar (lineas_del ∘ consola) emite); try done.
  intros a t c d d' x. apply emite_ley.
Qed.

End Obrero.

(** *** The time that a worker reports *)

Section Tiempos.
Variables lo hi : nat.
Hypothesis Hlohi : lo ≤ hi.

Definition en_rango (l : linea) : bool :=
  match l with
  | LRespuesta _ t | LCompletada _ t => bool_decide (lo ≤ t ≤ hi)
  | _ => true
  end.

(** The actions of the program: randint is called with [lo] and [hi],
    and no plain print shows a time out of range. *)
Definition propia (a : accion) : bool :=
  match a with
  | Azar l h => bool_decide (l = lo ∧ h = hi)
  | Print l => en_rango l
  | _ => true
  end.

(** The code calls randint before it prints a time. *)
Fixpoint prepara (c : codigo_t) : bool :=
  match c with
  | [] => true
  | Dato (Azar _ _) :: _ => true
  | Dato (PrintRespuesta _) :: _ | Dato (PrintCompletada _) :: _ => false
  | Raise _ :: _ => true
  | _ :: r => prepara r
  end.

Definition tiempos (m : mundo accion estado) : Prop :=
  forallb en_rango (consola (datos m)) = true
  ∧ ∀ u hu, hilos m !! u = Some hu →
      solo propia (codigo hu) = true
      ∧ (prepara (codigo hu) = true
         ∨ ∃ v, tiempo (datos m) !! u = Some v ∧ lo ≤ v ≤ hi).

Lemma tiempos_paso t c (m m' : mundo accion estado) :
  tiempos m → paso ejecutar t c m = Some m' → tiempos m'.
Proof.
  intros [Hcon Hth] Hp.
  apply paso_resumen in Hp
    as (h & i & r & h' & Hh & Hi & Hc & Hh' & Hlen & Hrest & Hcasos).
  destruct (Hth t h Hh) as [Hsolo Hprep]. rewrite Hc in Hsolo, Hprep.
  apply solo_cabeza in Hsolo as [Hsi Hsr].
  assert (Hotros : ∀ u hu', u ≠ t → hilos m' !! u = Some hu' →
            solo propia (codigo hu') = true
            ∧ (prepara (codigo hu') = true
               ∨ ∃ v, tiempo (datos m) !! u = Some v ∧ lo ≤ v ≤ hi)).
  { intros u hu' Hu Hl. destruct (Hrest u hu' Hu Hl) as (hu & Hl0 & -> & _).
    by apply Hth. }
  destruct Hcasos as [(a & x & -> & He & ->)|(Hnd & Hdat & [[-> Hnr]|[e ->]])].
  - pose proof (Hsi a eq_refl) as Ha.
    pose proof (demos_sin_extra _ _ _ _ _ _ He) as ->. cbn [app] in Hh'.
    unfold tiempos.
    destruct a as [l|l0 h0|n|n]; simpl in He, Ha; injection He as Hd;
      rewrite <- Hd; simpl.
    + split; [by rewrite forallb_app, Hcon; simpl; rewrite Ha|].
      intros u hu' Hl. destruct (decide (u = t)) as [->|Hu]; [|by apply Hotros].
      assert (hu' = sigue h r) as -> by congruence. split; [done|].
      destruct Hprep as [Hpr|?]; [by left|by right].
    + apply bool_decide_eq_true in Ha as [-> ->]. split; [done|].
      intros u hu' Hl. destruct (decide (u = t)) as [->|Hu].
      * assert (hu' = sigue h r) as -> by congruence. split; [done|]. right.
        exists (lo + c `mod` (hi - lo + 1)). rewrite lookup_insert_eq.
        split; [done|].
        pose proof (Nat.mod_upper_bound c (hi - lo + 1)). lia.
      * rewrite lookup_insert_ne by done. by apply Hotros.
    + destruct Hprep as [?|(v & Hv & Hr)]; [done|]. rewrite Hv. simpl. split.
      * rewrite forallb_app, Hcon. simpl. by rewrite bool_decide_eq_true_2.
      * intros u hu' Hl. destruct (decide (u = t)) as [->|Hu]; [|by apply Hotros].
        assert (hu' = sigue h r) as -> by congruence. split; [done|]. right. eauto.
    + destruct Hprep as [?|(v & Hv & Hr)]; [done|]. rewrite Hv. simpl. split.
      * rewrite forallb_app, Hcon. simpl. by rewrite bool_decide_eq_true_2.
      * intros u hu' Hl. destruct (decide (u = t)) as [->|Hu]; [|by apply Hotros].
        assert (hu' = sigue h r) as -> by congruence. split; [done|]. right. eauto.
  - unfold tiempos. rewrite Hdat. split; [done|].
    intros u hu' Hl. destruct (decide (u = t)) as [->|Hu]; [|by apply Hotros].
    assert (hu' = sigue h r) as -> by congruence. split; [done|].
    destruct Hprep as [Hpr|?]; [|by right]. left.
    destruct i; try done; [by destruct (Hnd a)|by destruct (Hnr e)].
  - unfold tiempos. rewrite Hdat. split; [done|].
    intros u hu' Hl. destruct (decide (u = t)) as [->|Hu]; [|by apply Hotros].
    assert (hu' = falla_con h e) as -> by congruence. split; [done|]. by left.
Qed.

Lemma tiempos_plan ds (m0 m : mundo accion estado) :
  tiempos m0 → ejecutar_plan ejecutar ds m0 = Some m → tiempos m.
Proof.
  intros H0 Hp. revert H0 Hp. apply (plan_inv ejecutar tiempos).
  intros t c m1 m2. apply tiempos_paso.
Qed.

Lemma tiempos_inicial main obreros entrada :
  forallb (λ c, solo propia c && prepara c) (main :: obreros) = true →
  tiempos (mundo_de main obreros entrada).
Proof.
  intros Hf. split; [done|]. intros u hu Hl.
  rewrite forallb_forall in Hf.
  assert (Hin : In (codigo hu) (main :: obreros)).
  { destruct u as [|u]; simpl in Hl.
    - injection Hl as <-. by left.
    - right. apply list_lookup_fmap_Some in Hl as (c & -> & Hc).
      apply list_elem_of_In. by eapply list_elem_of_lookup_2. }
  apply Hf in Hin. apply andb_true_iff in Hin as [? ?]. split; [done|by left].
Qed.

End Tiempos.

(** *** The last line *)

Section Final.
Variable fin : string.

Definition es_fin (a : accion) : bool :=
  match a with Print (LTexto s) => bool_decide (s = fin) | _ => false end.

Definition antes_fin (a : accion) : bool := negb (es_fin a).

Definition ninguna (a : accion) : bool := false.

Lemma ultima_linea main obreros entrada ds (m : mundo accion estado) :
  estable ejecutar (mundo_de main obreros entrada) →
  forma_marca es_fin antes_fin ninguna main = true → tiene es_fin main = true →
  forallb (solo antes_fin) obreros = true →
  ejecutar_plan ejecutar ds (mundo_de main obreros entrada) = Some m →
  codigo_salida m = Some 0 →
  last (consola (datos m)) = Some (LTexto fin).
Proof.
  intros Hest Hfm Htm Hw Hp Hs.
  apply (fase_final ejecutar es_fin antes_fin ninguna (λ _, True)
           (λ d, last (consola d) = Some (LTexto fin)))
    with (ds := ds) (m0 := mundo_de main obreros entrada); try done.
  - by intros a t c d d' x ->%demos_sin_extra.
  - intros a Ha. by apply negb_true_iff in Ha.
  - intros a c d d' x He Ha _. destruct a as [[s| | | | | |]| | |]; try done.
    apply bool_decide_eq_true in Ha as ->. injection He as <- <-. simpl.
    by rewrite last_snoc.
  - eapply fase_inicial; try done.
    intros h (c & -> & Hc)%list_elem_of_fmap. cbn [codigo].
    rewrite forallb_forall in Hw. by apply Hw, list_elem_of_In.
Qed.

End Final.

(** *** The first states *)

Local Ltac lo_lleva t :=
  eapply (en_fila_inicial _ _ _ _ _ t); [reflexivity|reflexivity|by vm_compute|];
  intros [|[|[|[|u]]]] hu Hu Hl; try done; simpl in Hl;
  injection Hl as <-; by vm_compute.

Lemma calculo_orden_inicial k entrada :
  1 ≤ k ≤ 3 →
  en_su_orden (del_numero k) [LCalculando k; LResultado (k * k)] (calculo entrada).
Proof.
  intros Hk. destruct k as [|[|[|[|k]]]]; try lia.
  - lo_lleva 1.
  - lo_lleva 2.
  - lo_lleva 3.
Qed.

Lemma api_orden_inicial n entrada :
  n ∈ servicios →
  en_su_orden (del_nombre n) [LConsultando n; LRespuesta n 0] (api entrada).
Proof.
  intros Hn. apply list_elem_of_In in Hn. simpl in Hn.
  destruct Hn as [<-|[<-|[<-|[]]]].
  - lo_lleva 1.
  - lo_lleva 2.
  - lo_lleva 3.
Qed.

Lemma descargas_orden_inicial n entrada :
  n ∈ archivos →
  en_su_orden (del_nombre n) [LIniciando n; LCompletada n 0] (descargas entrada).
Proof.
  intros Hn. apply list_elem_of_In in Hn. simpl in Hn.
  destruct Hn as [<-|[<-|[<-|[]]]].
  - lo_lleva 1.
  - lo_lleva 2.
  - lo_lleva 3.
Qed.

Lemma calculo_valor_inicial g entrada :
  valor (va_con g) (vd_con g) (calculo entrada) = suma_de g calculo_lineas.
Proof. cbv -[Z.add]. lia. Qed.

Lemma api_valor_inicial g entrada :
  valor (va_con g) (vd_con g) (api entrada) = suma_de g api_lineas.
Proof. cbv -[Z.add]. lia. Qed.

Lemma descargas_valor_inicial g entrada :
  valor (va_con g) (vd_con g) (descargas entrada) = suma_de g descargas_lineas.
Proof. cbv -[Z.add]. lia. Qed.

End DemosSalida.
(** ** Further properties of the programs *)

(** X1.  In the race, when main has returned, the rows of the final table
    are the arrival list numbered from 1: every runner stands in it once,
    the labels of the rows are the three medals and then "  4." and
    "  5.", and a runner stands at the rank that was printed when it
    arrived. *)
Theorem tabla_de_la_carrera entrada ds m :
  ejecutar_plan Corredores.ejecutar ds (Corredores.programa entrada) = Some m →
  codigo_salida m = Some 0 →
  CorredoresTabla.filas (Corredores.consola (datos m))
  = CorredoresTabla.enumerados (Corredores.llegadas (datos m))
  ∧ map snd (CorredoresTabla.filas (Corredores.consola (datos m)))
    ≡ₚ Corredores.CORREDORES
  ∧ map (λ p, CorredoresTabla.medalla p.1)
      (CorredoresTabla.filas (Corredores.consola (datos m)))
    = ["🥇"; "🥈"; "🥉"; "  4."; "  5."]
  ∧ ∀ n k, (n, k) ∈ Corredores.puestos (Corredores.consola (datos m))
           ↔ (k, n) ∈ CorredoresTabla.filas (Corredores.consola (datos m)).
Proof.
  intros Hp Hs.
  pose proof (CorredoresTabla.tabla_final entrada ds m Hp Hs) as Hf.
  pose proof (Corredores.corredores_puestos entrada ds m Hp Hs) as Hpu.
  assert (Hperm : Corredores.llegadas (datos m) ≡ₚ Corredores.CORREDORES).
  { destruct entrada as [|s ss].
    - destruct (Generico.sin_entrada_salida m); [|done].
      eapply Generico.sin_entrada_plan; [|done]. apply Corredores.corredores_sin_entrada.
    - destruct (Generico.salida_cero m Hs) as [Hfin _].
      by apply (Corredores.corredores_llegadas ds s ss m). }
  rewrite Hf, Hpu. split_and!.
  - done.
  - by rewrite CorredoresTabla.enumerados_snd.
  - rewrite <- (map_map fst CorredoresTabla.medalla).
    rewrite CorredoresTabla.enumerados_fst.
    apply Permutation_length in Hperm. rewrite Hperm. by vm_compute.
  - intros n k. unfold Corredores.esperados, CorredoresTabla.enumerados.
    rewrite !elem_of_lookup_imap. split.
    + intros (i & x & [= -> ->] & Hl). eauto.
    + intros (i & x & [= -> ->] & Hl). eauto.
Qed.

Lemma tabla_de_la_carrera_witness :
  match ejecutar_plan Corredores.ejecutar
          (planificar Corredores.ejecutar (primero_listo Corredores.ejecutar 6 1) 500
             (Corredores.programa [EmptyString]))
          (Corredores.programa [EmptyString]) with
  | Some m =>
      codigo_salida m = Some 0
      ∧ map snd (CorredoresTabla.filas (Corredores.consola (datos m)))
        ≡ₚ Corredores.CORREDORES
  | None => False
  end.
Proof.
  assert (Hs : match ejecutar_plan Corredores.ejecutar
                       (planificar Corredores.ejecutar
                          (primero_listo Corredores.ejecutar 6 1) 500
                          (Corredores.programa [EmptyString]))
                       (Corredores.programa [EmptyString]) with
               | Some m => codigo_salida m
               | None => None
               end = Some 0) by (vm_compute; reflexivity).
  destruct (ejecutar_plan Corredores.ejecutar
              (planificar Corredores.ejecutar (primero_listo Corredores.ejecutar 6 1) 500
                 (Corredores.programa [EmptyString]))
              (Corredores.programa [EmptyString])) as [m|] eqn:Hp; [|discriminate Hs].
  split; [exact Hs|].
  exact (proj1 (proj2 (tabla_de_la_carrera _ _ m Hp Hs))).
Defined.

(** X2.  The label of a row of the final table: a position without a
    medal (0, or 4 and above) gets its number, as "  <i>.", and two
    different positions never get the same label. *)
Theorem medallas_distintas :
  (∀ i, i = 0 ∨ 4 ≤ i →
     CorredoresTabla.medalla i = "  " +:+ pretty i +:+ ".")
  ∧ (∀ i j, CorredoresTabla.medalla i = CorredoresTabla.medalla j → i = j).
Proof.
  split.
  - apply CorredoresTabla.medalla_sin.
  - apply CorredoresTabla.medalla_inj.
Qed.

Lemma medallas_distintas_witness :
  CorredoresTabla.medalla 4 = "  " +:+ pretty 4 +:+ ".".
Proof. exact (proj1 medallas_distintas 4 (or_intror (le_n 4))). Defined.

(** A run of the hospital for the examples: the lowest thread that can
    step goes first. *)
Definition turno_ejemplo : list decision :=
  planificar Hospital.ejecutar (primero_listo Hospital.ejecutar 6 1) 500
    (Hospital.programa [EmptyString]).

(** X3.  In the hospital, when main has returned, the register holds
    every attention of the shift exactly once: each of the 4 doctors with
    each of its patients 1, 2, 3, that is 12 entries. *)
Theorem registro_del_turno entrada ds m :
  ejecutar_plan Hospital.ejecutar ds (Hospital.programa entrada) = Some m →
  codigo_salida m = Some 0 →
  Hospital.registro (datos m) ≡ₚ HospitalRegistro.atenciones
  ∧ length (Hospital.registro (datos m))
    = length Hospital.MEDICOS * Hospital.PACIENTES_POR_MEDICO
  ∧ NoDup (Hospital.registro (datos m)).
Proof.
  intros Hp Hs.
  assert (Hperm : Hospital.registro (datos m) ≡ₚ HospitalRegistro.atenciones).
  { destruct entrada as [|s ss].
    - destruct (Generico.sin_entrada_salida m); [|done].
      eapply Generico.sin_entrada_plan; [|done]. apply Hospital.hospital_sin_entrada.
    - destruct (Generico.salida_cero m Hs) as [Hfin _].
      by apply (HospitalRegistro.hospital_registro ds s ss m). }
  split_and!; [done| |].
  - apply Permutation_length in Hperm. by rewrite Hperm.
  - rewrite Hperm. apply (bool_decide_unpack (NoDup HospitalRegistro.atenciones)).
    by vm_compute.
Qed.

Lemma registro_del_turno_witness :
  match ejecutar_plan Hospital.ejecutar turno_ejemplo
          (Hospital.programa [EmptyString]) with
  | Some m =>
      codigo_salida m = Some 0 ∧ length (Hospital.registro (datos m)) = 12
  | None => False
  end.
Proof.
  assert (Hs : match ejecutar_plan Hospital.ejecutar turno_ejemplo
                       (Hospital.programa [EmptyString]) with
               | Some m => codigo_salida m
               | None => None
               end = Some 0) by (vm_compute; reflexivity).
  destruct (ejecutar_plan Hospital.ejecutar turno_ejemplo
              (Hospital.programa [EmptyString])) as [m|] eqn:Hp; [|discriminate Hs].
  split; [exact Hs|].
  exact (proj1 (proj2 (registro_del_turno _ _ m Hp Hs))).
Defined.

(** X4.  In the hospital, when main has returned, the lines "atendió
    paciente ... Total atendidos hoy: k" stand on the console in the
    order of the register, and the totals they show are 1, 2, ..., 12:
    no total is skipped or shown twice. *)
Theorem total_en_marcha entrada ds m :
  ejecutar_plan Hospital.ejecutar ds (Hospital.programa entrada) = Some m →
  codigo_salida m = Some 0 →
  HospitalRegistro.atendidos (Hospital.consola (datos m))
  = HospitalRegistro.numeradas (Hospital.registro (datos m))
  ∧ map snd (HospitalRegistro.atendidos (Hospital.consola (datos m))) = seq 1 12
  ∧ map fst (HospitalRegistro.atendidos (Hospital.consola (datos m)))
    = Hospital.registro (datos m).
Proof.
  intros Hp Hs.
  pose proof (HospitalRegistro.hospital_atendidos entrada ds m Hp Hs) as Hat.
  assert (Hlen : length (Hospital.registro (datos m)) = 12).
  { destruct entrada as [|s ss].
    - destruct (Generico.sin_entrada_salida m); [|done].
      eapply Generico.sin_entrada_plan; [|done]. apply Hospital.hospital_sin_entrada.
    - destruct (Generico.salida_cero m Hs) as [Hfin _].
      by rewrite (HospitalRegistro.hospital_registro ds s ss m Hp Hfin). }
  rewrite Hat. split_and!; [done| |].
  - by rewrite HospitalRegistro.numeradas_totales, Hlen.
  - apply HospitalRegistro.numeradas_atenciones.
Qed.

Lemma total_en_marcha_witness :
  match ejecutar_plan Hospital.ejecutar turno_ejemplo
          (Hospital.programa [EmptyString]) with
  | Some m =>
      codigo_salida m = Some 0
      ∧ map snd (HospitalRegistro.atendidos (Hospital.consola (datos m))) = seq 1 12
  | None => False
  end.
Proof.
  assert (Hs : match ejecutar_plan Hospital.ejecutar turno_ejemplo
                       (Hospital.programa [EmptyString]) with
               | Some m => codigo_salida m
               | None => None
               end = Some 0) by (vm_compute; reflexivity).
  destruct (ejecutar_plan Hospital.ejecutar turno_ejemplo
              (Hospital.programa [EmptyString])) as [m|] eqn:Hp; [|discriminate Hs].
  split; [exact Hs|].
  exact (proj1 (proj2 (total_en_marcha _ _ m Hp Hs))).
Defined.

(** X5.  In the hospital, when main has returned, the summary has shown
    one total, 12, the number of entries of the register, and the state
    of the event once, as active: the event is never shown as off. *)
Theorem resumen_del_turno entrada ds m :
  ejecutar_plan Hospital.ejecutar ds (Hospital.programa entrada) = Some m →
  codigo_salida m = Some 0 →
  HospitalRegistro.totales (Hospital.consola (datos m))
  = [length (Hospital.registro (datos m))]
  ∧ HospitalRegistro.totales (Hospital.consola (datos m)) = [12]
  ∧ HospitalRegistro.estados (Hospital.consola (datos m)) = [true].
Proof.
  intros Hp Hs.
  pose proof (HospitalRegistro.total_final entrada ds m Hp Hs) as Ht.
  pose proof (HospitalRegistro.estado_final entrada ds m Hp Hs) as He.
  destruct entrada as [|s ss].
  - destruct (Generico.sin_entrada_salida m); [|done].
    eapply Generico.sin_entrada_plan; [|done]. apply Hospital.hospital_sin_entrada.
  - destruct (Generico.salida_cero m Hs) as [Hfin _].
    rewrite Ht, He. split_and!; [done| |].
    + by rewrite (HospitalRegistro.hospital_registro ds s ss m Hp Hfin).
    + by rewrite (Hospital.hospital_abierto_final s ss ds m Hp Hfin).
Qed.

Lemma resumen_del_turno_witness :
  match ejecutar_plan Hospital.ejecutar turno_ejemplo
          (Hospital.programa [EmptyString]) with
  | Some m =>
      codigo_salida m = Some 0
      ∧ HospitalRegistro.estados (Hospital.consola (datos m)) = [true]
  | None => False
  end.
Proof.
  assert (Hs : match ejecutar_plan Hospital.ejecutar turno_ejemplo
                       (Hospital.programa [EmptyString]) with
               | Some m => codigo_salida m
               | None => None
               end = Some 0) by (vm_compute; reflexivity).
  destruct (ejecutar_plan Hospital.ejecutar turno_ejemplo
              (Hospital.programa [EmptyString])) as [m|] eqn:Hp; [|discriminate Hs].
  split; [exact Hs|].
  exact (proj2 (proj2 (resumen_del_turno _ _ m Hp Hs))).
Defined.

(** X6.  Without failures, in every mode and for every schedule, when the
    mode function has returned the console shows one summary more than
    before, under the title of the mode, with 6 files and 2025 MB: the
    numbers that the counters of [estadisticas] hold. *)
Theorem resumen_de_un_modo md e con ds m :
  ejecutar_plan (ejecutar sin_fallos) ds (inicial sin_fallos md e con) = Some m →
  codigo_salida m = Some 0 →
  SimuladorResumen.resumenes (consola (datos m))
  = SimuladorResumen.resumenes con ++ [(SimuladorResumen.titulo md, 6, 2025%Z)]
  ∧ SimuladorResumen.resumenes (consola (datos m))
    = SimuladorResumen.resumenes con
      ++ [(SimuladorResumen.titulo md,
           Z.to_nat (archivos_completados (estadisticas (datos m))),
           total_mb (estadisticas (datos m)))].
Proof.
  intros Hp Hs.
  destruct (Generico.salida_cero m Hs) as [Hfin _].
  pose proof (SimuladorResumen.resumen_sin_fallos md e con ds m Hp Hs) as Hr.
  pose proof (resultados_de_modo md e con ds m Hp Hfin) as Hperm.
  rewrite (contadores_de_modo md e con ds m Hp Hfin).
  rewrite Hr, (SimuladorResumen.suma_tamanos_perm _ _ Hperm).
  apply Permutation_length in Hperm. rewrite Hperm. by vm_compute.
Qed.

Lemma resumen_de_un_modo_witness :
  match ejecutar_plan (ejecutar sin_fallos)
          (plan_de sin_fallos (inicial sin_fallos Pool (Estadisticas 0 0) []))
          (inicial sin_fallos Pool (Estadisticas 0 0) []) with
  | Some m =>
      codigo_salida m = Some 0
      ∧ SimuladorResumen.resumenes (consola (datos m))
        = [("POOL (3 workers)", 6, 2025%Z)]
  | None => False
  end.
Proof.
  assert (Hs : match ejecutar_plan (ejecutar sin_fallos)
                       (plan_de sin_fallos (inicial sin_fallos Pool (Estadisticas 0 0) []))
                       (inicial sin_fallos Pool (Estadisticas 0 0) []) with
               | Some m => codigo_salida m
               | None => None
               end = Some 0) by (vm_compute; reflexivity).
  destruct (ejecutar_plan (ejecutar sin_fallos)
              (plan_de sin_fallos (inicial sin_fallos Pool (Estadisticas 0 0) []))
              (inicial sin_fallos Pool (Estadisticas 0 0) [])) as [m|] eqn:Hp;
    [|discriminate Hs].
  split; [exact Hs|].
  exact (proj1 (resumen_de_un_modo Pool _ [] _ m Hp Hs)).
Defined.

(** X7.  In modo_threads and in modo_pool, whatever task raises, when the
    mode function has returned the console shows one summary more than
    before, and it counts the tasks that did not raise: their number and
    the sum of their sizes. *)
Theorem resumen_cuenta_exitos falla md e con ds m :
  md ≠ Secuencial →
  ejecutar_plan (ejecutar falla) ds (inicial falla md e con) = Some m →
  codigo_salida m = Some 0 →
  SimuladorResumen.resumenes (consola (datos m))
  = SimuladorResumen.resumenes con
    ++ [(SimuladorResumen.titulo md, length (frutos falla),
         suma_tamanos (frutos falla))].
Proof.
  intros Hmd Hp Hs.
  destruct (Generico.salida_cero m Hs) as [Hfin _].
  pose proof (resultados_de_frutos falla md e con ds m Hmd Hp Hfin) as Hperm.
  rewrite (SimuladorResumen.resumen_con_fallos falla md e con ds m Hmd Hp Hs).
  rewrite (SimuladorResumen.suma_tamanos_perm _ _ Hperm).
  apply Permutation_length in Hperm. by rewrite Hperm.
Qed.

Lemma resumen_cuenta_exitos_witness :
  match ejecutar_plan (ejecutar falla_ejemplo)
          (plan_de falla_ejemplo (inicial falla_ejemplo Threads (Estadisticas 0 0) []))
          (inicial falla_ejemplo Threads (Estadisticas 0 0) []) with
  | Some m =>
      codigo_salida m = Some 0
      ∧ SimuladorResumen.resumenes (consola (datos m))
        = [("CONCURRENTE (threads)", 5, 1715%Z)]
  | None => False
  end.
Proof.
  assert (Hs : match ejecutar_plan (ejecutar falla_ejemplo)
                       (plan_de falla_ejemplo
                          (inicial falla_ejemplo Threads (Estadisticas 0 0) []))
                       (inicial falla_ejemplo Threads (Estadisticas 0 0) []) with
               | Some m => codigo_salida m
               | None => None
               end = Some 0) by (vm_compute; reflexivity).
  destruct (ejecutar_plan (ejecutar falla_ejemplo)
              (plan_de falla_ejemplo (inicial falla_ejemplo Threads (Estadisticas 0 0) []))
              (inicial falla_ejemplo Threads (Estadisticas 0 0) [])) as [m|] eqn:Hp;
    [|discriminate Hs].
  assert (Hmd : Threads ≠ Secuencial) by discriminate.
  split; [exact Hs|].
  exact (resumen_cuenta_exitos falla_ejemplo Threads _ [] _ m Hmd Hp Hs).
Defined.

(** X8.  In modo_secuencial, when task [i] is the first that raises: every
    run is bounded; a run that can go on no more has ended the main
    thread; the process never ends with status 0 and no summary is ever
    printed; and once the main thread is over the status is 1 and
    [resultados] holds the records of the [i] files before the failed one,
    in the order of ARCHIVOS. *)
Theorem secuencial_con_fallo falla i e con ds m :
  SimuladorSecuencial.primer_fallo falla i →
  ejecutar_plan (ejecutar falla) ds (inicial falla Secuencial e con) = Some m →
  length ds ≤ medida (ejecutar falla) (inicial falla Secuencial e con)
  ∧ codigo_salida m ≠ Some 0
  ∧ SimuladorResumen.resumenes (consola (datos m)) = SimuladorResumen.resumenes con
  ∧ (atascado (ejecutar falla) m → fin_principal m = true)
  ∧ (fin_principal m = true →
       codigo_salida m = Some 1
       ∧ resultados (datos m) = map resultado_de (take i ARCHIVOS)).
Proof.
  intros Hpf Hp.
  pose proof (SimuladorSecuencial.sec_inv_plan falla e con i ds m Hpf Hp) as Hinv.
  assert (Hseg : seguro (ejecutar falla) m).
  { eapply seguro_plan; [|done]. apply inicial_seguro. }
  split_and!.
  - pose proof (plan_acotado (ejecutar falla) ds _ m Hp). lia.
  - intros Hs. destruct (Generico.salida_cero m Hs) as [Hfin _].
    destruct (SimuladorSecuencial.sec_inv_fin falla _ con m Hseg Hinv Hfin) as [H1 _].
    congruence.
  - by destruct Hinv as (h0 & _ & _ & _ & _ & _ & _ & Hres).
  - intros Hat. by eapply SimuladorSecuencial.sec_inv_atascado.
  - intros Hfin. by eapply SimuladorSecuencial.sec_inv_fin.
Qed.

Lemma secuencial_con_fallo_witness :
  SimuladorSecuencial.primer_fallo falla_ejemplo 2
  ∧ match ejecutar_plan (ejecutar falla_ejemplo)
            (plan_de falla_ejemplo
               (inicial falla_ejemplo Secuencial (Estadisticas 0 0) []))
            (inicial falla_ejemplo Secuencial (Estadisticas 0 0) []) with
    | Some m =>
        fin_principal m = true
        ∧ resultados (datos m) = map resultado_de (take 2 ARCHIVOS)
    | None => False
    end.
Proof.
  assert (Hpf : SimuladorSecuencial.primer_fallo falla_ejemplo 2).
  { split_and!; [vm_compute; lia|by eexists|].
    intros j Hj. destruct j as [|[|j]]; [done|done|lia]. }
  split; [exact Hpf|].
  assert (Hf : match ejecutar_plan (ejecutar falla_ejemplo)
                       (plan_de falla_ejemplo
                          (inicial falla_ejemplo Secuencial (Estadisticas 0 0) []))
                       (inicial falla_ejemplo Secuencial (Estadisticas 0 0) []) with
               | Some m => fin_principal m
               | None => false
               end = true) by (vm_compute; reflexivity).
  destruct (ejecutar_plan (ejecutar falla_ejemplo)
              (plan_de falla_ejemplo
                 (inicial falla_ejemplo Secuencial (Estadisticas 0 0) []))
              (inicial falla_ejemplo Secuencial (Estadisticas 0 0) [])) as [m|] eqn:Hp;
    [|discriminate Hf].
  split; [exact Hf|].
  exact (proj2 (proj2 (proj2 (proj2 (proj2
           (secuencial_con_fallo falla_ejemplo 2 _ [] _ m Hpf Hp)))) Hf)).
Defined.

(** X9.  The lines that descargar_archivo prints for one file (start,
    progress 1 to 20, completion) reach the console in the order of its
    code, whatever the other threads print in between: in modo_threads
    and modo_pool with any failure, and in modo_secuencial when no task
    raises, at every moment the lines of the file on the console are what
    was there before followed by a prefix of the 22 expected lines, so
    that no progress line is repeated, skipped or shown out of order; and
    when the mode function has returned and the task did not raise, all 22
    are there. *)
Theorem lineas_en_orden falla md i a e con ds m :
  ARCHIVOS !! i = Some a →
  (md = Secuencial → ∀ j, falla j = None) →
  ejecutar_plan (ejecutar falla) ds (inicial falla md e con) = Some m →
  (∃ pre suf,
     SimuladorOrden.lineas_de (nombre a) (consola (datos m))
     = SimuladorOrden.lineas_de (nombre a) con ++ pre
     ∧ pre ++ suf = SimuladorOrden.esperadas a i)
  ∧ (codigo_salida m = Some 0 → fracasa falla i = None →
     SimuladorOrden.lineas_de (nombre a) (consola (datos m))
     = SimuladorOrden.lineas_de (nombre a) con ++ SimuladorOrden.esperadas a i).
Proof.
  intros Ha Hsec Hp.
  assert (Hini : ∃ E0,
            SimuladorOrden.ordenado falla i a
              (SimuladorOrden.lineas_de (nombre a) con) E0 (inicial falla md e con)
            ∧ (∃ suf, E0 ++ suf = SimuladorOrden.esperadas a i)
            ∧ (fracasa falla i = None → E0 = SimuladorOrden.esperadas a i)).
  { destruct md.
    - exists (SimuladorOrden.esperadas a i). split_and!; [|by exists []; apply app_nil_r|done].
      apply SimuladorOrden.ordenado_secuencial; auto.
    - exists (SimuladorOrden.impreso falla i a). split_and!.
      + by apply SimuladorOrden.ordenado_threads.
      + apply SimuladorOrden.impreso_prefijo.
      + apply SimuladorOrden.impreso_completo.
    - exists (SimuladorOrden.impreso falla i a). split_and!.
      + by apply SimuladorOrden.ordenado_pool.
      + apply SimuladorOrden.impreso_prefijo.
      + apply SimuladorOrden.impreso_completo. }
  destruct Hini as (E0 & Hini & Hpre & Hcomp).
  pose proof (inicial_seguro falla md e con) as Hseg0.
  pose proof (SimuladorOrden.ordenado_plan falla i a Ha _ _ ds _ m Hseg0 Hini Hp) as Hinv.
  split.
  - by apply (SimuladorOrden.ordenado_prefijo falla i a _ E0).
  - intros Hs Hf.
    assert (H : seguro (ejecutar falla) m ∧ futuros_ok falla m).
    { revert Hp.
      apply (plan_inv (ejecutar falla)
               (λ m, seguro (ejecutar falla) m ∧ futuros_ok falla m)).
      - intros t c m1 m2 [H1 H2] Hpaso. split; [by eapply seguro_paso|].
        by eapply futuros_paso.
      - split; [done|apply inicial_futuros]. }
    destruct H as [Hseg Hfut].
    rewrite <- (Hcomp Hf).
    by apply (SimuladorOrden.ordenado_final falla i a Ha).
Qed.

Lemma lineas_en_orden_witness :
  match ejecutar_plan (ejecutar falla_ejemplo)
          (plan_de falla_ejemplo (inicial falla_ejemplo Pool (Estadisticas 0 0) []))
          (inicial falla_ejemplo Pool (Estadisticas 0 0) []) with
  | Some m =>
      codigo_salida m = Some 0
      ∧ SimuladorOrden.lineas_de "video_4K.mp4" (consola (datos m))
        = SimuladorOrden.esperadas (Archivo "video_4K.mp4" 850) 0
  | None => False
  end.
Proof.
  assert (Hs : match ejecutar_plan (ejecutar falla_ejemplo)
                       (plan_de falla_ejemplo
                          (inicial falla_ejemplo Pool (Estadisticas 0 0) []))
                       (inicial falla_ejemplo Pool (Estadisticas 0 0) []) with
               | Some m => codigo_salida m
               | None => None
               end = Some 0) by (vm_compute; reflexivity).
  destruct (ejecutar_plan (ejecutar falla_ejemplo)
              (plan_de falla_ejemplo (inicial falla_ejemplo Pool (Estadisticas 0 0) []))
              (inicial falla_ejemplo Pool (Estadisticas 0 0) [])) as [m|] eqn:Hp;
    [|discriminate Hs].
  split; [exact Hs|].
  assert (Hmd : Pool = Secuencial → ∀ j, falla_ejemplo j = None) by discriminate.
  exact (proj2 (lineas_en_orden falla_ejemplo Pool 0 (Archivo "video_4K.mp4" 850)
                  _ [] _ m eq_refl Hmd Hp) Hs eq_refl).
Defined.

(** X10.  In every mode and whatever task fails, in every reachable state
    a thread that is about to print a line of descargar_archivo (start,
    progress or completion) holds [print_lock], and not [stats_lock]; so
    two threads are never both about to print such a line: the lines of
    the downloads do not interleave. *)
Theorem impresion_bajo_cerrojo falla md e con ds m t h l r :
  ejecutar_plan (ejecutar falla) ds (inicial falla md e con) = Some m →
  hilos m !! t = Some h → codigo h = Dato (Print l) :: r →
  SimuladorImpresion.es_linea_descarga l = true →
  cerrojos m !! print_lock = Some t
  ∧ cerrojos m !! stats_lock ≠ Some t
  ∧ ∀ u hu l' r', hilos m !! u = Some hu → codigo hu = Dato (Print l') :: r' →
      SimuladorImpresion.es_linea_descarga l' = true → u = t.
Proof.
  intros Hp Hh Hc Hl.
  pose proof (SimuladorImpresion.disciplina_print_plan falla md e con ds m Hp) as Hd.
  assert (Hpr : ∀ l0, SimuladorImpresion.es_linea_descarga l0 = true →
            protegida (reglas := SimuladorImpresion.sim_reglas_print falla) (Print l0)
            = Some print_lock).
  { intros l0 H0. simpl. by rewrite H0. }
  pose proof (cabeza_protegida (ejecutar falla)
                (R := SimuladorImpresion.sim_reglas_print falla) m t h (Print l) r
                print_lock Hd Hh Hc (Hpr l Hl)) as Hmio.
  split_and!.
  - done.
  - intros Hst.
    by pose proof (Exclusion.un_cerrojo (ejecutar falla)
                     (R := SimuladorImpresion.sim_reglas_print falla)
                     m t _ _ Hd Hmio Hst).
  - intros u hu l' r' Hu Hcu Hl'.
    by apply (Exclusion.exclusion (ejecutar falla)
                (R := SimuladorImpresion.sim_reglas_print falla)
                m u t hu h (Print l') (Print l) r' r print_lock Hd Hu Hcu (Hpr l' Hl')
                Hh Hc (Hpr l Hl)).
Qed.

Lemma impresion_bajo_cerrojo_witness :
  match ejecutar_plan (ejecutar falla_ejemplo)
          (take 9 (plan_de falla_ejemplo (inicial falla_ejemplo Threads (Estadisticas 0 0) [])))
          (inicial falla_ejemplo Threads (Estadisticas 0 0) []) with
  | Some m =>
      match hilos m !! 1 with
      | Some h =>
          codigo h = Dato (Print (LInicio 94 "video_4K.mp4" 850)) :: tail (codigo h)
          ∧ cerrojos m !! print_lock = Some 1
      | None => False
      end
  | None => False
  end.
Proof.
  destruct (ejecutar_plan (ejecutar falla_ejemplo)
              (take 9 (plan_de falla_ejemplo
                         (inicial falla_ejemplo Threads (Estadisticas 0 0) [])))
              (inicial falla_ejemplo Threads (Estadisticas 0 0) [])) as [m|] eqn:Hp.
  - destruct (hilos m !! 1) as [h|] eqn:Hh.
    + assert (Hc : codigo h
                   = Dato (Print (LInicio 94 "video_4K.mp4" 850)) :: tail (codigo h)).
      { revert Hp Hh. vm_compute. intros [= <-] [= <-]. reflexivity. }
      split; [exact Hc|].
      exact (proj1 (impresion_bajo_cerrojo falla_ejemplo Threads _ _ _ m 1 h
                      (LInicio 94 "video_4K.mp4" 850) (tail (codigo h))
                      Hp Hh Hc eq_refl)).
    + revert Hp Hh. vm_compute. intros [= <-]. discriminate.
  - revert Hp. vm_compute. discriminate.
Defined.

(** X11.  No program enters a [with] block inside another.  In every
    reachable state of the download simulator (any mode, any failure), of
    the race and of the hospital, a thread holds at most one lock, and a
    thread that is about to take a lock holds none: no thread waits for a
    lock while it keeps another one from the others. *)
Theorem un_cerrojo_a_la_vez :
  (∀ falla md e con ds m,
     ejecutar_plan (ejecutar falla) ds (inicial falla md e con) = Some m →
     Exclusion.sin_anidar m)
  ∧ (∀ entrada ds m,
       ejecutar_plan Corredores.ejecutar ds (Corredores.programa entrada) = Some m →
       Exclusion.sin_anidar m)
  ∧ (∀ entrada ds m,
       ejecutar_plan Hospital.ejecutar ds (Hospital.programa entrada) = Some m →
       Exclusion.sin_anidar m).
Proof.
  split_and!.
  - intros falla md e con ds m Hp.
    apply (Exclusion.disciplina_sin_anidar (ejecutar falla)).
    by destruct (seguro_plan _ _ _ _ (inicial_seguro falla md e con) Hp) as [[Hd _] _].
  - intros entrada ds m Hp.
    apply (Exclusion.disciplina_sin_anidar Corredores.ejecutar).
    by destruct (estable_plan _ _ _ _ (Corredores.corredores_estable entrada) Hp)
      as [Hd _].
  - intros entrada ds m Hp.
    apply (Exclusion.disciplina_sin_anidar Hospital.ejecutar).
    by destruct (estable_plan _ _ _ _ (Hospital.hospital_estable entrada) Hp)
      as [Hd _].
Qed.

Lemma un_cerrojo_a_la_vez_witness :
  match ejecutar_plan (ejecutar falla_ejemplo)
          (take 9 (plan_de falla_ejemplo (inicial falla_ejemplo Threads (Estadisticas 0 0) [])))
          (inicial falla_ejemplo Threads (Estadisticas 0 0) []) with
  | Some m => cerrojos m !! print_lock = Some 1 ∧ Exclusion.sin_anidar m
  | None => False
  end.
Proof.
  destruct (ejecutar_plan (ejecutar falla_ejemplo)
              (take 9 (plan_de falla_ejemplo
                         (inicial falla_ejemplo Threads (Estadisticas 0 0) [])))
              (inicial falla_ejemplo Threads (Estadisticas 0 0) [])) as [m|] eqn:Hp.
  - split.
    + revert Hp. vm_compute. intros [= <-]. reflexivity.
    + exact (proj1 un_cerrojo_a_la_vez falla_ejemplo Threads _ _ _ m Hp).
  - revert Hp. vm_compute. discriminate.
Defined.

(** X12.  In the hospital each doctor works in the order of its code,
    whatever the other threads do: at every moment the entries of the
    doctor in [registro] are a prefix of its patients 1, 2, 3, and its
    lines on the console a prefix of: waiting, signal received, patient 1,
    patient 2, patient 3, shift completed; when main has returned both are
    complete. *)
Theorem consultas_en_orden k med s ss ds m :
  Hospital.MEDICOS !! k = Some med →
  ejecutar_plan Hospital.ejecutar ds (Hospital.programa (s :: ss)) = Some m →
  (∃ suf, HospitalOrden.del_medico (Hospital.nombre med) (Hospital.registro (datos m))
          ++ suf = HospitalOrden.consultas (Hospital.nombre med))
  ∧ (∃ suf, HospitalOrden.eventos (Hospital.nombre med) (Hospital.consola (datos m))
            ++ suf = HospitalOrden.jornada)
  ∧ (codigo_salida m = Some 0 →
     HospitalOrden.del_medico (Hospital.nombre med) (Hospital.registro (datos m))
     = HospitalOrden.consultas (Hospital.nombre med)
     ∧ HospitalOrden.eventos (Hospital.nombre med) (Hospital.consola (datos m))
       = HospitalOrden.jornada).
Proof.
  intros Hk Hp.
  destruct (HospitalOrden.medico_ordenado_plan k med s ss ds m Hk Hp) as [Hr Hc].
  split_and!.
  - destruct (Orden.en_fila_prefijo _ _ _ _ _ Hr) as (pre & suf & Hsal & Hpre).
    exists suf. simpl in Hsal. by rewrite Hsal.
  - destruct (Orden.en_fila_prefijo _ _ _ _ _ Hc) as (pre & suf & Hsal & Hpre).
    exists suf. simpl in Hsal. by rewrite Hsal.
  - intros Hs.
    pose proof (estable_sano_plan _ _ _ _ (Hospital.hospital_sano s ss) Hp)
      as [(Hd & Hq & Hm) _].
    destruct (Generico.salida_cero m Hs) as (_ & h0 & H0 & Hc0 & He0).
    pose proof (fin_quieto _ h0 Hq H0 Hc0 He0) as Hv.
    split.
    + by apply (Orden.en_fila_final _ _ _ _ m Hr Hv).
    + by apply (Orden.en_fila_final _ _ _ _ m Hc Hv).
Qed.

Lemma consultas_en_orden_witness :
  match ejecutar_plan Hospital.ejecutar turno_ejemplo
          (Hospital.programa [EmptyString]) with
  | Some m =>
      codigo_salida m = Some 0
      ∧ HospitalOrden.del_medico "Dr. Ramírez" (Hospital.registro (datos m))
        = [("Dr. Ramírez", 1); ("Dr. Ramírez", 2); ("Dr. Ramírez", 3)]
  | None => False
  end.
Proof.
  assert (Hs : match ejecutar_plan Hospital.ejecutar turno_ejemplo
                       (Hospital.programa [EmptyString]) with
               | Some m => codigo_salida m
               | None => None
               end = Some 0) by (vm_compute; reflexivity).
  destruct (ejecutar_plan Hospital.ejecutar turno_ejemplo
              (Hospital.programa [EmptyString])) as [m|] eqn:Hp; [|discriminate Hs].
  split; [exact Hs|].
  exact (proj1 (proj2 (proj2
           (consultas_en_orden 1 (Hospital.Medico "Dr. Ramírez" "Pediatría" "👨‍⚕️")
              _ _ _ m eq_refl Hp)) Hs)).
Defined.

(** X13.  In the race each runner goes in the order of its code, whatever
    the other threads do: at every moment its lines on the console are a
    prefix of: step 1, ..., step 10, arrival, so that no runner arrives
    before its ten steps, and it stands at most once in [llegadas]; when
    main has returned its lines are complete. *)
Theorem carrera_en_orden k n s ss ds m :
  Corredores.CORREDORES !! k = Some n →
  ejecutar_plan Corredores.ejecutar ds (Corredores.programa (s :: ss)) = Some m →
  (∃ suf, CorredoresOrden.eventos n (Corredores.consola (datos m)) ++ suf
          = CorredoresOrden.trayecto)
  ∧ (∃ suf, CorredoresOrden.del_corredor n (Corredores.llegadas (datos m)) ++ suf
            = [n])
  ∧ (codigo_salida m = Some 0 →
     CorredoresOrden.eventos n (Corredores.consola (datos m))
     = CorredoresOrden.trayecto).
Proof.
  intros Hk Hp.
  destruct (CorredoresOrden.corredor_ordenado_plan k n s ss ds m Hk Hp) as [Hc Hl].
  split_and!.
  - destruct (Orden.en_fila_prefijo _ _ _ _ _ Hc) as (pre & suf & Hsal & Hpre).
    exists suf. simpl in Hsal. by rewrite Hsal.
  - destruct (Orden.en_fila_prefijo _ _ _ _ _ Hl) as (pre & suf & Hsal & Hpre).
    exists suf. simpl in Hsal. by rewrite Hsal.
  - intros Hs.
    pose proof (estable_sano_plan _ _ _ _ (Corredores.corredores_sano s ss) Hp)
      as [(Hd & Hq & Hm) _].
    destruct (Generico.salida_cero m Hs) as (_ & h0 & H0 & Hc0 & He0).
    pose proof (fin_quieto _ h0 Hq H0 Hc0 He0) as Hv.
    by apply (Orden.en_fila_final _ _ _ _ m Hc Hv).
Qed.

Lemma carrera_en_orden_witness :
  match ejecutar_plan Corredores.ejecutar
          (planificar Corredores.ejecutar (primero_listo Corredores.ejecutar 6 1) 500
             (Corredores.programa [EmptyString]))
          (Corredores.programa [EmptyString]) with
  | Some m =>
      codigo_salida m = Some 0
      ∧ CorredoresOrden.eventos "🧍 Marta" (Corredores.consola (datos m))
        = CorredoresOrden.trayecto
  | None => False
  end.
Proof.
  assert (Hs : match ejecutar_plan Corredores.ejecutar
                       (planificar Corredores.ejecutar
                          (primero_listo Corredores.ejecutar 6 1) 500
                          (Corredores.programa [EmptyString]))
                       (Corredores.programa [EmptyString]) with
               | Some m => codigo_salida m
               | None => None
               end = Some 0) by (vm_compute; reflexivity).
  destruct (ejecutar_plan Corredores.ejecutar
              (planificar Corredores.ejecutar (primero_listo Corredores.ejecutar 6 1) 500
                 (Corredores.programa [EmptyString]))
              (Corredores.programa [EmptyString])) as [m|] eqn:Hp; [|discriminate Hs].
  split; [exact Hs|].
  exact (proj2 (proj2 (carrera_en_orden 2 "🧍 Marta" _ _ _ m eq_refl Hp)) Hs).
Defined.

(** Runs of the three short programs for the examples. *)
Definition plan_demo (m0 : mundo Demos.accion Demos.estado) : list decision :=
  planificar Demos.ejecutar (primero_listo Demos.ejecutar 4 7) 100 m0.

(** X14.  Calculo_intensivo: at every moment the lines of calcular(k) on
    the console are a prefix of "Calculando cuadrado de k",
    "Resultado: k*k"; when the program is over the console holds these two
    lines of each of the processes 1, 2, 3 and the final message, each
    once, and the final message is the last line. *)
Theorem salida_del_calculo entrada ds m :
  ejecutar_plan Demos.ejecutar ds (Demos.calculo entrada) = Some m →
  (∀ k, 1 ≤ k ≤ 3 →
     ∃ suf, DemosSalida.lineas_del (DemosSalida.del_numero k)
              (Demos.consola (datos m)) ++ suf
            = [Demos.LCalculando k; Demos.LResultado (k * k)])
  ∧ (codigo_salida m = Some 0 →
     Demos.consola (datos m) ≡ₚ DemosSalida.calculo_lineas
     ∧ last (Demos.consola (datos m)) = Some (Demos.LTexto Demos.fin_calculo)).
Proof.
  intros Hp. pose proof (Demos.calculo_sano entrada) as Hs0.
  pose proof (estable_sano_seguro _ _ Hs0) as Hseg. split.
  - intros k Hk.
    pose proof (DemosSalida.en_su_orden_plan _ _ ds _ m Hseg
                  (DemosSalida.calculo_orden_inicial k entrada Hk) Hp) as Hinv.
    destruct (Orden.en_fila_prefijo _ _ _ _ _ Hinv) as (pre & suf & Hsal & Hpre).
    exists suf. simpl in Hsal. by rewrite Hsal.
  - intros Hs. split.
    + apply DemosSalida.sin_tiempos.
      * apply (DemosSalida.consola_completa _ ds (Demos.calculo entrada)); try done.
        intros g. apply DemosSalida.calculo_valor_inicial.
      * repeat constructor; by intros [].
    + eapply (DemosSalida.ultima_linea Demos.fin_calculo);
        [by destruct Hs0|by vm_compute|by vm_compute|by vm_compute|done|done].
Qed.

Lemma salida_del_calculo_witness :
  match ejecutar_plan Demos.ejecutar (plan_demo (Demos.calculo []))
          (Demos.calculo []) with
  | Some m =>
      codigo_salida m = Some 0
      ∧ last (Demos.consola (datos m)) = Some (Demos.LTexto Demos.fin_calculo)
  | None => False
  end.
Proof.
  assert (Hs : match ejecutar_plan Demos.ejecutar (plan_demo (Demos.calculo []))
                       (Demos.calculo []) with
               | Some m => codigo_salida m
               | None => None
               end = Some 0) by (vm_compute; reflexivity).
  destruct (ejecutar_plan Demos.ejecutar (plan_demo (Demos.calculo []))
              (Demos.calculo [])) as [m|] eqn:Hp; [|discriminate Hs].
  split; [exact Hs|].
  exact (proj2 (proj2 (salida_del_calculo _ _ m Hp) Hs)).
Defined.

(** X15.  Simulador_API: every time that a line "Respuesta recibida"
    shows is between 1 and 4, the bounds of random.randint; at every
    moment the lines of a service on the console are a prefix of
    "Consultando API", "Respuesta recibida"; and when the program is over
    the console holds these two lines of each of the three services, once
    each, and nothing else. *)
Theorem salida_de_la_api entrada ds m :
  ejecutar_plan Demos.ejecutar ds (Demos.api entrada) = Some m →
  forallb (DemosSalida.en_rango 1 4) (Demos.consola (datos m)) = true
  ∧ (∀ n, n ∈ Demos.servicios →
       ∃ suf, DemosSalida.lineas_del (DemosSalida.del_nombre n)
                (Demos.consola (datos m)) ++ suf
              = [Demos.LConsultando n; Demos.LRespuesta n 0])
  ∧ (codigo_salida m = Some 0 →
     map DemosSalida.borrar (Demos.consola (datos m)) ≡ₚ DemosSalida.api_lineas).
Proof.
  intros Hp. pose proof (Demos.api_sano entrada) as Hs0.
  pose proof (estable_sano_seguro _ _ Hs0) as Hseg. split_and!.
  - assert (Hlh : 1 ≤ 4) by lia.
    apply (DemosSalida.tiempos_plan 1 4 Hlh ds (Demos.api entrada) m); [|done].
    by apply DemosSalida.tiempos_inicial.
  - intros n Hn.
    pose proof (DemosSalida.en_su_orden_plan _ _ ds _ m Hseg
                  (DemosSalida.api_orden_inicial n entrada Hn) Hp) as Hinv.
    destruct (Orden.en_fila_prefijo _ _ _ _ _ Hinv) as (pre & suf & Hsal & Hpre).
    exists suf. simpl in Hsal. by rewrite Hsal.
  - intros Hs.
    apply (DemosSalida.consola_completa _ ds (Demos.api entrada)); try done.
    intros g. apply DemosSalida.api_valor_inicial.
Qed.

Lemma salida_de_la_api_witness :
  match ejecutar_plan Demos.ejecutar (plan_demo (Demos.api [])) (Demos.api []) with
  | Some m =>
      codigo_salida m = Some 0
      ∧ forallb (DemosSalida.en_rango 1 4) (Demos.consola (datos m)) = true
  | None => False
  end.
Proof.
  assert (Hs : match ejecutar_plan Demos.ejecutar (plan_demo (Demos.api []))
                       (Demos.api []) with
               | Some m => codigo_salida m
               | None => None
               end = Some 0) by (vm_compute; reflexivity).
  destruct (ejecutar_plan Demos.ejecutar (plan_demo (Demos.api []))
              (Demos.api [])) as [m|] eqn:Hp; [|discriminate Hs].
  split; [exact Hs|].
  exact (proj1 (salida_de_la_api _ _ m Hp)).
Defined.

(** X16.  Simulador_descargas_Hilos: every time that a line "Descarga
    completada" shows is between 2 and 5, the bounds of random.randint;
    at every moment the lines of a file on the console are a prefix of
    "Iniciando descarga", "Descarga completada"; and when the program is
    over the console holds these two lines of each of the three files and
    the final message, once each, and the final message is the last
    line. *)
Theorem salida_de_las_descargas entrada ds m :
  ejecutar_plan Demos.ejecutar ds (Demos.descargas entrada) = Some m →
  forallb (DemosSalida.en_rango 2 5) (Demos.consola (datos m)) = true
  ∧ (∀ n, n ∈ Demos.archivos →
       ∃ suf, DemosSalida.lineas_del (DemosSalida.del_nombre n)
                (Demos.consola (datos m)) ++ suf
              = [Demos.LIniciando n; Demos.LCompletada n 0])
  ∧ (codigo_salida m = Some 0 →
     map DemosSalida.borrar (Demos.consola (datos m))
     ≡ₚ DemosSalida.descargas_lineas
     ∧ last (Demos.consola (datos m)) = Some (Demos.LTexto Demos.fin_descargas)).
Proof.
  intros Hp. pose proof (Demos.descargas_sano entrada) as Hs0.
  pose proof (estable_sano_seguro _ _ Hs0) as Hseg. split_and!.
  - assert (Hlh : 2 ≤ 5) by lia.
    apply (DemosSalida.tiempos_plan 2 5 Hlh ds (Demos.descargas entrada) m); [|done].
    by apply DemosSalida.tiempos_inicial.
  - intros n Hn.
    pose proof (DemosSalida.en_su_orden_plan _ _ ds _ m Hseg
                  (DemosSalida.descargas_orden_inicial n entrada Hn) Hp) as Hinv.
    destruct (Orden.en_fila_prefijo _ _ _ _ _ Hinv) as (pre & suf & Hsal & Hpre).
    exists suf. simpl in Hsal. by rewrite Hsal.
  - intros Hs. split.
    + apply (DemosSalida.consola_completa _ ds (Demos.descargas entrada)); try done.
      intros g. apply DemosSalida.descargas_valor_inicial.
    + eapply (DemosSalida.ultima_linea Demos.fin_descargas);
        [by destruct Hs0|by vm_compute|by vm_compute|by vm_compute|done|done].
Qed.

Lemma salida_de_las_descargas_witness :
  match ejecutar_plan Demos.ejecutar (plan_demo (Demos.descargas []))
          (Demos.descargas []) with
  | Some m =>
      codigo_salida m = Some 0
      ∧ last (Demos.consola (datos m)) = Some (Demos.LTexto Demos.fin_descargas)
  | None => False
  end.
Proof.
  assert (Hs : match ejecutar_plan Demos.ejecutar (plan_demo (Demos.descargas []))
                       (Demos.descargas []) with
               | Some m => codigo_salida m
               | None => None
               end = Some 0) by (vm_compute; reflexivity).
  destruct (ejecutar_plan Demos.ejecutar (plan_demo (Demos.descargas []))
              (Demos.descargas [])) as [m|] eqn:Hp; [|discriminate Hs].
  split; [exact Hs|].
  exact (proj2 (proj2 (proj2 (salida_de_las_descargas _ _ m Hp)) Hs)).
Defined.

(** X17.  _color_hilo(hilo_id) = COLORES[hilo_id % len(COLORES)]: the
    index is always in range, so the colour is one of COLORES for every
    thread number; two thread numbers get the same colour exactly when they
    are equal modulo 6, so the six downloads of ARCHIVOS (numbers 0 to 5)
    have six different colours and a seventh would reuse the first. *)
Theorem colores_de_los_hilos :
  (∀ i, COLORES !! (i mod length COLORES) = Some (_color_hilo i))
  ∧ (∀ i j, _color_hilo i = _color_hilo j ↔ i mod 6 = j mod 6)
  ∧ (∀ i j, i < length ARCHIVOS → j < length ARCHIVOS →
       _color_hilo i = _color_hilo j → i = j).
Proof.
  assert (Hmod : ∀ i j, _color_hilo i = _color_hilo j ↔ i mod 6 = j mod 6).
  { intros i j. unfold _color_hilo. change (length COLORES) with 6.
    pose proof (Nat.mod_upper_bound i 6 ltac:(lia)) as Hi.
    pose proof (Nat.mod_upper_bound j 6 ltac:(lia)) as Hj.
    destruct (i mod 6) as [|[|[|[|[|[|a]]]]]]; try lia;
      destruct (j mod 6) as [|[|[|[|[|[|b]]]]]]; try lia; by vm_compute. }
  split_and!.
  - intros i. unfold _color_hilo. change (length COLORES) with 6.
    pose proof (Nat.mod_upper_bound i 6 ltac:(lia)) as Hi.
    destruct (i mod 6) as [|[|[|[|[|[|a]]]]]]; try lia; done.
  - done.
  - intros i j Hi Hj Hc. change (length ARCHIVOS) with 6 in Hi, Hj.
    apply Hmod in Hc. by rewrite !Nat.mod_small in Hc.
Qed.

Lemma colores_de_los_hilos_witness :
  _color_hilo 7 = _color_hilo 1 ∧ COLORES !! (7 mod length COLORES) = Some 92.
Proof.
  split.
  - exact (proj2 (proj1 (proj2 colores_de_los_hilos) 7 1) eq_refl).
  - exact (proj1 colores_de_los_hilos 7).
Defined.

(** X18.  In the hospital the announcement comes first, for every
    schedule and every input: a line that a doctor prints after its
    wait() (signal received, patient attended, shift completed) stands on
    the console after the director's line "¡HOSPITAL ABIERTO!", and the
    event is set only after that line was printed. *)
Theorem anuncio_antes_de_atender entrada ds m :
  ejecutar_plan Hospital.ejecutar ds (Hospital.programa entrada) = Some m →
  (∀ c1 l c2, Hospital.consola (datos m) = c1 ++ l :: c2 →
     HospitalAnuncio.activa l = true → HospitalAnuncio.anuncio ∈ c1)
  ∧ (Hospital.apertura_hospital (datos m) = true →
     HospitalAnuncio.anuncio ∈ Hospital.consola (datos m))
  ∧ HospitalAnuncio.en_regla false (Hospital.consola (datos m)) = true.
Proof.
  intros Hp.
  destruct (HospitalAnuncio.anuncio_primero_plan entrada ds m Hp) as (Hreg & Hab & _).
  split_and!.
  - intros c1 l c2 Hc Hl.
    by destruct (HospitalAnuncio.en_regla_antes false _ c1 l c2 Hreg Hc Hl).
  - intros Ha. specialize (Hab Ha). unfold HospitalAnuncio.anunciado in Hab.
    apply existsb_exists in Hab as (l & Hin & Hl).
    apply bool_decide_eq_true in Hl as ->. by apply list_elem_of_In.
  - done.
Qed.

Lemma anuncio_antes_de_atender_witness :
  match ejecutar_plan Hospital.ejecutar turno_ejemplo
          (Hospital.programa [EmptyString]) with
  | Some m =>
      Hospital.apertura_hospital (datos m) = true
      ∧ HospitalAnuncio.anuncio ∈ Hospital.consola (datos m)
  | None => False
  end.
Proof.
  assert (Ha : match ejecutar_plan Hospital.ejecutar turno_ejemplo
                       (Hospital.programa [EmptyString]) with
               | Some m => Hospital.apertura_hospital (datos m)
               | None => false
               end = true) by (vm_compute; reflexivity).
  destruct (ejecutar_plan Hospital.ejecutar turno_ejemplo
              (Hospital.programa [EmptyString])) as [m|] eqn:Hp; [|discriminate Ha].
  split; [exact Ha|].
  exact (proj1 (proj2 (anuncio_antes_de_atender _ _ m Hp)) Ha).
Defined.

(** X19.  modo_secuencial keeps the order of ARCHIVOS: whatever task
    raises, when the main thread is over [resultados] is exactly the list
    of the records of the files before the first task that raises, in the
    order of ARCHIVOS; when no task raises it is the list of the six
    records, in that order. *)
Theorem secuencial_en_orden falla e con ds m :
  ejecutar_plan (ejecutar falla) ds (inicial falla Secuencial e con) = Some m →
  fin_principal m = true →
  resultados (datos m) = SimuladorSecuencial.previos falla (enumerar ARCHIVOS)
  ∧ ((∀ j, j < length ARCHIVOS → fracasa falla j = None) →
     resultados (datos m) = map resultado_de ARCHIVOS).
Proof.
  intros Hp Hfin.
  pose proof (SimuladorSecuencial.sec_res_fin _ m
                (SimuladorSecuencial.sec_res_plan falla e con ds m Hp) Hfin) as Hr.
  split; [done|]. intros Hn. rewrite Hr.
  apply (SimuladorSecuencial.previos_todos falla 0 ARCHIVOS). exact Hn.
Qed.

Lemma secuencial_en_orden_witness :
  match ejecutar_plan (ejecutar sin_fallos)
          (plan_de sin_fallos (inicial sin_fallos Secuencial (Estadisticas 0 0) []))
          (inicial sin_fallos Secuencial (Estadisticas 0 0) []) with
  | Some m =>
      fin_principal m = true
      ∧ resultados (datos m) = map resultado_de ARCHIVOS
  | None => False
  end.
Proof.
  assert (Hf : match ejecutar_plan (ejecutar sin_fallos)
                       (plan_de sin_fallos
                          (inicial sin_fallos Secuencial (Estadisticas 0 0) []))
                       (inicial sin_fallos Secuencial (Estadisticas 0 0) []) with
               | Some m => fin_principal m
               | None => false
               end = true) by (vm_compute; reflexivity).
  destruct (ejecutar_plan (ejecutar sin_fallos)
              (plan_de sin_fallos (inicial sin_fallos Secuencial (Estadisticas 0 0) []))
              (inicial sin_fallos Secuencial (Estadisticas 0 0) [])) as [m|] eqn:Hp;
    [|discriminate Hf].
  split; [exact Hf|].
  exact (proj2 (secuencial_en_orden sin_fallos _ [] _ m Hp Hf) (λ j _, eq_refl)).
Defined.
